(** * sokol_fetch.h: a shallow embedding of the request engine

    The development follows the native (threaded, POSIX) configuration of
    [sokol_fetch.h]: [_SFETCH_HAS_THREADS] is 1, every channel owns a worker
    thread, and the request handler talks to the local file system.

    Conventions of the embedding:
    - [uint32_t] and [uint64_t] values are [Z], with the wrap-around written
      out through [u32] and [u64] wherever C arithmetic can overflow;
    - C arrays are lists, read with [arr_get] and written with [arr_set];
      an access outside the array is a [MemoryFault];
    - [SOKOL_ASSERT] is [sokol_assert]: with [SOKOL_DEBUG] set a failing
      assertion stops the computation with [AssertFailed], without it the
      assertion is compiled out and the code runs on;
    - code that takes a pointer to a struct and mutates it takes the struct
      and returns the new one (explicit state passing);
    - the platform file functions ([fopen], [ftell], [fread]) are the
      parameter [io] of the request handler. *)

From Stdlib Require Import ZArith Ascii String Lia Bool.
From stdpp Require Import base tactics option list.

Local Open Scope Z_scope.

(** ** Results of fallible code *)

Inductive fault : Type :=
  | AssertFailed   (* a SOKOL_ASSERT was violated (debug builds) *)
  | MemoryFault    (* null dereference, out-of-bounds access, x % 0 *)
  | OutOfFuel.     (* the bound given to a while loop did not suffice *)

Inductive res (A : Type) : Type :=
  | Ok (a : A)
  | Err (e : fault).
Arguments Ok {A} a.
Arguments Err {A} e.

#[global] Instance res_ret : MRet res := fun A a => Ok a.
#[global] Instance res_bind : MBind res := fun A B f m =>
  match m with
  | Ok a => f a
  | Err e => Err e
  end.
#[global] Instance res_fmap : FMap res := fun A B f m =>
  match m with
  | Ok a => Ok (f a)
  | Err e => Err e
  end.

(** ** Machine integers *)

Definition u32 (x : Z) : Z := x mod 2 ^ 32.
Definition u64 (x : Z) : Z := x mod 2 ^ 64.

(** ** Arrays *)

Definition arr_get {A} (a : list A) (i : Z) : res A :=
  if (0 <=? i) && (i <? Z.of_nat (length a)) then
    match a !! Z.to_nat i with
    | Some x => Ok x
    | None => Err MemoryFault
    end
  else Err MemoryFault.

Definition arr_set {A} (a : list A) (i : Z) (x : A) : res (list A) :=
  if (0 <=? i) && (i <? Z.of_nat (length a)) then Ok (<[Z.to_nat i := x]> a)
  else Err MemoryFault.

(** ** Compile-time configuration (lines 1090-1098) *)

Definition SFETCH_MAX_PATH : Z := 1024.
Definition SFETCH_MAX_USERDATA_UINT64 : Z := 16.
Definition SFETCH_MAX_CHANNELS : Z := 16.
Definition _SFETCH_INVALID_LANE : Z := 0xFFFFFFFF.

(** ** Public types (lines 1002-1048) *)

Record sfetch_desc_t : Type := {
  max_requests : Z;
  num_channels : Z;
  num_lanes : Z
}.

Record sfetch_response_t : Type := {
  r_handle : Z;
  r_opened : bool;
  r_fetched : bool;
  r_paused : bool;
  r_finished : bool;
  r_failed : bool;
  r_cancelled : bool;
  r_channel : Z;
  r_lane : Z;
  r_path : string;
  r_user_data : list Z;
  r_content_size : Z;
  r_content_offset : Z;
  r_fetched_size : Z;
  r_buffer_ptr : Z;
  r_buffer_size : Z
}.

(** What user code may do with the engine while it runs inside a response
    callback: the public functions that take a handle. *)
Inductive user_call : Type :=
  | call_bind_buffer (h : Z) (buffer_ptr : Z) (buffer_size : Z)
  | call_unbind_buffer (h : Z)
  | call_cancel (h : Z)
  | call_pause (h : Z)
  | call_continue (h : Z).

(** A response callback is user code: it reads the response and calls back
    into the engine. *)
Definition sfetch_callback_t : Type := sfetch_response_t -> list user_call.

Record sfetch_request_t : Type := {
  q_channel : Z;
  q_path : option string;              (* None is the null pointer *)
  q_callback : option sfetch_callback_t;
  q_buffer_ptr : Z;                    (* an address, 0 is null *)
  q_buffer_size : Z;
  q_user_data_ptr : option (list Z);   (* the bytes behind the pointer *)
  q_user_data_size : Z
}.

(** ** Private types (lines 1158-1309) *)

Record _sfetch_buffer_t : Type := {
  ptr : Z;
  size : Z
}.

(** [FILE*]: [None] is [_SFETCH_INVALID_FILE_HANDLE], [Some p] an open
    stream on the file at path [p]. *)
Definition _sfetch_file_handle_t : Type := option string.

Record _sfetch_item_user_t : Type := {
  pause : bool;
  cont : bool;
  cancel : bool;
  u_content_size : Z;
  u_content_offset : Z;
  u_fetched_size : Z;
  u_finished : bool;
  user_data_size : Z;
  user_data : list Z
}.

Record _sfetch_item_thread_t : Type := {
  t_content_size : Z;
  t_content_offset : Z;
  t_fetched_size : Z;
  t_failed : bool;
  t_finished : bool;
  file_handle : _sfetch_file_handle_t
}.

Inductive _sfetch_state_t : Type :=
  | _SFETCH_STATE_INITIAL
  | _SFETCH_STATE_ALLOCATED
  | _SFETCH_STATE_OPENING
  | _SFETCH_STATE_OPENED
  | _SFETCH_STATE_FETCHING
  | _SFETCH_STATE_FETCHED
  | _SFETCH_STATE_PAUSED
  | _SFETCH_STATE_FAILED.

#[global] Instance _sfetch_state_eq_dec : EqDecision _sfetch_state_t.
Proof. solve_decision. Defined.

Definition state_is (s t : _sfetch_state_t) : bool := bool_decide (s = t).

Record _sfetch_item_t : Type := {
  handle : Z;
  state : _sfetch_state_t;
  channel : Z;
  lane : Z;
  callback : option sfetch_callback_t;
  buffer : _sfetch_buffer_t;
  thread : _sfetch_item_thread_t;
  user : _sfetch_item_user_t;
  path : string
}.

Record _sfetch_pool_t : Type := {
  p_size : Z;
  free_top : Z;
  items : list _sfetch_item_t;
  free_slots : list Z;
  gen_ctrs : list Z;
  p_valid : bool
}.

Record _sfetch_ring_t : Type := {
  head : Z;
  tail : Z;
  num : Z;
  buf : list Z
}.

Record _sfetch_thread_t : Type := {
  stop_requested : bool;
  th_valid : bool
}.

Record _sfetch_channel_t : Type := {
  free_lanes : _sfetch_ring_t;
  user_sent : _sfetch_ring_t;
  user_incoming : _sfetch_ring_t;
  user_outgoing : _sfetch_ring_t;
  thread_incoming : _sfetch_ring_t;
  thread_outgoing : _sfetch_ring_t;
  chn_thread : _sfetch_thread_t;
  c_valid : bool
}.

Record _sfetch_t : Type := {
  setup : bool;
  valid : bool;
  in_callback : bool;
  desc : sfetch_desc_t;
  pool : _sfetch_pool_t;
  chn : list _sfetch_channel_t
}.

(** The platform's file functions, as the request handler uses them
    (lines 1578-1598): whether [fopen] succeeds on a path, what
    [_sfetch_file_size] returns for it, and whether [fread] delivers the
    requested number of bytes at an offset. *)
Record io_provider : Type := {
  io_open : string -> bool;
  io_size : string -> Z;
  io_read : string -> Z -> Z -> bool
}.

(** ** Field updates *)

Definition set_handle (it : _sfetch_item_t) (v : Z) : _sfetch_item_t :=
  {| handle := v; state := state it; channel := channel it; lane := lane it;
     callback := callback it; buffer := buffer it; thread := thread it;
     user := user it; path := path it |}.
Definition set_state (it : _sfetch_item_t) (v : _sfetch_state_t) : _sfetch_item_t :=
  {| handle := handle it; state := v; channel := channel it; lane := lane it;
     callback := callback it; buffer := buffer it; thread := thread it;
     user := user it; path := path it |}.
Definition set_lane (it : _sfetch_item_t) (v : Z) : _sfetch_item_t :=
  {| handle := handle it; state := state it; channel := channel it; lane := v;
     callback := callback it; buffer := buffer it; thread := thread it;
     user := user it; path := path it |}.
Definition set_buffer (it : _sfetch_item_t) (v : _sfetch_buffer_t) : _sfetch_item_t :=
  {| handle := handle it; state := state it; channel := channel it; lane := lane it;
     callback := callback it; buffer := v; thread := thread it;
     user := user it; path := path it |}.
Definition set_thread (it : _sfetch_item_t) (v : _sfetch_item_thread_t) : _sfetch_item_t :=
  {| handle := handle it; state := state it; channel := channel it; lane := lane it;
     callback := callback it; buffer := buffer it; thread := v;
     user := user it; path := path it |}.
Definition set_user (it : _sfetch_item_t) (v : _sfetch_item_user_t) : _sfetch_item_t :=
  {| handle := handle it; state := state it; channel := channel it; lane := lane it;
     callback := callback it; buffer := buffer it; thread := thread it;
     user := v; path := path it |}.

Definition set_pause (u : _sfetch_item_user_t) (v : bool) : _sfetch_item_user_t :=
  {| pause := v; cont := cont u; cancel := cancel u;
     u_content_size := u_content_size u; u_content_offset := u_content_offset u;
     u_fetched_size := u_fetched_size u; u_finished := u_finished u;
     user_data_size := user_data_size u; user_data := user_data u |}.
Definition set_cont (u : _sfetch_item_user_t) (v : bool) : _sfetch_item_user_t :=
  {| pause := pause u; cont := v; cancel := cancel u;
     u_content_size := u_content_size u; u_content_offset := u_content_offset u;
     u_fetched_size := u_fetched_size u; u_finished := u_finished u;
     user_data_size := user_data_size u; user_data := user_data u |}.
Definition set_cancel (u : _sfetch_item_user_t) (v : bool) : _sfetch_item_user_t :=
  {| pause := pause u; cont := cont u; cancel := v;
     u_content_size := u_content_size u; u_content_offset := u_content_offset u;
     u_fetched_size := u_fetched_size u; u_finished := u_finished u;
     user_data_size := user_data_size u; user_data := user_data u |}.
Definition set_u_finished (u : _sfetch_item_user_t) (v : bool) : _sfetch_item_user_t :=
  {| pause := pause u; cont := cont u; cancel := cancel u;
     u_content_size := u_content_size u; u_content_offset := u_content_offset u;
     u_fetched_size := u_fetched_size u; u_finished := v;
     user_data_size := user_data_size u; user_data := user_data u |}.
Definition set_u_transfer (u : _sfetch_item_user_t) (cs co fs : Z) : _sfetch_item_user_t :=
  {| pause := pause u; cont := cont u; cancel := cancel u;
     u_content_size := cs; u_content_offset := co;
     u_fetched_size := fs; u_finished := u_finished u;
     user_data_size := user_data_size u; user_data := user_data u |}.
Definition set_user_data (u : _sfetch_item_user_t) (n : Z) (d : list Z) : _sfetch_item_user_t :=
  {| pause := pause u; cont := cont u; cancel := cancel u;
     u_content_size := u_content_size u; u_content_offset := u_content_offset u;
     u_fetched_size := u_fetched_size u; u_finished := u_finished u;
     user_data_size := n; user_data := d |}.

Definition set_pool (ctx : _sfetch_t) (p : _sfetch_pool_t) : _sfetch_t :=
  {| setup := setup ctx; valid := valid ctx; in_callback := in_callback ctx;
     desc := desc ctx; pool := p; chn := chn ctx |}.
Definition set_chn (ctx : _sfetch_t) (c : list _sfetch_channel_t) : _sfetch_t :=
  {| setup := setup ctx; valid := valid ctx; in_callback := in_callback ctx;
     desc := desc ctx; pool := pool ctx; chn := c |}.
Definition set_in_callback (ctx : _sfetch_t) (b : bool) : _sfetch_t :=
  {| setup := setup ctx; valid := valid ctx; in_callback := b;
     desc := desc ctx; pool := pool ctx; chn := chn ctx |}.
Definition set_items (p : _sfetch_pool_t) (l : list _sfetch_item_t) : _sfetch_pool_t :=
  {| p_size := p_size p; free_top := free_top p; items := l;
     free_slots := free_slots p; gen_ctrs := gen_ctrs p; p_valid := p_valid p |}.

(** ** The implementation *)

Section Impl.

(** One build flag: without [NDEBUG] the header defines [SOKOL_DEBUG] and
    [SOKOL_ASSERT(c)] is [assert(c)] (lines 1103-1111); with [NDEBUG] both
    are gone. *)
Variable SOKOL_DEBUG : bool.
Variable io : io_provider.

Definition sokol_assert (c : bool) : res unit :=
  if SOKOL_DEBUG && negb c then Err AssertFailed else Ok tt.

(** An assertion whose condition is itself a computation: evaluated in debug
    builds only. *)
Definition sokol_assert_res (c : res bool) : res unit :=
  if SOKOL_DEBUG then b ← c; (if b : bool then Ok tt else Err AssertFailed)
  else Ok tt.

(** *** General helpers (lines 1320-1360) *)

Definition _sfetch_def (val def : Z) : Z := if val =? 0 then def else val.

Definition strlen (s : string) : Z := Z.of_nat (String.length s).

(* _sfetch_path_copy / _sfetch_path_make: the copy of a string shorter than
   SFETCH_MAX_PATH is the string, anything else zeroes the buffer *)
Definition _sfetch_path_make (str : option string) : string :=
  match str with
  | Some src => if strlen src <? SFETCH_MAX_PATH then src else EmptyString
  | None => EmptyString
  end.

(* path->buf[0] as a truth value *)
Definition path_first_char (p : string) : bool :=
  match p with
  | EmptyString => false
  | String _ _ => true
  end.

Definition _sfetch_make_id (index gen_ctr : Z) : Z :=
  Z.lor (u32 (Z.shiftl gen_ctr 16)) (Z.land index 0xFFFF).

Definition _sfetch_make_handle (slot_id : Z) : Z := slot_id.

Definition _sfetch_slot_index (slot_id : Z) : Z := Z.land slot_id 0xFFFF.

(** *** The circular queue (lines 1362-1443) *)

Definition _sfetch_ring_wrap (rb : _sfetch_ring_t) (i : Z) : res Z :=
  if num rb =? 0 then Err MemoryFault else Ok (i mod num rb).

Definition _sfetch_ring_init (num_slots : Z) : res _sfetch_ring_t :=
  sokol_assert (0 <? num_slots);;
  let n := u32 (num_slots + 1) in
  mret {| head := 0; tail := 0; num := n; buf := replicate (Z.to_nat n) 0 |}.

Definition _sfetch_ring_full (rb : _sfetch_ring_t) : res bool :=
  w ← _sfetch_ring_wrap rb (u32 (head rb + 1));
  mret (w =? tail rb).

Definition _sfetch_ring_empty (rb : _sfetch_ring_t) : bool :=
  head rb =? tail rb.

Definition _sfetch_ring_count (rb : _sfetch_ring_t) : res Z :=
  let count :=
    if tail rb <=? head rb then head rb - tail rb
    else u32 (u32 (head rb + num rb) - tail rb) in
  sokol_assert (count <? num rb);;
  mret count.

Definition _sfetch_ring_enqueue (rb : _sfetch_ring_t) (slot_id : Z) : res _sfetch_ring_t :=
  sokol_assert_res (negb <$> _sfetch_ring_full rb);;
  sokol_assert (head rb <? num rb);;
  b ← arr_set (buf rb) (head rb) slot_id;
  h ← _sfetch_ring_wrap rb (u32 (head rb + 1));
  mret {| head := h; tail := tail rb; num := num rb; buf := b |}.

Definition _sfetch_ring_dequeue (rb : _sfetch_ring_t) : res (Z * _sfetch_ring_t) :=
  sokol_assert (negb (_sfetch_ring_empty rb));;
  sokol_assert (tail rb <? num rb);;
  slot_id ← arr_get (buf rb) (tail rb);
  t ← _sfetch_ring_wrap rb (u32 (tail rb + 1));
  mret (slot_id, {| head := head rb; tail := t; num := num rb; buf := buf rb |}).

Definition _sfetch_ring_peek (rb : _sfetch_ring_t) (index : Z) : res Z :=
  sokol_assert (negb (_sfetch_ring_empty rb));;
  sokol_assert_res ((fun c => index <? c) <$> _sfetch_ring_count rb);;
  rb_index ← _sfetch_ring_wrap rb (u32 (tail rb + index));
  arr_get (buf rb) rb_index.

(** *** The request pool (lines 1445-1574) *)

(* memset(item, 0, sizeof(_sfetch_item_t)) *)
Definition _sfetch_item_zero : _sfetch_item_t :=
  {| handle := 0; state := _SFETCH_STATE_INITIAL; channel := 0; lane := 0;
     callback := None; buffer := {| ptr := 0; size := 0 |};
     thread := {| t_content_size := 0; t_content_offset := 0;
                  t_fetched_size := 0; t_failed := false; t_finished := false;
                  file_handle := None |};
     user := {| pause := false; cont := false; cancel := false;
                u_content_size := 0; u_content_offset := 0; u_fetched_size := 0;
                u_finished := false; user_data_size := 0;
                user_data := replicate (Z.to_nat (SFETCH_MAX_USERDATA_UINT64 * 8)) 0 |};
     path := EmptyString |}.

(* memcpy(dst, src, n) on byte arrays *)
Definition memcpy (dst src : list Z) (n : Z) : list Z :=
  take (Z.to_nat n) src ++ drop (Z.to_nat n) dst.

Definition _sfetch_item_init (item : _sfetch_item_t) (slot_id : Z)
    (request : sfetch_request_t) : res _sfetch_item_t :=
  sokol_assert (handle item =? 0);;
  sokol_assert (bool_decide (is_Some (q_path request)));;
  let th := thread item in
  let u :=
    match q_user_data_ptr request with
    | Some src =>
        if (0 <? q_user_data_size request)
           && (q_user_data_size request <=? SFETCH_MAX_USERDATA_UINT64 * 8)
        then set_user_data (user item) (q_user_data_size request)
               (memcpy (user_data (user item)) src (q_user_data_size request))
        else user item
    | None => user item
    end in
  mret {| handle := slot_id;
          state := _SFETCH_STATE_INITIAL;
          channel := q_channel request;
          lane := _SFETCH_INVALID_LANE;
          callback := q_callback request;
          buffer := {| ptr := q_buffer_ptr request; size := q_buffer_size request |};
          thread := {| t_content_size := t_content_size th;
                       t_content_offset := t_content_offset th;
                       t_fetched_size := t_fetched_size th;
                       t_failed := t_failed th; t_finished := t_finished th;
                       file_handle := None |};
          user := u;
          path := _sfetch_path_make (q_path request) |}.

Definition _sfetch_item_discard (item : _sfetch_item_t) : res _sfetch_item_t :=
  sokol_assert (negb (handle item =? 0));;
  mret _sfetch_item_zero.

(* for (uint32_t i = pool->size - 1; i >= 1; i--) free_slots[free_top++] = i; *)
Fixpoint _sfetch_pool_init_loop (fuel : nat) (i : Z) (pool : _sfetch_pool_t)
    : res _sfetch_pool_t :=
  match fuel with
  | O => mret pool
  | S fuel' =>
      if 1 <=? i then
        fs ← arr_set (free_slots pool) (free_top pool) i;
        _sfetch_pool_init_loop fuel' (u32 (i - 1))
          {| p_size := p_size pool; free_top := u32 (free_top pool + 1);
             items := items pool; free_slots := fs; gen_ctrs := gen_ctrs pool;
             p_valid := p_valid pool |}
      else mret pool
  end.

Definition _sfetch_pool_init (num_items : Z) : res _sfetch_pool_t :=
  sokol_assert ((0 <? num_items) && (num_items <? 2 ^ 16 - 1));;
  let sz := u32 (num_items + 1) in
  pool ← _sfetch_pool_init_loop (Z.to_nat sz) (u32 (sz - 1))
    {| p_size := sz; free_top := 0;
       items := replicate (Z.to_nat sz) _sfetch_item_zero;
       free_slots := replicate (Z.to_nat num_items) 0;
       gen_ctrs := replicate (Z.to_nat sz) 0;
       p_valid := false |};
  mret {| p_size := p_size pool; free_top := free_top pool; items := items pool;
          free_slots := free_slots pool; gen_ctrs := gen_ctrs pool;
          p_valid := true |}.

Definition _sfetch_pool_item_alloc (pool : _sfetch_pool_t) (request : sfetch_request_t)
    : res (Z * _sfetch_pool_t) :=
  sokol_assert (p_valid pool);;
  if 0 <? free_top pool then
    let top := u32 (free_top pool - 1) in
    slot_index ← arr_get (free_slots pool) top;
    sokol_assert ((0 <? slot_index) && (slot_index <? p_size pool));;
    g ← arr_get (gen_ctrs pool) slot_index;
    let g' := u32 (g + 1) in
    gc ← arr_set (gen_ctrs pool) slot_index g';
    let slot_id := _sfetch_make_id slot_index g' in
    item ← arr_get (items pool) slot_index;
    item' ← _sfetch_item_init item slot_id request;
    its ← arr_set (items pool) slot_index (set_state item' _SFETCH_STATE_ALLOCATED);
    mret (slot_id,
          {| p_size := p_size pool; free_top := top; items := its;
             free_slots := free_slots pool; gen_ctrs := gc;
             p_valid := p_valid pool |})
  else
    (* pool exhausted, return the 'invalid handle' *)
    mret (_sfetch_make_id 0 0, pool).

Definition _sfetch_pool_item_free (pool : _sfetch_pool_t) (slot_id : Z)
    : res _sfetch_pool_t :=
  sokol_assert (p_valid pool);;
  let slot_index := _sfetch_slot_index slot_id in
  sokol_assert ((0 <? slot_index) && (slot_index <? p_size pool));;
  item ← arr_get (items pool) slot_index;
  sokol_assert (handle item =? slot_id);;
  (* debug check against double-free *)
  sokol_assert (forallb (fun s => negb (s =? slot_index))
                  (take (Z.to_nat (free_top pool)) (free_slots pool)));;
  item' ← _sfetch_item_discard item;
  its ← arr_set (items pool) slot_index item';
  fs ← arr_set (free_slots pool) (free_top pool) slot_index;
  let top := u32 (free_top pool + 1) in
  sokol_assert (top <=? p_size pool - 1);;
  mret {| p_size := p_size pool; free_top := top; items := its;
          free_slots := fs; gen_ctrs := gen_ctrs pool; p_valid := p_valid pool |}.

(* return pointer to item by handle without matching id check *)
Definition _sfetch_pool_item_at (pool : _sfetch_pool_t) (slot_id : Z)
    : res _sfetch_item_t :=
  sokol_assert (p_valid pool);;
  let slot_index := _sfetch_slot_index slot_id in
  sokol_assert ((0 <? slot_index) && (slot_index <? p_size pool));;
  arr_get (items pool) slot_index.

(* return pointer to item by handle with matching id check; None is null *)
Definition _sfetch_pool_item_lookup (pool : _sfetch_pool_t) (slot_id : Z)
    : res (option _sfetch_item_t) :=
  sokol_assert (p_valid pool);;
  if negb (slot_id =? 0) then
    item ← _sfetch_pool_item_at pool slot_id;
    if handle item =? slot_id then mret (Some item) else mret None
  else mret None.

(** Writing through the pointer that [_sfetch_pool_item_lookup] returned:
    the item lives in the slot that the id indexes. *)
Definition item_store (pool : _sfetch_pool_t) (slot_id : Z) (item : _sfetch_item_t)
    : res _sfetch_pool_t :=
  its ← arr_set (items pool) (_sfetch_slot_index slot_id) item;
  mret (set_items pool its).

(** Dereferencing a pointer that may be null. *)
Definition deref {A} (p : option A) : res A :=
  match p with
  | Some a => Ok a
  | None => Err MemoryFault
  end.

(** *** Platform wrappers (lines 1578-1598, 1675-1730) *)

Definition _sfetch_file_open (p : string) : _sfetch_file_handle_t :=
  if io_open io p then Some p else None.

Definition _sfetch_file_handle_valid (h : _sfetch_file_handle_t) : bool :=
  bool_decide (is_Some h).

Definition _sfetch_file_size (h : _sfetch_file_handle_t) : res Z :=
  p ← deref h; mret (u64 (io_size io p)).

Definition _sfetch_file_read (h : _sfetch_file_handle_t) (offset num_bytes : Z)
    : res bool :=
  p ← deref h; mret (io_read io p offset num_bytes).

Definition _sfetch_file_close (h : _sfetch_file_handle_t) : res unit :=
  deref h;; mret tt.

(* while (!_sfetch_ring_full(dst) && !_sfetch_ring_empty(src))
       _sfetch_ring_enqueue(dst, _sfetch_ring_dequeue(src));
   the loop of both _sfetch_thread_enqueue_incoming and
   _sfetch_thread_dequeue_outgoing *)
Fixpoint _sfetch_ring_move (fuel : nat) (dst src : _sfetch_ring_t)
    : res (_sfetch_ring_t * _sfetch_ring_t) :=
  full ← _sfetch_ring_full dst;
  if negb full && negb (_sfetch_ring_empty src) then
    match fuel with
    | O => Err OutOfFuel
    | S fuel' =>
        '(slot_id, src') ← _sfetch_ring_dequeue src;
        dst' ← _sfetch_ring_enqueue dst slot_id;
        _sfetch_ring_move fuel' dst' src'
    end
  else mret (dst, src).

(* called from user thread *)
Definition _sfetch_thread_enqueue_incoming (thread : _sfetch_thread_t)
    (incoming src : _sfetch_ring_t) : res (_sfetch_ring_t * _sfetch_ring_t) :=
  sokol_assert (th_valid thread);;
  if negb (_sfetch_ring_empty src) then
    _sfetch_ring_move (Z.to_nat (num src)) incoming src
  else mret (incoming, src).

(* called from thread function; the wait on the condition variable is the
   caller's business: this is the part after the wait *)
Definition _sfetch_thread_dequeue_incoming (thread : _sfetch_thread_t)
    (incoming : _sfetch_ring_t) : res (Z * _sfetch_ring_t) :=
  sokol_assert (th_valid thread);;
  if negb (stop_requested thread) then _sfetch_ring_dequeue incoming
  else mret (0, incoming).

(* called from thread function *)
Definition _sfetch_thread_enqueue_outgoing (thread : _sfetch_thread_t)
    (outgoing : _sfetch_ring_t) (item : Z) : res _sfetch_ring_t :=
  sokol_assert (th_valid thread);;
  sokol_assert (negb (item =? 0));;
  full ← _sfetch_ring_full outgoing;
  if negb full then _sfetch_ring_enqueue outgoing item else mret outgoing.

(* called from user thread *)
Definition _sfetch_thread_dequeue_outgoing (thread : _sfetch_thread_t)
    (outgoing dst : _sfetch_ring_t) : res (_sfetch_ring_t * _sfetch_ring_t) :=
  sokol_assert (th_valid thread);;
  '(dst', outgoing') ← _sfetch_ring_move (Z.to_nat (num outgoing)) dst outgoing;
  mret (outgoing', dst').

(** *** The request handler of the native platforms (lines 1917-1990) *)

Definition mk_thread (cs co fs : Z) (failed finished : bool)
    (fh : _sfetch_file_handle_t) : _sfetch_item_thread_t :=
  {| t_content_size := cs; t_content_offset := co; t_fetched_size := fs;
     t_failed := failed; t_finished := finished; file_handle := fh |}.

(* the OPENING block, lines 1939-1961: the state to go on with, and the
   thread-side data *)
Definition _sfetch_request_handler_opening (p : string)
    (th : _sfetch_item_thread_t) (buffer : _sfetch_buffer_t)
    : res (_sfetch_state_t * _sfetch_item_thread_t) :=
  sokol_assert (negb (_sfetch_file_handle_valid (file_handle th)));;
  sokol_assert (path_first_char p);;
  sokol_assert (t_content_size th =? 0);;
  sokol_assert (t_content_offset th =? 0);;
  sokol_assert (t_fetched_size th =? 0);;
  let fh := _sfetch_file_open p in
  if _sfetch_file_handle_valid fh then
    cs ← _sfetch_file_size fh;
    let th' := mk_thread cs (t_content_offset th) (t_fetched_size th)
                 (t_failed th) (t_finished th) fh in
    (* a buffer was provided upfront: skip OPENED, start fetching *)
    if negb (ptr buffer =? 0) then mret (_SFETCH_STATE_FETCHING, th')
    else mret (_SFETCH_STATE_OPENING, th')
  else
    mret (_SFETCH_STATE_OPENING,
          mk_thread (t_content_size th) (t_content_offset th) (t_fetched_size th)
            true true fh).

(* the FETCHING block, lines 1963-1988 *)
Definition _sfetch_request_handler_fetching (th : _sfetch_item_thread_t)
    (buffer : _sfetch_buffer_t) : res _sfetch_item_thread_t :=
  sokol_assert (_sfetch_file_handle_valid (file_handle th));;
  sokol_assert (t_content_offset th <? t_content_size th);;
  th1 ←
    (if (ptr buffer =? 0) || (size buffer =? 0) then
       mret (mk_thread (t_content_size th) (t_content_offset th)
               (t_fetched_size th) true (t_finished th) (file_handle th))
     else
       let bytes_to_read := u64 (t_content_size th - t_content_offset th) in
       let bytes_to_read :=
         if size buffer <? bytes_to_read then size buffer else bytes_to_read in
       let offset := t_content_offset th in
       ok ← _sfetch_file_read (file_handle th) offset bytes_to_read;
       if ok : bool then
         mret (mk_thread (t_content_size th) (u64 (t_content_offset th + bytes_to_read))
                 bytes_to_read (t_failed th) (t_finished th) (file_handle th))
       else
         mret (mk_thread (t_content_size th) (t_content_offset th)
                 (t_fetched_size th) true (t_finished th) (file_handle th)));
  if t_failed th1 || (t_content_size th1 <=? t_content_offset th1) then
    _sfetch_file_close (file_handle th1);;
    mret (mk_thread (t_content_size th1) (t_content_offset th1)
            (t_fetched_size th1) (t_failed th1) true None)
  else mret th1.

(* what the handler does to the thread-side data of an item it found *)
Definition _sfetch_request_handler_item (item : _sfetch_item_t)
    : res _sfetch_item_thread_t :=
  let st := state item in
  sokol_assert (state_is st _SFETCH_STATE_OPENING
                || state_is st _SFETCH_STATE_FETCHING
                || state_is st _SFETCH_STATE_PAUSED
                || state_is st _SFETCH_STATE_FAILED);;
  let th := thread item in
  if t_failed th then mret th
  else
    '(st, th) ←
      (if state_is st _SFETCH_STATE_OPENING
       then _sfetch_request_handler_opening (path item) th (buffer item)
       else mret (st, th));
    (* may fall through from OPENING if a buffer was provided upfront *)
    if state_is st _SFETCH_STATE_FETCHING
    then _sfetch_request_handler_fetching th (buffer item)
    else mret th (* ignore items in PAUSED or FAILED state *).

Definition _sfetch_request_handler (ctx : _sfetch_t) (slot_id : Z) : res _sfetch_t :=
  oitem ← _sfetch_pool_item_lookup (pool ctx) slot_id;
  match oitem with
  | None => mret ctx
  | Some item =>
      th ← _sfetch_request_handler_item item;
      p ← item_store (pool ctx) slot_id (set_thread item th);
      mret (set_pool ctx p)
  end.

Definition set_thread_queues (c : _sfetch_channel_t) (tin tout : _sfetch_ring_t)
    : _sfetch_channel_t :=
  {| free_lanes := free_lanes c; user_sent := user_sent c;
     user_incoming := user_incoming c; user_outgoing := user_outgoing c;
     thread_incoming := tin; thread_outgoing := tout;
     chn_thread := chn_thread c; c_valid := c_valid c |}.

(** One turn of the loop of [_sfetch_channel_thread_func] (lines 1995-2012)
    on channel [ci]. A worker that was asked to stop, or whose inbox is
    empty (it blocks on the condition variable), leaves everything as it
    is. *)
Definition _sfetch_channel_thread_step (ctx : _sfetch_t) (ci : Z) : res _sfetch_t :=
  c ← arr_get (chn ctx) ci;
  if stop_requested (chn_thread c) || _sfetch_ring_empty (thread_incoming c)
  then mret ctx
  else
    '(slot_id, tin) ← _sfetch_thread_dequeue_incoming (chn_thread c) (thread_incoming c);
    sokol_assert (negb (slot_id =? 0));;
    ctx1 ← _sfetch_request_handler ctx slot_id;
    sokol_assert_res (negb <$> _sfetch_ring_full (thread_outgoing c));;
    tout ← _sfetch_thread_enqueue_outgoing (chn_thread c) (thread_outgoing c) slot_id;
    cs ← arr_set (chn ctx1) ci (set_thread_queues c tin tout);
    mret (set_chn ctx1 cs).

(** *** The IO channel (lines 2169-2375) *)

Definition set_free_lanes (c : _sfetch_channel_t) (r : _sfetch_ring_t) : _sfetch_channel_t :=
  {| free_lanes := r; user_sent := user_sent c;
     user_incoming := user_incoming c; user_outgoing := user_outgoing c;
     thread_incoming := thread_incoming c; thread_outgoing := thread_outgoing c;
     chn_thread := chn_thread c; c_valid := c_valid c |}.
Definition set_user_sent (c : _sfetch_channel_t) (r : _sfetch_ring_t) : _sfetch_channel_t :=
  {| free_lanes := free_lanes c; user_sent := r;
     user_incoming := user_incoming c; user_outgoing := user_outgoing c;
     thread_incoming := thread_incoming c; thread_outgoing := thread_outgoing c;
     chn_thread := chn_thread c; c_valid := c_valid c |}.
Definition set_user_incoming (c : _sfetch_channel_t) (r : _sfetch_ring_t) : _sfetch_channel_t :=
  {| free_lanes := free_lanes c; user_sent := user_sent c;
     user_incoming := r; user_outgoing := user_outgoing c;
     thread_incoming := thread_incoming c; thread_outgoing := thread_outgoing c;
     chn_thread := chn_thread c; c_valid := c_valid c |}.
Definition set_user_outgoing (c : _sfetch_channel_t) (r : _sfetch_ring_t) : _sfetch_channel_t :=
  {| free_lanes := free_lanes c; user_sent := user_sent c;
     user_incoming := user_incoming c; user_outgoing := r;
     thread_incoming := thread_incoming c; thread_outgoing := thread_outgoing c;
     chn_thread := chn_thread c; c_valid := c_valid c |}.

(* for (uint32_t lane = 0; lane < num_lanes; lane++)
       _sfetch_ring_enqueue(&chn->free_lanes, lane); *)
Fixpoint _sfetch_channel_init_lanes (n : nat) (lane : Z) (rb : _sfetch_ring_t)
    : res _sfetch_ring_t :=
  match n with
  | O => mret rb
  | S n' =>
      rb' ← _sfetch_ring_enqueue rb lane;
      _sfetch_channel_init_lanes n' (u32 (lane + 1)) rb'
  end.

(* allocation is assumed to succeed; the worker thread starts at once *)
Definition _sfetch_channel_init (num_items num_lanes : Z) : res _sfetch_channel_t :=
  sokol_assert (0 <? num_items);;
  fl ← _sfetch_ring_init num_lanes;
  fl ← _sfetch_channel_init_lanes (Z.to_nat num_lanes) 0 fl;
  us ← _sfetch_ring_init num_items;
  ui ← _sfetch_ring_init num_lanes;
  uo ← _sfetch_ring_init num_lanes;
  ti ← _sfetch_ring_init num_lanes;
  to ← _sfetch_ring_init num_lanes;
  mret {| free_lanes := fl; user_sent := us; user_incoming := ui;
          user_outgoing := uo; thread_incoming := ti; thread_outgoing := to;
          chn_thread := {| stop_requested := false; th_valid := true |};
          c_valid := true |}.

(* put a request into the channels sent-queue *)
Definition _sfetch_channel_send (c : _sfetch_channel_t) (slot_id : Z)
    : res (bool * _sfetch_channel_t) :=
  sokol_assert (c_valid c);;
  full ← _sfetch_ring_full (user_sent c);
  if negb full then
    r ← _sfetch_ring_enqueue (user_sent c) slot_id;
    mret (true, set_user_sent c r)
  else mret (false, c).

(* lines 2234-2244: move items from sent- to incoming-queue permitting free
   lanes; [n] is num_move *)
Fixpoint _sfetch_channel_dowork_admit (n : nat) (c : _sfetch_channel_t)
    (p : _sfetch_pool_t) : res (_sfetch_channel_t * _sfetch_pool_t) :=
  match n with
  | O => mret (c, p)
  | S n' =>
      '(slot_id, sent) ← _sfetch_ring_dequeue (user_sent c);
      oitem ← _sfetch_pool_item_lookup p slot_id;
      sokol_assert (bool_decide (is_Some oitem));;
      item ← deref oitem;
      '(ln, fl) ← _sfetch_ring_dequeue (free_lanes c);
      p' ← item_store p slot_id (set_lane item ln);
      ui ← _sfetch_ring_enqueue (user_incoming c) slot_id;
      _sfetch_channel_dowork_admit n'
        (set_user_incoming (set_free_lanes (set_user_sent c sent) fl) ui) p'
  end.

(* lines 2255-2279: transfer input params from user- to thread-data, then
   the state switch *)
Definition _sfetch_channel_dowork_prepare (item : _sfetch_item_t) : _sfetch_item_t :=
  let item :=
    if pause (user item)
    then set_user (set_state item _SFETCH_STATE_PAUSED) (set_pause (user item) false)
    else item in
  let item :=
    if cont (user item)
    then set_user
           (if state_is (state item) _SFETCH_STATE_PAUSED
            then set_state item _SFETCH_STATE_FETCHED else item)
           (set_cont (user item) false)
    else item in
  let item :=
    if cancel (user item)
    then set_user (set_state item _SFETCH_STATE_FAILED) (set_u_finished (user item) true)
    else item in
  match state item with
  | _SFETCH_STATE_ALLOCATED => set_state item _SFETCH_STATE_OPENING
  | _SFETCH_STATE_OPENED | _SFETCH_STATE_FETCHED => set_state item _SFETCH_STATE_FETCHING
  | _ => item
  end.

(* lines 2247-2280: prepare incoming items for being moved into the IO
   thread; [n] counts the iterations left, [i] is the loop index *)
Fixpoint _sfetch_channel_dowork_incoming (n : nat) (i : Z) (c : _sfetch_channel_t)
    (p : _sfetch_pool_t) : res _sfetch_pool_t :=
  match n with
  | O => mret p
  | S n' =>
      slot_id ← _sfetch_ring_peek (user_incoming c) i;
      oitem ← _sfetch_pool_item_lookup p slot_id;
      sokol_assert (bool_decide (is_Some oitem));;
      item ← deref oitem;
      sokol_assert (negb (state_is (state item) _SFETCH_STATE_INITIAL));;
      sokol_assert (negb (state_is (state item) _SFETCH_STATE_OPENING));;
      sokol_assert (negb (state_is (state item) _SFETCH_STATE_FETCHING));;
      p' ← item_store p slot_id (_sfetch_channel_dowork_prepare item);
      _sfetch_channel_dowork_incoming n' (u32 (i + 1)) c p'
  end.

(* lines 2309-2342: transfer output params from thread- to user-data, then
   the state transition *)
Definition _sfetch_channel_dowork_transfer (item : _sfetch_item_t) : _sfetch_item_t :=
  let th := thread item in
  let u := set_u_transfer (user item) (t_content_size th) (t_content_offset th)
             (t_fetched_size th) in
  let u := if t_finished th then set_u_finished u true else u in
  let item := set_user item u in
  if t_failed th then set_state item _SFETCH_STATE_FAILED
  else
    match state item with
    | _SFETCH_STATE_OPENING =>
        if 0 <? u_content_offset (user item)
        then set_state item _SFETCH_STATE_FETCHED
        else set_state item _SFETCH_STATE_OPENED
    | _SFETCH_STATE_FETCHING => set_state item _SFETCH_STATE_FETCHED
    | _ => item
    end.

(* lines 2344-2361: the response handed to the callback *)
Definition _sfetch_channel_dowork_response (slot_id : Z) (item : _sfetch_item_t)
    : sfetch_response_t :=
  {| r_handle := slot_id;
     r_opened := state_is (state item) _SFETCH_STATE_OPENED;
     r_fetched := state_is (state item) _SFETCH_STATE_FETCHED;
     r_paused := state_is (state item) _SFETCH_STATE_PAUSED;
     r_finished := u_finished (user item);
     r_failed := state_is (state item) _SFETCH_STATE_FAILED;
     r_cancelled := cancel (user item);
     r_channel := channel item;
     r_lane := lane item;
     r_path := path item;
     r_user_data := user_data (user item);
     r_content_size := u_content_size (user item);
     r_content_offset := u64 (u_content_offset (user item) - u_fetched_size (user item));
     r_fetched_size := u_fetched_size (user item);
     r_buffer_ptr := ptr (buffer item);
     r_buffer_size := size (buffer item) |}.

(** *** Private high-level functions (lines 2377-2410) *)

Definition _sfetch_validate_request (ctx : _sfetch_t) (req : sfetch_request_t) : bool :=
  if SOKOL_DEBUG then
    if num_channels (desc ctx) <=? q_channel req then false
    else match q_path req with
    | None => false
    | Some p =>
    if SFETCH_MAX_PATH - 1 <=? strlen p then false
    else if negb (bool_decide (is_Some (q_callback req))) then false
    else if bool_decide (is_Some (q_user_data_ptr req)) && (q_user_data_size req =? 0)
    then false
    else if negb (bool_decide (is_Some (q_user_data_ptr req))) && (0 <? q_user_data_size req)
    then false
    else if SFETCH_MAX_USERDATA_UINT64 * 8 <? q_user_data_size req then false
    else true
    end
  else true.

(** *** Public API functions (lines 2412-2591) *)

(* for (i = 0; i < num_channels; i++) _sfetch_channel_init(&ctx->chn[i], ...) *)
Fixpoint sfetch_setup_channels (n : nat) (max_req lanes : Z)
    : res (list _sfetch_channel_t) :=
  match n with
  | O => mret []
  | S n' =>
      c ← _sfetch_channel_init max_req lanes;
      cs ← sfetch_setup_channels n' max_req lanes;
      mret (c :: cs)
  end.

(** [chn] holds the [num_channels] channels that were set up; the rest of the
    C array is zeroed memory whose rings have no buffer and zero slots, so
    that touching one of them faults, as does an index past the array. *)
Definition sfetch_setup (d : sfetch_desc_t) : res _sfetch_t :=
  let mr := _sfetch_def (max_requests d) 128 in
  let nc := _sfetch_def (num_channels d) 1 in
  let nl := _sfetch_def (num_lanes d) 1 in
  let nc := if SFETCH_MAX_CHANNELS <? nc then SFETCH_MAX_CHANNELS else nc in
  p ← _sfetch_pool_init mr;
  cs ← sfetch_setup_channels (Z.to_nat nc) mr nl;
  mret {| setup := true; valid := true; in_callback := false;
          desc := {| max_requests := mr; num_channels := nc; num_lanes := nl |};
          pool := p; chn := cs |}.

Definition sfetch_valid (ctx : _sfetch_t) : bool := valid ctx.

Definition sfetch_handle_valid (ctx : _sfetch_t) (h : Z) : res bool :=
  sokol_assert (valid ctx);;
  (* shortcut invalid handle *)
  if h =? 0 then mret false
  else
    oitem ← _sfetch_pool_item_lookup (pool ctx) h;
    mret (bool_decide (is_Some oitem)).

Definition sfetch_send (ctx : _sfetch_t) (request : sfetch_request_t)
    : res (Z * _sfetch_t) :=
  sokol_assert (setup ctx);;
  let invalid_handle := _sfetch_make_handle 0 in
  if negb (valid ctx) then mret (invalid_handle, ctx)
  else if negb (_sfetch_validate_request ctx request) then mret (invalid_handle, ctx)
  else
    sokol_assert (q_channel request <? num_channels (desc ctx));;
    '(slot_id, p) ← _sfetch_pool_item_alloc (pool ctx) request;
    if slot_id =? 0 then mret (invalid_handle, ctx)
    else
      c ← arr_get (chn ctx) (q_channel request);
      '(sent, c') ← _sfetch_channel_send c slot_id;
      if negb sent then
        (* send failed because the channels sent-queue overflowed *)
        p' ← _sfetch_pool_item_free p slot_id;
        mret (invalid_handle, set_pool ctx p')
      else
        cs ← arr_set (chn ctx) (q_channel request) c';
        mret (_sfetch_make_handle slot_id, set_chn (set_pool ctx p) cs).

Definition sfetch_bind_buffer (ctx : _sfetch_t) (h : Z) (buffer_ptr buffer_size : Z)
    : res _sfetch_t :=
  sokol_assert (valid ctx);;
  sokol_assert (in_callback ctx);;
  oitem ← _sfetch_pool_item_lookup (pool ctx) h;
  match oitem with
  | Some item =>
      sokol_assert ((ptr (buffer item) =? 0) && (size (buffer item) =? 0));;
      p ← item_store (pool ctx) h
             (set_buffer item {| ptr := buffer_ptr; size := buffer_size |});
      mret (set_pool ctx p)
  | None => mret ctx
  end.

Definition sfetch_unbind_buffer (ctx : _sfetch_t) (h : Z) : res (Z * _sfetch_t) :=
  sokol_assert (valid ctx);;
  sokol_assert (in_callback ctx);;
  oitem ← _sfetch_pool_item_lookup (pool ctx) h;
  match oitem with
  | Some item =>
      let prev_buf_ptr := ptr (buffer item) in
      p ← item_store (pool ctx) h (set_buffer item {| ptr := 0; size := 0 |});
      mret (prev_buf_ptr, set_pool ctx p)
  | None => mret (0, ctx)
  end.

Definition sfetch_pause (ctx : _sfetch_t) (h : Z) : res _sfetch_t :=
  sokol_assert (valid ctx);;
  oitem ← _sfetch_pool_item_lookup (pool ctx) h;
  match oitem with
  | Some item =>
      p ← item_store (pool ctx) h
             (set_user item (set_cont (set_pause (user item) true) false));
      mret (set_pool ctx p)
  | None => mret ctx
  end.

Definition sfetch_continue (ctx : _sfetch_t) (h : Z) : res _sfetch_t :=
  sokol_assert (valid ctx);;
  oitem ← _sfetch_pool_item_lookup (pool ctx) h;
  match oitem with
  | Some item =>
      p ← item_store (pool ctx) h
             (set_user item (set_pause (set_cont (user item) true) false));
      mret (set_pool ctx p)
  | None => mret ctx
  end.

Definition sfetch_cancel (ctx : _sfetch_t) (h : Z) : res _sfetch_t :=
  sokol_assert (valid ctx);;
  oitem ← _sfetch_pool_item_lookup (pool ctx) h;
  match oitem with
  | Some item =>
      p ← item_store (pool ctx) h
             (set_user item
                (set_cancel (set_pause (set_cont (user item) false) false) true));
      mret (set_pool ctx p)
  | None => mret ctx
  end.

(** *** Response callbacks and the per-frame work (lines 2232-2375, 2515-2532) *)

Definition run_user_call (ctx : _sfetch_t) (c : user_call) : res _sfetch_t :=
  match c with
  | call_bind_buffer h p s => sfetch_bind_buffer ctx h p s
  | call_unbind_buffer h => snd <$> sfetch_unbind_buffer ctx h
  | call_cancel h => sfetch_cancel ctx h
  | call_pause h => sfetch_pause ctx h
  | call_continue h => sfetch_continue ctx h
  end.

Fixpoint run_user_calls (ctx : _sfetch_t) (cs : list user_call) : res _sfetch_t :=
  match cs with
  | [] => mret ctx
  | c :: cs' => ctx' ← run_user_call ctx c; run_user_calls ctx' cs'
  end.

(* item->callback(&response) *)
Definition invoke_callback (ctx : _sfetch_t) (item : _sfetch_item_t)
    (response : sfetch_response_t) : res _sfetch_t :=
  cb ← deref (callback item);
  run_user_calls ctx (cb response).

(* lines 2300-2374: drain the outgoing queue, prepare items for invoking the
   response callback, call it, free finished items; [log] collects the
   responses in the order the callback saw them *)
Fixpoint _sfetch_channel_dowork_drain (fuel : nat) (ctx : _sfetch_t)
    (c : _sfetch_channel_t) (log : list sfetch_response_t)
    : res (_sfetch_t * _sfetch_channel_t * list sfetch_response_t) :=
  if negb (_sfetch_ring_empty (user_outgoing c)) then
    match fuel with
    | O => Err OutOfFuel
    | S fuel' =>
        '(slot_id, uo) ← _sfetch_ring_dequeue (user_outgoing c);
        sokol_assert (negb (slot_id =? 0));;
        oitem ← _sfetch_pool_item_lookup (pool ctx) slot_id;
        sokol_assert (match oitem with
                      | Some it => bool_decide (is_Some (callback it))
                      | None => false
                      end);;
        item ← deref oitem;
        sokol_assert (negb (state_is (state item) _SFETCH_STATE_INITIAL));;
        sokol_assert (negb (state_is (state item) _SFETCH_STATE_ALLOCATED));;
        sokol_assert (negb (state_is (state item) _SFETCH_STATE_OPENED));;
        sokol_assert (negb (state_is (state item) _SFETCH_STATE_FETCHED));;
        let item := _sfetch_channel_dowork_transfer item in
        p ← item_store (pool ctx) slot_id item;
        (* invoke response callback *)
        let response := _sfetch_channel_dowork_response slot_id item in
        ctx1 ← invoke_callback (set_pool ctx p) item response;
        (* the item pointer still designates the slot *)
        item1 ← arr_get (items (pool ctx1)) (_sfetch_slot_index slot_id);
        let c := set_user_outgoing c uo in
        if u_finished (user item1) then
          fl ← _sfetch_ring_enqueue (free_lanes c) (lane item1);
          p1 ← _sfetch_pool_item_free (pool ctx1) slot_id;
          _sfetch_channel_dowork_drain fuel' (set_pool ctx1 p1)
            (set_free_lanes c fl) (log ++ [response])
        else
          ui ← _sfetch_ring_enqueue (user_incoming c) slot_id;
          _sfetch_channel_dowork_drain fuel' ctx1
            (set_user_incoming c ui) (log ++ [response])
    end
  else mret (ctx, c, log).

(* lines 2234-2244 with the loop bound: num_move is the smaller of the two
   queue lengths *)
Definition _sfetch_channel_dowork_admission (c : _sfetch_channel_t)
    (p : _sfetch_pool_t) : res (_sfetch_channel_t * _sfetch_pool_t) :=
  num_sent ← _sfetch_ring_count (user_sent c);
  avail_lanes ← _sfetch_ring_count (free_lanes c);
  let num_move := if num_sent <? avail_lanes then num_sent else avail_lanes in
  _sfetch_channel_dowork_admit (Z.to_nat num_move) c p.

(* lines 2247-2280 with the loop bound *)
Definition _sfetch_channel_dowork_prepare_all (c : _sfetch_channel_t)
    (p : _sfetch_pool_t) : res _sfetch_pool_t :=
  num_incoming ← _sfetch_ring_count (user_incoming c);
  _sfetch_channel_dowork_incoming (Z.to_nat num_incoming) 0 c p.

(** The first half of [_sfetch_channel_dowork] (lines 2234-2284): admission,
    preparation of the incoming items, hand-over to the worker's inbox. *)
Definition _sfetch_channel_dowork_in (ctx : _sfetch_t) (ci : Z) : res _sfetch_t :=
  c ← arr_get (chn ctx) ci;
  '(c, p) ← _sfetch_channel_dowork_admission c (pool ctx);
  p ← _sfetch_channel_dowork_prepare_all c p;
  '(tin, ui) ← _sfetch_thread_enqueue_incoming (chn_thread c)
                 (thread_incoming c) (user_incoming c);
  cs ← arr_set (chn ctx) ci
         (set_user_incoming (set_thread_queues c tin (thread_outgoing c)) ui);
  mret (set_chn (set_pool ctx p) cs).

(** The second half (lines 2285-2374): take the processed items out of the
    worker's outbox and drain them through the response callback. *)
Definition _sfetch_channel_dowork_out (ctx : _sfetch_t) (ci : Z)
    : res (_sfetch_t * list sfetch_response_t) :=
  c ← arr_get (chn ctx) ci;
  '(tout, uo) ← _sfetch_thread_dequeue_outgoing (chn_thread c)
                  (thread_outgoing c) (user_outgoing c);
  let c := set_user_outgoing (set_thread_queues c (thread_incoming c) tout) uo in
  '(ctx', c, log) ← _sfetch_channel_dowork_drain (Z.to_nat (num uo)) ctx c [];
  cs ← arr_set (chn ctx') ci c;
  mret (set_chn ctx' cs, log).

(* the worker of channel [ci] takes [k] turns *)
Fixpoint worker_turns (k : nat) (ctx : _sfetch_t) (ci : Z) : res _sfetch_t :=
  match k with
  | O => mret ctx
  | S k' => ctx' ← _sfetch_channel_thread_step ctx ci; worker_turns k' ctx' ci
  end.

(** [_sfetch_channel_dowork], with the turns [k] that the channel's worker
    takes between the moment the user thread releases the inbox lock and the
    moment it takes the outbox lock. *)
Definition _sfetch_channel_dowork_with (k : nat) (ctx : _sfetch_t) (ci : Z)
    : res (_sfetch_t * list sfetch_response_t) :=
  ctx1 ← _sfetch_channel_dowork_in ctx ci;
  ctx2 ← worker_turns k ctx1 ci;
  _sfetch_channel_dowork_out ctx2 ci.

Definition _sfetch_channel_dowork (ctx : _sfetch_t) (ci : Z)
    : res (_sfetch_t * list sfetch_response_t) :=
  _sfetch_channel_dowork_with 0 ctx ci.

(* for (chn_index = 0; chn_index < num_channels; chn_index++) *)
Fixpoint sfetch_dowork_channels (sched : Z -> nat) (n : nat) (ci : Z)
    (ctx : _sfetch_t) (log : list sfetch_response_t)
    : res (_sfetch_t * list sfetch_response_t) :=
  match n with
  | O => mret (ctx, log)
  | S n' =>
      '(ctx', l) ← _sfetch_channel_dowork_with (sched ci) ctx ci;
      sfetch_dowork_channels sched n' (u32 (ci + 1)) ctx' (log ++ l)
  end.

(** [sfetch_dowork] while the workers run: [sched pass ci] is the number of
    turns the worker of channel [ci] takes in the middle of pass [pass]. *)
Definition sfetch_dowork_with (sched : Z -> Z -> nat) (ctx : _sfetch_t)
    : res (_sfetch_t * list sfetch_response_t) :=
  sokol_assert (setup ctx);;
  if negb (valid ctx) then mret (ctx, [])
  else
    let n := Z.to_nat (num_channels (desc ctx)) in
    let ctx := set_in_callback ctx true in
    '(ctx, l0) ← sfetch_dowork_channels (sched 0) n 0 ctx [];
    '(ctx, l1) ← sfetch_dowork_channels (sched 1) n 0 ctx l0;
    mret (set_in_callback ctx false, l1).

Definition sfetch_dowork (ctx : _sfetch_t)
    : res (_sfetch_t * list sfetch_response_t) :=
  sfetch_dowork_with (fun _ _ => O) ctx.

(** ** Runs of the engine *)

Record world : Type := {
  w_ctx : _sfetch_t;
  w_handles : list Z;                    (* what sfetch_send returned, in order *)
  w_responses : list sfetch_response_t   (* what the callbacks saw, in order *)
}.

Inductive event : Type :=
  | ev_send (r : sfetch_request_t)
  | ev_dowork
  | ev_dowork_with (sched : Z -> Z -> nat)
  | ev_worker (ci : Z)
  | ev_cancel (h : Z)
  | ev_pause (h : Z)
  | ev_continue (h : Z).

Definition step (w : world) (e : event) : res world :=
  match e with
  | ev_send r =>
      '(h, ctx) ← sfetch_send (w_ctx w) r;
      mret {| w_ctx := ctx; w_handles := w_handles w ++ [h];
              w_responses := w_responses w |}
  | ev_dowork =>
      '(ctx, l) ← sfetch_dowork (w_ctx w);
      mret {| w_ctx := ctx; w_handles := w_handles w;
              w_responses := w_responses w ++ l |}
  | ev_dowork_with sched =>
      '(ctx, l) ← sfetch_dowork_with sched (w_ctx w);
      mret {| w_ctx := ctx; w_handles := w_handles w;
              w_responses := w_responses w ++ l |}
  | ev_worker ci =>
      ctx ← _sfetch_channel_thread_step (w_ctx w) ci;
      mret {| w_ctx := ctx; w_handles := w_handles w;
              w_responses := w_responses w |}
  | ev_cancel h =>
      ctx ← sfetch_cancel (w_ctx w) h;
      mret {| w_ctx := ctx; w_handles := w_handles w;
              w_responses := w_responses w |}
  | ev_pause h =>
      ctx ← sfetch_pause (w_ctx w) h;
      mret {| w_ctx := ctx; w_handles := w_handles w;
              w_responses := w_responses w |}
  | ev_continue h =>
      ctx ← sfetch_continue (w_ctx w) h;
      mret {| w_ctx := ctx; w_handles := w_handles w;
              w_responses := w_responses w |}
  end.

Fixpoint run (w : world) (es : list event) : res world :=
  match es with
  | [] => mret w
  | e :: es' => w' ← step w e; run w' es'
  end.

(** A fresh engine and a run on it. *)
Definition boot (d : sfetch_desc_t) (es : list event) : res world :=
  ctx ← sfetch_setup d;
  run {| w_ctx := ctx; w_handles := []; w_responses := [] |} es.

End Impl.

(** * Abstractions used by the statements *)

(** ** The queue a ring holds *)

(** A ring as [_sfetch_ring_init] makes it and the queue functions keep it:
    [num] slots in the buffer, both cursors within it. The bound on [num]
    keeps [rb->tail + index] of [_sfetch_ring_peek] within 32 bits. *)
Definition ring_wf (rb : _sfetch_ring_t) : Prop :=
  0 < num rb <= 2 ^ 31 /\ 0 <= head rb < num rb /\ 0 <= tail rb < num rb
  /\ Z.of_nat (length (buf rb)) = num rb.

(** Number of queued ids, as a mathematical integer. *)
Definition ring_cnt (rb : _sfetch_ring_t) : Z := (head rb - tail rb) mod num rb.

Definition ring_len (rb : _sfetch_ring_t) : nat := Z.to_nat (ring_cnt rb).

(** The id at logical position [i], counted from the tail. *)
Definition ring_at (rb : _sfetch_ring_t) (i : nat) : Z :=
  default 0 (buf rb !! Z.to_nat ((tail rb + Z.of_nat i) mod num rb)).

(** The queued ids, oldest first. *)
Definition ring_contents (rb : _sfetch_ring_t) : list Z :=
  ring_at rb <$> seq 0 (ring_len rb).

(** The ring after a successful enqueue, and after a successful dequeue. *)
Definition ring_push (rb : _sfetch_ring_t) (x : Z) : _sfetch_ring_t :=
  {| head := (head rb + 1) mod num rb; tail := tail rb; num := num rb;
     buf := <[Z.to_nat (head rb) := x]> (buf rb) |}.

Definition ring_pop (rb : _sfetch_ring_t) : _sfetch_ring_t :=
  {| head := head rb; tail := (tail rb + 1) mod num rb; num := num rb;
     buf := buf rb |}.

(** ** The pool *)

(** The stack of free slot indices. *)
Definition free_stack (p : _sfetch_pool_t) : list Z :=
  take (Z.to_nat (free_top p)) (free_slots p).

(** The item in slot [i], if the slot exists. *)
Definition slot (p : _sfetch_pool_t) (i : Z) : option _sfetch_item_t :=
  items p !! Z.to_nat i.

(** A pool as [_sfetch_pool_init] makes it and alloc and free keep it. *)
Record pool_wf (p : _sfetch_pool_t) : Prop := {
  pw_valid : p_valid p = true;
  pw_size : 1 < p_size p <= 2 ^ 16 - 1;
  pw_items : Z.of_nat (length (items p)) = p_size p;
  pw_gens : Z.of_nat (length (gen_ctrs p)) = p_size p;
  pw_slots : Z.of_nat (length (free_slots p)) = p_size p - 1;
  pw_top : 0 <= free_top p <= p_size p - 1;
  pw_nodup : NoDup (free_stack p);
  pw_free : forall s, s ∈ free_stack p ->
    0 < s < p_size p /\ exists it, slot p s = Some it /\ handle it = 0;
  pw_live : forall i it, 0 <= i -> slot p i = Some it -> handle it <> 0 ->
    0 < i /\ exists g, gen_ctrs p !! Z.to_nat i = Some g
                       /\ handle it = _sfetch_make_id i g;
  pw_gen_range : forall i g, gen_ctrs p !! i = Some g -> 0 <= g < 2 ^ 32
}.

(** A slot id is live when the slot it indexes holds an item with that id. *)
Definition live (p : _sfetch_pool_t) (h : Z) : Prop :=
  h <> 0 /\ exists it, slot p (_sfetch_slot_index h) = Some it /\ handle it = h.

(** The item that [_sfetch_pool_item_alloc] writes into a slot. *)
Definition item_of_request (it0 : _sfetch_item_t) (slot_id : Z)
    (r : sfetch_request_t) : _sfetch_item_t :=
  {| handle := slot_id;
     state := _SFETCH_STATE_ALLOCATED;
     channel := q_channel r;
     lane := _SFETCH_INVALID_LANE;
     callback := q_callback r;
     buffer := {| ptr := q_buffer_ptr r; size := q_buffer_size r |};
     thread := mk_thread (t_content_size (thread it0)) (t_content_offset (thread it0))
                 (t_fetched_size (thread it0)) (t_failed (thread it0))
                 (t_finished (thread it0)) None;
     user := match q_user_data_ptr r with
             | Some src =>
                 if (0 <? q_user_data_size r)
                    && (q_user_data_size r <=? SFETCH_MAX_USERDATA_UINT64 * 8)
                 then set_user_data (user it0) (q_user_data_size r)
                        (memcpy (user_data (user it0)) src (q_user_data_size r))
                 else user it0
             | None => user it0
             end;
     path := _sfetch_path_make (q_path r) |}.

(** The pool after a successful allocation of slot [s], whose generation
    counter was [g]. *)
Definition pool_after_alloc (p : _sfetch_pool_t) (s g : Z) (it : _sfetch_item_t)
    : _sfetch_pool_t :=
  {| p_size := p_size p; free_top := u32 (free_top p - 1);
     items := <[Z.to_nat s := it]> (items p);
     free_slots := free_slots p;
     gen_ctrs := <[Z.to_nat s := u32 (g + 1)]> (gen_ctrs p);
     p_valid := p_valid p |}.

(** The pool after the slot of id [h] was freed. *)
Definition pool_after_free (p : _sfetch_pool_t) (h : Z) : _sfetch_pool_t :=
  {| p_size := p_size p; free_top := u32 (free_top p + 1);
     items := <[Z.to_nat (_sfetch_slot_index h) := _sfetch_item_zero]> (items p);
     free_slots := <[Z.to_nat (free_top p) := _sfetch_slot_index h]> (free_slots p);
     gen_ctrs := gen_ctrs p;
     p_valid := p_valid p |}.

(** The free stack of a fresh pool of [n] items, bottom first. *)
Fixpoint countdown (n : nat) : list Z :=
  match n with
  | O => []
  | S n' => Z.of_nat (S n') :: countdown n'
  end.

(** ** Histories of a pool *)

(** What the engine does to its pool: it allocates a slot for a request, it
    frees the slot of an id it has just looked up, and it updates an item
    through the pointer a lookup gave it (which never touches the item's
    handle). *)
Inductive pool_op : Type :=
  | op_alloc (r : sfetch_request_t)
  | op_free (h : Z)
  | op_update (h : Z) (f : _sfetch_item_t -> _sfetch_item_t).

(** One operation; the boolean tells whether it allocated slot [idx]. *)
Definition pool_step (dbg : bool) (idx : Z) (p : _sfetch_pool_t) (o : pool_op)
    : res (_sfetch_pool_t * bool) :=
  match o with
  | op_alloc r =>
      '(id, p') ← _sfetch_pool_item_alloc dbg p r;
      mret (p', negb (id =? 0) && (_sfetch_slot_index id =? idx))
  | op_free h =>
      oitem ← _sfetch_pool_item_lookup dbg p h;
      deref oitem;;
      p' ← _sfetch_pool_item_free dbg p h;
      mret (p', false)
  | op_update h f =>
      oitem ← _sfetch_pool_item_lookup dbg p h;
      item ← deref oitem;
      p' ← item_store p h (set_handle (f item) (handle item));
      mret (p', false)
  end.

(** A history; the number counts the allocations of slot [idx] in it. *)
Fixpoint pool_run (dbg : bool) (idx : Z) (p : _sfetch_pool_t) (ops : list pool_op)
    : res (_sfetch_pool_t * nat) :=
  match ops with
  | [] => mret (p, O)
  | o :: ops' =>
      '(p1, hit) ← pool_step dbg idx p o;
      '(p2, k) ← pool_run dbg idx p1 ops';
      mret (p2, if hit : bool then S k else k)
  end.

(** Slot [slot_index h] has been allocated [j] times since the id [h] was
    freed: its generation counter has advanced by [j], and before the first
    of these allocations the slot is empty. *)
Definition stale (p : _sfetch_pool_t) (h : Z) (j : nat) : Prop :=
  pool_wf p /\ 0 < _sfetch_slot_index h < p_size p /\
  exists g0 g,
    0 <= g0 /\ h = _sfetch_make_id (_sfetch_slot_index h) g0 /\
    gen_ctrs p !! Z.to_nat (_sfetch_slot_index h) = Some g /\
    g mod 2 ^ 16 = (g0 + Z.of_nat j) mod 2 ^ 16 /\
    (j = O -> exists it, slot p (_sfetch_slot_index h) = Some it /\ handle it = 0).

(** The pool after a write through the pointer to the item of id [h]. *)
Definition pool_store (p : _sfetch_pool_t) (h : Z) (it : _sfetch_item_t)
    : _sfetch_pool_t :=
  set_items p (<[Z.to_nat (_sfetch_slot_index h) := it]> (items p)).

(** ** The caller-side transitions in the words of the specification *)

(** Section 4.4.2, step 1: a set pause flag moves the state to PAUSED. *)
Definition spec_apply_pause (pause_flag : bool) (s : _sfetch_state_t) : _sfetch_state_t :=
  if pause_flag then _SFETCH_STATE_PAUSED else s.

(** Step 2: a set continue flag moves the state to FETCHED only if it was
    PAUSED. *)
Definition spec_apply_continue (continue_flag : bool) (s : _sfetch_state_t)
    : _sfetch_state_t :=
  if continue_flag then
    match s with
    | _SFETCH_STATE_PAUSED => _SFETCH_STATE_FETCHED
    | _ => s
    end
  else s.

(** Step 3: a set cancel flag sets the state to FAILED. *)
Definition spec_apply_cancel (cancel_flag : bool) (s : _sfetch_state_t) : _sfetch_state_t :=
  if cancel_flag then _SFETCH_STATE_FAILED else s.

(** Step 4: ALLOCATED becomes OPENING, OPENED and FETCHED become FETCHING,
    PAUSED and FAILED are unchanged. *)
Definition spec_dispatch (s : _sfetch_state_t) : _sfetch_state_t :=
  match s with
  | _SFETCH_STATE_ALLOCATED => _SFETCH_STATE_OPENING
  | _SFETCH_STATE_OPENED => _SFETCH_STATE_FETCHING
  | _SFETCH_STATE_FETCHED => _SFETCH_STATE_FETCHING
  | _SFETCH_STATE_PAUSED => _SFETCH_STATE_PAUSED
  | _SFETCH_STATE_FAILED => _SFETCH_STATE_FAILED
  | _ => s
  end.

(** The four steps in the order pause, continue, cancel, dispatch. *)
Definition spec_prepared_state (pause_flag continue_flag cancel_flag : bool)
    (s : _sfetch_state_t) : _sfetch_state_t :=
  spec_dispatch
    (spec_apply_cancel cancel_flag
       (spec_apply_continue continue_flag (spec_apply_pause pause_flag s))).

(** The states in which the preparation loop expects an item. *)
Definition incoming_state_ok (s : _sfetch_state_t) : bool :=
  negb (state_is s _SFETCH_STATE_INITIAL)
  && negb (state_is s _SFETCH_STATE_OPENING)
  && negb (state_is s _SFETCH_STATE_FETCHING).

(** ** Concrete inputs *)

Fixpoint file_size_of (files : list (string * Z)) (p : string) : option Z :=
  match files with
  | [] => None
  | (q, n) :: files' => if String.eqb p q then Some n else file_size_of files' p
  end.

(** A file system holding the given files (path and size in bytes): a file
    that exists opens, and a read succeeds when it stays within the file. *)
Definition disk (files : list (string * Z)) : io_provider :=
  {| io_open := fun p => bool_decide (is_Some (file_size_of files p));
     io_size := fun p => default 0 (file_size_of files p);
     io_read := fun p offset n => offset + n <=? default 0 (file_size_of files p) |}.

(** A callback that only looks at the response. *)
Definition silent : sfetch_callback_t := fun _ => [].

Definition request_for (p : string) (buffer_ptr buffer_size : Z) : sfetch_request_t :=
  {| q_channel := 0; q_path := Some p; q_callback := Some silent;
     q_buffer_ptr := buffer_ptr; q_buffer_size := buffer_size;
     q_user_data_ptr := None; q_user_data_size := 0 |}.

(** [sfetch_setup(&(sfetch_desc_t){ 0 })] *)
Definition default_desc : sfetch_desc_t :=
  {| max_requests := 0; num_channels := 0; num_lanes := 0 |}.

Definition small_desc : sfetch_desc_t :=
  {| max_requests := 1; num_channels := 1; num_lanes := 1 |}.

Fixpoint path_of_length (n : nat) : string :=
  match n with
  | O => EmptyString
  | S n' => String "a"%char (path_of_length n')
  end.

(** What a response tells about the state of its request. *)
Record response_flags : Type := {
  f_opened : bool; f_fetched : bool; f_paused : bool; f_failed : bool;
  f_finished : bool; f_cancelled : bool
}.

Definition flags_of (r : sfetch_response_t) : response_flags :=
  {| f_opened := r_opened r; f_fetched := r_fetched r; f_paused := r_paused r;
     f_failed := r_failed r; f_finished := r_finished r;
     f_cancelled := r_cancelled r |}.

(** The chunk a response reports: content size, offset, chunk size. *)
Definition chunk_of (r : sfetch_response_t) : Z * Z * Z :=
  (r_content_size r, r_content_offset r, r_fetched_size r).

Definition responses_of (r : res world) : res (list (response_flags * (Z * Z * Z))) :=
  w ← r; mret ((fun x => (flags_of x, chunk_of x)) <$> w_responses w).

(** *** Runs *)

(** The handle of the first request of a fresh engine: slot 1, generation 1. *)
Definition first_handle : Z := 65537.

(** A 10-byte file streamed through a 4-byte buffer; the worker runs between
    the calls of [sfetch_dowork]. *)
Definition streaming_run : list event :=
  [ev_send (request_for "f10"%string 1000 4); ev_dowork; ev_worker 0; ev_dowork;
   ev_worker 0; ev_dowork; ev_worker 0; ev_dowork].

(** The same, with the worker taking its turn in the middle of each pass. *)
Definition streaming_run_inside : list event :=
  [ev_send (request_for "f10"%string 1000 4);
   ev_dowork_with (fun _ _ => 1%nat); ev_dowork_with (fun _ _ => 1%nat)].

(** [sfetch_cancel] while the request is with the worker. *)
Definition cancel_race_run : list event :=
  [ev_send (request_for "f10"%string 1000 4); ev_dowork; ev_cancel first_handle;
   ev_worker 0; ev_dowork].

(** An empty file requested with a buffer bound upfront. *)
Definition empty_file_run : list event :=
  [ev_send (request_for "empty"%string 1000 4); ev_dowork; ev_worker 0; ev_dowork].

Definition files : list (string * Z) :=
  [("f10"%string, 10); ("f4"%string, 4); ("empty"%string, 0)].

Definition only_fetched : response_flags :=
  {| f_opened := false; f_fetched := true; f_paused := false; f_failed := false;
     f_finished := false; f_cancelled := false |}.

Definition fetched_and_finished : response_flags :=
  {| f_opened := false; f_fetched := true; f_paused := false; f_failed := false;
     f_finished := true; f_cancelled := false |}.

Definition ctx_of (r : res _sfetch_t) : _sfetch_t :=
  match r with
  | Ok ctx => ctx
  | Err _ =>
      {| setup := false; valid := false; in_callback := false;
         desc := default_desc;
         pool := {| p_size := 0; free_top := 0; items := []; free_slots := [];
                    gen_ctrs := []; p_valid := false |};
         chn := [] |}
  end.

Definition world_of (r : res world) : world :=
  match r with
  | Ok w => w
  | Err _ => {| w_ctx := ctx_of (Err MemoryFault); w_handles := [];
                w_responses := [] |}
  end.

(** ** A checker for well-formed pools *)

Definition pool_wf_b (p : _sfetch_pool_t) : bool :=
  p_valid p
  && (1 <? p_size p) && (p_size p <=? 2 ^ 16 - 1)
  && (Z.of_nat (length (items p)) =? p_size p)
  && (Z.of_nat (length (gen_ctrs p)) =? p_size p)
  && (Z.of_nat (length (free_slots p)) =? p_size p - 1)
  && (0 <=? free_top p) && (free_top p <=? p_size p - 1)
  && bool_decide (NoDup (free_stack p))
  && forallb (fun s => (0 <? s) && (s <? p_size p)
                       && match slot p s with
                          | Some it => handle it =? 0
                          | None => false
                          end) (free_stack p)
  && forallb (fun i => match items p !! i with
                       | Some it =>
                           (handle it =? 0)
                           || ((0 <? Z.of_nat i)
                               && match gen_ctrs p !! i with
                                  | Some g => handle it =? _sfetch_make_id (Z.of_nat i) g
                                  | None => false
                                  end)
                       | None => true
                       end) (seq 0 (length (items p)))
  && forallb (fun g => (0 <=? g) && (g <? 2 ^ 32)) (gen_ctrs p).

(** ** Concrete states *)

Definition empty_ring : _sfetch_ring_t :=
  {| head := 0; tail := 0; num := 0; buf := [] |}.

Definition empty_chn : _sfetch_channel_t :=
  {| free_lanes := empty_ring; user_sent := empty_ring;
     user_incoming := empty_ring; user_outgoing := empty_ring;
     thread_incoming := empty_ring; thread_outgoing := empty_ring;
     chn_thread := {| stop_requested := false; th_valid := false |};
     c_valid := false |}.

Definition chn_at (ctx : _sfetch_t) (i : nat) : _sfetch_channel_t :=
  default empty_chn (chn ctx !! i).

Definition item_at (p : _sfetch_pool_t) (h : Z) : _sfetch_item_t :=
  default _sfetch_item_zero (slot p (_sfetch_slot_index h)).

(** A fresh engine with one slot, one channel, one lane. *)
Definition fresh_ctx : _sfetch_t :=
  Eval vm_compute in ctx_of (sfetch_setup true small_desc).

(** The same after a request without a buffer was sent. *)
Definition sent_ctx : _sfetch_t :=
  Eval vm_compute in
    ctx_of (snd <$> sfetch_send true fresh_ctx (request_for "f10"%string 0 0)).

(** The channel and the pool after the admission step of the next pass. *)
Definition admitted_state : _sfetch_channel_t * _sfetch_pool_t :=
  Eval vm_compute in
    match _sfetch_channel_dowork_admission true (chn_at sent_ctx 0) (pool sent_ctx) with
    | Ok x => x
    | Err _ => (empty_chn, pool sent_ctx)
    end.

(** The engine in the middle of streaming the 10-byte file: the first chunk
    was delivered, the request is back with the worker. *)
Definition streaming_ctx : _sfetch_t :=
  Eval vm_compute in
    w_ctx (world_of (boot true (disk files) small_desc
             [ev_send (request_for "f10"%string 1000 4); ev_dowork; ev_worker 0;
              ev_dowork])).

(** A request whose path has [SFETCH_MAX_PATH - 1] characters, and a fresh
    default engine of a release build after the request was sent. *)
Definition long_path_request : sfetch_request_t :=
  request_for (path_of_length 1023) 0 0.

Definition long_path_ctx : _sfetch_t :=
  Eval vm_compute in
    ctx_of (snd <$> sfetch_send false (ctx_of (sfetch_setup false default_desc))
                      long_path_request).

(** A request for a file that does not exist. *)
Definition missing : sfetch_request_t := request_for "nowhere"%string 0 0.

(** What happens to the slot of the first request of [sent_ctx] once the
    request is gone: allocated for a second request, freed, allocated for a
    third. *)
Definition reuse : list pool_op :=
  [op_alloc missing; op_free 131073; op_alloc missing].

Definition reused_ctx : _sfetch_t :=
  Eval vm_compute in
    match
      p1 ← _sfetch_pool_item_free true (pool sent_ctx) first_handle;
      pool_run true (_sfetch_slot_index first_handle) p1 reuse
    with
    | Ok (p, _) => set_pool sent_ctx p
    | Err _ => sent_ctx
    end.

(** The whole life of a request for a missing file: sent, handed to the
    worker, failed there, reported to the callback and freed. *)
Definition one_life (dbg : bool) (io : io_provider) (ctx : _sfetch_t) : res _sfetch_t :=
  '(_, ctx) ← sfetch_send dbg ctx missing;
  '(ctx, _) ← sfetch_dowork dbg io ctx;
  ctx ← _sfetch_channel_thread_step dbg io ctx 0;
  '(ctx, _) ← sfetch_dowork dbg io ctx;
  mret ctx.

Fixpoint lives (dbg : bool) (io : io_provider) (n : nat) (ctx : _sfetch_t)
    : res _sfetch_t :=
  match n with
  | O => mret ctx
  | S n' => ctx' ← one_life dbg io ctx; lives dbg io n' ctx'
  end.

(** A first request lives and dies; then the slot is used [n] more times and
    allocated once more. Reported: the first handle, whether it is valid
    right after its request was freed, the handle of the last request, and
    whether the first handle is valid at the end. *)
Definition recycle (dbg : bool) (n : nat) : res (Z * bool * Z * bool) :=
  ctx ← sfetch_setup dbg small_desc;
  '(h, ctx) ← sfetch_send dbg ctx missing;
  '(ctx, _) ← sfetch_dowork dbg (disk []) ctx;
  ctx ← _sfetch_channel_thread_step dbg (disk []) ctx 0;
  '(ctx, _) ← sfetch_dowork dbg (disk []) ctx;
  b0 ← sfetch_handle_valid dbg ctx h;
  ctx ← lives dbg (disk []) n ctx;
  '(h', ctx) ← sfetch_send dbg ctx missing;
  b ← sfetch_handle_valid dbg ctx h;
  mret (h, b0, h', b).

(** ** The invariant of the engine *)

(** The ids a channel has in flight, and all the ids it holds. *)
Definition flight_ids (c : _sfetch_channel_t) : list Z :=
  ring_contents (user_incoming c) ++ ring_contents (thread_incoming c)
  ++ ring_contents (thread_outgoing c) ++ ring_contents (user_outgoing c).

Definition chn_ids (c : _sfetch_channel_t) : list Z :=
  ring_contents (user_sent c) ++ flight_ids c.

(** Free lanes plus requests in flight. *)
Definition lanes_total (c : _sfetch_channel_t) : Z :=
  ring_cnt (free_lanes c) + ring_cnt (user_incoming c)
  + ring_cnt (thread_incoming c) + ring_cnt (thread_outgoing c)
  + ring_cnt (user_outgoing c).

(** A channel as [_sfetch_channel_init] makes it and the engine keeps it. *)
Record chn_wf (d : sfetch_desc_t) (c : _sfetch_channel_t) : Prop := {
  cw_valid : c_valid c = true;
  cw_thread : th_valid (chn_thread c) = true;
  cw_free : ring_wf (free_lanes c);
  cw_sent : ring_wf (user_sent c);
  cw_ui : ring_wf (user_incoming c);
  cw_uo : ring_wf (user_outgoing c);
  cw_ti : ring_wf (thread_incoming c);
  cw_to : ring_wf (thread_outgoing c);
  cw_sent_num : num (user_sent c) = max_requests d + 1;
  cw_free_num : num (free_lanes c) = num_lanes d + 1;
  cw_ui_num : num (user_incoming c) = num_lanes d + 1;
  cw_uo_num : num (user_outgoing c) = num_lanes d + 1;
  cw_ti_num : num (thread_incoming c) = num_lanes d + 1;
  cw_to_num : num (thread_outgoing c) = num_lanes d + 1;
  cw_lanes : lanes_total c = num_lanes d
}.

(** The pool changed by writes through item pointers only. *)
Record pool_kept (p p' : _sfetch_pool_t) : Prop := {
  pk_wf : pool_wf p';
  pk_size : p_size p' = p_size p;
  pk_top : free_top p' = free_top p;
  pk_free : free_slots p' = free_slots p;
  pk_live : forall id, live p' id <-> live p id
}.

(** What a step of the engine on one channel may do: ids leave the
    channel's queues or move between them, and only ids that left are no
    longer live. *)
Record chn_step (d : sfetch_desc_t) (c : _sfetch_channel_t) (p : _sfetch_pool_t)
    (c' : _sfetch_channel_t) (p' : _sfetch_pool_t) : Prop := {
  cs_wf : chn_wf d c';
  cs_pool : pool_wf p';
  cs_size : p_size p' = p_size p;
  cs_ids : chn_ids c' ⊆+ chn_ids c;
  cs_live_sub : forall id, live p' id -> live p id;
  cs_live_keep : forall id, live p id -> (id ∈ chn_ids c -> id ∈ chn_ids c') ->
                 live p' id
}.

(** All the ids the channels of the engine hold. *)
Definition all_ids (ctx : _sfetch_t) : list Z := concat (chn_ids <$> chn ctx).

(** The description an engine runs with, after [sfetch_setup] has put its
    defaults in. *)
Record desc_ok (d : sfetch_desc_t) : Prop := {
  dk_requests : 0 < max_requests d < 2 ^ 16 - 1;
  dk_channels : 0 < num_channels d <= SFETCH_MAX_CHANNELS;
  dk_lanes : 0 < num_lanes d < 2 ^ 31
}.

(** What holds of the engine between any two calls of its functions: every
    id in a queue is in one queue only, and is the id of a live item. *)
Record engine_inv (ctx : _sfetch_t) : Prop := {
  ei_setup : setup ctx = true;
  ei_valid : valid ctx = true;
  ei_desc : desc_ok (desc ctx);
  ei_pool : pool_wf (pool ctx);
  ei_size : p_size (pool ctx) = max_requests (desc ctx) + 1;
  ei_len : Z.of_nat (length (chn ctx)) = num_channels (desc ctx);
  ei_chn : Forall (chn_wf (desc ctx)) (chn ctx);
  ei_nodup : NoDup (all_ids ctx);
  ei_live : forall id, id ∈ all_ids ctx -> live (pool ctx) id
}.

(** A response with the finished flag belongs to a request that is gone. *)
Definition dead_if_finished (p : _sfetch_pool_t) (r : sfetch_response_t) : Prop :=
  r_finished r = true -> ~ live p (r_handle r).

(** No id comes to life between [ctx] and [ctx']. *)
Definition live_sub (ctx ctx' : _sfetch_t) : Prop :=
  forall id, live (pool ctx') id -> live (pool ctx) id.

(** What holds of a run: the invariant of the engine, every live id was
    returned by [sfetch_send], and every response carries such an id. *)
Record world_inv (w : world) : Prop := {
  wi_engine : engine_inv (w_ctx w);
  wi_live : forall id, live (pool (w_ctx w)) id -> id ∈ w_handles w;
  wi_responses :
    Forall (fun r => r_handle r <> 0 /\ r_handle r ∈ w_handles w) (w_responses w)
}.

(** The descriptions [sfetch_setup] is meant for: zero asks for the default. *)
Definition desc_in_range (d : sfetch_desc_t) : Prop :=
  0 <= max_requests d < 2 ^ 16 - 1 /\ 0 <= num_channels d /\
  0 <= num_lanes d < 2 ^ 31.

(** A run that fills the only slot of the smallest engine. *)
Definition exhausted_run : list event := [ev_send (request_for "f10"%string 0 0)].

Definition exhausted_world : world :=
  Eval vm_compute in world_of (boot true (disk files) small_desc exhausted_run).

(** ** Sample rings *)

(** Two ids queued in a ring of three slots, the cursors wrapped around. *)
Definition wrapped_ring : _sfetch_ring_t :=
  {| head := 1; tail := 3; num := 4; buf := [5; 0; 0; 4] |}.

(** The same ring with a third id: it is full. *)
Definition full_ring : _sfetch_ring_t :=
  {| head := 2; tail := 3; num := 4; buf := [5; 6; 0; 4] |}.

(** A ring of three slots with nothing queued, its cursors in the middle. *)
Definition drained_ring : _sfetch_ring_t :=
  {| head := 2; tail := 2; num := 4; buf := [5; 6; 0; 4] |}.

(** ** Sample pools *)

(** A fresh pool of three items, and what [sfetch_setup] makes of
    [small_desc]. *)
Definition pool_of_three : _sfetch_pool_t :=
  Eval vm_compute in
    match _sfetch_pool_init true 3 with
    | Ok p => p
    | Err _ => pool (ctx_of (Err MemoryFault))
    end.

(** The same pool with one request allocated. *)
Definition pool_with_one : _sfetch_pool_t :=
  Eval vm_compute in
    match _sfetch_pool_item_alloc true pool_of_three (request_for "f10"%string 0 0) with
    | Ok (_, p) => p
    | Err _ => pool (ctx_of (Err MemoryFault))
    end.

(** ** Sample items *)

(** The item of a request for [p] right after the preparation for the
    worker: OPENING, thread-side data untouched since the allocation. *)
Definition opening_item (p : string) (buffer_ptr buffer_size : Z) : _sfetch_item_t :=
  set_state (item_of_request _sfetch_item_zero first_handle
               (request_for p buffer_ptr buffer_size))
    _SFETCH_STATE_OPENING.

(** An item in the middle of streaming [p]: [co] of [cs] bytes done. *)
Definition fetching_item (p : string) (buffer_ptr buffer_size cs co : Z)
    : _sfetch_item_t :=
  set_thread
    (set_state (item_of_request _sfetch_item_zero first_handle
                  (request_for p buffer_ptr buffer_size))
       _SFETCH_STATE_FETCHING)
    (mk_thread cs co 0 false false (Some p)).

(** The smallest engine after a request was sent, cancelled, and handed to
    the worker by [sfetch_dowork]. *)
Definition cancelled_world : world :=
  Eval vm_compute in
    world_of (boot true (disk files) small_desc
                [ev_send (request_for "f10"%string 0 0); ev_cancel first_handle;
                 ev_dowork]).

(** The smallest engine right after [sfetch_setup]. *)
Definition fresh_world : world :=
  Eval vm_compute in world_of (boot true (disk files) small_desc []).

(** The default engine after the 10-byte file was streamed through a buffer
    of four bytes. *)
Definition streamed_world : world :=
  Eval vm_compute in world_of (boot true (disk files) default_desc streaming_run).

(** An engine of four slots and one channel with two lanes. *)
Definition busy_desc : sfetch_desc_t :=
  {| max_requests := 4; num_channels := 1; num_lanes := 2 |}.

Definition three_sends : list event :=
  [ev_send (request_for "f10"%string 1000 4); ev_send (request_for "f4"%string 0 0);
   ev_send (request_for "nowhere"%string 0 0)].

(** Three requests sent and none admitted yet: the sent queue holds three
    ids, one slot of the pool is free. *)
Definition queued_world : world :=
  Eval vm_compute in world_of (boot true (disk files) busy_desc three_sends).

(** The same after a call of [sfetch_dowork] and a turn of the worker: the
    third request waits in the sent queue, the second is in the worker's
    inbox, the first in its outbox. *)
Definition busy_world : world :=
  Eval vm_compute in
    world_of (boot true (disk files) busy_desc (three_sends ++ [ev_dowork; ev_worker 0])).

(** [sfetch_desc] (lines 2464-2468): the description the engine runs with. *)
Definition sfetch_desc (dbg : bool) (ctx : _sfetch_t) : res sfetch_desc_t :=
  sokol_assert dbg (valid ctx);;
  mret (desc ctx).

(** The description after [sfetch_setup] has replaced the zero fields by the
    defaults and clamped the number of channels. *)
Definition desc_with_defaults (d : sfetch_desc_t) : sfetch_desc_t :=
  {| max_requests := if max_requests d =? 0 then 128 else max_requests d;
     num_channels :=
       Z.min SFETCH_MAX_CHANNELS (if num_channels d =? 0 then 1 else num_channels d);
     num_lanes := if num_lanes d =? 0 then 1 else num_lanes d |}.

(** A description that asks for more channels than the engine has. *)
Definition wide_desc : sfetch_desc_t :=
  {| max_requests := 3; num_channels := 40; num_lanes := 2 |}.

(** A request whose path does not fit the path buffer of an item. *)
Definition overlong_request : sfetch_request_t :=
  request_for (path_of_length 2000) 0 0.

(** The default engine just before the last [sfetch_dowork] of the streaming
    run, and what that call returns. *)
Definition streaming_prefix : list event :=
  [ev_send (request_for "f10"%string 1000 4); ev_dowork; ev_worker 0; ev_dowork;
   ev_worker 0; ev_dowork; ev_worker 0].

Definition before_last_response : world :=
  Eval vm_compute in world_of (boot true (disk files) default_desc streaming_prefix).

Definition last_dowork : _sfetch_t * list sfetch_response_t :=
  Eval vm_compute in
    match sfetch_dowork true (disk files) (w_ctx before_last_response) with
    | Ok x => x
    | Err _ => (w_ctx before_last_response, [])
    end.

(** ** The states of the queued items *)

(** A property of an item that does not depend on its buffer, its user-side
    data or its thread-side data: the calls that take a handle and the
    request handler keep it. *)
Definition stable (Phi : _sfetch_item_t -> Prop) : Prop :=
  (forall x b, Phi x -> Phi (set_buffer x b)) /\
  (forall x u, Phi x -> Phi (set_user x u)) /\
  (forall x th, Phi x -> Phi (set_thread x th)).

(** The item in the slot of [id] has the property [Phi]. *)
Definition item_is (p : _sfetch_pool_t) (id : Z) (Phi : _sfetch_item_t -> Prop)
    : Prop :=
  exists it, slot p (_sfetch_slot_index id) = Some it /\ Phi it.

(** What holds of the items between any two calls: a request in a sent queue
    is ALLOCATED, and in a debug build a request in a user-incoming queue is
    in a state that the preparation loop accepts. *)
Record item_inv (dbg : bool) (ctx : _sfetch_t) : Prop := {
  ii_sent : forall i c id,
    chn ctx !! i = Some c -> id ∈ ring_contents (user_sent c) ->
    item_is (pool ctx) id (fun it => state it = _SFETCH_STATE_ALLOCATED);
  ii_incoming : dbg = true ->
    forall i c id,
    chn ctx !! i = Some c -> id ∈ ring_contents (user_incoming c) ->
    item_is (pool ctx) id (fun it => incoming_state_ok (state it) = true)
}.

(** An engine of four slots and one channel with three lanes, and a run that
    leaves a paused request with the continue flag in the user-incoming
    queue and two requests, one cancelled and one paused, in the sent
    queue. The worker takes a turn inside the second pass of the second
    [sfetch_dowork]. *)
Definition flag_desc : sfetch_desc_t :=
  {| max_requests := 4; num_channels := 1; num_lanes := 3 |}.

Definition flagged_run : list event :=
  [ev_send (request_for "f10"%string 1000 4); ev_pause first_handle; ev_dowork;
   ev_worker 0; ev_dowork_with (fun pass _ => Z.to_nat pass);
   ev_continue first_handle;
   ev_send (request_for "f4"%string 0 0); ev_send (request_for "nowhere"%string 0 0);
   ev_cancel 65538; ev_pause 65539].

Definition flagged_world : world :=
  Eval vm_compute in world_of (boot true (disk files) flag_desc flagged_run).

(** Four requests sent to the engine of four slots: the pool is exhausted
    (and the sent queue is full). *)
Definition four_sends : list event :=
  three_sends ++ [ev_send (request_for "f4"%string 0 0)].

Definition full_world : world :=
  Eval vm_compute in world_of (boot true (disk files) busy_desc four_sends).

(** A state that no run reaches: the fresh engine of one slot with the sent
    queue of its channel replaced by a ring without room. *)
Definition clogged_ring : _sfetch_ring_t :=
  {| head := 0; tail := 0; num := 1; buf := [0] |}.

Definition clogged_ctx : _sfetch_t :=
  set_chn fresh_ctx [set_user_sent (chn_at fresh_ctx 0) clogged_ring].

(** * Verification *)

(** ** The result monad, assertions and arrays *)

Lemma bind_ok {A B} (m : res A) (f : A -> res B) (a : A) :
  m = Ok a -> m ≫= f = f a.
Proof. intros ->. reflexivity. Qed.

Lemma bind_inv {A B} (m : res A) (f : A -> res B) (b : B) :
  m ≫= f = Ok b -> exists a, m = Ok a /\ f a = Ok b.
Proof. destruct m as [a|e]; [eauto | discriminate]. Qed.

Lemma fmap_inv {A B} (m : res A) (f : A -> B) (b : B) :
  f <$> m = Ok b -> exists a, m = Ok a /\ f a = b.
Proof. destruct m as [a|e]; [intros [= <-]; eauto | discriminate]. Qed.

Lemma assert_ok dbg c : (dbg = true -> c = true) -> sokol_assert dbg c = Ok tt.
Proof.
  unfold sokol_assert. destruct dbg, c; simpl; auto.
  intros H. specialize (H eq_refl). discriminate.
Qed.

Lemma assert_inv dbg c u : sokol_assert dbg c = Ok u -> dbg = true -> c = true.
Proof. unfold sokol_assert. destruct dbg, c; simpl; congruence. Qed.

Lemma assert_bind_inv {B} dbg c (k : res B) b :
  (sokol_assert dbg c ;; k) = Ok b -> (dbg = true -> c = true) /\ k = Ok b.
Proof.
  intros H. apply bind_inv in H as ([] & Ha & Hk).
  split; [eapply assert_inv; eauto | exact Hk].
Qed.

Lemma assert_bind_ok {B} dbg c (k : res B) :
  (dbg = true -> c = true) -> (sokol_assert dbg c ;; k) = k.
Proof. intros H. rewrite (assert_ok _ _ H). reflexivity. Qed.

Lemma assert_res_ok dbg (c : res bool) :
  (dbg = true -> c = Ok true) -> sokol_assert_res dbg c = Ok tt.
Proof.
  unfold sokol_assert_res. destruct dbg; [|reflexivity].
  intros H. rewrite (H eq_refl). reflexivity.
Qed.

Lemma assert_res_inv dbg (c : res bool) u :
  sokol_assert_res dbg c = Ok u -> dbg = true -> c = Ok true.
Proof.
  unfold sokol_assert_res. destruct dbg; [|discriminate].
  destruct c as [[]|]; simpl; congruence.
Qed.

Lemma Ok_inj {A} (a b : A) : Ok a = Ok b -> a = b.
Proof. congruence. Qed.

(** Reduction of the monad's operations only. *)
Ltac res_simpl := cbn [mbind res_bind mret res_ret fmap res_fmap].

(** Inversion of a successful computation, one bind at a time. *)
Ltac res_inv H :=
  repeat match type of H with
  | sokol_assert _ _ ≫= _ = Ok _ =>
      let Ha := fresh "Hassert" in
      apply assert_bind_inv in H as [Ha H]
  | _ ≫= _ = Ok _ =>
      let a := fresh "a" in
      let Ha := fresh "Hstep" in
      apply bind_inv in H as (a & Ha & H)
  | mret _ = Ok _ => apply Ok_inj in H
  | Ok _ = Ok _ => apply Ok_inj in H
  | Err _ = Ok _ => discriminate H
  end.

Lemma arr_get_ok {A} (a : list A) (i : Z) (x : A) :
  0 <= i -> a !! Z.to_nat i = Some x -> arr_get a i = Ok x.
Proof.
  intros Hi Hx. unfold arr_get.
  apply lookup_lt_Some in Hx as Hlt.
  replace ((0 <=? i) && (i <? Z.of_nat (length a))) with true.
  - now rewrite Hx.
  - symmetry. apply andb_true_iff. split; [apply Z.leb_le | apply Z.ltb_lt]; lia.
Qed.

Lemma arr_get_inv {A} (a : list A) (i : Z) (x : A) :
  arr_get a i = Ok x -> 0 <= i < Z.of_nat (length a) /\ a !! Z.to_nat i = Some x.
Proof.
  unfold arr_get.
  destruct ((0 <=? i) && (i <? Z.of_nat (length a))) eqn:E; [|discriminate].
  apply andb_true_iff in E as [E1%Z.leb_le E2%Z.ltb_lt].
  destruct (a !! Z.to_nat i); [intros [= ->]; auto | discriminate].
Qed.

Lemma arr_set_ok {A} (a : list A) (i : Z) (x : A) :
  0 <= i < Z.of_nat (length a) -> arr_set a i x = Ok (<[Z.to_nat i := x]> a).
Proof.
  intros Hi. unfold arr_set.
  replace ((0 <=? i) && (i <? Z.of_nat (length a))) with true; [reflexivity|].
  symmetry. apply andb_true_iff. split; [apply Z.leb_le | apply Z.ltb_lt]; lia.
Qed.

Lemma arr_set_inv {A} (a b : list A) (i : Z) (x : A) :
  arr_set a i x = Ok b ->
  0 <= i < Z.of_nat (length a) /\ b = <[Z.to_nat i := x]> a.
Proof.
  unfold arr_set.
  destruct ((0 <=? i) && (i <? Z.of_nat (length a))) eqn:E; [|discriminate].
  apply andb_true_iff in E as [E1%Z.leb_le E2%Z.ltb_lt].
  intros [= <-]. auto.
Qed.

(** ** Looking an item up and writing it back *)

Lemma lookup_inv dbg p h it :
  _sfetch_pool_item_lookup dbg p h = Ok (Some it) ->
  h <> 0 /\ arr_get (items p) (_sfetch_slot_index h) = Ok it /\ handle it = h
  /\ (dbg = true -> p_valid p = true
                    /\ 0 < _sfetch_slot_index h < p_size p).
Proof.
  unfold _sfetch_pool_item_lookup, _sfetch_pool_item_at. intros H.
  apply assert_bind_inv in H as [Hv H].
  destruct (h =? 0) eqn:Eh; simpl in H; [discriminate|].
  apply Z.eqb_neq in Eh.
  apply bind_inv in H as (it' & Hat & H).
  apply assert_bind_inv in Hat as [_ Hat].
  apply assert_bind_inv in Hat as [Hr Hat].
  destruct (handle it' =? h) eqn:E; [|discriminate].
  injection H as <-. apply Z.eqb_eq in E.
  repeat split; auto; specialize (Hr H); apply andb_true_iff in Hr as [?%Z.ltb_lt ?%Z.ltb_lt]; lia.
Qed.

Lemma lookup_ok dbg p h it :
  (dbg = true -> p_valid p = true /\ 0 < _sfetch_slot_index h < p_size p) ->
  h <> 0 -> arr_get (items p) (_sfetch_slot_index h) = Ok it -> handle it = h ->
  _sfetch_pool_item_lookup dbg p h = Ok (Some it).
Proof.
  intros Hd Hh Hat Hit.
  unfold _sfetch_pool_item_lookup, _sfetch_pool_item_at.
  assert (Hr : dbg = true ->
    (0 <? _sfetch_slot_index h) && (_sfetch_slot_index h <? p_size p) = true).
  { intros Hdbg. destruct (Hd Hdbg) as [_ [? ?]].
    apply andb_true_iff. split; apply Z.ltb_lt; lia. }
  rewrite !assert_bind_ok; auto; try (intros Hdbg; apply Hd, Hdbg).
  apply Z.eqb_neq in Hh. rewrite Hh. simpl.
  rewrite Hat. simpl. apply Z.eqb_eq in Hit. now rewrite Hit.
Qed.

(** Writing an item with the same handle back into the slot it was found
    in succeeds, and the next lookup finds what was written. *)
Lemma lookup_store dbg p h it it' :
  _sfetch_pool_item_lookup dbg p h = Ok (Some it) ->
  handle it' = h ->
  let p' := set_items p (<[Z.to_nat (_sfetch_slot_index h) := it']> (items p)) in
  item_store p h it' = Ok p' /\
  _sfetch_pool_item_lookup dbg p' h = Ok (Some it').
Proof.
  intros Hl Hh p'.
  apply lookup_inv in Hl as (Hne & Hat & _ & Hd).
  apply arr_get_inv in Hat as [Hr Hat].
  split.
  - unfold item_store. rewrite (arr_set_ok _ _ _ Hr). reflexivity.
  - apply lookup_ok; auto.
    apply arr_get_ok; [lia|]. simpl.
    apply list_lookup_insert_eq. lia.
Qed.

(** ** Binding and unbinding a buffer *)

(** C9: on a live handle without a buffer, [sfetch_bind_buffer] followed by
    [sfetch_unbind_buffer] hands back the pointer that was bound and leaves
    the item with a null pointer and a zero size. *)
Theorem bind_then_unbind_returns_pointer dbg ctx h p s item :
  valid ctx = true ->
  in_callback ctx = true ->
  _sfetch_pool_item_lookup dbg (pool ctx) h = Ok (Some item) ->
  ptr (buffer item) = 0 ->
  size (buffer item) = 0 ->
  exists ctx1 item1 ctx2 item2,
    sfetch_bind_buffer dbg ctx h p s = Ok ctx1 /\
    _sfetch_pool_item_lookup dbg (pool ctx1) h = Ok (Some item1) /\
    buffer item1 = {| ptr := p; size := s |} /\
    sfetch_unbind_buffer dbg ctx1 h = Ok (p, ctx2) /\
    _sfetch_pool_item_lookup dbg (pool ctx2) h = Ok (Some item2) /\
    ptr (buffer item2) = 0 /\ size (buffer item2) = 0.
Proof.
  intros Hv Hc Hl Hp Hs.
  set (item1 := set_buffer item {| ptr := p; size := s |}).
  assert (Hh : handle item = h) by (apply lookup_inv in Hl; tauto).
  destruct (lookup_store dbg (pool ctx) h item item1 Hl Hh) as [Hst1 Hl1].
  set (p1 := set_items (pool ctx) _) in *.
  set (item2 := set_buffer item1 {| ptr := 0; size := 0 |}).
  destruct (lookup_store dbg p1 h item1 item2 Hl1 Hh) as [Hst2 Hl2].
  set (p2 := set_items p1 _) in *.
  exists (set_pool ctx p1), item1, (set_pool (set_pool ctx p1) p2), item2.
  repeat split; auto.
  - unfold sfetch_bind_buffer.
    rewrite !assert_bind_ok by auto. rewrite Hl. res_simpl.
    rewrite assert_bind_ok.
    + fold item1. rewrite Hst1. reflexivity.
    + intros _. rewrite Hp, Hs. reflexivity.
  - unfold sfetch_unbind_buffer.
    rewrite !assert_bind_ok by auto. cbn [pool set_pool]. rewrite Hl1. res_simpl.
    fold item2. rewrite Hst2. reflexivity.
Qed.

(** ** The circular queue holds a FIFO *)

Lemma mod_range_cases a n :
  0 < n -> - n <= a < 2 * n ->
  a mod n = if a <? 0 then a + n else if a <? n then a else a - n.
Proof.
  intros Hn Ha.
  destruct (Z.ltb_spec a 0); [|destruct (Z.ltb_spec a n)]; symmetry.
  - apply (Z.mod_unique_pos a n (-1)); lia.
  - apply (Z.mod_unique_pos a n 0); lia.
  - apply (Z.mod_unique_pos a n 1); lia.
Qed.

Lemma u32_small x : 0 <= x < 2 ^ 32 -> u32 x = x.
Proof. intros H. unfold u32. now apply Z.mod_small. Qed.

Lemma u64_small x : 0 <= x < 2 ^ 64 -> u64 x = x.
Proof. intros H. unfold u64. now apply Z.mod_small. Qed.

(** Case analysis on the three reductions modulo [num] that the ring code
    performs. *)
Ltac ring_arith_step :=
  match goal with
  | |- context [?a <? ?b] => destruct (Z.ltb_spec a b)
  | H : context [?a <? ?b] |- _ => destruct (Z.ltb_spec a b)
  | |- context [?a mod ?n] => rewrite (mod_range_cases a n) by lia
  | H : context [?a mod ?n] |- _ => rewrite (mod_range_cases a n) in H by lia
  end.

Ltac ring_arith :=
  unfold ring_len, ring_cnt in *; repeat ring_arith_step; try lia.

Lemma ring_cnt_range rb : ring_wf rb -> 0 <= ring_cnt rb < num rb.
Proof. intros (Hn & Hh & Ht & Hl). unfold ring_cnt. apply Z.mod_pos_bound. lia. Qed.

Lemma ring_len_cnt rb : ring_wf rb -> Z.of_nat (ring_len rb) = ring_cnt rb.
Proof. intros H. unfold ring_len. pose proof (ring_cnt_range rb H). lia. Qed.

Lemma ring_contents_length rb : length (ring_contents rb) = ring_len rb.
Proof. unfold ring_contents. now rewrite length_fmap, length_seq. Qed.

Lemma ring_contents_lookup rb i :
  (i < ring_len rb)%nat -> ring_contents rb !! i = Some (ring_at rb i).
Proof.
  intros Hi. unfold ring_contents.
  rewrite list_lookup_fmap, lookup_seq_lt by exact Hi. reflexivity.
Qed.

Lemma ring_contents_lookup_ge rb i :
  (ring_len rb <= i)%nat -> ring_contents rb !! i = None.
Proof. intros Hi. apply lookup_ge_None. now rewrite ring_contents_length. Qed.

Lemma ring_wrap_ok rb i : ring_wf rb -> _sfetch_ring_wrap rb i = Ok (i mod num rb).
Proof.
  intros (Hn & _). unfold _sfetch_ring_wrap.
  destruct (Z.eqb_spec (num rb) 0); [lia | reflexivity].
Qed.

Lemma ring_count_ok dbg rb :
  ring_wf rb -> _sfetch_ring_count dbg rb = Ok (ring_cnt rb).
Proof.
  intros Hwf. pose proof (ring_cnt_range rb Hwf) as Hc.
  destruct Hwf as (Hn & Hh & Ht & Hl).
  unfold _sfetch_ring_count.
  assert (E : (if tail rb <=? head rb then head rb - tail rb
               else u32 (u32 (head rb + num rb) - tail rb)) = ring_cnt rb).
  { destruct (Z.leb_spec (tail rb) (head rb)).
    - unfold ring_cnt. rewrite Z.mod_small; lia.
    - unfold u32. rewrite Zminus_mod_idemp_l.
      rewrite (Z.mod_small (head rb + num rb - tail rb)) by lia.
      unfold ring_cnt. ring_arith. }
  rewrite E. rewrite assert_bind_ok; [reflexivity|].
  intros _. apply Z.ltb_lt. lia.
Qed.

Lemma ring_empty_len rb :
  ring_wf rb -> _sfetch_ring_empty rb = bool_decide (ring_len rb = O).
Proof.
  intros Hwf. pose proof (ring_len_cnt rb Hwf) as Hc.
  destruct Hwf as (Hn & Hh & Ht & Hl). unfold _sfetch_ring_empty.
  destruct (Z.eqb_spec (head rb) (tail rb)) as [E|E].
  - symmetry. apply bool_decide_eq_true. unfold ring_cnt in Hc. ring_arith.
  - symmetry. apply bool_decide_eq_false. unfold ring_cnt in Hc. ring_arith.
Qed.

Lemma ring_full_ok rb :
  ring_wf rb ->
  _sfetch_ring_full rb = Ok (bool_decide (ring_cnt rb = num rb - 1)).
Proof.
  intros Hwf. unfold _sfetch_ring_full.
  rewrite (ring_wrap_ok _ _ Hwf). res_simpl. f_equal.
  destruct Hwf as (Hn & Hh & Ht & Hl).
  rewrite u32_small by lia.
  destruct (Z.eqb_spec ((head rb + 1) mod num rb) (tail rb)) as [E|E]; symmetry.
  - apply bool_decide_eq_true. unfold ring_cnt. ring_arith.
  - apply bool_decide_eq_false. unfold ring_cnt. ring_arith.
Qed.

Lemma ring_push_wf rb x : ring_wf rb -> ring_wf (ring_push rb x).
Proof.
  intros (Hn & Hh & Ht & Hl). unfold ring_wf, ring_push. simpl.
  rewrite length_insert. repeat split; try lia; apply Z.mod_pos_bound; lia.
Qed.

Lemma ring_pop_wf rb : ring_wf rb -> ring_wf (ring_pop rb).
Proof.
  intros (Hn & Hh & Ht & Hl). unfold ring_wf, ring_pop. simpl.
  repeat split; try lia; apply Z.mod_pos_bound; lia.
Qed.

Lemma ring_push_cnt rb x :
  ring_wf rb -> ring_cnt rb < num rb - 1 ->
  ring_cnt (ring_push rb x) = ring_cnt rb + 1.
Proof.
  intros (Hn & Hh & Ht & Hl) Hc. unfold ring_cnt, ring_push in *. simpl.
  ring_arith.
Qed.

Lemma ring_pop_cnt rb :
  ring_wf rb -> 0 < ring_cnt rb -> ring_cnt (ring_pop rb) = ring_cnt rb - 1.
Proof.
  intros (Hn & Hh & Ht & Hl) Hc. unfold ring_cnt, ring_pop in *. simpl.
  ring_arith.
Qed.

Lemma ring_enqueue_ok dbg rb x :
  ring_wf rb -> ring_cnt rb < num rb - 1 ->
  _sfetch_ring_enqueue dbg rb x = Ok (ring_push rb x).
Proof.
  intros Hwf Hc. unfold _sfetch_ring_enqueue.
  rewrite assert_res_ok.
  2:{ intros _. rewrite (ring_full_ok _ Hwf). res_simpl.
      rewrite bool_decide_eq_false_2 by lia. reflexivity. }
  res_simpl.
  destruct Hwf as (Hn & Hh & Ht & Hl).
  rewrite assert_bind_ok by (intros _; apply Z.ltb_lt; lia).
  rewrite arr_set_ok by lia. res_simpl.
  unfold _sfetch_ring_wrap. destruct (Z.eqb_spec (num rb) 0); [lia|].
  res_simpl. rewrite u32_small by lia. reflexivity.
Qed.

Lemma ring_dequeue_ok dbg rb :
  ring_wf rb -> 0 < ring_cnt rb ->
  _sfetch_ring_dequeue dbg rb = Ok (ring_at rb 0, ring_pop rb).
Proof.
  intros Hwf Hc. unfold _sfetch_ring_dequeue.
  rewrite assert_bind_ok.
  2:{ intros _. rewrite (ring_empty_len _ Hwf).
      rewrite bool_decide_eq_false_2; [reflexivity|].
      pose proof (ring_len_cnt rb Hwf). lia. }
  destruct Hwf as (Hn & Hh & Ht & Hl).
  rewrite assert_bind_ok by (intros _; apply Z.ltb_lt; lia).
  assert (Hlt : (Z.to_nat (tail rb) < length (buf rb))%nat) by lia.
  apply lookup_lt_is_Some_2 in Hlt as [y Hy].
  rewrite (arr_get_ok _ _ y) by (auto; lia). res_simpl.
  unfold _sfetch_ring_wrap. destruct (Z.eqb_spec (num rb) 0); [lia|].
  res_simpl. rewrite u32_small by lia.
  unfold ring_at, ring_pop. change (Z.of_nat 0) with 0.
  rewrite Z.add_0_r, (Z.mod_small (tail rb)) by lia. rewrite Hy. reflexivity.
Qed.

Lemma ring_peek_ok dbg rb i :
  ring_wf rb -> (i < ring_len rb)%nat ->
  _sfetch_ring_peek dbg rb (Z.of_nat i) = Ok (ring_at rb i).
Proof.
  intros Hwf Hi. pose proof (ring_len_cnt rb Hwf) as Hlc.
  pose proof (ring_cnt_range rb Hwf) as Hr.
  unfold _sfetch_ring_peek.
  rewrite assert_bind_ok.
  2:{ intros _. rewrite (ring_empty_len _ Hwf).
      rewrite bool_decide_eq_false_2; [reflexivity | lia]. }
  rewrite assert_res_ok.
  2:{ intros _. rewrite (ring_count_ok _ _ Hwf). res_simpl. f_equal.
      apply Z.ltb_lt. lia. }
  res_simpl. rewrite (ring_wrap_ok _ _ Hwf). res_simpl.
  destruct Hwf as (Hn & Hh & Ht & Hl).
  rewrite u32_small by lia.
  assert (Hb : 0 <= (tail rb + Z.of_nat i) mod num rb < num rb)
    by (apply Z.mod_pos_bound; lia).
  assert (Hlt : (Z.to_nat ((tail rb + Z.of_nat i) mod num rb) < length (buf rb))%nat)
    by lia.
  apply lookup_lt_is_Some_2 in Hlt as [y Hy].
  rewrite (arr_get_ok _ _ y) by (auto; lia).
  unfold ring_at. rewrite Hy. reflexivity.
Qed.

Lemma ring_pop_at rb i :
  ring_wf rb -> ring_at (ring_pop rb) i = ring_at rb (S i).
Proof.
  intros (Hn & Hh & Ht & Hl). unfold ring_at, ring_pop. simpl.
  rewrite Zplus_mod_idemp_l.
  replace (tail rb + 1 + Z.of_nat i) with (tail rb + Z.of_nat (S i)) by lia.
  reflexivity.
Qed.

Lemma ring_pop_contents rb :
  ring_wf rb -> 0 < ring_cnt rb ->
  ring_contents rb = ring_at rb 0 :: ring_contents (ring_pop rb).
Proof.
  intros Hwf Hc.
  pose proof (ring_len_cnt rb Hwf) as Hlc.
  pose proof (ring_len_cnt _ (ring_pop_wf rb Hwf)) as Hlc'.
  rewrite (ring_pop_cnt rb Hwf Hc) in Hlc'.
  apply list_eq. intros [|i].
  - rewrite ring_contents_lookup by lia. reflexivity.
  - simpl. destruct (decide (S i < ring_len rb)%nat).
    + rewrite !ring_contents_lookup by lia. now rewrite ring_pop_at.
    + rewrite !ring_contents_lookup_ge by lia. reflexivity.
Qed.

Lemma ring_idx_head rb :
  ring_wf rb -> (tail rb + ring_cnt rb) mod num rb = head rb.
Proof. intros (Hn & Hh & Ht & Hl). unfold ring_cnt. ring_arith. Qed.

Lemma ring_idx_ne rb i :
  ring_wf rb -> 0 <= i < ring_cnt rb -> (tail rb + i) mod num rb <> head rb.
Proof. intros (Hn & Hh & Ht & Hl). unfold ring_cnt. intros Hi. ring_arith. Qed.

Lemma ring_push_contents rb x :
  ring_wf rb -> ring_cnt rb < num rb - 1 ->
  ring_contents (ring_push rb x) = ring_contents rb ++ [x].
Proof.
  intros Hwf Hc.
  pose proof (ring_len_cnt rb Hwf) as Hlc.
  pose proof (ring_len_cnt _ (ring_push_wf rb x Hwf)) as Hlc'.
  rewrite (ring_push_cnt rb x Hwf Hc) in Hlc'.
  pose proof (ring_cnt_range rb Hwf) as Hr.
  pose proof (ring_idx_head rb Hwf) as Hhd.
  pose proof (ring_idx_ne rb) as Hne.
  assert (Hb : Z.of_nat (length (buf rb)) = num rb) by apply Hwf.
  assert (Hh : 0 <= head rb < num rb) by apply Hwf.
  apply list_eq. intros i.
  destruct (decide (i < ring_len rb)%nat) as [Hi|Hi].
  - rewrite lookup_app_l by (rewrite ring_contents_length; lia).
    rewrite !ring_contents_lookup by lia. f_equal.
    unfold ring_at, ring_push. simpl.
    rewrite list_lookup_insert_ne; [reflexivity|].
    specialize (Hne (Z.of_nat i) Hwf ltac:(lia)).
    assert (0 <= (tail rb + Z.of_nat i) mod num rb)
      by (apply Z.mod_pos_bound; lia).
    lia.
  - destruct (decide (i = ring_len rb)) as [->|Hn].
    + rewrite lookup_app_r by (rewrite ring_contents_length; lia).
      rewrite ring_contents_length, Nat.sub_diag.
      rewrite ring_contents_lookup by lia. simpl. f_equal.
      unfold ring_at, ring_push. simpl.
      rewrite Hlc, Hhd.
      rewrite list_lookup_insert_eq by lia. reflexivity.
    + rewrite ring_contents_lookup_ge by lia.
      symmetry. apply lookup_ge_None.
      rewrite length_app, ring_contents_length. simpl. lia.
Qed.

Lemma lor_disjoint_add a b :
  0 <= a -> 0 <= b < 2 ^ 16 -> Z.lor (a * 2 ^ 16) b = a * 2 ^ 16 + b.
Proof.
  intros Ha Hb.
  assert (Hland : Z.land (a * 2 ^ 16) b = 0).
  { apply Z.bits_inj'. intros n Hn. rewrite Z.land_spec, Z.bits_0.
    destruct (Z.lt_ge_cases n 16).
    - rewrite Z.mul_pow2_bits_low by lia. reflexivity.
    - rewrite (Z.bits_above_log2 b n); [apply andb_false_r| lia |].
      destruct (Z.eq_dec b 0) as [->|]; [simpl; lia|].
      apply Z.log2_lt_pow2; [lia|]. 
      apply Z.lt_le_trans with (2 ^ 16); [lia|]. apply Z.pow_le_mono_r; lia. }
  rewrite <- Z.lxor_lor by exact Hland.
  symmetry. apply Z.add_nocarry_lxor. exact Hland.
Qed.

Lemma make_id_arith i g :
  0 <= g -> _sfetch_make_id i g = (g mod 2 ^ 16) * 2 ^ 16 + i mod 2 ^ 16.
Proof.
  intros Hg. unfold _sfetch_make_id, u32.
  rewrite Z.shiftl_mul_pow2 by lia.
  change (2 ^ 32) with (2 ^ 16 * 2 ^ 16).
  rewrite Z.mul_mod_distr_r by lia.
  change 0xFFFF with (Z.ones 16). rewrite Z.land_ones by lia.
  apply lor_disjoint_add.
  - apply Z.mod_pos_bound. lia.
  - apply Z.mod_pos_bound. lia.
Qed.

Lemma slot_index_mod h : _sfetch_slot_index h = h mod 2 ^ 16.
Proof.
  unfold _sfetch_slot_index. change 0xFFFF with (Z.ones 16).
  apply Z.land_ones. lia.
Qed.

Lemma slot_index_make_id i g :
  0 <= g -> _sfetch_slot_index (_sfetch_make_id i g) = i mod 2 ^ 16.
Proof.
  intros Hg. rewrite slot_index_mod, make_id_arith by exact Hg.
  rewrite Z.add_comm, Z.mod_add by lia. apply Z.mod_mod. lia.
Qed.

Lemma make_id_eq_iff i g1 g2 :
  0 <= g1 -> 0 <= g2 ->
  _sfetch_make_id i g1 = _sfetch_make_id i g2 <-> g1 mod 2 ^ 16 = g2 mod 2 ^ 16.
Proof.
  intros H1 H2. rewrite !make_id_arith by assumption. split; [|congruence].
  intros H. lia.
Qed.

Lemma make_id_nonzero i g : 0 <= g -> 0 < i < 2 ^ 16 -> _sfetch_make_id i g <> 0.
Proof.
  intros Hg Hi. rewrite make_id_arith by exact Hg.
  rewrite (Z.mod_small i) by lia.
  pose proof (Z.mod_pos_bound g (2 ^ 16) ltac:(lia)). lia.
Qed.

(** ** The pool hands out and takes back slots *)

Lemma slot_index_range h : 0 <= _sfetch_slot_index h < 2 ^ 16.
Proof. rewrite slot_index_mod. apply Z.mod_pos_bound. lia. Qed.

Lemma live_lookup dbg p h :
  pool_wf p -> live p h ->
  exists it, _sfetch_pool_item_lookup dbg p h = Ok (Some it)
             /\ slot p (_sfetch_slot_index h) = Some it.
Proof.
  intros Hwf (Hne & it & Hs & Hh). exists it. split; [|exact Hs].
  pose proof (slot_index_range h) as Hr.
  apply lookup_ok; auto.
  - intros _. split; [apply Hwf|].
    destruct (pw_live p Hwf _ it (proj1 Hr) Hs) as [Hpos _]; [congruence|].
    apply lookup_lt_Some in Hs. destruct Hwf. lia.
  - apply arr_get_ok; [lia | exact Hs].
Qed.

Lemma lookup_live dbg p h it :
  _sfetch_pool_item_lookup dbg p h = Ok (Some it) -> live p h.
Proof.
  intros H. apply lookup_inv in H as (Hne & Hat & Hh & _).
  apply arr_get_inv in Hat as [_ Hat]. split; [exact Hne|]. now exists it.
Qed.

Lemma lookup_live_slot dbg p h it :
  _sfetch_pool_item_lookup dbg p h = Ok (Some it) ->
  slot p (_sfetch_slot_index h) = Some it /\ handle it = h /\ h <> 0.
Proof.
  intros H. apply lookup_inv in H as (Hne & Hat & Hh & _).
  apply arr_get_inv in Hat as [_ Hat]. auto.
Qed.

(** Two live ids in the same slot are the same id. *)
Lemma live_index_inj p a b :
  live p a -> live p b -> _sfetch_slot_index a = _sfetch_slot_index b -> a = b.
Proof.
  intros (_ & ia & Ha & <-) (_ & ib & Hb & <-) E.
  rewrite E in Ha. congruence.
Qed.

Lemma live_not_free p h :
  pool_wf p -> live p h -> _sfetch_slot_index h ∉ free_stack p.
Proof.
  intros Hwf (Hne & it & Hs & Hh) Hin.
  destruct (pw_free p Hwf _ Hin) as (_ & it' & Hs' & Hz). congruence.
Qed.

Lemma item_init_inv dbg it0 id r it :
  _sfetch_item_init dbg it0 id r = Ok it ->
  set_state it _SFETCH_STATE_ALLOCATED = item_of_request it0 id r.
Proof.
  unfold _sfetch_item_init. intros H. res_inv H. subst it. reflexivity.
Qed.

(** What a successful [_sfetch_pool_item_alloc] did. *)
Lemma alloc_inv dbg p r id p' :
  pool_wf p ->
  _sfetch_pool_item_alloc dbg p r = Ok (id, p') ->
  (free_top p = 0 /\ id = 0 /\ p' = p) \/
  (0 < free_top p /\ exists s g it0,
     free_slots p !! Z.to_nat (free_top p - 1) = Some s /\
     gen_ctrs p !! Z.to_nat s = Some g /\
     slot p s = Some it0 /\
     id = _sfetch_make_id s (u32 (g + 1)) /\
     p' = pool_after_alloc p s g (item_of_request it0 id r)).
Proof.
  intros Hwf H. unfold _sfetch_pool_item_alloc in H.
  apply assert_bind_inv in H as [_ H].
  destruct (Z.ltb_spec 0 (free_top p)) as [Ht|Ht].
  - right. split; [exact Ht|].
    pose proof (pw_top p Hwf) as Htop. pose proof (pw_size p Hwf) as Hsz.
    rewrite (u32_small (free_top p - 1)) in H by lia.
    res_inv H.
    apply arr_get_inv in Hstep as [_ Hs].
    apply arr_get_inv in Hstep0 as [Hr Hg].
    apply arr_set_inv in Hstep1 as [_ ->].
    apply arr_get_inv in Hstep2 as [_ Hit].
    apply arr_set_inv in Hstep4 as [_ ->].
    apply item_init_inv in Hstep3.
    exists a, a0, a2. injection H as <- <-.
    rewrite Hstep3. unfold pool_after_alloc.
    rewrite (u32_small (free_top p - 1)) by lia.
    repeat split; auto.
  - left. pose proof (pw_top p Hwf). res_inv H. injection H as <- <-.
    repeat split. lia.
Qed.

Lemma free_stack_lookup p i s :
  free_stack p !! i = Some s <->
  free_slots p !! i = Some s /\ (i < Z.to_nat (free_top p))%nat.
Proof. unfold free_stack. apply lookup_take_Some. Qed.

Lemma slot_insert_eq p s it :
  0 <= s < Z.of_nat (length (items p)) ->
  slot (set_items p (<[Z.to_nat s := it]> (items p))) s = Some it.
Proof. intros H. unfold slot. simpl. apply list_lookup_insert_eq. lia. Qed.

Lemma alloc_wf p s g it :
  pool_wf p -> 0 < free_top p ->
  free_slots p !! Z.to_nat (free_top p - 1) = Some s ->
  gen_ctrs p !! Z.to_nat s = Some g ->
  handle it = _sfetch_make_id s (u32 (g + 1)) ->
  pool_wf (pool_after_alloc p s g it).
Proof.
  intros Hwf Ht Hs Hg Hit.
  pose proof (pw_top p Hwf) as Htop. pose proof (pw_size p Hwf) as Hsz.
  assert (Hin : s ∈ free_stack p).
  { apply list_elem_of_lookup. exists (Z.to_nat (free_top p - 1)).
    apply free_stack_lookup. split; [exact Hs | lia]. }
  destruct (pw_free p Hwf s Hin) as (Hsr & it0 & Hs0 & Hz).
  assert (Hfs : free_stack (pool_after_alloc p s g it)
                = take (Z.to_nat (free_top p - 1)) (free_stack p)).
  { unfold free_stack, pool_after_alloc. simpl.
    rewrite u32_small by lia. rewrite take_take. f_equal. lia. }
  constructor; simpl.
  - apply Hwf.
  - exact Hsz.
  - rewrite length_insert. apply Hwf.
  - rewrite length_insert. apply Hwf.
  - apply Hwf.
  - rewrite u32_small by lia. lia.
  - rewrite Hfs. eapply sublist_NoDup; [apply Hwf | apply sublist_take].
  - intros s' Hs'. rewrite Hfs in Hs'.
    apply list_elem_of_lookup in Hs' as [i Hi].
    apply lookup_take_Some in Hi as [Hi Hlt].
    assert (Hin' : s' ∈ free_stack p) by (eapply list_elem_of_lookup_2; eauto).
    destruct (pw_free p Hwf s' Hin') as (Hr' & it' & Hs1 & Hz').
    split; [exact Hr'|]. exists it'. split; [|exact Hz'].
    unfold slot in *. simpl. rewrite list_lookup_insert_ne; [exact Hs1|].
    intros E. assert (s = s') by lia. subst s'.
    assert (Hj : free_stack p !! Z.to_nat (free_top p - 1) = Some s)
      by (apply free_stack_lookup; split; [exact Hs | lia]).
    pose proof (NoDup_lookup _ _ _ _ (pw_nodup p Hwf) Hi Hj). lia.
  - intros i it1 Hi Hs1 Hne. unfold slot in Hs1. simpl in Hs1.
    destruct (decide (Z.to_nat s = Z.to_nat i)) as [E|E].
    + assert (i = s) by lia. subst i.
      rewrite list_lookup_insert_eq in Hs1
        by (apply lookup_lt_Some in Hs0; exact Hs0).
      injection Hs1 as <-. split; [lia|].
      exists (u32 (g + 1)). split; [|exact Hit].
      apply list_lookup_insert_eq. apply lookup_lt_Some in Hg. exact Hg.
    + rewrite list_lookup_insert_ne in Hs1 by exact E.
      destruct (pw_live p Hwf i it1 Hi Hs1 Hne) as (Hp & g1 & Hg1 & Hh1).
      split; [exact Hp|]. exists g1. split; [|exact Hh1].
      rewrite list_lookup_insert_ne by exact E. exact Hg1.
  - intros i g1 Hg1.
    destruct (decide (Z.to_nat s = i)) as [E|E].
    + subst i. rewrite list_lookup_insert_eq in Hg1
        by (apply lookup_lt_Some in Hg; exact Hg).
      injection Hg1 as <-. unfold u32. apply Z.mod_pos_bound. lia.
    + rewrite list_lookup_insert_ne in Hg1 by exact E.
      eapply pw_gen_range; eauto.
Qed.

(** What a successful [_sfetch_pool_item_free] of a live id did. *)
Lemma free_inv dbg p h p' :
  pool_wf p -> live p h ->
  _sfetch_pool_item_free dbg p h = Ok p' ->
  p' = pool_after_free p h /\ free_top p < p_size p - 1.
Proof.
  intros Hwf Hl H. unfold _sfetch_pool_item_free in H.
  res_inv H. subst p'.
  apply arr_set_inv in Hstep1 as [_ ->].
  apply arr_set_inv in Hstep2 as [Hr ->].
  unfold _sfetch_item_discard in Hstep0. res_inv Hstep0. subst a0.
  pose proof (pw_slots p Hwf). split; [reflexivity | lia].
Qed.

Lemma free_wf p h :
  pool_wf p -> live p h -> free_top p < p_size p - 1 ->
  pool_wf (pool_after_free p h).
Proof.
  intros Hwf Hl Ht.
  pose proof (pw_top p Hwf) as Htop. pose proof (pw_size p Hwf) as Hsz.
  pose proof (live_not_free p h Hwf Hl) as Hnf.
  destruct Hl as (Hne & it & Hs & Hh).
  pose proof (slot_index_range h) as Hr.
  destruct (pw_live p Hwf _ it (proj1 Hr) Hs) as (Hpos & g & Hg & Hid);
    [congruence|].
  set (s := _sfetch_slot_index h) in *.
  assert (Hslt : s < p_size p).
  { apply lookup_lt_Some in Hs. pose proof (pw_items p Hwf). lia. }
  assert (Hfs : free_stack (pool_after_free p h) = free_stack p ++ [s]).
  { unfold free_stack, pool_after_free. simpl. fold s.
    rewrite u32_small by lia.
    replace (Z.to_nat (free_top p + 1)) with (S (Z.to_nat (free_top p))) by lia.
    erewrite take_S_r.
    2:{ apply list_lookup_insert_eq. pose proof (pw_slots p Hwf). lia. }
    rewrite take_insert_ge by lia. reflexivity. }
  constructor; simpl.
  - apply Hwf.
  - exact Hsz.
  - rewrite length_insert. apply Hwf.
  - apply Hwf.
  - rewrite length_insert. apply Hwf.
  - rewrite u32_small by lia. lia.
  - rewrite Hfs. apply NoDup_app. split; [apply Hwf|]. split.
    + intros x Hx Hx'. apply list_elem_of_singleton in Hx'. subst x. auto.
    + apply NoDup_singleton.
  - intros s' Hs'. rewrite Hfs in Hs'. apply elem_of_app in Hs' as [Hs'|Hs'].
    + destruct (pw_free p Hwf s' Hs') as (Hr' & it' & Hs1 & Hz').
      split; [exact Hr'|]. exists it'. split; [|exact Hz'].
      unfold slot in *. simpl. fold s. rewrite list_lookup_insert_ne; [exact Hs1|].
      intros E. assert (s = s') by lia. subst s'. auto.
    + apply list_elem_of_singleton in Hs'. subst s'. split; [lia|].
      exists _sfetch_item_zero. split; [|reflexivity].
      unfold slot. simpl. fold s. apply list_lookup_insert_eq.
      apply lookup_lt_Some in Hs. exact Hs.
  - intros i it1 Hi Hs1 Hne1. unfold slot in Hs1. simpl in Hs1. fold s in Hs1.
    destruct (decide (Z.to_nat s = Z.to_nat i)) as [E|E].
    + rewrite E in Hs1. rewrite list_lookup_insert_eq in Hs1.
      * injection Hs1 as <-. simpl in Hne1. congruence.
      * rewrite <- E. apply lookup_lt_Some in Hs. exact Hs.
    + rewrite list_lookup_insert_ne in Hs1 by exact E.
      exact (pw_live p Hwf i it1 Hi Hs1 Hne1).
  - apply Hwf.
Qed.

(** Writing an item back into the slot of a live id, with the id kept. *)
Lemma store_wf p h it :
  pool_wf p -> live p h -> handle it = h ->
  pool_wf (set_items p (<[Z.to_nat (_sfetch_slot_index h) := it]> (items p))).
Proof.
  intros Hwf Hl Hh.
  pose proof (live_not_free p h Hwf Hl) as Hnf.
  destruct Hl as (Hne & it0 & Hs & Hh0).
  pose proof (slot_index_range h) as Hr.
  destruct (pw_live p Hwf _ it0 (proj1 Hr) Hs) as (Hpos & g & Hg & Hid);
    [congruence|].
  set (s := _sfetch_slot_index h) in *.
  constructor; simpl; try apply Hwf.
  - rewrite length_insert. apply Hwf.
  - intros s' Hs'.
    destruct (pw_free p Hwf s' Hs') as (Hr' & it' & Hs1 & Hz').
    split; [exact Hr'|]. exists it'. split; [|exact Hz'].
    unfold slot in *. simpl. rewrite list_lookup_insert_ne; [exact Hs1|].
    intros E. assert (s = s') by lia. subst s'. auto.
  - intros i it1 Hi Hs1 Hne1. unfold slot in Hs1. simpl in Hs1.
    destruct (decide (Z.to_nat s = Z.to_nat i)) as [E|E].
    + assert (i = s) by lia. subst i.
      rewrite list_lookup_insert_eq in Hs1
        by (apply lookup_lt_Some in Hs; exact Hs).
      injection Hs1 as <-. split; [lia|]. exists g. split; [exact Hg|].
      congruence.
    + rewrite list_lookup_insert_ne in Hs1 by exact E.
      exact (pw_live p Hwf i it1 Hi Hs1 Hne1).
Qed.

(** ** Stale handles *)

Lemma u32_mod16 x : u32 x mod 2 ^ 16 = x mod 2 ^ 16.
Proof.
  unfold u32. rewrite (Z.div_mod x (2 ^ 32)) at 2 by lia.
  replace (2 ^ 32 * (x / 2 ^ 32) + x mod 2 ^ 32)
    with (x mod 2 ^ 32 + (2 ^ 16 * (x / 2 ^ 32)) * 2 ^ 16) by lia.
  now rewrite Z.mod_add by lia.
Qed.

Lemma live_range p h :
  pool_wf p -> live p h -> 0 < _sfetch_slot_index h < p_size p.
Proof.
  intros Hwf (Hne & it & Hs & Hh).
  pose proof (slot_index_range h) as Hr.
  destruct (pw_live p Hwf _ it (proj1 Hr) Hs) as [Hpos _]; [congruence|].
  apply lookup_lt_Some in Hs. pose proof (pw_items p Hwf). lia.
Qed.

(** Freeing a live id leaves its slot stale with no allocation yet. *)
Lemma stale_after_free p h :
  pool_wf p -> live p h -> free_top p < p_size p - 1 ->
  stale (pool_after_free p h) h O.
Proof.
  intros Hwf Hl Ht. pose proof (live_range p h Hwf Hl) as Hr.
  split; [now apply free_wf|]. split; [exact Hr|].
  destruct Hl as (Hne & it & Hs & Hh).
  destruct (pw_live p Hwf _ it (proj1 (slot_index_range h)) Hs) as (_ & g & Hg & Hid);
    [congruence|].
  exists g, g. pose proof (pw_gen_range p Hwf _ _ Hg).
  split; [lia|]. split; [congruence|]. split; [exact Hg|].
  split; [f_equal; lia|].
  intros _. exists _sfetch_item_zero. split; [|reflexivity].
  unfold slot. simpl. apply list_lookup_insert_eq.
  apply lookup_lt_Some in Hs. exact Hs.
Qed.

Lemma stale_not_live p h :
  stale p h O -> ~ live p h.
Proof.
  intros (Hwf & Hr & g0 & g & _ & _ & _ & _ & Hz) (Hne & it & Hs & Hh).
  destruct (Hz eq_refl) as (it' & Hs' & Hz'). congruence.
Qed.

Lemma stale_step dbg p h j o p1 hit :
  stale p h j ->
  pool_step dbg (_sfetch_slot_index h) p o = Ok (p1, hit) ->
  stale p1 h (if hit then S j else j).
Proof.
  intros Hst H. pose proof Hst as (Hwf & Hr & g0 & g & Hg0 & Hh & Hg & Hmod & Hz).
  remember (_sfetch_slot_index h) as s eqn:Heqs.
  assert (Hfold : forall p1 j1,
    (pool_wf p1 /\ 0 < s < p_size p1 /\
     exists g0 g, 0 <= g0 /\ h = _sfetch_make_id s g0 /\
       gen_ctrs p1 !! Z.to_nat s = Some g /\
       g mod 2 ^ 16 = (g0 + Z.of_nat j1) mod 2 ^ 16 /\
       (j1 = O -> exists it, slot p1 s = Some it /\ handle it = 0)) ->
    stale p1 h j1).
  { intros p1' j1 Hx. unfold stale. rewrite <- Heqs. exact Hx. }
  destruct o as [r | h' | h' f]; simpl in H.
  - (* alloc *)
    res_inv H. destruct a as [id p']. res_inv H. injection H as <- <-.
    apply (alloc_inv dbg p r id p' Hwf) in Hstep
      as [(Ht & -> & ->) | (Ht & s' & g' & it0 & Hs' & Hg' & Hit0 & Hid & ->)].
    + simpl. exact Hst.
    + assert (Hin : s' ∈ free_stack p).
      { apply list_elem_of_lookup. exists (Z.to_nat (free_top p - 1)).
        apply free_stack_lookup. split; [exact Hs' | lia]. }
      destruct (pw_free p Hwf s' Hin) as (Hsr & it0' & Hs0 & Hz0).
      pose proof (pw_size p Hwf) as Hsz.
      assert (Hu : 0 <= u32 (g' + 1)) by (unfold u32; apply Z.mod_pos_bound; lia).
      assert (Hidx : _sfetch_slot_index id = s').
      { rewrite Hid, slot_index_make_id by exact Hu. apply Z.mod_small. lia. }
      assert (Hnz : id <> 0) by (rewrite Hid; apply make_id_nonzero; lia).
      assert (Hwf' : pool_wf (pool_after_alloc p s' g' (item_of_request it0 id r)))
        by (apply alloc_wf; auto).
      apply Z.eqb_neq in Hnz. rewrite Hnz. simpl. rewrite Hidx. clear Hidx.
      destruct (Z.eqb_spec s' s) as [E|E].
      * subst s'. apply Hfold. split; [exact Hwf'|]. split; [exact Hr|].
        exists g0, (u32 (g + 1)). repeat split; auto.
        -- simpl. rewrite Hg in Hg'. injection Hg' as <-.
           apply list_lookup_insert_eq. apply lookup_lt_Some in Hg. exact Hg.
        -- rewrite u32_mod16. rewrite <- Zplus_mod_idemp_l, Hmod.
           rewrite Zplus_mod_idemp_l. f_equal. lia.
        -- discriminate.
      * apply Hfold. split; [exact Hwf'|]. split; [exact Hr|].
        exists g0, g. repeat split; auto.
        -- simpl. rewrite list_lookup_insert_ne by lia. exact Hg.
        -- intros Hj. destruct (Hz Hj) as (it & Hs & Hit). exists it.
           split; [|exact Hit]. unfold slot. simpl.
           rewrite list_lookup_insert_ne by lia. exact Hs.
  - (* free *)
    res_inv H. injection H as <- <-.
    destruct a as [it|]; [|discriminate].
    pose proof (lookup_live _ _ _ _ Hstep) as Hl.
    apply (free_inv dbg p h' a1 Hwf Hl) in Hstep1 as [-> Ht].
    apply Hfold. split; [now apply free_wf|]. split; [exact Hr|].
    exists g0, g. repeat split; auto.
    intros Hj. destruct (Hz Hj) as (it' & Hs & Hit).
    unfold slot. simpl.
    destruct (decide (Z.to_nat (_sfetch_slot_index h') = Z.to_nat s)) as [E|E].
    + exists _sfetch_item_zero. split; [|reflexivity]. rewrite E.
      apply list_lookup_insert_eq. apply lookup_lt_Some in Hs. exact Hs.
    + exists it'. split; [|exact Hit].
      rewrite list_lookup_insert_ne by exact E. exact Hs.
  - (* update *)
    res_inv H. injection H as <- <-.
    destruct a as [it|]; [|discriminate]. simpl in Hstep0. res_inv Hstep0. subst a0.
    pose proof (lookup_live _ _ _ _ Hstep) as Hl.
    pose proof (lookup_live_slot _ _ _ _ Hstep) as (Hs' & Hh' & Hne').
    unfold item_store in Hstep1. res_inv Hstep1. subst a1.
    apply arr_set_inv in Hstep0 as [_ ->].
    apply Hfold. split; [apply store_wf; auto|]. split; [exact Hr|].
    exists g0, g. repeat split; auto.
    intros Hj. destruct (Hz Hj) as (it' & Hs & Hit).
    exists it'. split; [|exact Hit]. unfold slot. simpl.
    rewrite list_lookup_insert_ne; [exact Hs|].
    intros E. pose proof (slot_index_range h').
    assert (E' : _sfetch_slot_index h' = s) by lia.
    rewrite E' in Hs'. unfold slot in *. congruence.
Qed.

Lemma stale_run dbg h ops : forall p j p' k,
  stale p h j ->
  pool_run dbg (_sfetch_slot_index h) p ops = Ok (p', k) ->
  stale p' h (j + k).
Proof.
  induction ops as [|o ops IH]; intros p j p' k Hst H; simpl in H.
  - res_inv H. injection H as <- <-. now rewrite Nat.add_0_r.
  - res_inv H. destruct a as [p1 hit]. res_inv H. destruct a as [p2 k'].
    res_inv H. injection H as <- <-.
    pose proof (stale_step _ _ _ _ _ _ _ Hst Hstep) as Hst1.
    pose proof (IH _ _ _ _ Hst1 Hstep0) as Hst2.
    destruct hit; [|exact Hst2].
    now replace (j + S k')%nat with (S j + k')%nat by lia.
Qed.

(** A stale id is not found unless its slot has been allocated a positive
    multiple of 2^16 times since. *)
Lemma stale_lookup dbg p h j :
  stale p h j -> j = O \/ Z.of_nat j mod 2 ^ 16 <> 0 ->
  _sfetch_pool_item_lookup dbg p h = Ok None.
Proof.
  intros (Hwf & Hr & g0 & g & Hg0 & Hh & Hg & Hmod & Hz) Hj.
  set (s := _sfetch_slot_index h) in *.
  assert (Hlt : (Z.to_nat s < length (items p))%nat)
    by (pose proof (pw_items p Hwf); lia).
  apply lookup_lt_is_Some_2 in Hlt as [it Hs].
  unfold _sfetch_pool_item_lookup, _sfetch_pool_item_at. fold s.
  rewrite !assert_bind_ok by (intros _; apply Hwf).
  destruct (Z.eqb_spec h 0) as [E|E]; [reflexivity|]. simpl.
  rewrite assert_bind_ok
    by (intros _; apply andb_true_iff; split; apply Z.ltb_lt; lia).
  rewrite (arr_get_ok _ _ it) by (auto; lia). res_simpl.
  destruct (Z.eqb_spec (handle it) h) as [Eh|Eh]; [exfalso|reflexivity].
  destruct (pw_live p Hwf s it ltac:(lia) Hs) as (_ & g1 & Hg1 & Hid);
    [congruence|].
  assert (g1 = g) by (unfold slot in *; congruence). subst g1.
  pose proof (pw_gen_range p Hwf _ _ Hg) as Hgr.
  rewrite Eh in Hid. rewrite Hh in Hid at 1.
  apply make_id_eq_iff in Hid; [|lia|lia].
  destruct j as [|j].
  - destruct (Hz eq_refl) as (it' & Hs' & Hz'). unfold slot in *. congruence.
  - rewrite Hmod in Hid.
    assert (Hcontra : (g0 + Z.of_nat (S j)) mod 2 ^ 16 <> g0 mod 2 ^ 16).
    { intros Hc.
      assert ((g0 + Z.of_nat (S j) - g0) mod 2 ^ 16 = 0).
      { rewrite Zminus_mod, Hc, Z.sub_diag. reflexivity. }
      replace (g0 + Z.of_nat (S j) - g0) with (Z.of_nat (S j)) in H by lia.
      destruct Hj as [Hj|Hj]; [discriminate | contradiction]. }
    congruence.
Qed.

(** C4, amended: once the slot of a live handle [h] has been freed,
    [sfetch_handle_valid h] is false after every history of the pool in
    which the number of times that slot is allocated again is not a positive
    multiple of 2^16: zero times, or a number that 2^16 does not divide. *)
Theorem stale_handle_invalid_unless_wrapped dbg ctx p h it p1 ops k :
  pool_wf p ->
  _sfetch_pool_item_lookup dbg p h = Ok (Some it) ->
  _sfetch_pool_item_free dbg p h = Ok p1 ->
  pool_run dbg (_sfetch_slot_index h) p1 ops = Ok (pool ctx, k) ->
  k = O \/ Z.of_nat k mod 2 ^ 16 <> 0 ->
  valid ctx = true ->
  sfetch_handle_valid dbg ctx h = Ok false.
Proof.
  intros Hwf Hl Hf Hrun Hk Hv.
  apply lookup_live in Hl.
  apply (free_inv dbg p h p1 Hwf Hl) in Hf as [-> Ht].
  pose proof (stale_after_free p h Hwf Hl Ht) as Hst.
  pose proof (stale_run dbg h ops _ _ _ _ Hst Hrun) as Hst'.
  unfold sfetch_handle_valid.
  rewrite assert_bind_ok by auto.
  destruct (h =? 0); [reflexivity|].
  rewrite (stale_lookup dbg _ h _ Hst' Hk). reflexivity.
Qed.

(** ** A fresh pool is well-formed *)

Lemma elem_of_countdown n x : x ∈ countdown n <-> 1 <= x <= Z.of_nat n.
Proof.
  induction n as [|n IH]; simpl.
  - rewrite elem_of_nil. lia.
  - rewrite elem_of_cons, IH. lia.
Qed.

Lemma NoDup_countdown n : NoDup (countdown n).
Proof.
  induction n as [|n IH]; simpl; constructor; auto.
  rewrite elem_of_countdown. lia.
Qed.

Lemma pool_init_loop_ok n : forall fuel p,
  (n < fuel)%nat ->
  0 <= free_top p ->
  free_top p + Z.of_nat n <= Z.of_nat (length (free_slots p)) < 2 ^ 32 ->
  exists fs,
    _sfetch_pool_init_loop fuel (Z.of_nat n) p
    = Ok {| p_size := p_size p; free_top := free_top p + Z.of_nat n;
            items := items p; free_slots := fs; gen_ctrs := gen_ctrs p;
            p_valid := p_valid p |}
    /\ length fs = length (free_slots p)
    /\ take (Z.to_nat (free_top p + Z.of_nat n)) fs
       = take (Z.to_nat (free_top p)) (free_slots p) ++ countdown n.
Proof.
  induction n as [|n IH]; intros fuel p Hf Ht Hlen.
  - exists (free_slots p). destruct fuel as [|fuel]; [lia|]. simpl.
    rewrite Z.add_0_r, app_nil_r. destruct p; auto.
  - destruct fuel as [|fuel]; [lia|]. simpl _sfetch_pool_init_loop.
    destruct (Z.leb_spec 1 (Z.of_nat (S n))); [|lia].
    rewrite arr_set_ok by lia. res_simpl.
    replace (u32 (Z.of_nat (S n) - 1)) with (Z.of_nat n)
      by (rewrite u32_small; lia).
    rewrite (u32_small (free_top p + 1)) by lia.
    edestruct (IH fuel) as (fs & Hrun & Hl & Htake);
      [| | | rewrite Hrun]; simpl; try rewrite length_insert; try lia.
    exists fs. simpl in *. rewrite length_insert in Hl.
    split; [f_equal; f_equal; lia|]. split; [exact Hl|].
    replace (free_top p + Z.of_nat (S n)) with (free_top p + 1 + Z.of_nat n) by lia.
    rewrite Htake.
    replace (Z.to_nat (free_top p + 1)) with (S (Z.to_nat (free_top p))) by lia.
    erewrite take_S_r by (apply list_lookup_insert_eq; lia).
    rewrite take_insert_ge by lia. rewrite <- app_assoc. reflexivity.
Qed.

Lemma pool_init_wf dbg n p :
  0 < n < 2 ^ 16 - 1 -> _sfetch_pool_init dbg n = Ok p -> pool_wf p.
Proof.
  intros Hn H. unfold _sfetch_pool_init in H.
  apply assert_bind_inv in H as [_ H].
  rewrite !(u32_small (n + 1)) in H by lia.
  rewrite (u32_small (n + 1 - 1)) in H by lia.
  replace (n + 1 - 1) with (Z.of_nat (Z.to_nat n)) in H by lia.
  edestruct (pool_init_loop_ok (Z.to_nat n)) as (fs & Hrun & Hl & Htake);
    [| | | rewrite Hrun in H]; simpl; try rewrite length_replicate; try lia.
  cbn [mbind res_bind mret res_ret] in H. apply Ok_inj in H. subst p.
  simpl in Hl, Htake. rewrite length_replicate in Hl.
  rewrite Z.add_0_l in *.
  constructor; simpl; try rewrite !length_replicate; try lia; auto.
  - unfold free_stack. simpl. rewrite Htake. apply NoDup_countdown.
  - unfold free_stack, slot. simpl. rewrite Htake. intros s Hs.
    apply elem_of_countdown in Hs. split; [lia|].
    exists _sfetch_item_zero. split; [|reflexivity].
    apply lookup_replicate_2. lia.
  - unfold slot. simpl. intros i it Hi Hs Hne.
    apply lookup_replicate_1 in Hs as [-> _]. simpl in Hne. congruence.
  - intros i g Hg. apply lookup_replicate_1 in Hg as [-> _]. lia.
Qed.

(** ** Admission *)

Lemma store_ok dbg p h it it' :
  _sfetch_pool_item_lookup dbg p h = Ok (Some it) -> handle it' = h ->
  item_store p h it' = Ok (pool_store p h it').
Proof. intros Hl Hh. now destruct (lookup_store dbg p h it it' Hl Hh). Qed.

Lemma store_slot_eq p h it :
  live p h -> slot (pool_store p h it) (_sfetch_slot_index h) = Some it.
Proof.
  intros (_ & it0 & Hs & _). unfold slot, pool_store. simpl.
  apply list_lookup_insert_eq. apply lookup_lt_Some in Hs. exact Hs.
Qed.

Lemma store_slot_ne p h it s :
  0 <= s -> s <> _sfetch_slot_index h -> slot (pool_store p h it) s = slot p s.
Proof.
  intros Hs Hne. unfold slot, pool_store. simpl.
  apply list_lookup_insert_ne. pose proof (slot_index_range h). lia.
Qed.

Lemma store_live p h it id :
  live p h -> handle it = h -> live p id -> live (pool_store p h it) id.
Proof.
  intros Hh Hit Hid.
  destruct (decide (_sfetch_slot_index id = _sfetch_slot_index h)) as [E|E].
  - assert (id = h) by (eapply live_index_inj; eauto). subst id.
    split; [apply Hh|]. exists it. split; [|exact Hit].
    now apply store_slot_eq.
  - destruct Hid as (Hne & it0 & Hs & Hh0). split; [exact Hne|].
    exists it0. split; [|exact Hh0].
    rewrite store_slot_ne; auto. apply slot_index_range.
Qed.

Lemma store_live_inv p h it id :
  live p h -> handle it = h -> live (pool_store p h it) id -> live p id.
Proof.
  intros Hh Hit (Hne & it1 & Hs & Hh1).
  destruct (decide (_sfetch_slot_index id = _sfetch_slot_index h)) as [E|E].
  - rewrite E, store_slot_eq in Hs by exact Hh. injection Hs as <-.
    assert (E' : id = h) by congruence. rewrite E'. exact Hh.
  - rewrite store_slot_ne in Hs; auto; [|apply slot_index_range].
    split; [exact Hne|]. now exists it1.
Qed.

Lemma take_S_cons {A} (x : A) l n : take (S n) (x :: l) = x :: take n l.
Proof. reflexivity. Qed.

(** The admission loop, [n] turns: the first [n] ids of the sent queue and
    the first [n] free lanes are paired up. *)
Lemma admit_ok dbg n : forall c p,
  ring_wf (user_sent c) -> ring_wf (free_lanes c) -> ring_wf (user_incoming c) ->
  pool_wf p ->
  (n <= ring_len (user_sent c))%nat ->
  (n <= ring_len (free_lanes c))%nat ->
  ring_cnt (user_incoming c) + Z.of_nat n < num (user_incoming c) ->
  (forall id, id ∈ take n (ring_contents (user_sent c)) -> live p id) ->
  NoDup (take n (ring_contents (user_sent c))) ->
  exists c' p',
    _sfetch_channel_dowork_admit dbg n c p = Ok (c', p') /\
    ring_wf (user_sent c') /\ ring_wf (free_lanes c') /\
    ring_wf (user_incoming c') /\ pool_wf p' /\
    num (user_sent c') = num (user_sent c) /\
    num (free_lanes c') = num (free_lanes c) /\
    num (user_incoming c') = num (user_incoming c) /\
    ring_contents (user_sent c') = drop n (ring_contents (user_sent c)) /\
    ring_contents (free_lanes c') = drop n (ring_contents (free_lanes c)) /\
    ring_contents (user_incoming c')
      = ring_contents (user_incoming c) ++ take n (ring_contents (user_sent c)) /\
    user_outgoing c' = user_outgoing c /\
    thread_incoming c' = thread_incoming c /\
    thread_outgoing c' = thread_outgoing c /\
    chn_thread c' = chn_thread c /\ c_valid c' = c_valid c /\
    (forall id, live p' id <-> live p id) /\
    (forall i id ln,
       take n (ring_contents (user_sent c)) !! i = Some id ->
       ring_contents (free_lanes c) !! i = Some ln ->
       exists it, slot p (_sfetch_slot_index id) = Some it /\
                  slot p' (_sfetch_slot_index id) = Some (set_lane it ln)) /\
    (forall s, 0 <= s ->
       (forall id, id ∈ take n (ring_contents (user_sent c)) ->
                   s <> _sfetch_slot_index id) ->
       slot p' s = slot p s).
Proof.
  induction n as [|n IH]; intros c p Hws Hwf Hwi Hwp Hns Hnf Hroom Hlive Hnd.
  - exists c, p. simpl. rewrite !drop_0, app_nil_r.
    split_and!; auto; try tauto.
    intros i id ln Hi. rewrite take_0, lookup_nil in Hi. discriminate.
  - pose proof (ring_len_cnt _ Hws) as Hcs.
    pose proof (ring_len_cnt _ Hwf) as Hcf.
    assert (Hps : 0 < ring_cnt (user_sent c)) by lia.
    assert (Hpf : 0 < ring_cnt (free_lanes c)) by lia.
    pose proof (ring_pop_contents _ Hws Hps) as Hcont_s.
    pose proof (ring_pop_contents _ Hwf Hpf) as Hcont_f.
    set (x := ring_at (user_sent c) 0) in *.
    set (l0 := ring_at (free_lanes c) 0) in *.
    rewrite Hcont_s in Hlive, Hnd. rewrite take_S_cons in Hlive, Hnd.
    assert (Hlx : live p x) by (apply Hlive; left).
    destruct (live_lookup dbg p x Hwp Hlx) as (it & Hlk & Hslot).
    assert (Hhx : handle it = x) by (apply lookup_live_slot in Hlk; tauto).
    set (p1 := pool_store p x (set_lane it l0)).
    set (c1 := set_user_incoming
                 (set_free_lanes (set_user_sent c (ring_pop (user_sent c)))
                    (ring_pop (free_lanes c)))
                 (ring_push (user_incoming c) x)).
    assert (Hroom1 : ring_cnt (user_incoming c) < num (user_incoming c) - 1) by lia.
    destruct (IH c1 p1) as (c' & p' & Hrun & Hws' & Hwf' & Hwi' & Hwp' & Hn1 & Hn2
        & Hn3 & Hc1 & Hc2 & Hc3 & Ho1 & Ho2 & Ho3 & Ho4 & Ho5 & Hlv & Hadm & Hoth).
    + now apply ring_pop_wf.
    + now apply ring_pop_wf.
    + now apply ring_push_wf.
    + apply store_wf; auto.
    + simpl. pose proof (ring_len_cnt _ (ring_pop_wf _ Hws)).
      rewrite ring_pop_cnt in H by auto. lia.
    + simpl. pose proof (ring_len_cnt _ (ring_pop_wf _ Hwf)).
      rewrite ring_pop_cnt in H by auto. lia.
    + simpl. rewrite ring_push_cnt by auto. lia.
    + simpl. intros id Hid. apply store_live; auto. apply Hlive. now right.
    + simpl. now apply NoDup_cons_1_2 in Hnd.
    + exists c', p'. simpl in *.
      split.
      { rewrite (ring_dequeue_ok dbg _ Hws Hps). res_simpl. fold x.
        rewrite Hlk. res_simpl.
        rewrite assert_bind_ok by (intros _; apply bool_decide_eq_true; eauto).
        simpl deref. res_simpl.
        rewrite (ring_dequeue_ok dbg _ Hwf Hpf). res_simpl. fold l0.
        rewrite (store_ok dbg p x it) by auto. res_simpl.
        rewrite (ring_enqueue_ok dbg _ x Hwi Hroom1). res_simpl.
        exact Hrun. }
      rewrite Hcont_s, Hcont_f. simpl.
      rewrite Hc3, (ring_push_contents _ x Hwi Hroom1), <- app_assoc.
      split_and!; auto; try congruence.
      * intros id. rewrite Hlv.
        split; [eapply store_live_inv | apply store_live]; eauto.
      * intros [|i] id ln Hi Hl; simpl in Hi, Hl.
        -- injection Hi as <-. injection Hl as <-. exists it.
           split; [exact Hslot|].
           rewrite Hoth.
           ++ now apply store_slot_eq.
           ++ apply slot_index_range.
           ++ intros id Hid E. apply NoDup_cons_1_1 in Hnd. apply Hnd.
              assert (id = x); [|congruence].
              eapply live_index_inj; eauto. apply Hlive. now right.
        -- destruct (Hadm i id ln Hi Hl) as (it1 & Hs1 & Hs1').
           exists it1. split; [|exact Hs1'].
           rewrite <- Hs1. symmetry. apply store_slot_ne; [apply slot_index_range|].
           intros E. apply NoDup_cons_1_1 in Hnd. apply Hnd.
           assert (Hin : id ∈ take n (ring_contents (ring_pop (user_sent c))))
             by (eapply list_elem_of_lookup_2; eauto).
           assert (id = x); [|congruence].
           eapply live_index_inj; eauto. apply Hlive. now right.
      * intros s Hs Hne. rewrite Hoth.
        -- apply store_slot_ne; auto. apply Hne. left.
        -- exact Hs.
        -- intros id Hid. apply Hne. now right.
Qed.

(** The admission loop with its bound, on any well-formed channel and
    pool: it admits exactly [n = min (sent.count, free_lanes.count)]
    items: the first [n] ids leave the sent queue, the first [n] lanes leave
    the free-lanes queue, the ids are appended to the user-incoming queue in
    the same order, the [i]-th admitted item has the [i]-th lane written into
    it and keeps its state (ALLOCATED stays ALLOCATED); no other slot of the
    pool changes. *)
Theorem admission_admits_min_of_sent_and_lanes dbg c p :
  ring_wf (user_sent c) -> ring_wf (free_lanes c) -> ring_wf (user_incoming c) ->
  pool_wf p ->
  let n := Nat.min (ring_len (user_sent c)) (ring_len (free_lanes c)) in
  let admitted := take n (ring_contents (user_sent c)) in
  ring_cnt (user_incoming c) + Z.of_nat n < num (user_incoming c) ->
  (forall id, id ∈ admitted -> live p id) ->
  NoDup admitted ->
  exists c' p',
    _sfetch_channel_dowork_admission dbg c p = Ok (c', p') /\
    length admitted = n /\
    ring_contents (user_sent c') = drop n (ring_contents (user_sent c)) /\
    ring_contents (free_lanes c') = drop n (ring_contents (free_lanes c)) /\
    ring_contents (user_incoming c') = ring_contents (user_incoming c) ++ admitted /\
    (forall i id,
       admitted !! i = Some id ->
       exists ln it it',
         ring_contents (free_lanes c) !! i = Some ln /\
         slot p (_sfetch_slot_index id) = Some it /\
         slot p' (_sfetch_slot_index id) = Some it' /\
         it' = set_lane it ln /\ lane it' = ln /\ state it' = state it /\
         (state it = _SFETCH_STATE_ALLOCATED ->
          state it' = _SFETCH_STATE_ALLOCATED)) /\
    (forall s, 0 <= s ->
       (forall id, id ∈ admitted -> s <> _sfetch_slot_index id) ->
       slot p' s = slot p s).
Proof.
  intros Hws Hwf Hwi Hwp n admitted Hroom Hlive Hnd.
  destruct (admit_ok dbg n c p) as (c' & p' & Hrun & _ & _ & _ & _ & _ & _ & _
      & Hc1 & Hc2 & Hc3 & _ & _ & _ & _ & _ & _ & Hadm & Hoth); auto;
    try (subst n; lia).
  exists c', p'.
  pose proof (ring_len_cnt _ Hws) as Hcs.
  pose proof (ring_len_cnt _ Hwf) as Hcf.
  split_and!; auto.
  - unfold _sfetch_channel_dowork_admission.
    rewrite !ring_count_ok by auto. res_simpl.
    replace (Z.to_nat _) with n; [exact Hrun|].
    subst n. destruct (Z.ltb_spec (ring_cnt (user_sent c)) (ring_cnt (free_lanes c)));
      unfold ring_len; lia.
  - subst admitted. rewrite length_take, ring_contents_length. subst n. lia.
  - intros i id Hi.
    assert (Hlt : (i < ring_len (free_lanes c))%nat).
    { apply lookup_lt_Some in Hi. subst admitted.
      rewrite length_take in Hi. subst n. lia. }
    destruct (Hadm i id _ Hi (ring_contents_lookup _ _ Hlt)) as (it & Hs & Hs').
    exists (ring_at (free_lanes c) i), it, (set_lane it (ring_at (free_lanes c) i)).
    split_and!; auto. now apply ring_contents_lookup.
Qed.

(** ** The preparation of incoming items *)

(** What [_sfetch_channel_dowork_prepare] does to an item, field by field. *)
Lemma prepare_item_spec it :
  let it' := _sfetch_channel_dowork_prepare it in
  state it' = spec_prepared_state (pause (user it)) (cont (user it))
                (cancel (user it)) (state it)
  /\ pause (user it') = false
  /\ cont (user it') = false
  /\ cancel (user it') = cancel (user it)
  /\ u_finished (user it') = u_finished (user it) || cancel (user it)
  /\ handle it' = handle it /\ channel it' = channel it /\ lane it' = lane it
  /\ callback it' = callback it /\ buffer it' = buffer it
  /\ thread it' = thread it /\ path it' = path it
  /\ u_content_size (user it') = u_content_size (user it)
  /\ u_content_offset (user it') = u_content_offset (user it)
  /\ u_fetched_size (user it') = u_fetched_size (user it)
  /\ user_data_size (user it') = user_data_size (user it)
  /\ user_data (user it') = user_data (user it).
Proof.
  destruct it as [h st ch ln cb bf th [pa co ca cs cof fs fin uds ud] pt].
  destruct st, pa, co, ca, fin; cbn; split_and!; reflexivity.
Qed.

Lemma prepare_handle it : handle (_sfetch_channel_dowork_prepare it) = handle it.
Proof. apply (prepare_item_spec it). Qed.

(** The preparation loop, [n] turns from position [i]. *)
Lemma incoming_ok dbg c n : forall i p,
  ring_wf (user_incoming c) -> pool_wf p ->
  (i + n <= ring_len (user_incoming c))%nat ->
  (forall id, id ∈ ring_contents (user_incoming c) -> live p id) ->
  NoDup (ring_contents (user_incoming c)) ->
  (dbg = true -> forall k id it,
     (i <= k)%nat -> ring_contents (user_incoming c) !! k = Some id ->
     slot p (_sfetch_slot_index id) = Some it ->
     incoming_state_ok (state it) = true) ->
  exists p',
    _sfetch_channel_dowork_incoming dbg n (Z.of_nat i) c p = Ok p' /\
    pool_wf p' /\
    (forall id, live p' id <-> live p id) /\
    (forall k id,
       (i <= k < i + n)%nat -> ring_contents (user_incoming c) !! k = Some id ->
       exists it, slot p (_sfetch_slot_index id) = Some it /\
                  slot p' (_sfetch_slot_index id)
                  = Some (_sfetch_channel_dowork_prepare it)) /\
    (forall s, 0 <= s ->
       (forall k id, (i <= k < i + n)%nat ->
          ring_contents (user_incoming c) !! k = Some id ->
          s <> _sfetch_slot_index id) ->
       slot p' s = slot p s).
Proof.
  induction n as [|n IH]; intros i p Hwi Hwp Hlen Hlive Hnd Hst.
  - exists p. simpl. split_and!; auto; try tauto. intros k id Hk. lia.
  - assert (Hi : (i < ring_len (user_incoming c))%nat) by lia.
    pose proof (ring_contents_lookup _ _ Hi) as Hci.
    set (x := ring_at (user_incoming c) i) in *.
    assert (Hlx : live p x).
    { apply Hlive. eapply list_elem_of_lookup_2; eauto. }
    destruct (live_lookup dbg p x Hwp Hlx) as (it & Hlk & Hslot).
    assert (Hhx : handle it = x) by (apply lookup_live_slot in Hlk; tauto).
    set (p1 := pool_store p x (_sfetch_channel_dowork_prepare it)).
    assert (Hhp : handle (_sfetch_channel_dowork_prepare it) = x)
      by (rewrite prepare_handle; exact Hhx).
    assert (Hdist : forall k id, (k <> i)%nat ->
      ring_contents (user_incoming c) !! k = Some id ->
      _sfetch_slot_index id <> _sfetch_slot_index x).
    { intros k id Hk Hid E.
      assert (id = x).
      { eapply live_index_inj; eauto. apply Hlive.
        eapply list_elem_of_lookup_2; eauto. }
      subst id. apply Hk. eapply NoDup_lookup; eauto. }
    destruct (IH (S i) p1) as (p' & Hrun & Hwp' & Hlv & Hprep & Hoth); auto.
    + apply store_wf; auto.
    + lia.
    + intros id Hid. apply store_live; auto.
    + intros Hd k id it1 Hk Hid Hs1. apply (Hst Hd k id it1); [lia | exact Hid|].
      rewrite <- Hs1. symmetry. apply store_slot_ne; [apply slot_index_range|].
      apply (Hdist k); [lia | exact Hid].
    + exists p'. split_and!; auto.
      * simpl _sfetch_channel_dowork_incoming.
        rewrite (ring_peek_ok dbg _ i Hwi Hi). res_simpl. fold x.
        rewrite Hlk. res_simpl.
        rewrite assert_bind_ok by (intros _; apply bool_decide_eq_true; eauto).
        simpl deref. res_simpl.
        assert (Hok : dbg = true -> incoming_state_ok (state it) = true)
          by (intros Hd; apply (Hst Hd i x it); auto).
        unfold incoming_state_ok in Hok.
        rewrite !assert_bind_ok;
          try (intros Hd; specialize (Hok Hd);
               apply andb_true_iff in Hok as [Hok ?];
               apply andb_true_iff in Hok as [? ?]; assumption).
        rewrite (store_ok dbg p x it) by auto.
        res_simpl. fold p1.
        replace (u32 (Z.of_nat i + 1)) with (Z.of_nat (S i)); [exact Hrun|].
        rewrite u32_small; [lia|].
        pose proof (ring_cnt_range _ Hwi). pose proof (ring_len_cnt _ Hwi).
        destruct Hwi as (Hn & _). lia.
      * intros id. rewrite Hlv.
        split; [eapply store_live_inv | apply store_live]; eauto.
      * intros k id Hk Hid.
        destruct (decide (k = i)) as [->|Hne].
        -- assert (id = x) by congruence. subst id. exists it.
           split; [exact Hslot|]. rewrite Hoth.
           ++ now apply store_slot_eq.
           ++ apply slot_index_range.
           ++ intros k id Hk' Hid' E. apply (Hdist k id); [lia | exact Hid' | auto].
        -- destruct (Hprep k id ltac:(lia) Hid) as (it1 & Hs1 & Hs1').
           exists it1. split; [|exact Hs1'].
           rewrite <- Hs1. symmetry. apply store_slot_ne; [apply slot_index_range|].
           apply (Hdist k); auto.
      * intros s Hs Hne. rewrite Hoth.
        -- apply store_slot_ne; auto. apply (Hne i); [lia | exact Hci].
        -- exact Hs.
        -- intros k id Hk Hid. apply (Hne k); [lia | exact Hid].
Qed.

(** The preparation loop with its bound, on any well-formed channel and
    pool: on every id of the user-incoming queue it applies the
    flags in the order pause, continue, cancel and then dispatches on the
    state: the item's new state is [spec_prepared_state] of its flags and old
    state, the pause and continue flags are cleared, the cancel flag stays,
    and a set cancel flag sets the user-side finished flag. *)
Theorem incoming_flags_pause_continue_cancel dbg c p :
  ring_wf (user_incoming c) -> pool_wf p ->
  (forall id, id ∈ ring_contents (user_incoming c) -> live p id) ->
  NoDup (ring_contents (user_incoming c)) ->
  (dbg = true -> forall id it,
     id ∈ ring_contents (user_incoming c) ->
     slot p (_sfetch_slot_index id) = Some it ->
     incoming_state_ok (state it) = true) ->
  exists p',
    _sfetch_channel_dowork_prepare_all dbg c p = Ok p' /\
    forall id, id ∈ ring_contents (user_incoming c) ->
      exists it it',
        slot p (_sfetch_slot_index id) = Some it /\
        slot p' (_sfetch_slot_index id) = Some it' /\
        it' = _sfetch_channel_dowork_prepare it /\
        state it' = spec_prepared_state (pause (user it)) (cont (user it))
                      (cancel (user it)) (state it) /\
        pause (user it') = false /\
        cont (user it') = false /\
        cancel (user it') = cancel (user it) /\
        u_finished (user it') = u_finished (user it) || cancel (user it).
Proof.
  intros Hwi Hwp Hlive Hnd Hst.
  destruct (incoming_ok dbg c (ring_len (user_incoming c)) O p)
    as (p' & Hrun & _ & _ & Hprep & _); auto.
  { intros Hd k id it _ Hk. apply (Hst Hd). eapply list_elem_of_lookup_2; eauto. }
  exists p'. split.
  - unfold _sfetch_channel_dowork_prepare_all.
    rewrite ring_count_ok by auto. res_simpl.
    unfold ring_len in Hrun. exact Hrun.
  - intros id Hid. apply list_elem_of_lookup in Hid as [k Hk].
    assert (Hlt : (k < ring_len (user_incoming c))%nat).
    { apply lookup_lt_Some in Hk. now rewrite ring_contents_length in Hk. }
    destruct (Hprep k id ltac:(lia) Hk) as (it & Hs & Hs').
    exists it, (_sfetch_channel_dowork_prepare it).
    pose proof (prepare_item_spec it) as Hspec. simpl in Hspec.
    split_and!; auto; apply Hspec.
Qed.

(** ** Responses *)

(** The response to an item that the worker has just read a chunk for. *)
Lemma fetching_response dbg io id it th :
  state it = _SFETCH_STATE_FETCHING ->
  0 <= t_content_offset (thread it) <= t_content_size (thread it) ->
  t_content_size (thread it) < 2 ^ 64 ->
  0 <= size (buffer it) ->
  t_finished (thread it) = false ->
  _sfetch_request_handler_item dbg io it = Ok th ->
  t_failed th = false ->
  let r := _sfetch_channel_dowork_response id
             (_sfetch_channel_dowork_transfer (set_thread it th)) in
  r_fetched r = true /\
  r_content_offset r = t_content_offset (thread it) /\
  r_fetched_size r
    = Z.min (size (buffer it))
        (t_content_size (thread it) - t_content_offset (thread it)) /\
  r_content_size r = t_content_size (thread it) /\
  r_finished r
    = u_finished (user it)
      || (t_content_size (thread it)
          <=? t_content_offset (thread it) + r_fetched_size r) /\
  (exists p, file_handle (thread it) = Some p /\
     io_read io p (r_content_offset r) (r_fetched_size r) = true).
Proof.
  intros Hst Hco Hcs Hbs Hfin0 H Hnf r.
  unfold _sfetch_request_handler_item in H. rewrite Hst in H.
  apply assert_bind_inv in H as [_ H].
  destruct (t_failed (thread it)) eqn:Hf.
  { apply Ok_inj in H. subst th. congruence. }
  cbn [state_is bool_decide decide_rel] in H.
  change (state_is _SFETCH_STATE_FETCHING _SFETCH_STATE_OPENING) with false in H.
  cbn [mbind res_bind mret res_ret] in H.
  change (state_is _SFETCH_STATE_FETCHING _SFETCH_STATE_FETCHING) with true in H.
  cbn iota in H.
  unfold _sfetch_request_handler_fetching in H.
  apply assert_bind_inv in H as [_ H].
  apply assert_bind_inv in H as [_ H].
  destruct ((ptr (buffer it) =? 0) || (size (buffer it) =? 0)) eqn:Hb.
  { cbn [mbind res_bind mret res_ret] in H. cbn in H.
    apply bind_inv in H as (? & _ & H). apply Ok_inj in H. subst th. discriminate. }
  apply orb_false_iff in Hb as [_ Hb%Z.eqb_neq].
  rewrite (u64_small (t_content_size (thread it) - t_content_offset (thread it)))
    in H by lia.
  set (m := if size (buffer it)
               <? t_content_size (thread it) - t_content_offset (thread it)
            then size (buffer it)
            else t_content_size (thread it) - t_content_offset (thread it)) in *.
  assert (Hm : m = Z.min (size (buffer it))
                 (t_content_size (thread it) - t_content_offset (thread it))).
  { subst m. destruct (Z.ltb_spec (size (buffer it))
      (t_content_size (thread it) - t_content_offset (thread it))); lia. }
  clearbody m.
  apply bind_inv in H as (th1 & Hrd & H).
  apply bind_inv in Hrd as (ok & Hrd & Hth1).
  unfold _sfetch_file_read in Hrd.
  destruct (file_handle (thread it)) as [p|] eqn:Hfh; [|discriminate].
  cbn in Hrd. apply Ok_inj in Hrd.
  destruct ok.
  2:{ apply Ok_inj in Hth1. subst th1. cbn in H.
      apply Ok_inj in H. subst th. discriminate. }
  apply Ok_inj in Hth1. subst th1.
  assert (Hrng : 0 <= t_content_offset (thread it) + m < 2 ^ 64) by lia.
  rewrite (u64_small _ Hrng) in H.
  cbn [t_failed t_content_size t_content_offset t_fetched_size t_finished
       file_handle mk_thread] in H.
  rewrite Hf in H. cbn [orb] in H.
  assert (Hr : r_content_offset r = t_content_offset (thread it)
               /\ r_fetched_size r = m
               /\ r_fetched r = true
               /\ r_content_size r = t_content_size (thread it)
               /\ r_finished r = u_finished (user it)
                    || (t_content_size (thread it)
                        <=? t_content_offset (thread it) + m)).
  { subst r.
    destruct (t_content_size (thread it) <=? t_content_offset (thread it) + m) eqn:E;
      cbn in H; apply Ok_inj in H; subst th;
      unfold _sfetch_channel_dowork_transfer, _sfetch_channel_dowork_response;
      cbn; rewrite Hst, ?Hfin0; cbn;
      (replace (t_content_offset (thread it) + m - m)
         with (t_content_offset (thread it)) by lia);
      rewrite u64_small by lia;
      destruct (u_finished (user it)); auto. }
  destruct Hr as (Ho & Hs & Hfe & Hcsz & Hfin).
  rewrite Hs, Ho, <- Hm. split_and!; auto.
  exists p. split; [reflexivity | exact Hrd].
Qed.

(** C5: the offset a response reports is the stored offset minus the size
    of the chunk it reports, which is the file offset the chunk was read
    from; a 10-byte file streamed through a 4-byte buffer is reported as
    (offset 0, size 4), (offset 4, size 4), (offset 8, size 2, finished),
    wherever the worker's turns fall. *)
Theorem response_offset_is_chunk_start :
  (forall id it,
     let r := _sfetch_channel_dowork_response id it in
     r_content_offset r = u64 (u_content_offset (user it) - u_fetched_size (user it))
     /\ r_fetched_size r = u_fetched_size (user it))
  /\
  (forall dbg io id it th,
     state it = _SFETCH_STATE_FETCHING ->
     0 <= t_content_offset (thread it) <= t_content_size (thread it) ->
     t_content_size (thread it) < 2 ^ 64 ->
     0 <= size (buffer it) ->
     t_finished (thread it) = false ->
     _sfetch_request_handler_item dbg io it = Ok th ->
     t_failed th = false ->
     let it' := _sfetch_channel_dowork_transfer (set_thread it th) in
     let r := _sfetch_channel_dowork_response id it' in
     u_content_offset (user it') = t_content_offset (thread it) + r_fetched_size r /\
     r_content_offset r = t_content_offset (thread it) /\
     r_fetched_size r
       = Z.min (size (buffer it))
           (t_content_size (thread it) - t_content_offset (thread it)) /\
     exists p, file_handle (thread it) = Some p /\
       io_read io p (r_content_offset r) (r_fetched_size r) = true)
  /\
  (forall dbg,
     responses_of (boot dbg (disk files) default_desc streaming_run)
     = Ok [(only_fetched, (10, 0, 4)); (only_fetched, (10, 4, 4));
           (fetched_and_finished, (10, 8, 2))]
     /\
     responses_of (boot dbg (disk files) default_desc streaming_run_inside)
     = Ok [(only_fetched, (10, 0, 4)); (only_fetched, (10, 4, 4));
           (fetched_and_finished, (10, 8, 2))]).
Proof.
  split; [|split].
  - intros id it. split; reflexivity.
  - intros dbg io id it th Hst Hco Hcs Hbs Hfin H Hnf it' r.
    destruct (fetching_response dbg io id it th Hst Hco Hcs Hbs Hfin H Hnf)
      as (Hfe & Ho & Hs & Hsz & Hfi & Hrd).
    fold it' in Ho, Hs, Hrd. fold r in Ho, Hs, Hrd.
    split_and!; auto.
    assert (E : r_content_offset r
                = u64 (u_content_offset (user it') - r_fetched_size r))
      by reflexivity.
    assert (Hu : u_content_offset (user it') = t_content_offset th).
    { subst it'. unfold _sfetch_channel_dowork_transfer. cbn.
      destruct (t_finished th), (t_failed th); cbn; try reflexivity;
        rewrite Hst; reflexivity. }
    assert (Hf : r_fetched_size r = t_fetched_size th).
    { subst r it'. unfold _sfetch_channel_dowork_transfer. cbn.
      destruct (t_finished th), (t_failed th); cbn; try reflexivity;
        rewrite Hst; reflexivity. }
    (* the handler advanced the offset by the size of the chunk *)
    clear E. rewrite Hu, Hf.
    unfold _sfetch_request_handler_item in H. rewrite Hst in H.
    apply assert_bind_inv in H as [_ H].
    destruct (t_failed (thread it)) eqn:Hf0.
    { apply Ok_inj in H. congruence. }
    change (state_is _SFETCH_STATE_FETCHING _SFETCH_STATE_OPENING) with false in H.
    cbn [mbind res_bind mret res_ret] in H.
    change (state_is _SFETCH_STATE_FETCHING _SFETCH_STATE_FETCHING) with true in H.
    cbn iota in H. unfold _sfetch_request_handler_fetching in H.
    apply assert_bind_inv in H as [_ H]. apply assert_bind_inv in H as [_ H].
    apply bind_inv in H as (th1 & Hth1 & H).
    assert (Hth : t_content_offset th = t_content_offset th1
                  /\ t_fetched_size th = t_fetched_size th1
                  /\ t_failed th = t_failed th1).
    { destruct (t_failed th1 || (t_content_size th1 <=? t_content_offset th1)).
      - apply bind_inv in H as (? & _ & H). apply Ok_inj in H. subst th. auto.
      - apply Ok_inj in H. subst th. auto. }
    destruct Hth as (-> & -> & Hfl). rewrite Hfl in Hnf.
    destruct ((ptr (buffer it) =? 0) || (size (buffer it) =? 0)).
    { apply Ok_inj in Hth1. subst th1. discriminate. }
    apply bind_inv in Hth1 as ([] & _ & Hth1); apply Ok_inj in Hth1; subst th1;
      [|discriminate].
    cbn. apply u64_small.
    pose proof (Z.mod_pos_bound
      (t_content_size (thread it) - t_content_offset (thread it)) (2 ^ 64)
      ltac:(lia)) as Hb.
    rewrite (u64_small (t_content_size (thread it) - t_content_offset (thread it)))
      by lia.
    destruct (Z.ltb_spec (size (buffer it))
      (t_content_size (thread it) - t_content_offset (thread it))); lia.
  - intros dbg. destruct dbg; split; vm_compute; reflexivity.
Qed.

(** C1: evaluated on the cancel race. [sfetch_cancel] is called while the
    request is with the worker; the worker finishes the first chunk and the
    next [sfetch_dowork] hands the callback a response with [cancelled] set
    although [failed] and [finished] are not: the response copies the cancel
    flag before the flag has been turned into the FAILED state. *)
Theorem cancelled_response_without_failed_finished dbg :
  w_handles (world_of (boot dbg (disk files) default_desc cancel_race_run))
  = [first_handle]
  /\ responses_of (boot dbg (disk files) default_desc cancel_race_run)
     = Ok [({| f_opened := false; f_fetched := true; f_paused := false;
               f_failed := false; f_finished := false; f_cancelled := true |},
            (10, 0, 4))].
Proof. destruct dbg; split; vm_compute; reflexivity. Qed.

(** In every response at most one of [opened], [fetched], [paused],
    [failed] is set: they compare one state with four different ones. *)
Lemma response_flags_exclusive id it :
  let r := _sfetch_channel_dowork_response id it in
  (Nat.b2n (r_opened r) + Nat.b2n (r_fetched r) + Nat.b2n (r_paused r)
   + Nat.b2n (r_failed r) <= 1)%nat.
Proof. destruct it as [? [] ? ? ? ? ? ? ?]; vm_compute; lia. Qed.

(** C3: evaluated on an empty file requested with a 4-byte buffer bound
    upfront. A debug build stops in the worker on the assertion of the
    FETCHING block; a release build reads zero bytes and delivers one
    response that is [opened] and [finished] and not [fetched]. *)
Theorem empty_file_with_buffer_is_not_fetched :
  boot true (disk files) default_desc [ev_send (request_for "empty"%string 1000 4);
                                       ev_dowork; ev_worker 0]
  = Err AssertFailed
  /\ responses_of (boot false (disk files) default_desc empty_file_run)
     = Ok [({| f_opened := true; f_fetched := false; f_paused := false;
               f_failed := false; f_finished := true; f_cancelled := false |},
            (0, 0, 0))].
Proof. split; vm_compute; reflexivity. Qed.

(** C10: evaluated on the same request. The OPENING block opens the empty
    file, finds a buffer and falls through to the FETCHING block with
    [content_size = content_offset = 0], where
    [SOKOL_ASSERT(thread->content_size > thread->content_offset)] fails. *)
Theorem fetching_assertion_fails_on_empty_file :
  let w := world_of (boot true (disk files) default_desc
                       [ev_send (request_for "empty"%string 1000 4); ev_dowork]) in
  let item := default _sfetch_item_zero
                (slot (pool (w_ctx w)) (_sfetch_slot_index first_handle)) in
  let th := mk_thread 0 0 0 false false (Some "empty"%string) in
  handle item = first_handle /\
  state item = _SFETCH_STATE_OPENING /\
  ptr (buffer item) = 1000 /\
  _sfetch_request_handler_opening true (disk files) (path item) (thread item)
    (buffer item) = Ok (_SFETCH_STATE_FETCHING, th) /\
  _sfetch_file_handle_valid (file_handle th) = true /\
  (t_content_offset th <? t_content_size th) = false /\
  _sfetch_request_handler_fetching true (disk files) th (buffer item)
  = Err AssertFailed /\
  step true (disk files) w (ev_worker 0) = Err AssertFailed.
Proof. split_and!; vm_compute; reflexivity. Qed.

(** ** Sending a request *)

Lemma strlen_path_of_length n : strlen (path_of_length n) = Z.of_nat n.
Proof.
  unfold strlen. f_equal. induction n as [|n IH]; simpl; [reflexivity|].
  now rewrite IH.
Qed.

(** A well-formed pool with a free slot allocates, and the new id is live. *)
Lemma alloc_ok dbg p r :
  pool_wf p -> 0 < free_top p -> (dbg = true -> is_Some (q_path r)) ->
  exists id p',
    _sfetch_pool_item_alloc dbg p r = Ok (id, p') /\
    id <> 0 /\ pool_wf p' /\ live p' id /\
    free_top p' = free_top p - 1 /\
    (forall h, live p h -> live p' h) /\
    (forall h, live p' h -> h = id \/ live p h) /\
    ~ live p id.
Proof.
  intros Hwf Ht Hpath.
  pose proof (pw_top p Hwf) as Htop. pose proof (pw_size p Hwf) as Hsz.
  assert (Hlt : (Z.to_nat (free_top p - 1) < length (free_slots p))%nat)
    by (pose proof (pw_slots p Hwf); lia).
  apply lookup_lt_is_Some_2 in Hlt as [s Hs].
  assert (Hin : s ∈ free_stack p).
  { apply list_elem_of_lookup. exists (Z.to_nat (free_top p - 1)).
    apply free_stack_lookup. split; [exact Hs | lia]. }
  destruct (pw_free p Hwf s Hin) as (Hsr & it0 & Hs0 & Hz).
  assert (Hlg : (Z.to_nat s < length (gen_ctrs p))%nat)
    by (pose proof (pw_gens p Hwf); lia).
  apply lookup_lt_is_Some_2 in Hlg as [g Hg].
  set (id := _sfetch_make_id s (u32 (g + 1))).
  set (it := item_of_request it0 id r).
  assert (Hu : 0 <= u32 (g + 1)) by (unfold u32; apply Z.mod_pos_bound; lia).
  assert (Hidx : _sfetch_slot_index id = s).
  { unfold id. rewrite slot_index_make_id by exact Hu. apply Z.mod_small. lia. }
  assert (Hnz : id <> 0) by (apply make_id_nonzero; lia).
  assert (Hrun : _sfetch_pool_item_alloc dbg p r = Ok (id, pool_after_alloc p s g it)).
  { unfold _sfetch_pool_item_alloc.
    rewrite assert_bind_ok by (intros _; apply Hwf).
    destruct (Z.ltb_spec 0 (free_top p)); [|lia].
    rewrite (u32_small (free_top p - 1)) by lia.
    rewrite (arr_get_ok _ _ s) by (auto; lia). res_simpl.
    rewrite assert_bind_ok
      by (intros _; apply andb_true_iff; split; apply Z.ltb_lt; lia).
    rewrite (arr_get_ok _ _ g) by (auto; lia). res_simpl.
    rewrite arr_set_ok by (pose proof (pw_gens p Hwf); lia). res_simpl.
    rewrite (arr_get_ok _ _ it0) by (auto; lia). res_simpl.
    unfold _sfetch_item_init.
    rewrite assert_bind_ok by (intros _; apply Z.eqb_eq; exact Hz).
    rewrite assert_bind_ok
      by (intros Hd; apply bool_decide_eq_true; auto).
    res_simpl.
    rewrite arr_set_ok by (pose proof (pw_items p Hwf); lia). res_simpl.
    unfold pool_after_alloc. rewrite (u32_small (free_top p - 1)) by lia.
    reflexivity. }
  assert (Hwf' : pool_wf (pool_after_alloc p s g it)) by (apply alloc_wf; auto).
  assert (Hnew : slot (pool_after_alloc p s g it) s = Some it).
  { unfold slot. simpl. apply list_lookup_insert_eq.
    apply lookup_lt_Some in Hs0. exact Hs0. }
  exists id, (pool_after_alloc p s g it).
  split_and!; auto.
  - split; [exact Hnz|]. exists it. rewrite Hidx. split; [exact Hnew | reflexivity].
  - simpl. rewrite u32_small by lia. reflexivity.
  - intros h (Hne & ith & Hsh & Hh). split; [exact Hne|]. exists ith.
    split; [|exact Hh]. unfold slot in *. simpl.
    rewrite list_lookup_insert_ne; [exact Hsh|].
    intros E. pose proof (slot_index_range h).
    assert (E' : _sfetch_slot_index h = s) by lia.
    rewrite E' in Hsh. congruence.
  - intros h (Hne & ith & Hsh & Hh).
    destruct (decide (_sfetch_slot_index h = s)) as [E|E].
    + left. rewrite E, Hnew in Hsh. injection Hsh as <-. now rewrite <- Hh.
    + right. split; [exact Hne|]. exists ith. split; [|exact Hh].
      unfold slot in *. simpl in Hsh.
      rewrite list_lookup_insert_ne in Hsh; [exact Hsh|].
      pose proof (slot_index_range h). lia.
  - intros (_ & ith & Hsh & Hh). rewrite Hidx in Hsh. congruence.
Qed.

(** The path check of a debug build, on a request that is valid otherwise. *)
Lemma validate_path_check ctx r p :
  q_channel r < num_channels (desc ctx) ->
  q_path r = Some p ->
  is_Some (q_callback r) ->
  (is_Some (q_user_data_ptr r) <-> 0 < q_user_data_size r) ->
  0 <= q_user_data_size r <= SFETCH_MAX_USERDATA_UINT64 * 8 ->
  _sfetch_validate_request true ctx r = (strlen p <? SFETCH_MAX_PATH - 1).
Proof.
  intros Hc Hp Hcb Hud Hsz. unfold _sfetch_validate_request.
  destruct (Z.leb_spec (num_channels (desc ctx)) (q_channel r)); [lia|].
  rewrite Hp.
  destruct (Z.ltb_spec (strlen p) (SFETCH_MAX_PATH - 1)) as [Hlt|Hge].
  2:{ apply Z.leb_le in Hge. now rewrite Hge. }
  apply Z.leb_gt in Hlt. rewrite Hlt.
  rewrite (bool_decide_eq_true_2 _ Hcb). cbn [negb].
  destruct (q_user_data_ptr r) as [d|] eqn:Hd.
  - assert (0 < q_user_data_size r) by (apply Hud; eauto).
    rewrite bool_decide_eq_true_2 by eauto. cbn [negb andb].
    destruct (Z.eqb_spec (q_user_data_size r) 0); [lia|].
    destruct (Z.ltb_spec (SFETCH_MAX_USERDATA_UINT64 * 8) (q_user_data_size r));
      [lia | reflexivity].
  - assert (~ 0 < q_user_data_size r).
    { intros Hpos. apply Hud in Hpos. destruct Hpos. discriminate. }
    rewrite bool_decide_eq_false_2 by (intros [? ?]; discriminate).
    cbn [negb andb].
    destruct (Z.ltb_spec 0 (q_user_data_size r)); [lia|].
    destruct (Z.ltb_spec (SFETCH_MAX_USERDATA_UINT64 * 8) (q_user_data_size r));
      [lia | reflexivity].
Qed.

(** A request that passes validation is accepted by an engine that has a
    free slot and room in the channel's sent queue. *)
Lemma send_ok dbg ctx c r :
  setup ctx = true -> valid ctx = true ->
  pool_wf (pool ctx) -> 0 < free_top (pool ctx) ->
  0 <= q_channel r < num_channels (desc ctx) ->
  chn ctx !! Z.to_nat (q_channel r) = Some c ->
  c_valid c = true -> ring_wf (user_sent c) ->
  ring_cnt (user_sent c) < num (user_sent c) - 1 ->
  _sfetch_validate_request dbg ctx r = true ->
  (dbg = true -> is_Some (q_path r)) ->
  exists h ctx',
    sfetch_send dbg ctx r = Ok (h, ctx') /\ h <> 0 /\
    sfetch_handle_valid dbg ctx' h = Ok true.
Proof.
  intros Hsetup Hvalid Hwf Ht Hch Hc Hcv Hws Hroom Hval Hpath.
  destruct (alloc_ok dbg (pool ctx) r Hwf Ht Hpath)
    as (id & p' & Hal & Hnz & Hwf' & Hlive & _).
  exists id. eexists. split; [|split; [exact Hnz|]].
  - unfold sfetch_send.
    rewrite assert_bind_ok by auto. rewrite Hvalid, Hval. cbn [negb].
    rewrite assert_bind_ok by (intros _; apply Z.ltb_lt; lia).
    rewrite Hal. res_simpl.
    apply Z.eqb_neq in Hnz. rewrite Hnz.
    rewrite (arr_get_ok _ _ c) by (auto; lia). res_simpl.
    unfold _sfetch_channel_send.
    rewrite assert_bind_ok by auto.
    rewrite (ring_full_ok _ Hws). res_simpl.
    rewrite bool_decide_eq_false_2 by lia. cbn [negb].
    rewrite (ring_enqueue_ok dbg _ id Hws Hroom). res_simpl.
    rewrite arr_set_ok by (apply lookup_lt_Some in Hc; lia). res_simpl.
    reflexivity.
  - unfold sfetch_handle_valid. cbn [valid set_chn set_pool pool].
    rewrite assert_bind_ok by auto.
    apply Z.eqb_neq in Hnz. rewrite Hnz.
    destruct (live_lookup dbg p' id Hwf' Hlive) as (it & Hlk & _).
    rewrite Hlk. reflexivity.
Qed.

(** The length check of the validation: in a build with validation, a
    request that is valid otherwise is accepted when its path has at most
    [SFETCH_MAX_PATH - 2] characters, and fails validation, so that
    [sfetch_send] returns the invalid handle, when it has
    [SFETCH_MAX_PATH - 1] characters or more. *)
Theorem path_length_limit_is_max_path_minus_two ctx c r p :
  setup ctx = true -> valid ctx = true ->
  pool_wf (pool ctx) -> 0 < free_top (pool ctx) ->
  0 <= q_channel r < num_channels (desc ctx) ->
  chn ctx !! Z.to_nat (q_channel r) = Some c ->
  c_valid c = true -> ring_wf (user_sent c) ->
  ring_cnt (user_sent c) < num (user_sent c) - 1 ->
  q_path r = Some p ->
  is_Some (q_callback r) ->
  (is_Some (q_user_data_ptr r) <-> 0 < q_user_data_size r) ->
  0 <= q_user_data_size r <= SFETCH_MAX_USERDATA_UINT64 * 8 ->
  (strlen p <= SFETCH_MAX_PATH - 2 ->
   _sfetch_validate_request true ctx r = true /\
   exists h ctx', sfetch_send true ctx r = Ok (h, ctx') /\ h <> 0 /\
                  sfetch_handle_valid true ctx' h = Ok true)
  /\
  (SFETCH_MAX_PATH - 1 <= strlen p ->
   _sfetch_validate_request true ctx r = false /\
   sfetch_send true ctx r = Ok (0, ctx)).
Proof.
  intros Hsetup Hvalid Hwf Ht Hch Hc Hcv Hws Hroom Hp Hcb Hud Hsz.
  pose proof (validate_path_check ctx r p (proj2 Hch) Hp Hcb Hud Hsz) as Hval.
  split; intros Hlen.
  - assert (Hv : _sfetch_validate_request true ctx r = true).
    { rewrite Hval. apply Z.ltb_lt. lia. }
    split; [exact Hv|].
    apply (send_ok true ctx c r); auto; intros _; rewrite Hp; eauto.
  - assert (Hv : _sfetch_validate_request true ctx r = false).
    { rewrite Hval. apply Z.ltb_ge. lia. }
    split; [exact Hv|].
    unfold sfetch_send. rewrite assert_bind_ok by auto.
    rewrite Hvalid, Hv. reflexivity.
Qed.

(** C2: evaluated on a path of [SFETCH_MAX_PATH - 1] = 1023 characters, the
    longest that fits the path buffer of an item together with its
    terminator. [_sfetch_path_make] copies it whole, and a release build
    accepts the request and stores the path in the item; the validation of a
    debug build rejects it, and [sfetch_send] returns the invalid handle and
    leaves the engine as it was. *)
Theorem path_of_max_path_minus_one_is_rejected :
  let r := long_path_request in
  let dctx := ctx_of (sfetch_setup true default_desc) in
  let rctx := ctx_of (sfetch_setup false default_desc) in
  q_path r = Some (path_of_length 1023) /\
  strlen (path_of_length 1023) = SFETCH_MAX_PATH - 1 /\
  _sfetch_path_make (q_path r) = path_of_length 1023 /\
  _sfetch_validate_request true dctx r = false /\
  sfetch_send true dctx r = Ok (0, dctx) /\
  sfetch_send false rctx r = Ok (first_handle, long_path_ctx) /\
  sfetch_handle_valid false long_path_ctx first_handle = Ok true /\
  path <$> slot (pool long_path_ctx) (_sfetch_slot_index first_handle)
  = Some (path_of_length 1023).
Proof.
  cbv zeta. split_and!; vm_compute; reflexivity.
Qed.

(** ** The checker is sound *)

Lemma pool_wf_b_sound p : pool_wf_b p = true -> pool_wf p.
Proof.
  unfold pool_wf_b. intros H.
  repeat (apply andb_true_iff in H as [H ?]).
  repeat match goal with
  | H : (_ <? _) = true |- _ => apply Z.ltb_lt in H
  | H : (_ <=? _) = true |- _ => apply Z.leb_le in H
  | H : (_ =? _) = true |- _ => apply Z.eqb_eq in H
  | H : bool_decide _ = true |- _ => apply bool_decide_eq_true in H
  | H : forallb _ _ = true |- _ => rewrite forallb_forall in H
  end.
  constructor; auto; try lia.
  - intros s Hs. apply list_elem_of_In in Hs.
    match goal with
    | H : forall x, In x (free_stack p) -> _ |- _ => specialize (H s Hs) as Hx
    end.
    apply andb_true_iff in Hx as [Hx Hit].
    apply andb_true_iff in Hx as [?%Z.ltb_lt ?%Z.ltb_lt].
    split; [lia|]. destruct (slot p s) as [it|]; [|discriminate].
    exists it. split; [reflexivity|]. now apply Z.eqb_eq.
  - intros i it Hi Hs Hne. unfold slot in Hs.
    assert (Hin : In (Z.to_nat i) (seq 0 (length (items p)))).
    { apply in_seq. apply lookup_lt_Some in Hs. lia. }
    match goal with
    | H : forall x, In x (seq _ _) -> _ |- _ => specialize (H _ Hin) as Hx
    end.
    rewrite Hs in Hx. apply orb_true_iff in Hx as [Hx%Z.eqb_eq|Hx]; [congruence|].
    apply andb_true_iff in Hx as [Hpos%Z.ltb_lt Hx].
    rewrite Z2Nat.id in Hpos, Hx by lia.
    split; [lia|]. destruct (gen_ctrs p !! Z.to_nat i) as [g|]; [|discriminate].
    exists g. split; [reflexivity|]. now apply Z.eqb_eq.
  - intros i g Hg. apply list_elem_of_lookup_2, list_elem_of_In in Hg.
    match goal with
    | H : forall x, In x (gen_ctrs p) -> _ |- _ => specialize (H g Hg) as Hx
    end.
    apply andb_true_iff in Hx as [?%Z.leb_le ?%Z.ltb_lt]. lia.
Qed.

(** Evaluation of the side conditions of a concrete instance. *)
Ltac by_eval := vm_compute; first [reflexivity | congruence | exact I].
Ltac ring_wf_eval := unfold ring_wf; repeat split; by_eval.
Ltac pool_wf_eval := apply pool_wf_b_sound; by_eval.

(** ** Instances *)

(** C9 on the engine that holds one request without a buffer, inside a
    callback. *)
Lemma bind_then_unbind_witness :
  exists ctx1 item1 ctx2 item2,
    sfetch_bind_buffer true (set_in_callback sent_ctx true) first_handle 4096 64
    = Ok ctx1 /\
    _sfetch_pool_item_lookup true (pool ctx1) first_handle = Ok (Some item1) /\
    buffer item1 = {| ptr := 4096; size := 64 |} /\
    sfetch_unbind_buffer true ctx1 first_handle = Ok (4096, ctx2) /\
    _sfetch_pool_item_lookup true (pool ctx2) first_handle = Ok (Some item2) /\
    ptr (buffer item2) = 0 /\ size (buffer item2) = 0.
Proof.
  apply (bind_then_unbind_returns_pointer true (set_in_callback sent_ctx true)
           first_handle 4096 64 (item_at (pool sent_ctx) first_handle));
    vm_compute; reflexivity.
Defined.

Lemma sent_pool_wf : pool_wf (pool sent_ctx).
Proof. pool_wf_eval. Qed.

Lemma first_handle_live_sent : live (pool sent_ctx) first_handle.
Proof.
  apply (lookup_live true _ _ (item_at (pool sent_ctx) first_handle)). by_eval.
Qed.

(** The admission loop on the same engine: one id in the sent queue, one
    free lane. *)
Lemma admission_witness :
  exists c' p',
    _sfetch_channel_dowork_admission true (chn_at sent_ctx 0) (pool sent_ctx)
    = Ok (c', p') /\
    ring_contents (user_sent c') = [] /\
    ring_contents (free_lanes c') = [] /\
    ring_contents (user_incoming c') = [first_handle] /\
    exists it', slot p' (_sfetch_slot_index first_handle) = Some it' /\
                lane it' = 0 /\ state it' = _SFETCH_STATE_ALLOCATED.
Proof.
  destruct (admission_admits_min_of_sent_and_lanes true (chn_at sent_ctx 0)
              (pool sent_ctx))
    as (c' & p' & Hrun & _ & Hs & Hf & Hi & Hadm & _).
  - ring_wf_eval.
  - ring_wf_eval.
  - ring_wf_eval.
  - exact sent_pool_wf.
  - by_eval.
  - intros id Hid. vm_compute in Hid. apply list_elem_of_singleton in Hid.
    subst id. exact first_handle_live_sent.
  - apply (bool_decide_unpack _). by_eval.
  - exists c', p'. split; [exact Hrun|].
    split; [rewrite Hs; by_eval|]. split; [rewrite Hf; by_eval|].
    split; [rewrite Hi; by_eval|].
    destruct (Hadm O first_handle) as (ln & it & it' & Hl & Hit & Hit' & _ & Hln & Hst & _);
      [by_eval|].
    exists it'. split; [exact Hit'|].
    vm_compute in Hl. injection Hl as <-.
    unfold slot in Hit. vm_compute in Hit. injection Hit as <-.
    split; [exact Hln | exact Hst].
Defined.

Lemma admitted_pool_wf : pool_wf (snd admitted_state).
Proof. pool_wf_eval. Qed.

(** The preparation loop on what the admission step leaves: one id in the
    user-incoming queue, its item ALLOCATED with no flag set. *)
Lemma incoming_flags_witness :
  exists p',
    _sfetch_channel_dowork_prepare_all true (fst admitted_state) (snd admitted_state)
    = Ok p' /\
    exists it', slot p' (_sfetch_slot_index first_handle) = Some it' /\
                state it' = _SFETCH_STATE_OPENING /\
                pause (user it') = false /\ cont (user it') = false /\
                cancel (user it') = false /\ u_finished (user it') = false.
Proof.
  destruct (incoming_flags_pause_continue_cancel true (fst admitted_state)
              (snd admitted_state)) as (p' & Hrun & Hall).
  - ring_wf_eval.
  - exact admitted_pool_wf.
  - intros id Hid. vm_compute in Hid. apply list_elem_of_singleton in Hid.
    subst id.
    apply (lookup_live true _ _ (item_at (snd admitted_state) first_handle)).
    by_eval.
  - apply (bool_decide_unpack _). by_eval.
  - intros _ id it Hid Hit. vm_compute in Hid.
    apply list_elem_of_singleton in Hid. subst id.
    unfold slot in Hit. vm_compute in Hit. injection Hit as <-. reflexivity.
  - exists p'. split; [exact Hrun|].
    destruct (Hall first_handle) as (it & it' & Hit & Hit' & _ & Hst & Hp & Hc & Hca & Hf);
      [vm_compute; left|].
    exists it'. split; [exact Hit'|].
    unfold slot in Hit. vm_compute in Hit. injection Hit as <-.
    split_and!; auto.
Defined.

(** On a fresh engine: the longest path that the validation accepts. *)
Lemma path_length_limit_witness :
  let r := request_for (path_of_length 1022) 0 0 in
  (strlen (path_of_length 1022) <= SFETCH_MAX_PATH - 2 ->
   _sfetch_validate_request true fresh_ctx r = true /\
   exists h ctx', sfetch_send true fresh_ctx r = Ok (h, ctx') /\ h <> 0 /\
                  sfetch_handle_valid true ctx' h = Ok true)
  /\
  (SFETCH_MAX_PATH - 1 <= strlen (path_of_length 1022) ->
   _sfetch_validate_request true fresh_ctx r = false /\
   sfetch_send true fresh_ctx r = Ok (0, fresh_ctx)).
Proof.
  apply (path_length_limit_is_max_path_minus_two fresh_ctx (chn_at fresh_ctx 0)
           (request_for (path_of_length 1022) 0 0) (path_of_length 1022)).
  - reflexivity.
  - reflexivity.
  - pool_wf_eval.
  - by_eval.
  - split; by_eval.
  - reflexivity.
  - reflexivity.
  - ring_wf_eval.
  - by_eval.
  - reflexivity.
  - simpl. eauto.
  - simpl. split; [intros [? ?]; discriminate | lia].
  - simpl. unfold SFETCH_MAX_USERDATA_UINT64. lia.
Defined.

(** C4 on the engine that holds one request: the request's slot is freed,
    allocated for another request, freed and allocated again. *)
Lemma stale_handle_witness :
  sfetch_handle_valid true reused_ctx first_handle = Ok false.
Proof.
  apply (stale_handle_invalid_unless_wrapped true reused_ctx (pool sent_ctx)
           first_handle (item_at (pool sent_ctx) first_handle)
           (pool_after_free (pool sent_ctx) first_handle) reuse 2).
  - exact sent_pool_wf.
  - by_eval.
  - by_eval.
  - by_eval.
  - right. by_eval.
  - reflexivity.
Defined.

(** C5 on the engine in the middle of streaming: the item is FETCHING with
    four of ten bytes read. *)
Lemma response_offset_witness :
  let it := item_at (pool streaming_ctx) first_handle in
  let th := mk_thread 10 8 4 false false (Some "f10"%string) in
  let it' := _sfetch_channel_dowork_transfer (set_thread it th) in
  let r := _sfetch_channel_dowork_response first_handle it' in
  u_content_offset (user it') = t_content_offset (thread it) + r_fetched_size r /\
  r_content_offset r = t_content_offset (thread it) /\
  r_fetched_size r
    = Z.min (size (buffer it))
        (t_content_size (thread it) - t_content_offset (thread it)) /\
  exists p, file_handle (thread it) = Some p /\
    io_read (disk files) p (r_content_offset r) (r_fetched_size r) = true.
Proof.
  apply (proj1 (proj2 response_offset_is_chunk_start) true (disk files)
           first_handle (item_at (pool streaming_ctx) first_handle)
           (mk_thread 10 8 4 false false (Some "f10"%string))).
  - reflexivity.
  - split; by_eval.
  - by_eval.
  - by_eval.
  - reflexivity.
  - by_eval.
  - reflexivity.
Defined.

(** C4 as stated fails: when the slot has been allocated 65536 times since
    the first request was freed, the generation bits of the handle have gone
    round and the first handle is valid again. *)
Lemma stale_handle_valid_after_wrap :
  recycle true (Z.to_nat 65535) = Ok (first_handle, false, first_handle, true).
Proof.
  vm_cast_no_check (@eq_refl _ (@Ok (Z * bool * Z * bool)
                                  (first_handle, false, first_handle, true))).
Qed.

(** ** Moving ids between rings *)

Lemma ring_push_num rb x : num (ring_push rb x) = num rb.
Proof. reflexivity. Qed.

Lemma ring_pop_num rb : num (ring_pop rb) = num rb.
Proof. reflexivity. Qed.

Lemma ring_empty_cnt rb :
  ring_wf rb -> _sfetch_ring_empty rb = bool_decide (ring_cnt rb = 0).
Proof.
  intros Hwf. rewrite (ring_empty_len _ Hwf).
  pose proof (ring_len_cnt _ Hwf). apply bool_decide_ext. lia.
Qed.

Lemma ring_cnt_length rb :
  ring_wf rb -> Z.of_nat (length (ring_contents rb)) = ring_cnt rb.
Proof. intros H. rewrite ring_contents_length. now apply ring_len_cnt. Qed.

(** What a successful dequeue from a non-empty ring did. *)
Lemma ring_dequeue_inv dbg rb x rb' :
  ring_wf rb -> 0 < ring_cnt rb ->
  _sfetch_ring_dequeue dbg rb = Ok (x, rb') ->
  ring_wf rb' /\ num rb' = num rb /\
  ring_contents rb = x :: ring_contents rb' /\
  ring_cnt rb' = ring_cnt rb - 1.
Proof.
  intros Hwf Hc H. rewrite (ring_dequeue_ok dbg rb Hwf Hc) in H.
  apply Ok_inj in H. injection H as <- <-.
  split_and!; auto using ring_pop_wf, ring_pop_contents, ring_pop_cnt.
Qed.

(** What a successful enqueue into a ring with room did. *)
Lemma ring_enqueue_inv dbg rb x rb' :
  ring_wf rb -> ring_cnt rb < num rb - 1 ->
  _sfetch_ring_enqueue dbg rb x = Ok rb' ->
  ring_wf rb' /\ num rb' = num rb /\
  ring_contents rb' = ring_contents rb ++ [x] /\
  ring_cnt rb' = ring_cnt rb + 1.
Proof.
  intros Hwf Hc H. rewrite (ring_enqueue_ok dbg rb x Hwf Hc) in H.
  apply Ok_inj in H. subst rb'.
  split_and!; auto using ring_push_wf, ring_push_contents, ring_push_cnt.
Qed.

(** The loop that moves ids from [src] to [dst] moves a prefix of [src] to
    the end of [dst]. *)
Lemma ring_move_inv dbg fuel : forall dst src dst' src',
  ring_wf dst -> ring_wf src ->
  _sfetch_ring_move dbg fuel dst src = Ok (dst', src') ->
  ring_wf dst' /\ ring_wf src' /\ num dst' = num dst /\ num src' = num src /\
  exists k,
    ring_contents dst' = ring_contents dst ++ take k (ring_contents src) /\
    ring_contents src' = drop k (ring_contents src) /\
    ring_cnt dst' + ring_cnt src' = ring_cnt dst + ring_cnt src.
Proof.
  induction fuel as [|fuel IH]; intros dst src dst' src' Hwd Hws H;
    simpl in H; rewrite (ring_full_ok _ Hwd) in H;
    cbn [mbind res_bind] in H;
    rewrite (ring_empty_cnt _ Hws) in H.
  - destruct (negb _ && negb _); [discriminate|].
    apply Ok_inj in H. injection H as <- <-.
    split_and!; auto. exists O. rewrite take_0, app_nil_r, drop_0. auto.
  - destruct (bool_decide (ring_cnt dst = num dst - 1)) eqn:Ef;
      [|destruct (bool_decide (ring_cnt src = 0)) eqn:Ee]; cbn [negb andb] in H.
    + apply Ok_inj in H. injection H as <- <-.
      split_and!; auto. exists O. rewrite take_0, app_nil_r, drop_0. auto.
    + apply Ok_inj in H. injection H as <- <-.
      split_and!; auto. exists O. rewrite take_0, app_nil_r, drop_0. auto.
    + apply bool_decide_eq_false in Ef, Ee.
      pose proof (ring_cnt_range _ Hwd). pose proof (ring_cnt_range _ Hws).
      apply bind_inv in H as ([x src1] & Hdq & H).
      apply bind_inv in H as (dst1 & Henq & H).
      apply (ring_dequeue_inv dbg src x src1 Hws) in Hdq
        as (Hws1 & Hn1 & Hc1 & Hk1); [|lia].
      apply (ring_enqueue_inv dbg dst x dst1 Hwd) in Henq
        as (Hwd1 & Hn2 & Hc2 & Hk2); [|lia].
      destruct (IH _ _ _ _ Hwd1 Hws1 H) as (Hwd' & Hws' & Hn3 & Hn4 & k & Hd & Hs & Hk).
      split_and!; auto; try congruence.
      exists (S k). rewrite Hc1. simpl. rewrite Hd, Hs, Hc2, <- app_assoc.
      split_and!; auto. lia.
Qed.

(** ** Writes through item pointers keep the pool *)

Lemma pool_kept_refl p : pool_wf p -> pool_kept p p.
Proof. intros H. constructor; auto; tauto. Qed.

Lemma pool_kept_trans p1 p2 p3 :
  pool_kept p1 p2 -> pool_kept p2 p3 -> pool_kept p1 p3.
Proof.
  intros [] []. constructor; auto; try congruence.
  intros id. etransitivity; eauto.
Qed.

Lemma store_kept dbg p h it it' p' :
  pool_wf p ->
  _sfetch_pool_item_lookup dbg p h = Ok (Some it) ->
  handle it' = h ->
  item_store p h it' = Ok p' ->
  pool_kept p p'.
Proof.
  intros Hwf Hl Hh Hst.
  rewrite (store_ok dbg p h it it' Hl Hh) in Hst. apply Ok_inj in Hst. subst p'.
  pose proof (lookup_live _ _ _ _ Hl) as Hlive.
  constructor; auto.
  - now apply store_wf.
  - intros id. split; [eapply store_live_inv | apply store_live]; eauto.
Qed.

Lemma store_kept_same dbg p h it it' p' :
  pool_wf p ->
  _sfetch_pool_item_lookup dbg p h = Ok (Some it) ->
  handle it' = handle it ->
  item_store p h it' = Ok p' ->
  pool_kept p p'.
Proof.
  intros Hwf Hl Hh Hst. eapply store_kept; eauto.
  apply lookup_inv in Hl. rewrite Hh. tauto.
Qed.

(** The public functions that take a handle write through the pointer of
    the item they looked up, or do nothing. *)
Lemma run_user_call_kept dbg ctx call ctx' :
  pool_wf (pool ctx) ->
  run_user_call dbg ctx call = Ok ctx' ->
  pool_kept (pool ctx) (pool ctx') /\ chn ctx' = chn ctx /\ desc ctx' = desc ctx
  /\ setup ctx' = setup ctx /\ valid ctx' = valid ctx
  /\ in_callback ctx' = in_callback ctx.
Proof.
  intros Hwf H.
  destruct call as [h bp bs | h | h | h | h]; simpl in H;
    unfold sfetch_bind_buffer, sfetch_unbind_buffer, sfetch_cancel,
      sfetch_pause, sfetch_continue in H.
  - res_inv H. destruct a as [it|].
    + res_inv H. subst ctx'.
      split_and!; try reflexivity.
      eapply (store_kept_same dbg _ _ _ _ _ Hwf Hstep); [|eassumption]; reflexivity.
    + apply Ok_inj in H. subst ctx'. split_and!; auto using pool_kept_refl.
  - apply fmap_inv in H as ([x ctx1] & H & E). simpl in E. subst ctx1.
    res_inv H. destruct a as [it|].
    + res_inv H. injection H as _ <-.
      split_and!; try reflexivity.
      eapply (store_kept_same dbg _ _ _ _ _ Hwf Hstep); [|eassumption]; reflexivity.
    + apply Ok_inj in H. injection H as _ <-.
      split_and!; auto using pool_kept_refl.
  - res_inv H. destruct a as [it|].
    + res_inv H. subst ctx'.
      split_and!; try reflexivity.
      eapply (store_kept_same dbg _ _ _ _ _ Hwf Hstep); [|eassumption]; reflexivity.
    + apply Ok_inj in H. subst ctx'. split_and!; auto using pool_kept_refl.
  - res_inv H. destruct a as [it|].
    + res_inv H. subst ctx'.
      split_and!; try reflexivity.
      eapply (store_kept_same dbg _ _ _ _ _ Hwf Hstep); [|eassumption]; reflexivity.
    + apply Ok_inj in H. subst ctx'. split_and!; auto using pool_kept_refl.
  - res_inv H. destruct a as [it|].
    + res_inv H. subst ctx'.
      split_and!; try reflexivity.
      eapply (store_kept_same dbg _ _ _ _ _ Hwf Hstep); [|eassumption]; reflexivity.
    + apply Ok_inj in H. subst ctx'. split_and!; auto using pool_kept_refl.
Qed.

Lemma run_user_calls_kept dbg calls : forall ctx ctx',
  pool_wf (pool ctx) ->
  run_user_calls dbg ctx calls = Ok ctx' ->
  pool_kept (pool ctx) (pool ctx') /\ chn ctx' = chn ctx /\ desc ctx' = desc ctx
  /\ setup ctx' = setup ctx /\ valid ctx' = valid ctx
  /\ in_callback ctx' = in_callback ctx.
Proof.
  induction calls as [|call calls IH]; intros ctx ctx' Hwf H; simpl in H.
  - apply Ok_inj in H. subst ctx'. split_and!; auto using pool_kept_refl.
  - apply bind_inv in H as (ctx1 & H1 & H).
    apply run_user_call_kept in H1 as (Hk1 & ? & ? & ? & ? & ?); [|exact Hwf].
    apply IH in H as (Hk2 & ? & ? & ? & ? & ?); [|apply Hk1].
    split_and!; try congruence. eapply pool_kept_trans; eauto.
Qed.

Lemma arr_get_insert_ne {A} (l : list A) i j x :
  0 <= j -> Z.to_nat i <> Z.to_nat j ->
  arr_get (<[Z.to_nat j := x]> l) i = arr_get l i.
Proof.
  intros Hj Hne. unfold arr_get. rewrite length_insert.
  now rewrite list_lookup_insert_ne by congruence.
Qed.

(** A write through the pointer of one item leaves the others where they
    are. *)
Lemma lookup_store_other dbg p h h' it it' x p' :
  _sfetch_pool_item_lookup dbg p h = Ok (Some it) ->
  _sfetch_pool_item_lookup dbg p h' = Ok (Some it') -> h' <> h ->
  item_store p h' x = Ok p' ->
  _sfetch_pool_item_lookup dbg p' h = Ok (Some it).
Proof.
  intros Hl Hl' Hne Hst.
  apply lookup_inv in Hl as (Hnz & Hget & Hh & Hd).
  apply lookup_inv in Hl' as (Hnz' & Hget' & Hh' & _).
  unfold item_store in Hst. apply bind_inv in Hst as (its & Hset & Hst).
  apply Ok_inj in Hst. subst p'. apply arr_set_inv in Hset as [Hr ->].
  apply lookup_ok; simpl; auto.
  pose proof (slot_index_range h). pose proof (slot_index_range h').
  rewrite arr_get_insert_ne; [exact Hget | lia |].
  intros E. assert (E' : _sfetch_slot_index h = _sfetch_slot_index h') by lia.
  rewrite E' in Hget. congruence.
Qed.

(** What the public calls on handles keep: a property of an item that the
    five writes of these calls keep is kept by any sequence of calls. *)
Lemma user_call_keeps dbg (Phi : _sfetch_item_t -> Prop) ctx call ctx' h it :
  (forall x b, Phi x -> Phi (set_buffer x b)) ->
  (forall x, Phi x -> Phi (set_user x (set_cont (set_pause (user x) true) false))) ->
  (forall x, Phi x -> Phi (set_user x (set_pause (set_cont (user x) true) false))) ->
  (forall x, Phi x ->
     Phi (set_user x (set_cancel (set_pause (set_cont (user x) false) false) true))) ->
  _sfetch_pool_item_lookup dbg (pool ctx) h = Ok (Some it) -> Phi it ->
  run_user_call dbg ctx call = Ok ctx' ->
  exists it', _sfetch_pool_item_lookup dbg (pool ctx') h = Ok (Some it') /\ Phi it'.
Proof.
  intros Hbuf Hpause Hcont Hcancel Hl Hc H.
  assert (Hgen : forall h' (f : _sfetch_item_t -> _sfetch_item_t) o p',
    _sfetch_pool_item_lookup dbg (pool ctx) h' = Ok o ->
    (forall x, handle (f x) = handle x) -> (forall x, Phi x -> Phi (f x)) ->
    match o with
    | Some item => item_store (pool ctx) h' (f item) = Ok p'
    | None => p' = pool ctx
    end ->
    exists it', _sfetch_pool_item_lookup dbg p' h = Ok (Some it') /\ Phi it').
  { intros h' f [item|] p' Hl' Hf HPhi Hst; [|subst p'; eauto].
    destruct (Z.eq_dec h' h) as [->|Hne].
    - rewrite Hl in Hl'. apply Ok_inj in Hl'. injection Hl' as <-.
      assert (Hh : handle (f it) = h).
      { apply lookup_inv in Hl as (_ & _ & <- & _). apply Hf. }
      destruct (lookup_store dbg _ _ _ _ Hl Hh) as [Hst' Hlk].
      rewrite Hst' in Hst. apply Ok_inj in Hst. subst p'.
      exists (f it). split; [exact Hlk | apply HPhi, Hc].
    - exists it. split; [|exact Hc]. eapply lookup_store_other; eauto. }
  destruct call as [h' bp bs | h' | h' | h' | h']; simpl in H;
    unfold sfetch_bind_buffer, sfetch_unbind_buffer, sfetch_cancel,
      sfetch_pause, sfetch_continue in H.
  - res_inv H. destruct a as [item|].
    + res_inv H. subst ctx'. simpl.
      eapply (Hgen h' (fun x => set_buffer x _) _ _ Hstep); [| |exact Hstep0];
        [reflexivity | intros x; apply Hbuf].
    + apply Ok_inj in H. subst ctx'. eauto.
  - apply fmap_inv in H as ([y ctx1] & H & E). simpl in E. subst ctx1.
    res_inv H. destruct a as [item|].
    + res_inv H. injection H as _ <-. simpl.
      eapply (Hgen h' (fun x => set_buffer x _) _ _ Hstep); [| |exact Hstep0];
        [reflexivity | intros x; apply Hbuf].
    + apply Ok_inj in H. injection H as _ <-. eauto.
  - res_inv H. destruct a as [item|].
    + res_inv H. subst ctx'. simpl.
      eapply (Hgen h' (fun x => set_user x
                (set_cancel (set_pause (set_cont (user x) false) false) true))
                _ _ Hstep); [| |exact Hstep0]; [reflexivity | exact Hcancel].
    + apply Ok_inj in H. subst ctx'. eauto.
  - res_inv H. destruct a as [item|].
    + res_inv H. subst ctx'. simpl.
      eapply (Hgen h' (fun x => set_user x (set_cont (set_pause (user x) true) false))
                _ _ Hstep); [| |exact Hstep0]; [reflexivity | exact Hpause].
    + apply Ok_inj in H. subst ctx'. eauto.
  - res_inv H. destruct a as [item|].
    + res_inv H. subst ctx'. simpl.
      eapply (Hgen h' (fun x => set_user x (set_pause (set_cont (user x) true) false))
                _ _ Hstep); [| |exact Hstep0]; [reflexivity | exact Hcont].
    + apply Ok_inj in H. subst ctx'. eauto.
Qed.

Lemma user_calls_keep dbg (Phi : _sfetch_item_t -> Prop) h calls :
  (forall x b, Phi x -> Phi (set_buffer x b)) ->
  (forall x, Phi x -> Phi (set_user x (set_cont (set_pause (user x) true) false))) ->
  (forall x, Phi x -> Phi (set_user x (set_pause (set_cont (user x) true) false))) ->
  (forall x, Phi x ->
     Phi (set_user x (set_cancel (set_pause (set_cont (user x) false) false) true))) ->
  forall ctx it ctx',
  _sfetch_pool_item_lookup dbg (pool ctx) h = Ok (Some it) -> Phi it ->
  run_user_calls dbg ctx calls = Ok ctx' ->
  exists it', _sfetch_pool_item_lookup dbg (pool ctx') h = Ok (Some it') /\ Phi it'.
Proof.
  intros Hbuf Hpause Hcont Hcancel.
  induction calls as [|call calls IH]; intros ctx it ctx' Hl Hc Hrun; simpl in Hrun.
  - apply Ok_inj in Hrun. subst ctx'. eauto.
  - apply bind_inv in Hrun as (c' & Hcall & Hrun).
    destruct (user_call_keeps dbg Phi _ _ _ _ _ Hbuf Hpause Hcont Hcancel Hl Hc Hcall)
      as (i' & Hl' & Hc').
    eapply IH; eauto.
Qed.

(** The request handler writes the thread-side data of the item it found. *)
Lemma request_handler_kept dbg io ctx id ctx' :
  pool_wf (pool ctx) ->
  _sfetch_request_handler dbg io ctx id = Ok ctx' ->
  pool_kept (pool ctx) (pool ctx') /\ chn ctx' = chn ctx /\ desc ctx' = desc ctx
  /\ setup ctx' = setup ctx /\ valid ctx' = valid ctx
  /\ in_callback ctx' = in_callback ctx.
Proof.
  intros Hwf H. unfold _sfetch_request_handler in H.
  apply bind_inv in H as (oitem & Hl & H).
  destruct oitem as [it|].
  - res_inv H. subst ctx'. split_and!; try reflexivity.
    eapply (store_kept_same dbg _ _ _ _ _ Hwf Hl); [|eassumption]; reflexivity.
  - apply Ok_inj in H. subst ctx'. split_and!; auto using pool_kept_refl.
Qed.

(** ** Steps of one channel *)

Lemma submseteq_NoDup {A} (l k : list A) : l ⊆+ k -> NoDup k -> NoDup l.
Proof.
  intros H Hk. apply submseteq_Permutation in H as [k' H].
  rewrite H in Hk. apply NoDup_app in Hk. tauto.
Qed.

Lemma deref_inv {A} (o : option A) a : deref o = Ok a -> o = Some a.
Proof. destruct o; simpl; congruence. Qed.

Lemma chn_step_kept d c p c' p' :
  chn_wf d c' -> pool_kept p p' -> chn_ids c' ⊆+ chn_ids c ->
  chn_step d c p c' p'.
Proof.
  intros Hw Hk Hs. constructor; auto; try apply Hk.
  intros id H _. now apply (pk_live _ _ Hk).
Qed.

Lemma chn_step_trans d c p c1 p1 c2 p2 :
  chn_step d c p c1 p1 -> chn_step d c1 p1 c2 p2 -> chn_step d c p c2 p2.
Proof.
  intros H1 H2. constructor; try apply H2.
  - rewrite (cs_size _ _ _ _ _ H2). apply H1.
  - etransitivity; [apply H2 | apply H1].
  - intros id Hid. apply H1, H2, Hid.
  - intros id Hl Hin. apply (cs_live_keep _ _ _ _ _ H2).
    + apply (cs_live_keep _ _ _ _ _ H1); [exact Hl|].
      intros Hc. eapply elem_of_submseteq; [apply Hin, Hc | apply H2].
    + intros Hc1. apply Hin. eapply elem_of_submseteq; [exact Hc1 | apply H1].
Qed.

Lemma chn_step_live d c p c' p' :
  chn_step d c p c' p' ->
  (forall id, id ∈ chn_ids c -> live p id) ->
  forall id, id ∈ chn_ids c' -> live p' id.
Proof.
  intros H Hl id Hin. apply (cs_live_keep _ _ _ _ _ H); [|auto].
  apply Hl. eapply elem_of_submseteq; [exact Hin | apply H].
Qed.

Lemma chn_step_NoDup d c p c' p' :
  chn_step d c p c' p' -> NoDup (chn_ids c) -> NoDup (chn_ids c').
Proof. intros Hs H. eapply submseteq_NoDup; [apply Hs | exact H]. Qed.

(** Admission moves ids from the sent queue to the incoming queue. *)
Lemma admit_inv dbg d n : forall c p c' p',
  chn_wf d c -> pool_wf p ->
  Z.of_nat n <= ring_cnt (user_sent c) ->
  Z.of_nat n <= ring_cnt (free_lanes c) ->
  _sfetch_channel_dowork_admit dbg n c p = Ok (c', p') ->
  chn_wf d c' /\ pool_kept p p' /\ chn_ids c' ≡ₚ chn_ids c.
Proof.
  induction n as [|n IH]; intros c p c' p' Hc Hp Hs Hf H; simpl in H.
  - apply Ok_inj in H. injection H as <- <-. auto using pool_kept_refl.
  - apply bind_inv in H as ([x sent1] & Hdq & H).
    apply bind_inv in H as (oitem & Hl & H).
    apply assert_bind_inv in H as [_ H].
    apply bind_inv in H as (item & Hd & H). apply deref_inv in Hd. subst oitem.
    apply bind_inv in H as ([ln fl1] & Hdq2 & H).
    apply bind_inv in H as (p1 & Hst & H).
    apply bind_inv in H as (ui1 & Henq & H).
    destruct Hc as [cw_valid cw_thread cw_free cw_sent cw_ui cw_uo cw_ti cw_to
      cw_sent_num cw_free_num cw_ui_num cw_uo_num cw_ti_num cw_to_num cw_lanes].
    pose proof (ring_cnt_range _ cw_ui) as Hr1.
    pose proof (ring_cnt_range _ cw_ti) as Hr2.
    pose proof (ring_cnt_range _ cw_to) as Hr3.
    pose proof (ring_cnt_range _ cw_uo) as Hr4.
    unfold lanes_total in cw_lanes.
    apply ring_dequeue_inv in Hdq as (Hw1 & Hn1 & Hc1 & Hk1); [|assumption|lia].
    apply ring_dequeue_inv in Hdq2 as (Hw2 & Hn2 & Hc2 & Hk2); [|assumption|lia].
    apply ring_enqueue_inv in Henq as (Hw3 & Hn3 & Hc3 & Hk3); [|assumption|lia].
    assert (Hk : pool_kept p p1).
    { eapply (store_kept_same dbg _ _ _ _ _ Hp Hl); [|eassumption]. reflexivity. }
    apply IH in H as (Hc' & Hk' & Hperm).
    + split_and!; [exact Hc' | eapply pool_kept_trans; eauto |].
      rewrite Hperm. unfold chn_ids, flight_ids. simpl.
      rewrite Hc1, Hc3. solve_Permutation.
    + constructor; simpl; auto; try congruence.
      unfold lanes_total. simpl. lia.
    + apply Hk.
    + simpl. lia.
    + simpl. lia.
Qed.

Lemma admission_inv dbg d c p c' p' :
  chn_wf d c -> pool_wf p ->
  _sfetch_channel_dowork_admission dbg c p = Ok (c', p') ->
  chn_wf d c' /\ pool_kept p p' /\ chn_ids c' ≡ₚ chn_ids c.
Proof.
  intros Hc Hp H. unfold _sfetch_channel_dowork_admission in H.
  rewrite (ring_count_ok dbg _ (cw_sent _ _ Hc)) in H.
  rewrite (ring_count_ok dbg _ (cw_free _ _ Hc)) in H. res_simpl.
  cbn [mbind res_bind] in H.
  pose proof (ring_cnt_range _ (cw_sent _ _ Hc)).
  pose proof (ring_cnt_range _ (cw_free _ _ Hc)).
  eapply admit_inv in H; eauto;
    destruct (Z.ltb_spec (ring_cnt (user_sent c)) (ring_cnt (free_lanes c))); lia.
Qed.

(** The preparation of the incoming items writes through item pointers. *)
Lemma incoming_kept dbg c n : forall i p p',
  pool_wf p ->
  _sfetch_channel_dowork_incoming dbg n i c p = Ok p' -> pool_kept p p'.
Proof.
  induction n as [|n IH]; intros i p p' Hp H; simpl in H.
  - apply Ok_inj in H. subst p'. now apply pool_kept_refl.
  - apply bind_inv in H as (x & _ & H).
    apply bind_inv in H as (oitem & Hl & H).
    apply assert_bind_inv in H as [_ H].
    apply bind_inv in H as (item & Hd & H). apply deref_inv in Hd. subst oitem.
    do 3 apply assert_bind_inv in H as [_ H].
    apply bind_inv in H as (p1 & Hst & H).
    assert (Hk : pool_kept p p1).
    { eapply (store_kept_same dbg _ _ _ _ _ Hp Hl); [|eassumption].
      apply prepare_handle. }
    eapply pool_kept_trans; [exact Hk|]. eapply IH; [apply Hk | exact H].
Qed.

Lemma prepare_all_kept dbg c p p' :
  pool_wf p -> _sfetch_channel_dowork_prepare_all dbg c p = Ok p' -> pool_kept p p'.
Proof.
  intros Hp H. unfold _sfetch_channel_dowork_prepare_all in H.
  apply bind_inv in H as (n & _ & H). eapply incoming_kept; eauto.
Qed.

(** The first half of a channel pass. *)
Lemma dowork_in_step dbg d c p c1 p1 p2 tin ui :
  chn_wf d c -> pool_wf p ->
  _sfetch_channel_dowork_admission dbg c p = Ok (c1, p1) ->
  _sfetch_channel_dowork_prepare_all dbg c1 p1 = Ok p2 ->
  _sfetch_thread_enqueue_incoming dbg (chn_thread c1) (thread_incoming c1)
    (user_incoming c1) = Ok (tin, ui) ->
  chn_step d c p
    (set_user_incoming (set_thread_queues c1 tin (thread_outgoing c1)) ui) p2.
Proof.
  intros Hc Hp Ha Hi He.
  apply (admission_inv dbg d) in Ha as (Hc1 & Hk1 & Hperm); [|assumption..].
  apply prepare_all_kept in Hi; [|apply Hk1].
  assert (Hmv : ring_wf tin /\ ring_wf ui /\ num tin = num (thread_incoming c1)
                /\ num ui = num (user_incoming c1) /\
                exists k,
                  ring_contents tin = ring_contents (thread_incoming c1)
                                      ++ take k (ring_contents (user_incoming c1)) /\
                  ring_contents ui = drop k (ring_contents (user_incoming c1)) /\
                  ring_cnt tin + ring_cnt ui
                  = ring_cnt (thread_incoming c1) + ring_cnt (user_incoming c1)).
  { unfold _sfetch_thread_enqueue_incoming in He.
    apply assert_bind_inv in He as [_ He].
    destruct (negb _).
    - eapply ring_move_inv; [apply Hc1 | apply Hc1 | exact He].
    - apply Ok_inj in He. injection He as <- <-.
      split_and!; try apply Hc1; auto.
      exists O. rewrite take_0, app_nil_r, drop_0. auto. }
  destruct Hmv as (Hw1 & Hw2 & Hn1 & Hn2 & k & Ht & Hu & Hcnt).
  apply chn_step_kept.
  - destruct Hc1. constructor; simpl; auto; try congruence.
    unfold lanes_total in *. simpl. lia.
  - eapply pool_kept_trans; eauto.
  - apply Permutation_submseteq. rewrite <- Hperm.
    unfold chn_ids, flight_ids. simpl. rewrite Ht, Hu.
    rewrite <- (take_drop k (ring_contents (user_incoming c1))) at 3.
    solve_Permutation.
Qed.

(** One turn of the worker. *)
Lemma thread_step_inv dbg io d ctx ci ctx' c :
  pool_wf (pool ctx) ->
  arr_get (chn ctx) ci = Ok c -> chn_wf d c ->
  _sfetch_channel_thread_step dbg io ctx ci = Ok ctx' ->
  exists c',
    chn_step d c (pool ctx) c' (pool ctx') /\
    chn ctx' = <[Z.to_nat ci := c']> (chn ctx) /\
    desc ctx' = desc ctx /\ setup ctx' = setup ctx /\ valid ctx' = valid ctx.
Proof.
  intros Hp Hget Hc H. unfold _sfetch_channel_thread_step in H.
  rewrite Hget in H. res_simpl. cbn [mbind res_bind] in H.
  apply arr_get_inv in Hget as [Hci Hget].
  pose proof (ring_empty_cnt _ (cw_ti _ _ Hc)) as He.
  destruct (stop_requested (chn_thread c)) eqn:Hstop; cbn [orb] in H.
  { apply Ok_inj in H. subst ctx'. exists c. split_and!; auto.
    - apply chn_step_kept; auto using pool_kept_refl.
    - now rewrite list_insert_id. }
  rewrite He in H. destruct (bool_decide _) eqn:Hemp.
  { apply Ok_inj in H. subst ctx'. exists c. split_and!; auto.
    - apply chn_step_kept; auto using pool_kept_refl.
    - now rewrite list_insert_id. }
  apply bool_decide_eq_false in Hemp.
  apply bind_inv in H as ([x tin] & Hdq & H).
  apply assert_bind_inv in H as [_ H].
  apply bind_inv in H as (ctx1 & Hh & H).
  apply bind_inv in H as (u & _ & H).
  apply bind_inv in H as (tout & Henq & H).
  apply bind_inv in H as (cs & Hset & H).
  apply Ok_inj in H. subst ctx'.
  apply request_handler_kept in Hh as (Hk & Hchn & Hd & Hs & Hv & _); [|exact Hp].
  unfold _sfetch_thread_dequeue_incoming in Hdq.
  apply assert_bind_inv in Hdq as [_ Hdq]. rewrite Hstop in Hdq. cbn [negb] in Hdq.
  destruct Hc as [cw_valid cw_thread cw_free cw_sent cw_ui cw_uo cw_ti cw_to
      cw_sent_num cw_free_num cw_ui_num cw_uo_num cw_ti_num cw_to_num cw_lanes].
  pose proof (ring_cnt_range _ cw_ti) as Hr1.
  pose proof (ring_cnt_range _ cw_ui) as Hr2.
  pose proof (ring_cnt_range _ cw_free) as Hr3.
  pose proof (ring_cnt_range _ cw_uo) as Hr4.
  pose proof (ring_cnt_range _ cw_to) as Hr5.
  unfold lanes_total in cw_lanes.
  apply ring_dequeue_inv in Hdq as (Hw1 & Hn1 & Hc1 & Hk1); [|assumption|lia].
  unfold _sfetch_thread_enqueue_outgoing in Henq.
  do 2 apply assert_bind_inv in Henq as [_ Henq].
  rewrite (ring_full_ok _ cw_to) in Henq. cbn [mbind res_bind] in Henq.
  rewrite bool_decide_eq_false_2 in Henq by lia. cbn [negb] in Henq.
  apply ring_enqueue_inv in Henq as (Hw2 & Hn2 & Hc2 & Hk2); [|assumption|lia].
  apply arr_set_inv in Hset as [_ ->].
  exists (set_thread_queues c tin tout). simpl. split_and!; auto; [|congruence].
  apply chn_step_kept; [| exact Hk |].
  - constructor; simpl; auto; try congruence.
    unfold lanes_total. simpl. lia.
  - apply Permutation_submseteq. unfold chn_ids, flight_ids. simpl.
    rewrite Hc1, Hc2. solve_Permutation.
Qed.

(** Freeing the slot of a live id ends the life of that id only. *)
Lemma free_live_sub p h id : live (pool_after_free p h) id -> live p id.
Proof.
  intros (Hne & it & Hs & Hh). split; [exact Hne|]. exists it. split; [|exact Hh].
  unfold slot in *. simpl in Hs.
  apply list_lookup_insert_Some in Hs as [(_ & <- & _)|[_ Hs]]; [|exact Hs].
  simpl in Hh. congruence.
Qed.

Lemma free_live_keep p h id :
  live p h -> live p id -> id <> h -> live (pool_after_free p h) id.
Proof.
  intros Hh (Hne & it & Hs & Hid) Hd. split; [exact Hne|]. exists it.
  split; [|exact Hid]. unfold slot in *. simpl.
  rewrite list_lookup_insert_ne; [exact Hs|].
  intros E. apply Hd. symmetry. apply (live_index_inj p); auto.
  - split; [exact Hne|]. exists it. auto.
  - pose proof (slot_index_range h). pose proof (slot_index_range id). lia.
Qed.

Lemma transfer_handle it : handle (_sfetch_channel_dowork_transfer it) = handle it.
Proof.
  unfold _sfetch_channel_dowork_transfer.
  destruct (t_failed (thread it)); [reflexivity|].
  cbn [state set_user].
  destruct (state it); try reflexivity.
  destruct (0 <? _); reflexivity.
Qed.

(** The drain loop: every id taken from the outgoing queue goes back to the
    incoming queue, or its slot is freed and its lane returned. *)
Lemma drain_inv dbg d (P : Z -> Prop) fuel : forall ctx c log ctx' c' log',
  chn_wf d c -> pool_wf (pool ctx) -> NoDup (chn_ids c) ->
  (forall id, id ∈ chn_ids c -> live (pool ctx) id) ->
  (forall id, live (pool ctx) id -> P id) ->
  Forall (fun r => P (r_handle r)) log ->
  Forall (dead_if_finished (pool ctx)) log ->
  _sfetch_channel_dowork_drain dbg fuel ctx c log = Ok (ctx', c', log') ->
  chn_step d c (pool ctx) c' (pool ctx') /\ chn ctx' = chn ctx /\
  desc ctx' = desc ctx /\ setup ctx' = setup ctx /\ valid ctx' = valid ctx /\
  Forall (fun r => P (r_handle r)) log' /\
  Forall (dead_if_finished (pool ctx')) log'.
Proof.
  induction fuel as [|fuel IH];
    intros ctx c log ctx' c' log' Hc Hp Hnd Hlive HP Hlog Hdead H;
    simpl in H; rewrite (ring_empty_cnt _ (cw_uo _ _ Hc)) in H;
    destruct (bool_decide (ring_cnt (user_outgoing c) = 0)) eqn:Hemp;
    cbn [negb] in H; try discriminate.
  1,2: apply Ok_inj in H; injection H as <- <- <-; split_and!; auto;
       apply chn_step_kept; auto using pool_kept_refl.
  apply bool_decide_eq_false in Hemp.
  apply bind_inv in H as ([x uo] & Hdq & H).
  apply assert_bind_inv in H as [_ H].
  apply bind_inv in H as (oitem & Hl & H).
  apply assert_bind_inv in H as [_ H].
  apply bind_inv in H as (item & Hd & H). apply deref_inv in Hd. subst oitem.
  do 4 apply assert_bind_inv in H as [_ H].
  apply bind_inv in H as (p1 & Hst & H).
  apply bind_inv in H as (ctx1 & Hcb & H).
  apply bind_inv in H as (item1 & Hget & H).
  assert (Hk1 : pool_kept (pool ctx) p1).
  { eapply (store_kept_same dbg _ _ _ _ _ Hp Hl); [|eassumption].
    apply transfer_handle. }
  unfold invoke_callback in Hcb.
  apply bind_inv in Hcb as (cb & _ & Hcb).
  assert (Hfin1 : u_finished (user item1)
                  = u_finished (user (_sfetch_channel_dowork_transfer item))).
  { destruct (lookup_store dbg _ _ _ _ Hl
                (eq_trans (transfer_handle item)
                   (proj1 (proj2 (proj2 (lookup_inv _ _ _ _ Hl))))))
      as [Hst' Hlk1].
    rewrite Hst' in Hst. apply Ok_inj in Hst. subst p1.
    destruct (user_calls_keep dbg
                (fun i => u_finished (user i)
                          = u_finished (user (_sfetch_channel_dowork_transfer item)))
                x _ ltac:(intros; assumption) ltac:(intros; assumption)
                ltac:(intros; assumption) ltac:(intros; assumption)
                (set_pool ctx _) _ ctx1 Hlk1 eq_refl Hcb) as (it' & Hl' & Hf').
    apply lookup_inv in Hl' as (_ & Hget' & _).
    rewrite Hget in Hget'. apply Ok_inj in Hget'. now subst it'. }
  apply run_user_calls_kept in Hcb as (Hk2 & Hchn & Hdesc & Hsetup & Hvalid & _);
    [|apply Hk1].
  simpl in Hk2, Hchn, Hdesc, Hsetup, Hvalid.
  assert (Hk : pool_kept (pool ctx) (pool ctx1)) by (eapply pool_kept_trans; eauto).
  pose proof Hc as Hc0. destruct Hc as [cw_valid cw_thread cw_free cw_sent cw_ui cw_uo cw_ti cw_to
      cw_sent_num cw_free_num cw_ui_num cw_uo_num cw_ti_num cw_to_num cw_lanes].
  pose proof (ring_cnt_range _ cw_ti) as Hr1.
  pose proof (ring_cnt_range _ cw_ui) as Hr2.
  pose proof (ring_cnt_range _ cw_free) as Hr3.
  pose proof (ring_cnt_range _ cw_uo) as Hr4.
  pose proof (ring_cnt_range _ cw_to) as Hr5.
  unfold lanes_total in cw_lanes.
  apply ring_dequeue_inv in Hdq as (Hw1 & Hn1 & Hc1 & Hk1'); [|assumption|lia].
  assert (Hx : x ∈ chn_ids c).
  { unfold chn_ids, flight_ids. rewrite Hc1, !elem_of_app, elem_of_cons. tauto. }
  assert (Hlog1 : Forall (fun r => P (r_handle r))
            (log ++ [_sfetch_channel_dowork_response x
                       (_sfetch_channel_dowork_transfer item)])).
  { apply Forall_app. split; [exact Hlog|]. repeat constructor. simpl.
    apply HP, Hlive, Hx. }
  destruct (u_finished (user item1)) eqn:Hfin.
  - apply bind_inv in H as (fl & Henq & H).
    apply bind_inv in H as (p2 & Hfree & H).
    simpl in Henq.
    apply ring_enqueue_inv in Henq as (Hw2 & Hn2 & Hc2 & Hk2'); [|assumption|lia].
    assert (Hlx : live (pool ctx1) x) by (apply Hk, Hlive, Hx).
    apply free_inv in Hfree as [-> Htop]; [|apply Hk|exact Hlx].
    assert (Hstep : chn_step d c (pool ctx)
                      (set_free_lanes (set_user_outgoing c uo) fl)
                      (pool_after_free (pool ctx1) x)).
    { constructor.
      - constructor; simpl; auto; try congruence.
        unfold lanes_total. simpl. lia.
      - apply free_wf; auto. apply Hk.
      - simpl. apply Hk.
      - unfold chn_ids, flight_ids. simpl. rewrite Hc1.
        repeat apply submseteq_skips_l. apply submseteq_cons, reflexivity.
      - intros id Hid. apply Hk. eapply free_live_sub; eauto.
      - intros id Hid Hin. apply free_live_keep; auto; [now apply Hk|].
        intros ->. specialize (Hin Hx).
        revert Hnd Hin. unfold chn_ids, flight_ids. simpl. rewrite Hc1.
        rewrite !app_assoc. intros Hnd Hin.
        apply NoDup_app in Hnd as (_ & Hdis & Hnd).
        apply NoDup_cons in Hnd as [Hnx _].
        apply elem_of_app in Hin as [Hin|Hin]; [|contradiction].
        apply (Hdis _ Hin). left. }
    apply IH in H as (Hs & ? & ? & ? & ? & ? & ?).
    + simpl in *. split_and!; try congruence.
      eapply chn_step_trans; eauto.
    + apply Hstep.
    + apply Hstep.
    + eapply chn_step_NoDup; eauto.
    + eapply chn_step_live; eauto.
    + intros id Hid. apply HP, (cs_live_sub _ _ _ _ _ Hstep), Hid.
    + exact Hlog1.
    + apply Forall_app. split.
      * eapply Forall_impl; [exact Hdead|]. intros r Hr Hf Hlv.
        apply (Hr Hf), (cs_live_sub _ _ _ _ _ Hstep), Hlv.
      * repeat constructor. intros _. simpl.
        apply stale_not_live, stale_after_free; auto. apply Hk.
  - apply bind_inv in H as (ui & Henq & H).
    simpl in Henq.
    apply ring_enqueue_inv in Henq as (Hw2 & Hn2 & Hc2 & Hk2'); [|assumption|lia].
    assert (Hstep : chn_step d c (pool ctx)
                      (set_user_incoming (set_user_outgoing c uo) ui) (pool ctx1)).
    { apply chn_step_kept; [| exact Hk |].
      - constructor; simpl; auto; try congruence.
        unfold lanes_total. simpl. lia.
      - apply Permutation_submseteq. unfold chn_ids, flight_ids. simpl.
        rewrite Hc1, Hc2. solve_Permutation. }
    apply IH in H as (Hs & ? & ? & ? & ? & ? & ?).
    + split_and!; try congruence. eapply chn_step_trans; eauto.
    + apply Hstep.
    + apply Hstep.
    + eapply chn_step_NoDup; eauto.
    + eapply chn_step_live; eauto.
    + intros id Hid. apply HP, (cs_live_sub _ _ _ _ _ Hstep), Hid.
    + exact Hlog1.
    + apply Forall_app. split.
      * eapply Forall_impl; [exact Hdead|]. intros r Hr Hf Hlv.
        apply (Hr Hf), (cs_live_sub _ _ _ _ _ Hstep), Hlv.
      * repeat constructor. intros Hf. simpl in Hf. congruence.
Qed.

(** ** The invariant of the engine is kept *)

Lemma ids_split (l : list _sfetch_channel_t) i c :
  l !! i = Some c ->
  exists a b,
    concat (chn_ids <$> l) = a ++ chn_ids c ++ b /\
    forall c', concat (chn_ids <$> <[i := c']> l) = a ++ chn_ids c' ++ b.
Proof.
  intros H.
  exists (concat (chn_ids <$> take i l)), (concat (chn_ids <$> drop (S i) l)).
  split.
  - rewrite <- (take_drop_middle l i c H) at 1.
    now rewrite fmap_app, concat_app, fmap_cons.
  - intros c'. rewrite insert_take_drop by (eapply lookup_lt_Some; eauto).
    now rewrite fmap_app, concat_app, fmap_cons.
Qed.

Lemma engine_inv_chn ctx i c :
  engine_inv ctx -> chn ctx !! i = Some c ->
  chn_wf (desc ctx) c /\ NoDup (chn_ids c) /\
  (forall id, id ∈ chn_ids c -> live (pool ctx) id).
Proof.
  intros Hinv H. destruct (ids_split _ _ _ H) as (a & b & E & _).
  pose proof (ei_nodup _ Hinv) as Hnd. pose proof (ei_live _ Hinv) as Hl.
  unfold all_ids in *. rewrite E in Hnd, Hl.
  split_and!.
  - eapply Forall_lookup_1; [apply Hinv | exact H].
  - apply NoDup_app in Hnd as (_ & _ & Hn).
    apply NoDup_app in Hn. tauto.
  - intros id Hid. apply Hl. rewrite !elem_of_app. tauto.
Qed.

Lemma engine_inv_get ctx ci c :
  engine_inv ctx -> arr_get (chn ctx) ci = Ok c ->
  chn ctx !! Z.to_nat ci = Some c /\
  chn_wf (desc ctx) c /\ NoDup (chn_ids c) /\
  (forall id, id ∈ chn_ids c -> live (pool ctx) id).
Proof.
  intros Hinv H. apply arr_get_inv in H as [_ H].
  split; [exact H|]. eapply engine_inv_chn; eauto.
Qed.

(** A step of one channel keeps the invariant. *)
Lemma engine_inv_step ctx ctx' i c c' :
  engine_inv ctx -> chn ctx !! i = Some c ->
  chn_step (desc ctx) c (pool ctx) c' (pool ctx') ->
  chn ctx' = <[i := c']> (chn ctx) ->
  desc ctx' = desc ctx -> setup ctx' = setup ctx -> valid ctx' = valid ctx ->
  engine_inv ctx'.
Proof.
  intros Hinv Hc Hstep Hchn Hd Hs Hv.
  destruct (ids_split _ _ _ Hc) as (a & b & E & E').
  pose proof (ei_nodup _ Hinv) as Hnd. pose proof (ei_live _ Hinv) as Hl.
  unfold all_ids in Hnd, Hl. rewrite E in Hnd, Hl.
  assert (Hsub : a ++ chn_ids c' ++ b ⊆+ a ++ chn_ids c ++ b).
  { apply submseteq_skips_l, submseteq_skips_r, Hstep. }
  constructor.
  - rewrite Hs. apply Hinv.
  - rewrite Hv. apply Hinv.
  - rewrite Hd. apply Hinv.
  - apply Hstep.
  - rewrite (cs_size _ _ _ _ _ Hstep), Hd. apply Hinv.
  - rewrite Hchn, length_insert, Hd. apply Hinv.
  - rewrite Hchn, Hd. apply Forall_insert; [apply Hinv | apply Hstep].
  - unfold all_ids. rewrite Hchn, E'. eapply submseteq_NoDup; eauto.
  - unfold all_ids. rewrite Hchn, E'. intros id Hid.
    apply (cs_live_keep _ _ _ _ _ Hstep).
    + apply Hl. eapply elem_of_submseteq; eauto.
    + intros Hin. rewrite !elem_of_app in Hid.
      destruct Hid as [Hid|[Hid|Hid]]; [|exact Hid|]; exfalso.
      * apply NoDup_app in Hnd as (_ & Hdis & _).
        apply (Hdis _ Hid). rewrite elem_of_app. tauto.
      * apply NoDup_app in Hnd as (_ & _ & Hn).
        apply NoDup_app in Hn as (_ & Hdis & _). apply (Hdis _ Hin Hid).
Qed.

(** Writes through item pointers keep the invariant. *)
Lemma engine_inv_kept ctx ctx' :
  engine_inv ctx -> pool_kept (pool ctx) (pool ctx') ->
  chn ctx' = chn ctx -> desc ctx' = desc ctx ->
  setup ctx' = setup ctx -> valid ctx' = valid ctx ->
  engine_inv ctx'.
Proof.
  intros Hinv Hk Hchn Hd Hs Hv.
  constructor; unfold all_ids; rewrite ?Hchn, ?Hd, ?Hs, ?Hv; try apply Hinv.
  - apply Hk.
  - rewrite (pk_size _ _ Hk). apply Hinv.
  - intros id Hid. apply (pk_live _ _ Hk), (ei_live _ Hinv), Hid.
Qed.

Lemma engine_inv_in_callback ctx b :
  engine_inv ctx -> engine_inv (set_in_callback ctx b).
Proof.
  intros H. eapply engine_inv_kept; eauto. apply pool_kept_refl, H.
Qed.

Lemma dowork_in_inv dbg ctx ci ctx' :
  engine_inv ctx -> _sfetch_channel_dowork_in dbg ctx ci = Ok ctx' ->
  engine_inv ctx' /\ desc ctx' = desc ctx /\ live_sub ctx ctx'.
Proof.
  intros Hinv H. unfold _sfetch_channel_dowork_in in H.
  apply bind_inv in H as (c & Hget & H).
  apply bind_inv in H as ([c1 p1] & Ha & H).
  apply bind_inv in H as (p2 & Hi & H).
  apply bind_inv in H as ([tin ui] & He & H).
  apply bind_inv in H as (cs & Hset & H).
  apply Ok_inj in H. subst ctx'.
  destruct (engine_inv_get _ _ _ Hinv Hget) as (Hc & Hwf & _).
  apply arr_set_inv in Hset as [_ ->].
  pose proof (dowork_in_step dbg _ _ _ _ _ _ _ _ Hwf (ei_pool _ Hinv) Ha Hi He)
    as Hstep.
  split_and!; [|reflexivity|exact (cs_live_sub _ _ _ _ _ Hstep)].
  eapply engine_inv_step; eauto; reflexivity.
Qed.

Lemma thread_step_engine dbg io ctx ci ctx' :
  engine_inv ctx -> _sfetch_channel_thread_step dbg io ctx ci = Ok ctx' ->
  engine_inv ctx' /\ desc ctx' = desc ctx /\ live_sub ctx ctx'.
Proof.
  intros Hinv H.
  assert (Hg : exists c, arr_get (chn ctx) ci = Ok c).
  { unfold _sfetch_channel_thread_step in H.
    apply bind_inv in H as (c & Hget & _). eauto. }
  destruct Hg as [c Hget].
  destruct (engine_inv_get _ _ _ Hinv Hget) as (Hc & Hwf & _).
  eapply thread_step_inv in H as (c' & Hs & Hchn & Hd & Hse & Hv); eauto;
    [|apply Hinv].
  split_and!; [|exact Hd|exact (cs_live_sub _ _ _ _ _ Hs)].
  eapply engine_inv_step; eauto.
Qed.

Lemma worker_turns_inv dbg io k : forall ctx ci ctx',
  engine_inv ctx -> worker_turns dbg io k ctx ci = Ok ctx' ->
  engine_inv ctx' /\ desc ctx' = desc ctx /\ live_sub ctx ctx'.
Proof.
  induction k as [|k IH]; intros ctx ci ctx' Hinv H; simpl in H.
  - apply Ok_inj in H. subst. split_and!; auto. intros id Hid. exact Hid.
  - apply bind_inv in H as (ctx1 & H1 & H).
    apply thread_step_engine in H1 as (Hinv1 & Hd1 & Hl1); [|exact Hinv].
    apply IH in H as (Hinv2 & Hd2 & Hl2); [|exact Hinv1].
    split_and!; [assumption | congruence |].
    intros id Hid. apply Hl1, Hl2, Hid.
Qed.

Lemma dead_if_finished_mono ctx ctx' log :
  live_sub ctx ctx' ->
  Forall (dead_if_finished (pool ctx)) log ->
  Forall (dead_if_finished (pool ctx')) log.
Proof.
  intros Hsub H. eapply Forall_impl; [exact H|].
  intros r Hr Hf Hlv. apply (Hr Hf), Hsub, Hlv.
Qed.

Lemma dowork_out_inv dbg (P : Z -> Prop) ctx ci ctx' log :
  engine_inv ctx -> (forall id, live (pool ctx) id -> P id) ->
  _sfetch_channel_dowork_out dbg ctx ci = Ok (ctx', log) ->
  engine_inv ctx' /\ desc ctx' = desc ctx /\ live_sub ctx ctx' /\
  Forall (fun r => P (r_handle r)) log /\
  Forall (dead_if_finished (pool ctx')) log.
Proof.
  intros Hinv HP H. unfold _sfetch_channel_dowork_out in H.
  apply bind_inv in H as (c & Hget & H).
  apply bind_inv in H as ([tout uo] & Hdq & H).
  apply bind_inv in H as ([[ctx1 c1] log1] & Hdr & H).
  apply bind_inv in H as (cs & Hset & H).
  apply Ok_inj in H. injection H as <- <-.
  destruct (engine_inv_get _ _ _ Hinv Hget) as (Hc & Hwf & Hnd & Hlive).
  unfold _sfetch_thread_dequeue_outgoing in Hdq.
  apply assert_bind_inv in Hdq as [_ Hdq].
  apply bind_inv in Hdq as ([uo' tout'] & Hmv & Hdq).
  apply Ok_inj in Hdq. injection Hdq as <- <-.
  apply ring_move_inv in Hmv
    as (Hw1 & Hw2 & Hn1 & Hn2 & k & Hu & Ht & Hcnt); [|apply Hwf..].
  set (c0 := set_user_outgoing (set_thread_queues c (thread_incoming c) tout') uo')
    in *.
  assert (Hstep0 : chn_step (desc ctx) c (pool ctx) c0 (pool ctx)).
  { apply chn_step_kept.
    - destruct Hwf. constructor; simpl; auto; try congruence.
      unfold lanes_total in *. simpl. lia.
    - apply pool_kept_refl, Hinv.
    - apply Permutation_submseteq. unfold chn_ids, flight_ids. simpl.
      rewrite Hu, Ht.
      rewrite <- (take_drop k (ring_contents (thread_outgoing c))) at 3.
      solve_Permutation. }
  apply (drain_inv dbg (desc ctx) P) in Hdr
    as (Hs & Hchn & Hd & Hse & Hv & Hlog & Hdead).
  - apply arr_set_inv in Hset as [_ ->].
    split_and!;
      [|exact Hd|exact (cs_live_sub _ _ _ _ _ Hs)|exact Hlog|exact Hdead].
    eapply engine_inv_step; eauto; simpl; try congruence.
    eapply chn_step_trans; eauto.
    now rewrite Hchn.
  - apply Hstep0.
  - apply Hinv.
  - eapply chn_step_NoDup; eauto.
  - eapply chn_step_live; eauto.
  - exact HP.
  - constructor.
  - constructor.
Qed.

Lemma channel_dowork_with_inv dbg io (P : Z -> Prop) k ctx ci ctx' log :
  engine_inv ctx -> (forall id, live (pool ctx) id -> P id) ->
  _sfetch_channel_dowork_with dbg io k ctx ci = Ok (ctx', log) ->
  engine_inv ctx' /\ desc ctx' = desc ctx /\ live_sub ctx ctx' /\
  Forall (fun r => P (r_handle r)) log /\
  Forall (dead_if_finished (pool ctx')) log.
Proof.
  intros Hinv HP H. unfold _sfetch_channel_dowork_with in H.
  apply bind_inv in H as (ctx1 & H1 & H).
  apply bind_inv in H as (ctx2 & H2 & H).
  apply dowork_in_inv in H1 as (Hi1 & Hd1 & Hl1); [|exact Hinv].
  apply worker_turns_inv in H2 as (Hi2 & Hd2 & Hl2); [|exact Hi1].
  apply (dowork_out_inv dbg P) in H as (Hi3 & Hd3 & Hl3 & Hlog & Hdead);
    [|exact Hi2|].
  - split_and!; [assumption | congruence | | exact Hlog | exact Hdead].
    intros id Hid. apply Hl1, Hl2, Hl3, Hid.
  - intros id Hid. apply HP, Hl1, Hl2, Hid.
Qed.

Lemma dowork_channels_inv dbg io (P : Z -> Prop) sched n :
  forall ci ctx log ctx' log',
  engine_inv ctx -> (forall id, live (pool ctx) id -> P id) ->
  Forall (fun r => P (r_handle r)) log ->
  Forall (dead_if_finished (pool ctx)) log ->
  sfetch_dowork_channels dbg io sched n ci ctx log = Ok (ctx', log') ->
  engine_inv ctx' /\ desc ctx' = desc ctx /\ live_sub ctx ctx' /\
  Forall (fun r => P (r_handle r)) log' /\
  Forall (dead_if_finished (pool ctx')) log'.
Proof.
  induction n as [|n IH]; intros ci ctx log ctx' log' Hinv HP Hlog Hdead H;
    simpl in H.
  - apply Ok_inj in H. injection H as <- <-. split_and!; auto.
    intros id Hid. exact Hid.
  - apply bind_inv in H as ([ctx1 l] & H1 & H).
    apply (channel_dowork_with_inv dbg io P) in H1
      as (Hi1 & Hd1 & Hl1 & Hg1 & Hdead1); [|exact Hinv|exact HP].
    apply IH in H as (Hi2 & Hd2 & Hl2 & Hg2 & Hdead2); [|exact Hi1| | |].
    + split_and!; [assumption | congruence | | exact Hg2 | exact Hdead2].
      intros id Hid. apply Hl1, Hl2, Hid.
    + intros id Hid. apply HP, Hl1, Hid.
    + apply Forall_app. auto.
    + apply Forall_app. split; [|exact Hdead1].
      eapply dead_if_finished_mono; eauto.
Qed.

Lemma dowork_with_inv dbg io (P : Z -> Prop) sched ctx ctx' log :
  engine_inv ctx -> (forall id, live (pool ctx) id -> P id) ->
  sfetch_dowork_with dbg io sched ctx = Ok (ctx', log) ->
  engine_inv ctx' /\ desc ctx' = desc ctx /\ live_sub ctx ctx' /\
  Forall (fun r => P (r_handle r)) log /\
  Forall (dead_if_finished (pool ctx')) log.
Proof.
  intros Hinv HP H. unfold sfetch_dowork_with in H.
  apply assert_bind_inv in H as [_ H].
  rewrite (ei_valid _ Hinv) in H. cbn [negb] in H.
  apply bind_inv in H as ([ctx1 l0] & H1 & H).
  apply bind_inv in H as ([ctx2 l1] & H2 & H).
  apply Ok_inj in H. injection H as <- <-.
  apply (dowork_channels_inv dbg io P) in H1 as (Hi1 & Hd1 & Hl1 & Hg1 & Hdead1);
    [|now apply engine_inv_in_callback|exact HP|constructor|constructor].
  apply (dowork_channels_inv dbg io P) in H2 as (Hi2 & Hd2 & Hl2 & Hg2 & Hdead2);
    [|exact Hi1| |exact Hg1|exact Hdead1].
  - split_and!; [now apply engine_inv_in_callback | | | exact Hg2 | exact Hdead2].
    + simpl in *. congruence.
    + intros id Hid. apply (Hl1 id), Hl2, Hid.
  - intros id Hid. apply HP, (Hl1 id), Hid.
Qed.

Lemma user_call_inv dbg ctx call ctx' :
  engine_inv ctx -> run_user_call dbg ctx call = Ok ctx' ->
  engine_inv ctx' /\ live_sub ctx ctx'.
Proof.
  intros Hinv H.
  apply run_user_call_kept in H as (Hk & ? & ? & ? & ? & _); [|apply Hinv].
  split; [eapply engine_inv_kept; eauto|].
  intros id Hid. apply (pk_live _ _ Hk), Hid.
Qed.

(** ** The pool cannot hold more live items than it has slots *)

Lemma live_count p ids :
  pool_wf p -> NoDup ids -> (forall id, id ∈ ids -> live p id) ->
  Z.of_nat (length ids) + free_top p <= p_size p - 1.
Proof.
  intros Hp Hnd Hl.
  assert (Hn : NoDup ((_sfetch_slot_index <$> ids) ++ free_stack p)).
  { apply NoDup_app. split_and!.
    - apply NoDup_fmap_2_strong; [|exact Hnd].
      intros x y Hx Hy. apply (live_index_inj p); auto.
    - intros s Hs Hf. apply list_elem_of_fmap in Hs as (id & -> & Hid).
      eapply live_not_free; eauto.
    - apply Hp. }
  assert (Hsub : (_sfetch_slot_index <$> ids) ++ free_stack p
                 ⊆+ seqZ 1 (p_size p - 1)).
  { apply NoDup_submseteq; [exact Hn|]. intros s Hs. apply elem_of_seqZ.
    apply elem_of_app in Hs as [Hs|Hs].
    - apply list_elem_of_fmap in Hs as (id & -> & Hid).
      pose proof (live_range p id Hp (Hl id Hid)). lia.
    - destruct (pw_free p Hp s Hs) as [Hr _]. lia. }
  apply submseteq_length in Hsub.
  rewrite length_app, length_fmap, length_seqZ in Hsub.
  unfold free_stack in Hsub. rewrite length_take in Hsub.
  pose proof (pw_top p Hp). pose proof (pw_slots p Hp). pose proof (pw_size p Hp).
  lia.
Qed.

(** With a free slot in the pool, no sent queue is full: the branch of
    [sfetch_send] that frees the slot again is never taken. *)
Lemma sent_queue_has_room ctx i c :
  engine_inv ctx -> chn ctx !! i = Some c -> 0 < free_top (pool ctx) ->
  ring_cnt (user_sent c) < num (user_sent c) - 1.
Proof.
  intros Hinv Hc Ht.
  pose proof (live_count _ _ (ei_pool _ Hinv) (ei_nodup _ Hinv) (ei_live _ Hinv))
    as Hcount.
  destruct (ids_split _ _ _ Hc) as (a & b & E & _).
  unfold all_ids in Hcount. rewrite E in Hcount.
  unfold chn_ids in Hcount. rewrite !length_app in Hcount.
  destruct (engine_inv_chn _ _ _ Hinv Hc) as (Hwf & _).
  pose proof (ring_cnt_length _ (cw_sent _ _ Hwf)).
  rewrite (cw_sent_num _ _ Hwf). rewrite (ei_size _ Hinv) in Hcount. lia.
Qed.

(** ** Sending *)

Lemma validate_path dbg ctx r :
  _sfetch_validate_request dbg ctx r = true -> dbg = true -> is_Some (q_path r).
Proof.
  intros H ->. unfold _sfetch_validate_request in H.
  destruct (_ <=? _); [discriminate|]. destruct (q_path r); [eauto|discriminate].
Qed.

(** The two ways [sfetch_send] returns on a state of the engine. *)
Lemma send_cases dbg ctx r h ctx' :
  engine_inv ctx -> sfetch_send dbg ctx r = Ok (h, ctx') ->
  (h = 0 /\ ctx' = ctx /\
   (_sfetch_validate_request dbg ctx r = false \/ free_top (pool ctx) = 0)) \/
  (h <> 0 /\ _sfetch_validate_request dbg ctx r = true /\ 0 < free_top (pool ctx) /\
   exists p1 c rb,
     _sfetch_pool_item_alloc dbg (pool ctx) r = Ok (h, p1) /\
     chn ctx !! Z.to_nat (q_channel r) = Some c /\
     ring_wf rb /\ num rb = num (user_sent c) /\
     ring_contents rb = ring_contents (user_sent c) ++ [h] /\
     ctx' = set_chn (set_pool ctx p1)
              (<[Z.to_nat (q_channel r) := set_user_sent c rb]> (chn ctx))).
Proof.
  intros Hinv H. unfold sfetch_send in H.
  apply assert_bind_inv in H as [_ H].
  rewrite (ei_valid _ Hinv) in H. cbn [negb] in H.
  destruct (_sfetch_validate_request dbg ctx r) eqn:Hval; cbn [negb] in H.
  2:{ apply Ok_inj in H. injection H as <- <-. left. auto. }
  apply assert_bind_inv in H as [_ H].
  apply bind_inv in H as ([id p1] & Hal & H).
  pose proof (ei_pool _ Hinv) as Hp.
  pose proof (pw_top _ Hp) as Htop.
  destruct (Z.eq_dec (free_top (pool ctx)) 0) as [Hz|Hz].
  { pose proof Hal as Hal'. unfold _sfetch_pool_item_alloc in Hal'.
    apply assert_bind_inv in Hal' as [_ Hal']. rewrite Hz in Hal'. simpl in Hal'.
    apply Ok_inj in Hal'. injection Hal' as <- <-. simpl in H.
    apply Ok_inj in H. injection H as <- <-. left. auto. }
  destruct (alloc_ok dbg (pool ctx) r Hp ltac:(lia) (validate_path _ _ _ Hval))
    as (id' & p' & Hal' & Hnz & _).
  rewrite Hal in Hal'. apply Ok_inj in Hal'. injection Hal' as <- <-.
  apply Z.eqb_neq in Hnz. rewrite Hnz in H. apply Z.eqb_neq in Hnz.
  apply bind_inv in H as (c & Hget & H).
  destruct (engine_inv_get _ _ _ Hinv Hget) as (Hc & Hcw & _).
  apply bind_inv in H as ([sent c'] & Hsend & H).
  unfold _sfetch_channel_send in Hsend.
  apply assert_bind_inv in Hsend as [_ Hsend].
  rewrite (ring_full_ok _ (cw_sent _ _ Hcw)) in Hsend.
  cbn [mbind res_bind] in Hsend.
  pose proof (sent_queue_has_room _ _ _ Hinv Hc ltac:(lia)) as Hroom.
  rewrite bool_decide_eq_false_2 in Hsend by lia. cbn [negb] in Hsend.
  apply bind_inv in Hsend as (rb & Henq & Hsend).
  apply Ok_inj in Hsend. injection Hsend as <- <-. cbn [negb] in H.
  apply bind_inv in H as (cs & Hset & H).
  apply Ok_inj in H. injection H as <- <-. unfold _sfetch_make_handle.
  apply arr_set_inv in Hset as [_ ->].
  apply ring_enqueue_inv in Henq as (Hw & Hn & Hcont & Hcnt);
    [|apply Hcw|exact Hroom].
  right. split_and!; auto; [lia|].
  exists p1, c, rb. split_and!; auto.
Qed.

Lemma send_inv dbg ctx r h ctx' :
  engine_inv ctx -> sfetch_send dbg ctx r = Ok (h, ctx') ->
  engine_inv ctx' /\
  (_sfetch_validate_request dbg ctx r = false \/ free_top (pool ctx) = 0 <-> h = 0) /\
  (h = 0 -> ctx' = ctx) /\
  (forall id, live (pool ctx') id -> id = h \/ live (pool ctx) id).
Proof.
  intros Hinv H.
  destruct (send_cases _ _ _ _ _ Hinv H)
    as [(-> & -> & Hcause)|(Hnz & Hval & Hft & p1 & c & rb & Hal & Hc & Hw & Hn & Hcont & ->)].
  { split_and!; auto. tauto. }
  pose proof (ei_pool _ Hinv) as Hp.
  destruct (alloc_ok dbg (pool ctx) r Hp Hft (validate_path _ _ _ Hval))
    as (id' & p' & Hal' & _ & Hwf' & Hlive & Hft' & Hmono & Hnew & Hfresh).
  rewrite Hal in Hal'. apply Ok_inj in Hal'. injection Hal' as <- <-.
  assert (Hsz : p_size p1 = p_size (pool ctx)).
  { apply alloc_inv in Hal as [(? & ? & _)|(_ & s & g & it0 & _ & _ & _ & _ & ->)];
      [lia | reflexivity | exact Hp]. }
  destruct (engine_inv_chn _ _ _ Hinv Hc) as (Hcw & _).
  split_and!; [| split; [intros [?|?]; [congruence|lia] | intros; contradiction]
               | intros; contradiction | exact Hnew].
  destruct (ids_split _ _ _ Hc) as (a & b & E & E').
  assert (Hids : all_ids (set_chn (set_pool ctx p1)
                    (<[Z.to_nat (q_channel r) := set_user_sent c rb]> (chn ctx)))
                 ≡ₚ h :: all_ids ctx).
  { unfold all_ids. simpl. rewrite E', E. unfold chn_ids. simpl. rewrite Hcont.
    solve_Permutation. }
  pose proof (ei_live _ Hinv) as Hl. pose proof (ei_size _ Hinv) as Hs.
  constructor; simpl; try apply Hinv; auto.
  - lia.
  - rewrite length_insert. apply Hinv.
  - apply Forall_insert; [apply Hinv|].
    destruct Hcw. constructor; simpl; auto. congruence.
  - rewrite Hids. apply NoDup_cons. split; [|apply Hinv].
    intros Hin. apply Hfresh, Hl, Hin.
  - intros x Hx. rewrite Hids in Hx. apply elem_of_cons in Hx as [->|Hx]; auto.
Qed.

(** ** Setting the engine up *)

Lemma pool_init_loop_size fuel : forall i p p',
  _sfetch_pool_init_loop fuel i p = Ok p' -> p_size p' = p_size p.
Proof.
  induction fuel as [|fuel IH]; intros i p p' H; simpl in H.
  - apply Ok_inj in H. now subst.
  - destruct (1 <=? i).
    + apply bind_inv in H as (fs & _ & H). apply IH in H. exact H.
    + apply Ok_inj in H. now subst.
Qed.

Lemma pool_init_size dbg n p :
  0 < n < 2 ^ 16 - 1 -> _sfetch_pool_init dbg n = Ok p -> p_size p = n + 1.
Proof.
  intros Hn H. unfold _sfetch_pool_init in H.
  apply assert_bind_inv in H as [_ H].
  apply bind_inv in H as (p0 & H0 & H). apply Ok_inj in H. subst p.
  apply pool_init_loop_size in H0. simpl in *. rewrite H0.
  apply u32_small. lia.
Qed.

Lemma ring_init_inv dbg n rb :
  0 < n < 2 ^ 31 -> _sfetch_ring_init dbg n = Ok rb ->
  ring_wf rb /\ num rb = n + 1 /\ ring_cnt rb = 0 /\ ring_contents rb = [].
Proof.
  intros Hn H. unfold _sfetch_ring_init in H.
  apply assert_bind_inv in H as [_ H]. apply Ok_inj in H. subst rb.
  rewrite (u32_small (n + 1)) by lia.
  assert (Hc : ring_cnt {| head := 0; tail := 0; num := n + 1;
                           buf := replicate (Z.to_nat (n + 1)) 0 |} = 0).
  { unfold ring_cnt. simpl. apply Z.mod_0_l. lia. }
  split; [|split; [reflexivity|split; [exact Hc|]]].
  - unfold ring_wf. simpl. rewrite length_replicate. lia.
  - unfold ring_contents, ring_len. now rewrite Hc.
Qed.

Lemma init_lanes_inv dbg k : forall lane rb rb',
  ring_wf rb -> ring_cnt rb + Z.of_nat k <= num rb - 1 ->
  _sfetch_channel_init_lanes dbg k lane rb = Ok rb' ->
  ring_wf rb' /\ num rb' = num rb /\ ring_cnt rb' = ring_cnt rb + Z.of_nat k.
Proof.
  induction k as [|k IH]; intros lane rb rb' Hw Hr H; simpl in H.
  - apply Ok_inj in H. subst. split_and!; auto. lia.
  - apply bind_inv in H as (rb1 & He & H).
    apply ring_enqueue_inv in He as (Hw1 & Hn1 & _ & Hc1); [|exact Hw|lia].
    apply IH in H as (Hw2 & Hn2 & Hc2); [|exact Hw1|lia].
    split_and!; auto; lia.
Qed.

Lemma channel_init_inv dbg d c :
  desc_ok d ->
  _sfetch_channel_init dbg (max_requests d) (num_lanes d) = Ok c ->
  chn_wf d c /\ chn_ids c = [].
Proof.
  intros [Hr _ Hl] H. unfold _sfetch_channel_init in H.
  apply assert_bind_inv in H as [_ H].
  apply bind_inv in H as (fl0 & Hfl0 & H).
  apply bind_inv in H as (fl & Hfl & H).
  apply bind_inv in H as (us & Hus & H).
  apply bind_inv in H as (ui & Hui & H).
  apply bind_inv in H as (uo & Huo & H).
  apply bind_inv in H as (ti & Hti & H).
  apply bind_inv in H as (to & Hto & H).
  apply Ok_inj in H. subst c.
  apply ring_init_inv in Hfl0 as (Hw0 & Hn0 & Hc0 & _); [|lia].
  apply init_lanes_inv in Hfl as (Hw1 & Hn1 & Hc1); [|exact Hw0|lia].
  apply ring_init_inv in Hus as (? & ? & ? & Hcs); [|lia].
  apply ring_init_inv in Hui as (? & ? & ? & Hci); [|lia].
  apply ring_init_inv in Huo as (? & ? & ? & Hco); [|lia].
  apply ring_init_inv in Hti as (? & ? & ? & Hcti); [|lia].
  apply ring_init_inv in Hto as (? & ? & ? & Hcto); [|lia].
  split.
  - constructor; simpl; auto; try lia. unfold lanes_total. simpl. lia.
  - unfold chn_ids, flight_ids. simpl. now rewrite Hcs, Hci, Hco, Hcti, Hcto.
Qed.

Lemma setup_channels_inv dbg d n : forall cs,
  desc_ok d ->
  sfetch_setup_channels dbg n (max_requests d) (num_lanes d) = Ok cs ->
  length cs = n /\ Forall (chn_wf d) cs /\ concat (chn_ids <$> cs) = [].
Proof.
  induction n as [|n IH]; intros cs Hd H; simpl in H.
  - apply Ok_inj in H. subst cs. split_and!; auto.
  - apply bind_inv in H as (c & Hc & H).
    apply bind_inv in H as (cs' & Hcs & H).
    apply Ok_inj in H. subst cs.
    apply channel_init_inv in Hc as [Hw Hi]; [|exact Hd].
    apply IH in Hcs as (Hlen & Hall & Hids); [|exact Hd].
    split_and!.
    + simpl. now rewrite Hlen.
    + constructor; assumption.
    + rewrite fmap_cons. cbn [concat]. now rewrite Hi, Hids.
Qed.

(** The pool that [_sfetch_pool_init] makes. *)
Lemma pool_init_ok dbg n :
  0 < n < 2 ^ 16 - 1 ->
  exists fs,
    _sfetch_pool_init dbg n
    = Ok {| p_size := n + 1; free_top := n;
            items := replicate (Z.to_nat (n + 1)) _sfetch_item_zero;
            free_slots := fs;
            gen_ctrs := replicate (Z.to_nat (n + 1)) 0;
            p_valid := true |}
    /\ take (Z.to_nat n) fs = countdown (Z.to_nat n).
Proof.
  intros Hn. unfold _sfetch_pool_init.
  rewrite assert_bind_ok
    by (intros _; apply andb_true_iff; split; apply Z.ltb_lt; lia).
  rewrite !(u32_small (n + 1)) by lia.
  rewrite (u32_small (n + 1 - 1)) by lia.
  replace (n + 1 - 1) with (Z.of_nat (Z.to_nat n)) by lia.
  edestruct (pool_init_loop_ok (Z.to_nat n)) as (fs & Hrun & Hl & Htake);
    [| | | rewrite Hrun]; simpl; try rewrite length_replicate; try lia.
  res_simpl. simpl. exists fs. rewrite Z.add_0_l in *.
  rewrite Z2Nat.id in * by lia. split; [reflexivity | exact Htake].
Qed.

Lemma pool_init_dead dbg n p h :
  0 < n < 2 ^ 16 - 1 -> _sfetch_pool_init dbg n = Ok p -> ~ live p h.
Proof.
  intros Hn H. destruct (pool_init_ok dbg n Hn) as (fs & Hrun & _).
  rewrite Hrun in H. apply Ok_inj in H. subst p.
  intros (Hne & it & Hs & Hh). unfold slot in Hs. simpl in Hs.
  apply lookup_replicate_1 in Hs as [-> _]. simpl in Hh. congruence.
Qed.

(** [sfetch_setup] establishes the invariant. *)
Lemma setup_inv dbg d ctx :
  desc_in_range d -> sfetch_setup dbg d = Ok ctx -> engine_inv ctx.
Proof.
  intros (Hr & Hc & Hl) H. unfold sfetch_setup in H.
  apply bind_inv in H as (p & Hp & H).
  apply bind_inv in H as (cs & Hcs & H).
  apply Ok_inj in H. subst ctx.
  set (mr := _sfetch_def (max_requests d) 128) in *.
  set (nl := _sfetch_def (num_lanes d) 1) in *.
  set (nc := if SFETCH_MAX_CHANNELS <? _sfetch_def (num_channels d) 1
             then SFETCH_MAX_CHANNELS else _sfetch_def (num_channels d) 1) in *.
  assert (Hmr : 0 < mr < 2 ^ 16 - 1).
  { unfold mr, _sfetch_def. destruct (Z.eqb_spec (max_requests d) 0); lia. }
  assert (Hnl : 0 < nl < 2 ^ 31).
  { unfold nl, _sfetch_def. destruct (Z.eqb_spec (num_lanes d) 0); lia. }
  assert (Hnc : 0 < nc <= SFETCH_MAX_CHANNELS).
  { unfold nc, _sfetch_def, SFETCH_MAX_CHANNELS.
    destruct (Z.eqb_spec (num_channels d) 0).
    - destruct (Z.ltb_spec 16 1); lia.
    - destruct (Z.ltb_spec 16 (num_channels d)); lia. }
  assert (Hd : desc_ok {| max_requests := mr; num_channels := nc; num_lanes := nl |})
    by (constructor; assumption).
  apply (setup_channels_inv dbg _ _ _ Hd) in Hcs as (Hlen & Hall & Hids).
  constructor; simpl; auto.
  - eapply pool_init_wf; eauto.
  - eapply pool_init_size; eauto.
  - lia.
  - unfold all_ids. simpl. rewrite Hids. constructor.
  - unfold all_ids. simpl. rewrite Hids. intros id Hid. inversion Hid.
Qed.

Lemma setup_dead dbg d ctx h :
  desc_in_range d -> sfetch_setup dbg d = Ok ctx -> ~ live (pool ctx) h.
Proof.
  intros (Hr & _ & _) H. unfold sfetch_setup in H.
  apply bind_inv in H as (p & Hp & H).
  apply bind_inv in H as (cs & Hcs & H).
  apply Ok_inj in H. subst ctx. simpl.
  eapply pool_init_dead; [|exact Hp].
  unfold _sfetch_def. destruct (Z.eqb_spec (max_requests d) 0); lia.
Qed.

(** ** Runs *)

Lemma step_inv dbg io w e w' :
  world_inv w -> step dbg io w e = Ok w' -> world_inv w'.
Proof.
  intros [Hinv Hlive Hlog] H.
  assert (HP : forall id, live (pool (w_ctx w)) id ->
                 id <> 0 /\ id ∈ w_handles w).
  { intros id Hid. split; [apply Hid | apply Hlive, Hid]. }
  destruct e; simpl in H.
  - apply bind_inv in H as ([h ctx] & Hs & H). apply Ok_inj in H. subst w'.
    apply send_inv in Hs as (Hinv' & _ & _ & Hnew); [|exact Hinv].
    constructor; simpl.
    + exact Hinv'.
    + intros id Hid. apply elem_of_app.
      destruct (Hnew id Hid) as [->|Hold]; [right; left | left; auto].
    + eapply Forall_impl; [exact Hlog|]. intros a [? ?]. split; [assumption|].
      apply elem_of_app. auto.
  - apply bind_inv in H as ([ctx l] & Hs & H). apply Ok_inj in H. subst w'.
    apply (dowork_with_inv dbg io _ _ _ _ _ Hinv HP) in Hs
      as (Hinv' & _ & Hsub & Hl & _).
    constructor; simpl; auto. apply Forall_app. auto.
  - apply bind_inv in H as ([ctx l] & Hs & H). apply Ok_inj in H. subst w'.
    apply (dowork_with_inv dbg io _ _ _ _ _ Hinv HP) in Hs
      as (Hinv' & _ & Hsub & Hl & _).
    constructor; simpl; auto. apply Forall_app. auto.
  - apply bind_inv in H as (ctx & Hs & H). apply Ok_inj in H. subst w'.
    apply thread_step_engine in Hs as (Hinv' & _ & Hsub); [|exact Hinv].
    constructor; simpl; auto.
  - apply bind_inv in H as (ctx & Hs & H). apply Ok_inj in H. subst w'.
    apply (user_call_inv dbg _ (call_cancel h)) in Hs as (Hinv' & Hsub);
      [|exact Hinv].
    constructor; simpl; auto.
  - apply bind_inv in H as (ctx & Hs & H). apply Ok_inj in H. subst w'.
    apply (user_call_inv dbg _ (call_pause h)) in Hs as (Hinv' & Hsub);
      [|exact Hinv].
    constructor; simpl; auto.
  - apply bind_inv in H as (ctx & Hs & H). apply Ok_inj in H. subst w'.
    apply (user_call_inv dbg _ (call_continue h)) in Hs as (Hinv' & Hsub);
      [|exact Hinv].
    constructor; simpl; auto.
Qed.

Lemma run_inv dbg io es : forall w w',
  world_inv w -> run dbg io w es = Ok w' -> world_inv w'.
Proof.
  induction es as [|e es IH]; intros w w' Hinv H; simpl in H.
  - apply Ok_inj in H. now subst.
  - apply bind_inv in H as (w1 & H1 & H).
    apply step_inv in H1; [|exact Hinv]. eapply IH; eauto.
Qed.

Lemma boot_inv dbg io d es w :
  desc_in_range d -> boot dbg io d es = Ok w -> world_inv w.
Proof.
  intros Hd H. unfold boot in H.
  apply bind_inv in H as (ctx & Hs & H).
  eapply run_inv; [|exact H].
  constructor; simpl; [eapply setup_inv; eauto | | constructor].
  intros id Hid. exfalso. eapply setup_dead; eauto.
Qed.

(** * More on the circular queue *)

Lemma ring_full_false rb :
  ring_wf rb -> _sfetch_ring_full rb = Ok false -> ring_cnt rb < num rb - 1.
Proof.
  intros Hw H. rewrite (ring_full_ok _ Hw) in H. apply Ok_inj in H.
  apply bool_decide_eq_false in H. pose proof (ring_cnt_range _ Hw). lia.
Qed.

Lemma ring_full_true rb :
  ring_wf rb -> _sfetch_ring_full rb = Ok true -> ring_cnt rb = num rb - 1.
Proof.
  intros Hw H. rewrite (ring_full_ok _ Hw) in H. apply Ok_inj in H.
  now apply bool_decide_eq_true in H.
Qed.

Lemma ring_empty_false rb :
  ring_wf rb -> _sfetch_ring_empty rb = false -> 0 < ring_cnt rb.
Proof.
  intros Hw H. rewrite (ring_empty_cnt _ Hw) in H.
  apply bool_decide_eq_false in H. pose proof (ring_cnt_range _ Hw). lia.
Qed.

Lemma ring_empty_true rb :
  ring_wf rb -> _sfetch_ring_empty rb = true -> ring_cnt rb = 0.
Proof.
  intros Hw H. rewrite (ring_empty_cnt _ Hw) in H.
  now apply bool_decide_eq_true in H.
Qed.

(** X1: [_sfetch_ring_enqueue] on a ring that is not full puts the id at the
    back of the queue: the queued ids are the old ones followed by the new
    one, and [_sfetch_ring_count] has grown by one. *)
Theorem ring_enqueue_appends dbg rb x :
  ring_wf rb -> _sfetch_ring_full rb = Ok false ->
  exists rb',
    _sfetch_ring_enqueue dbg rb x = Ok rb' /\ ring_wf rb' /\
    ring_contents rb' = ring_contents rb ++ [x] /\
    _sfetch_ring_count dbg rb' = Ok (Z.of_nat (length (ring_contents rb)) + 1) /\
    _sfetch_ring_empty rb' = false.
Proof.
  intros Hw Hf. apply ring_full_false in Hf; [|exact Hw].
  exists (ring_push rb x).
  pose proof (ring_push_wf rb x Hw) as Hw'.
  pose proof (ring_push_cnt rb x Hw Hf) as Hc.
  pose proof (ring_cnt_range _ Hw).
  split_and!.
  - now apply ring_enqueue_ok.
  - exact Hw'.
  - now apply ring_push_contents.
  - rewrite (ring_count_ok dbg _ Hw'), Hc, (ring_cnt_length _ Hw). reflexivity.
  - rewrite (ring_empty_cnt _ Hw'). apply bool_decide_eq_false. lia.
Qed.

Lemma ring_enqueue_appends_witness :
  exists rb',
    _sfetch_ring_enqueue true wrapped_ring 6 = Ok rb' /\ ring_wf rb' /\
    ring_contents rb' = ring_contents wrapped_ring ++ [6] /\
    _sfetch_ring_count true rb'
    = Ok (Z.of_nat (length (ring_contents wrapped_ring)) + 1) /\
    _sfetch_ring_empty rb' = false.
Proof.
  apply (ring_enqueue_appends true wrapped_ring 6).
  - ring_wf_eval.
  - vm_compute. reflexivity.
Defined.

(** X2: [_sfetch_ring_dequeue] on a ring that is not empty returns the
    oldest id and leaves the others in their order. *)
Theorem ring_dequeue_takes_oldest dbg rb :
  ring_wf rb -> _sfetch_ring_empty rb = false ->
  exists x rb',
    _sfetch_ring_dequeue dbg rb = Ok (x, rb') /\ ring_wf rb' /\
    ring_contents rb = x :: ring_contents rb' /\
    _sfetch_ring_full rb' = Ok false.
Proof.
  intros Hw He. apply ring_empty_false in He; [|exact Hw].
  exists (ring_at rb 0), (ring_pop rb).
  pose proof (ring_pop_wf rb Hw) as Hw'.
  pose proof (ring_pop_cnt rb Hw He) as Hc.
  pose proof (ring_cnt_range _ Hw).
  split_and!.
  - now apply ring_dequeue_ok.
  - exact Hw'.
  - now apply ring_pop_contents.
  - rewrite (ring_full_ok _ Hw'). f_equal. apply bool_decide_eq_false.
    rewrite Hc. simpl. lia.
Qed.

Lemma ring_dequeue_takes_oldest_witness :
  exists x rb',
    _sfetch_ring_dequeue true wrapped_ring = Ok (x, rb') /\ ring_wf rb' /\
    ring_contents wrapped_ring = x :: ring_contents rb' /\
    _sfetch_ring_full rb' = Ok false.
Proof.
  apply (ring_dequeue_takes_oldest true wrapped_ring).
  - ring_wf_eval.
  - vm_compute. reflexivity.
Defined.

(** X3: [_sfetch_ring_enqueue] on a full ring: a debug build stops on the
    assertion; a release build stores the id and moves the head onto the
    tail, which makes the ring empty, so that all the queued ids are lost. *)
Theorem ring_enqueue_on_full rb x :
  ring_wf rb -> _sfetch_ring_full rb = Ok true ->
  _sfetch_ring_enqueue true rb x = Err AssertFailed /\
  exists rb',
    _sfetch_ring_enqueue false rb x = Ok rb' /\
    _sfetch_ring_empty rb' = true /\ ring_contents rb' = [].
Proof.
  intros Hw Hf. pose proof (ring_full_true _ Hw Hf) as Hc.
  split.
  - unfold _sfetch_ring_enqueue, sokol_assert_res. rewrite Hf. reflexivity.
  - destruct Hw as (Hn & Hh & Ht & Hl).
    unfold _sfetch_ring_enqueue, sokol_assert_res, sokol_assert. res_simpl.
    cbn [andb mbind res_bind].
    rewrite arr_set_ok by lia. res_simpl. cbn [mbind res_bind].
    unfold _sfetch_ring_wrap.
    destruct (Z.eqb_spec (num rb) 0); [lia|]. res_simpl.
    assert (Hu : u32 (head rb + 1) = head rb + 1) by (apply u32_small; lia).
    rewrite Hu.
    assert (Hhead : (head rb + 1) mod num rb = tail rb).
    { unfold ring_cnt in Hc.
      rewrite mod_range_cases in Hc by lia.
      rewrite mod_range_cases by lia.
      destruct (Z.ltb_spec (head rb - tail rb) 0);
        destruct (Z.ltb_spec (head rb + 1) 0);
        destruct (Z.ltb_spec (head rb - tail rb) (num rb));
        destruct (Z.ltb_spec (head rb + 1) (num rb)); lia. }
    rewrite Hhead. eexists. split; [reflexivity|].
    split.
    + unfold _sfetch_ring_empty. simpl. apply Z.eqb_refl.
    + unfold ring_contents, ring_len, ring_cnt. simpl.
      rewrite Z.sub_diag, Z.mod_0_l by lia. reflexivity.
Qed.

Lemma ring_enqueue_on_full_witness :
  _sfetch_ring_enqueue true full_ring 7 = Err AssertFailed /\
  exists rb',
    _sfetch_ring_enqueue false full_ring 7 = Ok rb' /\
    _sfetch_ring_empty rb' = true /\ ring_contents rb' = [].
Proof.
  apply (ring_enqueue_on_full full_ring 7).
  - ring_wf_eval.
  - vm_compute. reflexivity.
Defined.

(** X4: [_sfetch_ring_dequeue] on an empty ring: a debug build stops on the
    assertion; a release build returns what the buffer holds at the tail and
    moves the tail past the head, after which the ring counts as full. *)
Theorem ring_dequeue_on_empty rb :
  ring_wf rb -> _sfetch_ring_empty rb = true ->
  _sfetch_ring_dequeue true rb = Err AssertFailed /\
  exists x rb',
    _sfetch_ring_dequeue false rb = Ok (x, rb') /\
    buf rb !! Z.to_nat (tail rb) = Some x /\
    _sfetch_ring_full rb' = Ok true.
Proof.
  intros Hw He. split.
  - unfold _sfetch_ring_dequeue, sokol_assert. rewrite He. reflexivity.
  - pose proof (ring_empty_true _ Hw He) as Hc.
    pose proof Hw as (Hn & Hh & Ht & Hl).
    assert (Hlt : (Z.to_nat (tail rb) < length (buf rb))%nat) by lia.
    apply lookup_lt_is_Some_2 in Hlt as [x Hx].
    exists x. eexists. split_and!; [|exact Hx|].
    + unfold _sfetch_ring_dequeue, sokol_assert. cbn [andb mbind res_bind].
      rewrite (arr_get_ok _ _ x) by (auto; lia). res_simpl.
      rewrite (ring_wrap_ok _ _ Hw). res_simpl. reflexivity.
    + unfold _sfetch_ring_empty in He. apply Z.eqb_eq in He.
      unfold _sfetch_ring_full, _sfetch_ring_wrap. simpl.
      destruct (Z.eqb_spec (num rb) 0); [lia|]. res_simpl. f_equal.
      apply Z.eqb_eq. rewrite He. reflexivity.
Qed.

Lemma ring_dequeue_on_empty_witness :
  _sfetch_ring_dequeue true drained_ring = Err AssertFailed /\
  exists x rb',
    _sfetch_ring_dequeue false drained_ring = Ok (x, rb') /\
    buf drained_ring !! Z.to_nat (tail drained_ring) = Some x /\
    _sfetch_ring_full rb' = Ok true.
Proof.
  apply (ring_dequeue_on_empty drained_ring).
  - ring_wf_eval.
  - vm_compute. reflexivity.
Defined.

(** X5: [_sfetch_ring_peek] with index [i] returns the id that is [i] places
    behind the oldest one; with an index that is not below the number of
    queued ids a debug build stops on an assertion. *)
Theorem ring_peek_nth rb i :
  ring_wf rb ->
  _sfetch_ring_peek true rb (Z.of_nat i)
  = match ring_contents rb !! i with
    | Some x => Ok x
    | None => Err AssertFailed
    end /\
  match ring_contents rb !! i with
  | Some x => _sfetch_ring_peek false rb (Z.of_nat i) = Ok x
  | None => True
  end.
Proof.
  intros Hw. destruct (ring_contents rb !! i) as [x|] eqn:Hx.
  - assert (Hi : (i < ring_len rb)%nat).
    { apply lookup_lt_Some in Hx. now rewrite ring_contents_length in Hx. }
    rewrite ring_contents_lookup in Hx by exact Hi. injection Hx as <-.
    split; now apply ring_peek_ok.
  - split; [|exact I].
    apply lookup_ge_None in Hx. rewrite ring_contents_length in Hx.
    pose proof (ring_len_cnt _ Hw) as Hlen.
    unfold _sfetch_ring_peek, sokol_assert.
    rewrite (ring_empty_cnt _ Hw).
    destruct (bool_decide (ring_cnt rb = 0)); [reflexivity|].
    cbn [negb andb mbind res_bind].
    unfold sokol_assert_res. rewrite (ring_count_ok true _ Hw). res_simpl.
    cbn [mbind res_bind].
    destruct (Z.ltb_spec (Z.of_nat i) (ring_cnt rb)); [lia | reflexivity].
Qed.

Lemma ring_peek_nth_witness :
  _sfetch_ring_peek true wrapped_ring (Z.of_nat 1)
  = match ring_contents wrapped_ring !! 1%nat with
    | Some x => Ok x
    | None => Err AssertFailed
    end /\
  match ring_contents wrapped_ring !! 1%nat with
  | Some x => _sfetch_ring_peek false wrapped_ring (Z.of_nat 1) = Ok x
  | None => True
  end.
Proof.
  apply (ring_peek_nth wrapped_ring 1). ring_wf_eval.
Defined.

(** The loop of the two hand-over functions, with enough fuel, moves as many
    ids as the source holds and the destination has room for. *)
Lemma ring_move_ok dbg fuel : forall dst src,
  ring_wf dst -> ring_wf src -> (ring_len src <= fuel)%nat ->
  exists dst' src',
    _sfetch_ring_move dbg fuel dst src = Ok (dst', src') /\
    ring_wf dst' /\ ring_wf src' /\
    let k := Nat.min (ring_len src) (Z.to_nat (num dst - 1 - ring_cnt dst)) in
    ring_contents dst' = ring_contents dst ++ take k (ring_contents src) /\
    ring_contents src' = drop k (ring_contents src).
Proof.
  induction fuel as [|fuel IH]; intros dst src Hwd Hws Hlen; simpl;
    rewrite (ring_full_ok _ Hwd); cbn [mbind res_bind];
    rewrite (ring_empty_cnt _ Hws);
    pose proof (ring_cnt_range _ Hwd) as Hrd;
    pose proof (ring_cnt_range _ Hws) as Hrs;
    pose proof (ring_len_cnt _ Hws) as Hls.
  - rewrite (bool_decide_eq_true_2 (ring_cnt src = 0)) by lia.
    rewrite andb_false_r. exists dst, src. cbv zeta.
    replace (ring_len src) with O by lia. simpl.
    rewrite app_nil_r. auto.
  - destruct (decide (ring_cnt dst = num dst - 1)) as [Ef|Ef].
    { rewrite (bool_decide_eq_true_2 _ Ef). cbn [negb andb].
      exists dst, src. cbv zeta. rewrite Ef.
      replace (num dst - 1 - (num dst - 1)) with 0 by lia.
      rewrite Nat.min_0_r. simpl. rewrite app_nil_r. auto. }
    rewrite (bool_decide_eq_false_2 _ Ef).
    destruct (decide (ring_cnt src = 0)) as [Ee|Ee].
    { rewrite (bool_decide_eq_true_2 _ Ee). cbn [negb andb].
      exists dst, src. cbv zeta.
      replace (ring_len src) with O by lia. simpl. rewrite app_nil_r. auto. }
    rewrite (bool_decide_eq_false_2 _ Ee). cbn [negb andb].
    rewrite (ring_dequeue_ok dbg src Hws) by lia. res_simpl.
    cbn [mbind res_bind].
    rewrite (ring_enqueue_ok dbg dst _ Hwd) by lia. res_simpl.
    cbn [mbind res_bind].
    pose proof (ring_pop_wf src Hws) as Hws1.
    pose proof (ring_push_wf dst (ring_at src 0) Hwd) as Hwd1.
    pose proof (ring_pop_cnt src Hws ltac:(lia)) as Hc1.
    pose proof (ring_push_cnt dst (ring_at src 0) Hwd ltac:(lia)) as Hc2.
    pose proof (ring_len_cnt _ Hws1) as Hls1.
    destruct (IH (ring_push dst (ring_at src 0)) (ring_pop src) Hwd1 Hws1
                ltac:(lia)) as (dst' & src' & Hrun & Hwd' & Hws' & Hd & Hs).
    exists dst', src'. cbv zeta. split_and!; auto;
    cbv zeta in Hd, Hs; rewrite Hc2 in Hd, Hs; cbn [num ring_push] in Hd, Hs.
    all: rewrite (ring_push_contents dst _ Hwd) in Hd by lia.
    all: rewrite (ring_pop_contents src Hws) by lia.
    all: replace (Nat.min (ring_len src) (Z.to_nat (num dst - 1 - ring_cnt dst)))
      with (S (Nat.min (ring_len (ring_pop src))
                 (Z.to_nat (num dst - 1 - (ring_cnt dst + 1))))) by lia.
    all: simpl.
    + rewrite Hd, <- app_assoc. reflexivity.
    + exact Hs.
Qed.


(** X6: the hand-over of ids to the worker ([_sfetch_thread_enqueue_incoming])
    and back from it ([_sfetch_thread_dequeue_outgoing]) moves the oldest ids
    of the source queue to the back of the destination queue, in their
    order, as many of them as the destination has room for; the others stay
    in the source. *)
Theorem thread_queues_move_in_order dbg th dst src :
  th_valid th = true -> ring_wf dst -> ring_wf src ->
  let k := Nat.min (length (ring_contents src))
             (Z.to_nat (num dst - 1) - length (ring_contents dst)) in
  (exists dst' src',
     _sfetch_thread_enqueue_incoming dbg th dst src = Ok (dst', src') /\
     ring_contents dst' = ring_contents dst ++ take k (ring_contents src) /\
     ring_contents src' = drop k (ring_contents src)) /\
  (exists dst' src',
     _sfetch_thread_dequeue_outgoing dbg th src dst = Ok (src', dst') /\
     ring_contents dst' = ring_contents dst ++ take k (ring_contents src) /\
     ring_contents src' = drop k (ring_contents src)).
Proof.
  intros Hv Hwd Hws k.
  pose proof (ring_cnt_range _ Hws) as Hrs.
  pose proof (ring_len_cnt _ Hws) as Hls.
  pose proof (ring_cnt_range _ Hwd) as Hrd.
  pose proof (ring_len_cnt _ Hwd) as Hld.
  destruct (ring_move_ok dbg (Z.to_nat (num src)) dst src Hwd Hws ltac:(lia))
    as (dst' & src' & Hrun & _ & _ & Hd & Hs).
  assert (Hk : Nat.min (ring_len src) (Z.to_nat (num dst - 1 - ring_cnt dst)) = k).
  { unfold k. rewrite !ring_contents_length. lia. }
  cbv zeta in Hd, Hs. rewrite Hk in Hd, Hs.
  split.
  - unfold _sfetch_thread_enqueue_incoming.
    rewrite assert_bind_ok by auto.
    rewrite (ring_empty_cnt _ Hws).
    destruct (decide (ring_cnt src = 0)) as [Ee|Ee].
    + rewrite (bool_decide_eq_true_2 _ Ee). cbn [negb].
      exists dst, src. split; [reflexivity|].
      assert (k = O) as -> by (unfold k; rewrite !ring_contents_length; lia).
      simpl. now rewrite app_nil_r.
    + rewrite (bool_decide_eq_false_2 _ Ee). cbn [negb].
      exists dst', src'. auto.
  - unfold _sfetch_thread_dequeue_outgoing.
    rewrite assert_bind_ok by auto. rewrite Hrun. res_simpl.
    exists dst', src'. auto.
Qed.

Lemma thread_queues_move_in_order_witness :
  let k := Nat.min (length (ring_contents full_ring))
             (Z.to_nat (num wrapped_ring - 1) - length (ring_contents wrapped_ring)) in
  (exists dst' src',
     _sfetch_thread_enqueue_incoming true {| stop_requested := false; th_valid := true |}
       wrapped_ring full_ring = Ok (dst', src') /\
     ring_contents dst'
     = ring_contents wrapped_ring ++ take k (ring_contents full_ring) /\
     ring_contents src' = drop k (ring_contents full_ring)) /\
  (exists dst' src',
     _sfetch_thread_dequeue_outgoing true {| stop_requested := false; th_valid := true |}
       full_ring wrapped_ring = Ok (src', dst') /\
     ring_contents dst'
     = ring_contents wrapped_ring ++ take k (ring_contents full_ring) /\
     ring_contents src' = drop k (ring_contents full_ring)).
Proof.
  apply (thread_queues_move_in_order true
           {| stop_requested := false; th_valid := true |} wrapped_ring full_ring).
  - reflexivity.
  - ring_wf_eval.
  - ring_wf_eval.
Defined.

(** * More on handles and the pool *)

(** X7: a slot id carries the slot index in its low 16 bits and the low 16
    bits of the generation counter above them: [_sfetch_slot_index] gives the
    index back, the id fits 32 bits, and it is the invalid id 0 only for index
    0 with a generation that is a multiple of 65536. *)
Theorem make_id_round_trip i g :
  0 <= i < 2 ^ 16 -> 0 <= g ->
  _sfetch_slot_index (_sfetch_make_id i g) = i /\
  Z.shiftr (_sfetch_make_id i g) 16 = g mod 2 ^ 16 /\
  0 <= _sfetch_make_id i g < 2 ^ 32 /\
  (_sfetch_make_id i g = 0 <-> i = 0 /\ g mod 2 ^ 16 = 0).
Proof.
  intros Hi Hg. pose proof (Z.mod_pos_bound g (2 ^ 16) ltac:(lia)) as Hm.
  rewrite slot_index_make_id by exact Hg.
  rewrite make_id_arith by exact Hg.
  rewrite (Z.mod_small i) by lia.
  split_and!; try lia.
  - rewrite Z.shiftr_div_pow2 by lia.
    rewrite Z.div_add_l by lia. rewrite Z.div_small by lia. lia.
Qed.

Lemma make_id_round_trip_witness :
  _sfetch_slot_index (_sfetch_make_id 3 65537) = 3 /\
  Z.shiftr (_sfetch_make_id 3 65537) 16 = 65537 mod 2 ^ 16 /\
  0 <= _sfetch_make_id 3 65537 < 2 ^ 32 /\
  (_sfetch_make_id 3 65537 = 0 <-> 3 = 0 /\ 65537 mod 2 ^ 16 = 0).
Proof. apply (make_id_round_trip 3 65537); lia. Defined.

(** A well-formed pool frees the slot of a live id. *)
Lemma free_ok dbg p h :
  pool_wf p -> live p h ->
  _sfetch_pool_item_free dbg p h = Ok (pool_after_free p h) /\
  free_top p < p_size p - 1.
Proof.
  intros Hwf Hl.
  pose proof (live_range p h Hwf Hl) as Hr.
  pose proof (live_not_free p h Hwf Hl) as Hnf.
  assert (Hcount : Z.of_nat (length [h]) + free_top p <= p_size p - 1).
  { apply live_count; [exact Hwf | apply NoDup_singleton |].
    intros id Hid. apply list_elem_of_singleton in Hid. now subst. }
  simpl in Hcount.
  pose proof (pw_top p Hwf) as Htop. pose proof (pw_size p Hwf) as Hsz.
  pose proof (pw_items p Hwf) as Hit. pose proof (pw_slots p Hwf) as Hsl.
  destruct Hl as (Hne & it & Hs & Hh).
  split; [|lia].
  unfold _sfetch_pool_item_free.
  rewrite assert_bind_ok by (intros _; apply Hwf).
  rewrite assert_bind_ok
    by (intros _; apply andb_true_iff; split; apply Z.ltb_lt; lia).
  rewrite (arr_get_ok _ _ it) by (auto; lia). res_simpl.
  rewrite assert_bind_ok by (intros _; apply Z.eqb_eq; exact Hh).
  rewrite assert_bind_ok.
  2:{ intros _. apply forallb_forall. intros s Hin.
      apply negb_true_iff, Z.eqb_neq. intros ->. apply Hnf.
      apply list_elem_of_In. exact Hin. }
  unfold _sfetch_item_discard.
  rewrite assert_bind_ok
    by (intros _; apply negb_true_iff, Z.eqb_neq; congruence).
  res_simpl.
  rewrite arr_set_ok by lia. res_simpl.
  rewrite arr_set_ok by lia. res_simpl.
  rewrite assert_bind_ok
    by (intros _; rewrite u32_small by lia; apply Z.leb_le; lia).
  reflexivity.
Qed.

(** The item that a successful allocation leaves in the pool. *)
Lemma alloc_lookup dbg p r id p' :
  pool_wf p -> _sfetch_pool_item_alloc dbg p r = Ok (id, p') -> id <> 0 ->
  (dbg = true -> is_Some (q_path r)) ->
  pool_wf p' /\ free_top p' = free_top p - 1 /\
  exists it0,
    _sfetch_pool_item_lookup dbg p' id = Ok (Some (item_of_request it0 id r)).
Proof.
  intros Hwf Hal Hnz Hpath. pose proof (pw_top p Hwf) as Htop.
  assert (Hft : 0 < free_top p).
  { apply alloc_inv in Hal as [(? & ? & _)|(? & _)]; [congruence|lia|exact Hwf]. }
  destruct (alloc_ok dbg p r Hwf Hft Hpath)
    as (id' & p2 & Hal' & _ & Hwf' & Hlive & Hft' & _).
  rewrite Hal in Hal'. apply Ok_inj in Hal'. injection Hal' as <- <-.
  split_and!; auto.
  destruct (live_lookup dbg p' id Hwf' Hlive) as (it & Hlk & Hs).
  apply alloc_inv in Hal as [(? & ? & _)|(_ & s & g & it0 & Hfs & Hg & Hs0 & Hid & ->)];
    [lia | | exact Hwf].
  assert (Hin : s ∈ free_stack p).
  { apply list_elem_of_lookup. exists (Z.to_nat (free_top p - 1)).
    apply free_stack_lookup. split; [exact Hfs | lia]. }
  destruct (pw_free p Hwf s Hin) as (Hsr & _).
  pose proof (pw_size p Hwf) as Hsz.
  assert (Hidx : _sfetch_slot_index id = s).
  { rewrite Hid. rewrite slot_index_make_id.
    - apply Z.mod_small. lia.
    - unfold u32. apply Z.mod_pos_bound. lia. }
  rewrite Hidx in Hs. unfold slot in Hs. simpl in Hs.
  rewrite list_lookup_insert_eq in Hs
    by (apply lookup_lt_Some in Hs0; exact Hs0).
  injection Hs as <-. exists it0. exact Hlk.
Qed.

(** X8: [_sfetch_pool_item_alloc] on a pool without a free slot returns the
    invalid id 0 and leaves the pool as it is; with a free slot it returns a
    new id, different from 0 and from every live id, takes one slot from the
    free stack, keeps the live ids live, and the new item is ALLOCATED, on no
    lane, with the channel, callback, buffer and path of the request. *)
Theorem pool_alloc_spec dbg p r :
  pool_wf p -> (dbg = true -> is_Some (q_path r)) ->
  exists id p',
    _sfetch_pool_item_alloc dbg p r = Ok (id, p') /\ pool_wf p' /\
    (id = 0 <-> free_top p = 0) /\
    (id = 0 -> p' = p) /\
    (id <> 0 ->
     free_top p' = free_top p - 1 /\ ~ live p id /\
     (forall h, live p' h <-> h = id \/ live p h) /\
     exists it,
       _sfetch_pool_item_lookup dbg p' id = Ok (Some it) /\
       state it = _SFETCH_STATE_ALLOCATED /\ lane it = _SFETCH_INVALID_LANE /\
       channel it = q_channel r /\ callback it = q_callback r /\
       buffer it = {| ptr := q_buffer_ptr r; size := q_buffer_size r |} /\
       path it = _sfetch_path_make (q_path r)).
Proof.
  intros Hwf Hpath. pose proof (pw_top p Hwf) as Htop.
  destruct (Z.eq_dec (free_top p) 0) as [Hz|Hz].
  - exists 0, p. split_and!; auto; try tauto.
    unfold _sfetch_pool_item_alloc.
    rewrite assert_bind_ok by (intros _; apply Hwf). rewrite Hz. reflexivity.
  - destruct (alloc_ok dbg p r Hwf ltac:(lia) Hpath)
      as (id & p' & Hal & Hnz & Hwf' & Hlive & Hft & Hmono & Hnew & Hfresh).
    exists id, p'. split_and!; auto; try tauto; try lia.
    intros _. split_and!; auto.
    + intros h. split; [apply Hnew|]. intros [->|Hh]; auto.
    + destruct (alloc_lookup dbg p r id p' Hwf Hal Hnz Hpath)
        as (_ & _ & it0 & Hlk).
      eexists. split; [exact Hlk|]. simpl. split_and!; reflexivity.
Qed.

Lemma pool_of_three_wf : pool_wf pool_of_three.
Proof. pool_wf_eval. Qed.

Lemma pool_with_one_wf : pool_wf pool_with_one.
Proof. pool_wf_eval. Qed.

Lemma pool_alloc_spec_witness :
  exists id p',
    _sfetch_pool_item_alloc true pool_with_one missing = Ok (id, p') /\
    pool_wf p' /\
    (id = 0 <-> free_top pool_with_one = 0) /\
    (id = 0 -> p' = pool_with_one) /\
    (id <> 0 ->
     free_top p' = free_top pool_with_one - 1 /\ ~ live pool_with_one id /\
     (forall h, live p' h <-> h = id \/ live pool_with_one h) /\
     exists it,
       _sfetch_pool_item_lookup true p' id = Ok (Some it) /\
       state it = _SFETCH_STATE_ALLOCATED /\ lane it = _SFETCH_INVALID_LANE /\
       channel it = q_channel missing /\ callback it = q_callback missing /\
       buffer it = {| ptr := q_buffer_ptr missing; size := q_buffer_size missing |} /\
       path it = _sfetch_path_make (q_path missing)).
Proof.
  apply (pool_alloc_spec true pool_with_one missing).
  - exact pool_with_one_wf.
  - intros _. vm_compute. eauto.
Defined.

(** X9: after [_sfetch_pool_item_free] of a live id, the id is no longer
    found and the next allocation takes the same slot again, under a new id. *)
Theorem free_then_alloc_reuses_slot dbg p h r :
  pool_wf p -> live p h -> (dbg = true -> is_Some (q_path r)) ->
  exists p1 id p2,
    _sfetch_pool_item_free dbg p h = Ok p1 /\
    _sfetch_pool_item_lookup dbg p1 h = Ok None /\
    free_top p1 = free_top p + 1 /\
    _sfetch_pool_item_alloc dbg p1 r = Ok (id, p2) /\
    _sfetch_slot_index id = _sfetch_slot_index h /\ id <> 0 /\ id <> h /\
    _sfetch_pool_item_lookup dbg p2 h = Ok None /\
    live p2 id.
Proof.
  intros Hwf Hl Hpath.
  destruct (free_ok dbg p h Hwf Hl) as [Hfree Htop].
  pose proof (free_wf p h Hwf Hl Htop) as Hwf1.
  pose proof (stale_after_free p h Hwf Hl Htop) as Hst.
  pose proof (pw_top p Hwf) as Ht. pose proof (pw_size p Hwf) as Hsz.
  pose proof (pw_slots p Hwf) as Hsl.
  pose proof (live_range p h Hwf Hl) as Hr.
  assert (Hft : free_top (pool_after_free p h) = free_top p + 1)
    by (simpl; apply u32_small; lia).
  destruct (alloc_ok dbg (pool_after_free p h) r Hwf1 ltac:(lia) Hpath)
    as (id & p2 & Hal & Hnz & Hwf2 & Hlive & _).
  exists (pool_after_free p h), id, p2.
  assert (Hidx : _sfetch_slot_index id = _sfetch_slot_index h).
  { pose proof Hal as Hal'.
    apply alloc_inv in Hal' as [(? & ? & _)|(_ & s & g & it0 & Hfs & Hg & _ & Hid & _)];
      [lia | | exact Hwf1].
    rewrite Hft in Hfs. simpl in Hfs.
    replace (free_top p + 1 - 1) with (free_top p) in Hfs by lia.
    rewrite list_lookup_insert_eq in Hfs by lia. injection Hfs as <-.
    rewrite Hid, slot_index_make_id.
    - apply Z.mod_small. lia.
    - unfold u32. apply Z.mod_pos_bound. lia. }
  assert (Hstep : pool_step dbg (_sfetch_slot_index h) (pool_after_free p h)
                    (op_alloc r) = Ok (p2, true)).
  { simpl. rewrite Hal. res_simpl. cbn [mbind res_bind].
    apply Z.eqb_neq in Hnz. rewrite Hnz. apply Z.eqb_eq in Hidx. now rewrite Hidx. }
  pose proof (stale_step dbg _ h O _ _ _ Hst Hstep) as Hst2.
  assert (Hnone : _sfetch_pool_item_lookup dbg p2 h = Ok None).
  { eapply stale_lookup; [exact Hst2 | right; vm_compute; congruence]. }
  split_and!; auto.
  - eapply stale_lookup; [exact Hst | left; reflexivity].
  - intros ->. destruct (live_lookup dbg p2 h Hwf2 Hlive) as (it & Hlk & _).
    congruence.
Qed.

Lemma free_then_alloc_reuses_slot_witness :
  exists p1 id p2,
    _sfetch_pool_item_free true pool_with_one first_handle = Ok p1 /\
    _sfetch_pool_item_lookup true p1 first_handle = Ok None /\
    free_top p1 = free_top pool_with_one + 1 /\
    _sfetch_pool_item_alloc true p1 missing = Ok (id, p2) /\
    _sfetch_slot_index id = _sfetch_slot_index first_handle /\ id <> 0 /\
    id <> first_handle /\
    _sfetch_pool_item_lookup true p2 first_handle = Ok None /\
    live p2 id.
Proof.
  apply (free_then_alloc_reuses_slot true pool_with_one first_handle missing).
  - exact pool_with_one_wf.
  - apply (lookup_live true _ _ (item_at pool_with_one first_handle)).
    vm_compute. reflexivity.
  - intros _. vm_compute. eauto.
Defined.

(** X10: in a debug build, [_sfetch_pool_item_free] of an id that is not
    live (the invalid id, an id that was freed before, an id of no slot)
    stops on an assertion. *)
Theorem free_of_dead_id_asserts p h :
  pool_wf p -> ~ live p h ->
  _sfetch_pool_item_free true p h = Err AssertFailed.
Proof.
  intros Hwf Hdead. unfold _sfetch_pool_item_free, sokol_assert.
  rewrite (pw_valid p Hwf). cbn [negb andb mbind res_bind].
  pose proof (slot_index_range h) as Hr.
  destruct (Z.ltb_spec 0 (_sfetch_slot_index h)) as [Hpos|Hpos];
    [|reflexivity].
  destruct (Z.ltb_spec (_sfetch_slot_index h) (p_size p)) as [Hlt|Hlt];
    [|reflexivity].
  cbn [negb andb mbind res_bind].
  pose proof (pw_items p Hwf) as Hit.
  assert (Hl : (Z.to_nat (_sfetch_slot_index h) < length (items p))%nat)
    by (clear - Hpos Hlt Hit; lia).
  apply lookup_lt_is_Some_2 in Hl as [it Hs].
  rewrite (arr_get_ok _ _ it) by (auto; clear - Hpos; lia). res_simpl.
  cbn [mbind res_bind].
  destruct (Z.eqb_spec (handle it) h) as [E|E]; [|reflexivity].
  exfalso. apply Hdead. split.
  - intros ->. clear - Hpos. vm_compute in Hpos. discriminate.
  - exists it. auto.
Qed.

Lemma free_of_dead_id_asserts_witness :
  _sfetch_pool_item_free true pool_of_three first_handle = Err AssertFailed.
Proof.
  apply (free_of_dead_id_asserts pool_of_three first_handle).
  - exact pool_of_three_wf.
  - intros (_ & it & Hs & Hh). vm_compute in Hs. injection Hs as <-.
    vm_compute in Hh. discriminate.
Defined.

(** X11: [_sfetch_pool_init] with a number of items between 1 and 65534 makes
    a pool in which no id is live and every slot from 1 to the number of
    items is on the free stack, slot 1 on top: the first allocation of any
    fresh pool returns the id 65537 (slot 1, generation 1). With another
    number of items a debug build stops on the assertion. *)
Theorem pool_init_spec dbg n r :
  0 < n < 2 ^ 16 - 1 -> (dbg = true -> is_Some (q_path r)) ->
  exists p,
    _sfetch_pool_init dbg n = Ok p /\ pool_wf p /\
    p_size p = n + 1 /\ free_top p = n /\
    free_stack p = countdown (Z.to_nat n) /\
    (forall h, ~ live p h) /\
    exists p', _sfetch_pool_item_alloc dbg p r = Ok (first_handle, p').
Proof.
  intros Hn Hpath.
  pose proof (pool_init_ok dbg n Hn) as Hrun.
  destruct Hrun as (fs & Hrun & Htake).
  eexists. split; [exact Hrun|].
  pose proof (pool_init_wf dbg n _ Hn Hrun) as Hwf.
  assert (Hdead : forall h, ~ live {| p_size := n + 1; free_top := n;
            items := replicate (Z.to_nat (n + 1)) _sfetch_item_zero;
            free_slots := fs;
            gen_ctrs := replicate (Z.to_nat (n + 1)) 0;
            p_valid := true |} h).
  { intros h (Hne & it & Hs & Hh). unfold slot in Hs. simpl in Hs.
    apply lookup_replicate_1 in Hs as [-> _]. simpl in Hh. congruence. }
  split_and!; auto.
  destruct (alloc_ok dbg _ r Hwf ltac:(simpl; lia) Hpath)
    as (id & p' & Hal & _).
  exists p'. rewrite Hal. do 2 f_equal.
  apply alloc_inv in Hal as [(? & ? & _)|(_ & s & g & it0 & Hfs & Hg & _ & Hid & _)];
    [simpl in *; lia | | exact Hwf].
  simpl in Hfs, Hg.
  assert (Hs1 : s = 1).
  { assert (Hlk : take (Z.to_nat n) fs !! Z.to_nat (n - 1) = Some s)
      by (rewrite lookup_take_lt by lia; exact Hfs).
    rewrite Htake in Hlk. clear - Hlk Hn.
    assert (Hgen : forall m k x, countdown m !! k = Some x ->
                     x = Z.of_nat m - Z.of_nat k).
    { induction m as [|m IH]; intros [|k] x Hx; simpl in Hx; try discriminate.
      - injection Hx as <-. lia.
      - apply IH in Hx. lia. }
    apply Hgen in Hlk. lia. }
  subst s. apply lookup_replicate_1 in Hg as [-> _]. rewrite Hid. reflexivity.
Qed.

Lemma pool_init_spec_witness :
  exists p,
    _sfetch_pool_init true 3 = Ok p /\ pool_wf p /\
    p_size p = 3 + 1 /\ free_top p = 3 /\
    free_stack p = countdown (Z.to_nat 3) /\
    (forall h, ~ live p h) /\
    exists p', _sfetch_pool_item_alloc true p missing = Ok (first_handle, p').
Proof.
  apply (pool_init_spec true 3 missing).
  - lia.
  - intros _. vm_compute. eauto.
Defined.

(** * The calls that take a handle *)

Lemma lookup_none dbg p h :
  pool_wf p -> h = 0 \/ 0 < _sfetch_slot_index h < p_size p -> ~ live p h ->
  _sfetch_pool_item_lookup dbg p h = Ok None.
Proof.
  intros Hwf Hr Hdead. unfold _sfetch_pool_item_lookup, _sfetch_pool_item_at.
  rewrite !assert_bind_ok by (intros _; apply Hwf).
  destruct (Z.eqb_spec h 0) as [E|E]; [reflexivity|]. cbn [negb].
  destruct Hr as [Hr|Hr]; [contradiction|].
  rewrite assert_bind_ok
    by (intros _; apply andb_true_iff; split; apply Z.ltb_lt; tauto).
  pose proof (pw_items p Hwf) as Hit.
  assert (Hl : (Z.to_nat (_sfetch_slot_index h) < length (items p))%nat)
    by (clear - Hr Hit; lia).
  apply lookup_lt_is_Some_2 in Hl as [it Hs].
  rewrite (arr_get_ok _ _ it) by (auto; clear - Hr; lia). res_simpl.
  destruct (Z.eqb_spec (handle it) h) as [Eh|Eh]; [|reflexivity].
  exfalso. apply Hdead. split; [exact E|]. exists it. auto.
Qed.

(** X12: on the invalid handle 0 and on a stale handle (its slot is of the
    pool but holds another item or none), [sfetch_handle_valid] answers
    false and [sfetch_pause], [sfetch_continue] and [sfetch_cancel] leave the
    engine as it is, inside a callback and outside. [sfetch_bind_buffer] and
    [sfetch_unbind_buffer] leave the engine as it is inside a callback, and
    [sfetch_unbind_buffer] returns the null pointer; outside a callback a
    debug build stops on their assertion and a release build again changes
    nothing. *)
Theorem calls_on_dead_handle_do_nothing dbg ctx h bp bs :
  valid ctx = true -> pool_wf (pool ctx) ->
  h = 0 \/ 0 < _sfetch_slot_index h < p_size (pool ctx) ->
  ~ live (pool ctx) h ->
  sfetch_handle_valid dbg ctx h = Ok false /\
  sfetch_pause dbg ctx h = Ok ctx /\
  sfetch_continue dbg ctx h = Ok ctx /\
  sfetch_cancel dbg ctx h = Ok ctx /\
  (in_callback ctx = true ->
   sfetch_bind_buffer dbg ctx h bp bs = Ok ctx /\
   sfetch_unbind_buffer dbg ctx h = Ok (0, ctx)) /\
  (in_callback ctx = false ->
   sfetch_bind_buffer true ctx h bp bs = Err AssertFailed /\
   sfetch_unbind_buffer true ctx h = Err AssertFailed /\
   sfetch_bind_buffer false ctx h bp bs = Ok ctx /\
   sfetch_unbind_buffer false ctx h = Ok (0, ctx)).
Proof.
  intros Hv Hwf Hr Hdead.
  pose proof (lookup_none dbg _ _ Hwf Hr Hdead) as Hl.
  pose proof (lookup_none false _ _ Hwf Hr Hdead) as Hl0.
  unfold sfetch_handle_valid, sfetch_pause, sfetch_continue, sfetch_cancel,
    sfetch_bind_buffer, sfetch_unbind_buffer.
  rewrite Hv. split.
  { rewrite assert_bind_ok by auto. destruct (h =? 0); [reflexivity|].
    rewrite Hl. reflexivity. }
  split; [rewrite assert_bind_ok by auto; rewrite Hl; reflexivity|].
  split; [rewrite assert_bind_ok by auto; rewrite Hl; reflexivity|].
  split; [rewrite assert_bind_ok by auto; rewrite Hl; reflexivity|].
  split.
  - intros Hcb. rewrite Hcb. rewrite !assert_bind_ok by auto. rewrite Hl.
    split; reflexivity.
  - intros Hcb. rewrite Hcb, Hl0. repeat split; reflexivity.
Qed.

Lemma calls_on_dead_handle_witness :
  (sfetch_handle_valid true reused_ctx first_handle = Ok false /\
   sfetch_pause true reused_ctx first_handle = Ok reused_ctx /\
   sfetch_continue true reused_ctx first_handle = Ok reused_ctx /\
   sfetch_cancel true reused_ctx first_handle = Ok reused_ctx /\
   sfetch_bind_buffer true reused_ctx first_handle 4096 64 = Err AssertFailed /\
   sfetch_unbind_buffer true reused_ctx first_handle = Err AssertFailed) /\
  (sfetch_bind_buffer true (set_in_callback reused_ctx true) first_handle 4096 64
   = Ok (set_in_callback reused_ctx true) /\
   sfetch_unbind_buffer true (set_in_callback reused_ctx true) first_handle
   = Ok (0, set_in_callback reused_ctx true)).
Proof.
  assert (Hwf : pool_wf (pool reused_ctx)) by pool_wf_eval.
  assert (Hr : first_handle = 0 \/
               0 < _sfetch_slot_index first_handle < p_size (pool reused_ctx))
    by (right; vm_compute; split; reflexivity).
  assert (Hdead : ~ live (pool reused_ctx) first_handle).
  { intros (_ & it & Hs & Hh). vm_compute in Hs. injection Hs as <-.
    vm_compute in Hh. discriminate. }
  split.
  - destruct (calls_on_dead_handle_do_nothing true reused_ctx first_handle 4096 64
                eq_refl Hwf Hr Hdead) as (H1 & H2 & H3 & H4 & _ & H5).
    destruct (H5 eq_refl) as (H6 & H7 & _).
    repeat split; assumption.
  - destruct (calls_on_dead_handle_do_nothing true (set_in_callback reused_ctx true)
                first_handle 4096 64 eq_refl Hwf Hr Hdead) as (_ & _ & _ & _ & H5 & _).
    exact (H5 eq_refl).
Defined.

(** X13: a handle whose slot index is not below the size of the pool is
    not told from a valid one safely: in a debug build the lookup stops on
    the assertion of [_sfetch_pool_item_at], in a release build it reads
    behind the item array. *)
Theorem lookup_outside_pool_faults p h :
  pool_wf p -> p_size p <= _sfetch_slot_index h ->
  _sfetch_pool_item_lookup true p h = Err AssertFailed /\
  _sfetch_pool_item_lookup false p h = Err MemoryFault.
Proof.
  intros Hwf Hr. pose proof (pw_size p Hwf) as Hsz.
  pose proof (pw_items p Hwf) as Hit.
  assert (Hne : h <> 0)
    by (intros ->; change (_sfetch_slot_index 0) with 0 in Hr; lia).
  unfold _sfetch_pool_item_lookup, _sfetch_pool_item_at, sokol_assert.
  rewrite (pw_valid p Hwf). apply Z.eqb_neq in Hne. rewrite Hne.
  cbn [negb andb mbind res_bind].
  destruct (Z.ltb_spec (_sfetch_slot_index h) (p_size p)) as [Hlt|_]; [lia|].
  rewrite andb_false_r. cbn [negb andb mbind res_bind].
  split; [reflexivity|].
  unfold arr_get.
  destruct (Z.ltb_spec (_sfetch_slot_index h) (Z.of_nat (length (items p))))
    as [Hlt|_]; [lia|].
  rewrite andb_false_r. reflexivity.
Qed.

Lemma lookup_outside_pool_witness :
  _sfetch_pool_item_lookup true pool_of_three 9 = Err AssertFailed /\
  _sfetch_pool_item_lookup false pool_of_three 9 = Err MemoryFault.
Proof.
  apply (lookup_outside_pool_faults pool_of_three 9).
  - exact pool_of_three_wf.
  - vm_compute. discriminate.
Defined.

(** X14: [sfetch_cancel] on a live handle cannot be taken back: whatever
    calls on handles ([sfetch_pause], [sfetch_continue], [sfetch_bind_buffer],
    [sfetch_unbind_buffer], [sfetch_cancel]) follow it, the cancel flag of
    the item stays set, and the next preparation of the item for the worker
    puts it into the FAILED state with the finished flag set. *)
Theorem cancel_survives_later_calls dbg ctx h it :
  valid ctx = true ->
  _sfetch_pool_item_lookup dbg (pool ctx) h = Ok (Some it) ->
  exists ctx1,
    sfetch_cancel dbg ctx h = Ok ctx1 /\
    forall calls ctx2,
      run_user_calls dbg ctx1 calls = Ok ctx2 ->
      exists it2,
        _sfetch_pool_item_lookup dbg (pool ctx2) h = Ok (Some it2) /\
        cancel (user it2) = true /\
        state (_sfetch_channel_dowork_prepare it2) = _SFETCH_STATE_FAILED /\
        u_finished (user (_sfetch_channel_dowork_prepare it2)) = true.
Proof.
  intros Hv Hl.
  set (it1 := set_user it
                (set_cancel (set_pause (set_cont (user it) false) false) true)).
  assert (Hh : handle it1 = h) by (apply lookup_inv in Hl; tauto).
  destruct (lookup_store dbg _ _ _ _ Hl Hh) as [Hst Hlk].
  eexists. split.
  - unfold sfetch_cancel. rewrite assert_bind_ok by auto. rewrite Hl.
    res_simpl. fold it1. rewrite Hst. reflexivity.
  - intros calls ctx2 Hrun.
    destruct (user_calls_keep dbg (fun x => cancel (user x) = true) h calls
                ltac:(intros; assumption) ltac:(intros; assumption)
                ltac:(intros; assumption) ltac:(intros; reflexivity)
                (set_pool ctx _) it1 ctx2 Hlk eq_refl Hrun) as (it2 & Hl2 & Hc2).
    exists it2. split_and!; auto.
    + destruct (prepare_item_spec it2) as (Hs & _). cbv zeta in Hs.
      rewrite Hs, Hc2. unfold spec_prepared_state, spec_apply_cancel.
      reflexivity.
    + destruct (prepare_item_spec it2) as (_ & _ & _ & _ & Hf & _).
      cbv zeta in Hf. rewrite Hf, Hc2. apply orb_true_r.
Qed.

Lemma cancel_survives_later_calls_witness :
  exists ctx1,
    sfetch_cancel true sent_ctx first_handle = Ok ctx1 /\
    forall calls ctx2,
      run_user_calls true ctx1 calls = Ok ctx2 ->
      exists it2,
        _sfetch_pool_item_lookup true (pool ctx2) first_handle = Ok (Some it2) /\
        cancel (user it2) = true /\
        state (_sfetch_channel_dowork_prepare it2) = _SFETCH_STATE_FAILED /\
        u_finished (user (_sfetch_channel_dowork_prepare it2)) = true.
Proof.
  apply (cancel_survives_later_calls true sent_ctx first_handle
           (item_at (pool sent_ctx) first_handle)).
  - reflexivity.
  - vm_compute. reflexivity.
Defined.

(** * The request handler of the worker *)

Lemma set_thread_same it : set_thread it (thread it) = it.
Proof. now destruct it. Qed.

Lemma set_items_same p : set_items p (items p) = p.
Proof. now destruct p. Qed.

Lemma set_pool_same ctx : set_pool ctx (pool ctx) = ctx.
Proof. now destruct ctx. Qed.

(** X15: the worker leaves a request that is PAUSED or FAILED exactly as it
    is: [_sfetch_request_handler] does not touch the file system and
    changes nothing in the engine. *)
Theorem worker_leaves_paused_and_failed dbg io ctx h it :
  _sfetch_pool_item_lookup dbg (pool ctx) h = Ok (Some it) ->
  state it = _SFETCH_STATE_PAUSED \/ state it = _SFETCH_STATE_FAILED ->
  _sfetch_request_handler dbg io ctx h = Ok ctx.
Proof.
  intros Hl Hs. unfold _sfetch_request_handler. rewrite Hl. res_simpl.
  assert (Hth : _sfetch_request_handler_item dbg io it = Ok (thread it)).
  { unfold _sfetch_request_handler_item.
    rewrite assert_bind_ok
      by (intros _; destruct Hs as [-> | ->]; reflexivity).
    destruct (t_failed (thread it)); [reflexivity|].
    destruct Hs as [-> | ->]; reflexivity. }
  rewrite Hth. res_simpl. rewrite set_thread_same.
  assert (Hh : handle it = h) by (apply lookup_inv in Hl; tauto).
  rewrite (store_ok dbg _ _ _ _ Hl Hh). res_simpl.
  unfold pool_store.
  apply lookup_live_slot in Hl as (Hslot & _). unfold slot in Hslot.
  rewrite list_insert_id by exact Hslot.
  now rewrite set_items_same, set_pool_same.
Qed.

Lemma worker_leaves_paused_and_failed_witness :
  _sfetch_request_handler true (disk files) (w_ctx cancelled_world) first_handle
  = Ok (w_ctx cancelled_world).
Proof.
  apply (worker_leaves_paused_and_failed true (disk files) (w_ctx cancelled_world)
           first_handle (item_at (pool (w_ctx cancelled_world)) first_handle)).
  - vm_compute. reflexivity.
  - right. reflexivity.
Defined.

(** X16: when the file of a request in the OPENING state does not open, the
    handler sets the failed and the finished flag, and the response that
    the next [sfetch_dowork] builds for the callback has failed and finished
    set and none of opened, fetched, paused. *)
Theorem open_failure_is_reported dbg io id it :
  state it = _SFETCH_STATE_OPENING ->
  thread it = mk_thread 0 0 0 false false None ->
  (dbg = true -> path_first_char (path it) = true) ->
  io_open io (path it) = false ->
  exists th,
    _sfetch_request_handler_item dbg io it = Ok th /\
    t_failed th = true /\ t_finished th = true /\ file_handle th = None /\
    let r := _sfetch_channel_dowork_response id
               (_sfetch_channel_dowork_transfer (set_thread it th)) in
    r_failed r = true /\ r_finished r = true /\
    r_opened r = false /\ r_fetched r = false /\ r_paused r = false.
Proof.
  intros Hs Hth Hp Hopen. eexists. split.
  - unfold _sfetch_request_handler_item. rewrite Hs, Hth.
    rewrite assert_bind_ok by reflexivity.
    cbn [t_failed mk_thread state_is]. simpl bool_decide.
    cbn [mbind res_bind].
    unfold _sfetch_request_handler_opening.
    cbn [file_handle t_content_size t_content_offset t_fetched_size mk_thread
         t_failed t_finished].
    rewrite assert_bind_ok by reflexivity.
    rewrite assert_bind_ok by exact Hp.
    rewrite !assert_bind_ok by reflexivity.
    unfold _sfetch_file_open. rewrite Hopen.
    reflexivity.
  - unfold _sfetch_channel_dowork_response, _sfetch_channel_dowork_transfer.
    simpl. split_and!; reflexivity.
Qed.

Lemma open_failure_is_reported_witness :
  exists th,
    _sfetch_request_handler_item true (disk files)
      (opening_item "nowhere" 0 0) = Ok th /\
    t_failed th = true /\ t_finished th = true /\ file_handle th = None /\
    let r := _sfetch_channel_dowork_response first_handle
               (_sfetch_channel_dowork_transfer
                  (set_thread (opening_item "nowhere" 0 0) th)) in
    r_failed r = true /\ r_finished r = true /\
    r_opened r = false /\ r_fetched r = false /\ r_paused r = false.
Proof.
  apply (open_failure_is_reported true (disk files) first_handle
           (opening_item "nowhere" 0 0)); try reflexivity.
Defined.

(** X17: when the file of a request in the OPENING state opens and no
    buffer is bound, the handler records the size of the file and reads
    nothing; the response for the callback has opened set, carries the size
    of the file, and none of fetched, failed, paused is set: the callback is
    the place to bind a buffer. *)
Theorem opened_without_buffer dbg io id it :
  state it = _SFETCH_STATE_OPENING ->
  thread it = mk_thread 0 0 0 false false None ->
  (dbg = true -> path_first_char (path it) = true) ->
  io_open io (path it) = true ->
  ptr (buffer it) = 0 ->
  exists th,
    _sfetch_request_handler_item dbg io it = Ok th /\
    th = mk_thread (u64 (io_size io (path it))) 0 0 false false (Some (path it)) /\
    let r := _sfetch_channel_dowork_response id
               (_sfetch_channel_dowork_transfer (set_thread it th)) in
    r_opened r = true /\ r_content_size r = u64 (io_size io (path it)) /\
    r_content_offset r = 0 /\ r_fetched_size r = 0 /\
    r_fetched r = false /\ r_failed r = false /\ r_paused r = false /\
    r_finished r = u_finished (user it).
Proof.
  intros Hs Hth Hp Hopen Hbuf. eexists. split; [|split; [reflexivity|]].
  - unfold _sfetch_request_handler_item. rewrite Hs, Hth.
    rewrite assert_bind_ok by reflexivity.
    cbn [t_failed mk_thread state_is]. simpl bool_decide.
    cbn [mbind res_bind].
    unfold _sfetch_request_handler_opening.
    cbn [file_handle t_content_size t_content_offset t_fetched_size mk_thread
         t_failed t_finished].
    rewrite assert_bind_ok by reflexivity.
    rewrite assert_bind_ok by exact Hp.
    rewrite !assert_bind_ok by reflexivity.
    unfold _sfetch_file_open. rewrite Hopen.
    cbn [_sfetch_file_handle_valid]. simpl bool_decide.
    unfold _sfetch_file_size. cbn [deref mbind res_bind mret res_ret].
    rewrite Hbuf. simpl. reflexivity.
  - unfold _sfetch_channel_dowork_response, _sfetch_channel_dowork_transfer.
    simpl. rewrite Hs. simpl. split_and!; reflexivity.
Qed.

Lemma opened_without_buffer_witness :
  exists th,
    _sfetch_request_handler_item true (disk files) (opening_item "f10" 0 0) = Ok th /\
    th = mk_thread (u64 (io_size (disk files) (path (opening_item "f10" 0 0))))
           0 0 false false (Some (path (opening_item "f10" 0 0))) /\
    let r := _sfetch_channel_dowork_response first_handle
               (_sfetch_channel_dowork_transfer
                  (set_thread (opening_item "f10" 0 0) th)) in
    r_opened r = true /\
    r_content_size r = u64 (io_size (disk files) (path (opening_item "f10" 0 0))) /\
    r_content_offset r = 0 /\ r_fetched_size r = 0 /\
    r_fetched r = false /\ r_failed r = false /\ r_paused r = false /\
    r_finished r = u_finished (user (opening_item "f10" 0 0)).
Proof.
  apply (opened_without_buffer true (disk files) first_handle
           (opening_item "f10" 0 0)); try reflexivity.
Defined.

(** X18: a request in the FETCHING state fails when no buffer is bound (the
    callback of the opened response did not bind one), when the buffer has
    size 0, or when the read fails: the handler reads or keeps nothing,
    closes the file and sets failed and finished; the response has failed
    and finished set and fetched cleared. *)
Theorem fetch_failure_is_reported dbg io id it p :
  state it = _SFETCH_STATE_FETCHING ->
  t_failed (thread it) = false ->
  file_handle (thread it) = Some p ->
  t_content_offset (thread it) < t_content_size (thread it) ->
  ptr (buffer it) = 0 \/ size (buffer it) = 0 \/
  io_read io p (t_content_offset (thread it))
    (let n := u64 (t_content_size (thread it) - t_content_offset (thread it)) in
     if size (buffer it) <? n then size (buffer it) else n) = false ->
  exists th,
    _sfetch_request_handler_item dbg io it = Ok th /\
    t_failed th = true /\ t_finished th = true /\ file_handle th = None /\
    t_content_offset th = t_content_offset (thread it) /\
    let r := _sfetch_channel_dowork_response id
               (_sfetch_channel_dowork_transfer (set_thread it th)) in
    r_failed r = true /\ r_finished r = true /\ r_fetched r = false /\
    r_opened r = false /\ r_paused r = false.
Proof.
  intros Hs Hf Hfh Hlt Hcause.
  assert (Hrun : _sfetch_request_handler_item dbg io it
                 = Ok (mk_thread (t_content_size (thread it))
                         (t_content_offset (thread it))
                         (t_fetched_size (thread it)) true true None)).
  { unfold _sfetch_request_handler_item. rewrite Hs, Hf.
    rewrite assert_bind_ok by reflexivity.
    change (state_is _SFETCH_STATE_FETCHING _SFETCH_STATE_OPENING) with false.
    cbn [mbind res_bind mret res_ret].
    change (state_is _SFETCH_STATE_FETCHING _SFETCH_STATE_FETCHING) with true.
    unfold _sfetch_request_handler_fetching. rewrite Hfh.
    rewrite assert_bind_ok by reflexivity.
    rewrite assert_bind_ok by (intros _; apply Z.ltb_lt; exact Hlt).
    destruct ((ptr (buffer it) =? 0) || (size (buffer it) =? 0)) eqn:Hb.
    - res_simpl. cbn [mbind res_bind t_failed mk_thread orb file_handle].
      unfold _sfetch_file_close. reflexivity.
    - apply orb_false_iff in Hb as [Hb1 Hb2].
      apply Z.eqb_neq in Hb1, Hb2.
      destruct Hcause as [?|[?|Hread]]; [lia | lia |].
      unfold _sfetch_file_read. cbn [deref mbind res_bind mret res_ret].
      cbv zeta in Hread. rewrite Hread.
      cbn [mbind res_bind t_failed mk_thread orb file_handle].
      unfold _sfetch_file_close. reflexivity. }
  eexists. split; [exact Hrun|]. split_and!; try reflexivity.
  unfold _sfetch_channel_dowork_response, _sfetch_channel_dowork_transfer.
  simpl. split_and!; reflexivity.
Qed.

Lemma fetch_failure_is_reported_witness :
  exists th,
    _sfetch_request_handler_item true (disk files)
      (fetching_item "f10" 0 0 10 0) = Ok th /\
    t_failed th = true /\ t_finished th = true /\ file_handle th = None /\
    t_content_offset th = t_content_offset (thread (fetching_item "f10" 0 0 10 0)) /\
    let r := _sfetch_channel_dowork_response first_handle
               (_sfetch_channel_dowork_transfer
                  (set_thread (fetching_item "f10" 0 0 10 0) th)) in
    r_failed r = true /\ r_finished r = true /\ r_fetched r = false /\
    r_opened r = false /\ r_paused r = false.
Proof.
  apply (fetch_failure_is_reported true (disk files) first_handle
           (fetching_item "f10" 0 0 10 0) "f10"%string); try reflexivity.
  left. reflexivity.
Defined.

(** * Runs of the engine *)

Lemma live_handle_valid dbg ctx id :
  valid ctx = true -> pool_wf (pool ctx) -> live (pool ctx) id ->
  sfetch_handle_valid dbg ctx id = Ok true.
Proof.
  intros Hv Hwf Hl. unfold sfetch_handle_valid.
  rewrite assert_bind_ok by auto.
  destruct (Z.eqb_spec id 0) as [->|_]; [destruct Hl; congruence|].
  destruct (live_lookup dbg _ _ Hwf Hl) as (it & Hlk & _).
  rewrite Hlk. reflexivity.
Qed.

Lemma handle_valid_live dbg ctx id :
  sfetch_handle_valid dbg ctx id = Ok true -> live (pool ctx) id.
Proof.
  intros H. unfold sfetch_handle_valid in H.
  apply assert_bind_inv in H as [_ H].
  destruct (id =? 0); [discriminate|].
  apply bind_inv in H as ([it|] & Hl & H); [|discriminate].
  eapply lookup_live; eauto.
Qed.

(** X19: in every state that a run of the engine reaches (calls of
    [sfetch_send], [sfetch_dowork], [sfetch_cancel], [sfetch_pause],
    [sfetch_continue], turns of the workers, in any order), the pool is well
    formed, no id sits in two queues or twice in one, every queued id is a
    valid handle, and the queued ids together with the free slots are at most
    [max_requests]. *)
Theorem engine_invariant_of_runs dbg io d es w :
  desc_in_range d ->
  boot dbg io d es = Ok w ->
  pool_wf (pool (w_ctx w)) /\
  NoDup (all_ids (w_ctx w)) /\
  (forall id, id ∈ all_ids (w_ctx w) ->
     sfetch_handle_valid dbg (w_ctx w) id = Ok true) /\
  Z.of_nat (length (all_ids (w_ctx w))) + free_top (pool (w_ctx w))
  <= max_requests (desc (w_ctx w)).
Proof.
  intros Hd Hb. apply boot_inv in Hb; [|exact Hd].
  pose proof (wi_engine _ Hb) as Hinv.
  pose proof (live_count _ _ (ei_pool _ Hinv) (ei_nodup _ Hinv) (ei_live _ Hinv))
    as Hcount.
  rewrite (ei_size _ Hinv) in Hcount.
  split_and!; try apply Hinv; [|lia].
  intros id Hid. apply live_handle_valid;
    [apply Hinv | apply Hinv | exact (ei_live _ Hinv id Hid)].
Qed.

Lemma engine_invariant_of_runs_witness :
  pool_wf (pool (w_ctx busy_world)) /\
  NoDup (all_ids (w_ctx busy_world)) /\
  (forall id, id ∈ all_ids (w_ctx busy_world) ->
     sfetch_handle_valid true (w_ctx busy_world) id = Ok true) /\
  Z.of_nat (length (all_ids (w_ctx busy_world)))
  + free_top (pool (w_ctx busy_world))
  <= max_requests (desc (w_ctx busy_world)).
Proof.
  apply (engine_invariant_of_runs true (disk files) busy_desc
           (three_sends ++ [ev_dowork; ev_worker 0]) busy_world).
  - unfold desc_in_range. simpl. lia.
  - vm_compute. reflexivity.
Defined.

(** X20: on every state a run reaches, [sfetch_send] returns the invalid
    handle 0 exactly when the validation of the request fails or the pool has
    no free slot; the call then leaves the engine as it was, and no response
    that a callback sees afterwards carries the handle 0 of the failed
    call. *)
Theorem failed_send_leaves_engine_unchanged dbg io d es w r h ctx' :
  desc_in_range d ->
  boot dbg io d es = Ok w ->
  sfetch_send dbg (w_ctx w) r = Ok (h, ctx') ->
  (_sfetch_validate_request dbg (w_ctx w) r = false
   \/ free_top (pool (w_ctx w)) = 0 <-> h = 0) /\
  (h = 0 ->
   ctx' = w_ctx w /\
   forall es' w',
     run dbg io {| w_ctx := ctx'; w_handles := w_handles w ++ [h];
                   w_responses := w_responses w |} es' = Ok w' ->
     Forall (fun a => r_handle a <> h) (w_responses w')).
Proof.
  intros Hd Hb Hs.
  apply boot_inv in Hb; [|exact Hd].
  assert (Hstep : step dbg io w (ev_send r)
                  = Ok {| w_ctx := ctx'; w_handles := w_handles w ++ [h];
                          w_responses := w_responses w |}).
  { simpl. rewrite Hs. reflexivity. }
  pose proof (step_inv _ _ _ _ _ Hb Hstep) as Hb'.
  destruct (send_inv _ _ _ _ _ (wi_engine _ Hb) Hs) as (_ & Hiff & Hsame & _).
  split; [exact Hiff|]. intros ->. split; [auto|].
  intros es' w' Hrun. eapply run_inv in Hrun; [|exact Hb'].
  eapply Forall_impl; [apply (wi_responses _ Hrun)|]. intros a [? _]. assumption.
Qed.

Lemma failed_send_witness :
  (_sfetch_validate_request true (w_ctx exhausted_world) missing = false
   \/ free_top (pool (w_ctx exhausted_world)) = 0 <-> 0 = 0) /\
  (0 = 0 ->
   w_ctx exhausted_world = w_ctx exhausted_world /\
   forall es' w',
     run true (disk files)
       {| w_ctx := w_ctx exhausted_world;
          w_handles := w_handles exhausted_world ++ [0];
          w_responses := w_responses exhausted_world |} es' = Ok w' ->
     Forall (fun a => r_handle a <> 0) (w_responses w')).
Proof.
  apply (failed_send_leaves_engine_unchanged true (disk files) small_desc
           exhausted_run exhausted_world missing 0 (w_ctx exhausted_world)).
  - unfold desc_in_range. simpl. lia.
  - vm_compute. reflexivity.
  - vm_compute. reflexivity.
Defined.

(** X21: on every state a run reaches, a channel's sent queue has room
    whenever the pool has a free slot: [_sfetch_channel_send] succeeds, and
    the branch of [sfetch_send] that frees the slot again because the queue
    overflowed is never taken. *)
Theorem sent_queue_never_full dbg io d es w i c id :
  desc_in_range d ->
  boot dbg io d es = Ok w ->
  chn (w_ctx w) !! i = Some c ->
  0 < free_top (pool (w_ctx w)) ->
  exists c',
    _sfetch_channel_send dbg c id = Ok (true, c') /\
    ring_contents (user_sent c') = ring_contents (user_sent c) ++ [id].
Proof.
  intros Hd Hb Hc Ht. apply boot_inv in Hb; [|exact Hd].
  pose proof (wi_engine _ Hb) as Hinv.
  pose proof (sent_queue_has_room _ _ _ Hinv Hc Ht) as Hroom.
  destruct (engine_inv_chn _ _ _ Hinv Hc) as (Hcw & _).
  pose proof (cw_sent _ _ Hcw) as Hw.
  exists (set_user_sent c (ring_push (user_sent c) id)). split.
  - unfold _sfetch_channel_send.
    rewrite assert_bind_ok by (intros _; apply Hcw).
    rewrite (ring_full_ok _ Hw). res_simpl.
    rewrite bool_decide_eq_false_2 by lia. cbn [negb].
    rewrite (ring_enqueue_ok dbg _ id Hw Hroom). reflexivity.
  - simpl. now apply ring_push_contents.
Qed.

Lemma sent_queue_never_full_witness :
  exists c',
    _sfetch_channel_send true (chn_at (w_ctx queued_world) 0) 7 = Ok (true, c') /\
    ring_contents (user_sent c')
    = ring_contents (user_sent (chn_at (w_ctx queued_world) 0)) ++ [7].
Proof.
  apply (sent_queue_never_full true (disk files) busy_desc three_sends
           queued_world O (chn_at (w_ctx queued_world) 0) 7).
  - unfold desc_in_range. simpl. lia.
  - vm_compute. reflexivity.
  - reflexivity.
  - vm_compute. reflexivity.
Defined.

(** X22: every response that a callback sees in a run carries a handle that
    an earlier [sfetch_send] returned, and never the invalid handle; and the
    valid handles of a state are among those that [sfetch_send] returned. *)
Theorem responses_carry_sent_handles dbg io d es w :
  desc_in_range d ->
  boot dbg io d es = Ok w ->
  Forall (fun r => r_handle r <> 0 /\ r_handle r ∈ w_handles w) (w_responses w) /\
  (forall h, sfetch_handle_valid dbg (w_ctx w) h = Ok true -> h ∈ w_handles w).
Proof.
  intros Hd Hb. apply boot_inv in Hb; [|exact Hd].
  split; [apply Hb|].
  intros h Hh. apply (wi_live _ Hb). eapply handle_valid_live; eauto.
Qed.

Lemma responses_carry_sent_handles_witness :
  Forall (fun r => r_handle r <> 0 /\ r_handle r ∈ w_handles streamed_world)
    (w_responses streamed_world) /\
  (forall h, sfetch_handle_valid true (w_ctx streamed_world) h = Ok true ->
     h ∈ w_handles streamed_world).
Proof.
  apply (responses_carry_sent_handles true (disk files) default_desc streaming_run).
  - unfold desc_in_range. simpl. lia.
  - vm_compute. reflexivity.
Defined.

(** X23: no lane is lost or made: in every state a run reaches, and for
    every channel, the free lanes and the requests past admission (in the
    incoming and outgoing queues of the user side and of the worker) are
    together [num_lanes]; so at most [num_lanes] requests of a channel are in
    flight. *)
Theorem lanes_are_conserved dbg io d es w c :
  desc_in_range d ->
  boot dbg io d es = Ok w ->
  c ∈ chn (w_ctx w) ->
  Z.of_nat (length (ring_contents (free_lanes c)))
  + Z.of_nat (length (flight_ids c)) = num_lanes (desc (w_ctx w)).
Proof.
  intros Hd Hb Hc. apply boot_inv in Hb; [|exact Hd].
  pose proof (wi_engine _ Hb) as Hinv.
  pose proof (ei_chn _ Hinv) as Hall.
  rewrite Forall_forall in Hall. specialize (Hall c Hc).
  pose proof (cw_lanes _ _ Hall) as Hl. unfold lanes_total in Hl.
  unfold flight_ids. rewrite !length_app, !Nat2Z.inj_add.
  rewrite (ring_cnt_length _ (cw_free _ _ Hall)).
  rewrite (ring_cnt_length _ (cw_ui _ _ Hall)).
  rewrite (ring_cnt_length _ (cw_ti _ _ Hall)).
  rewrite (ring_cnt_length _ (cw_to _ _ Hall)).
  rewrite (ring_cnt_length _ (cw_uo _ _ Hall)). lia.
Qed.

Lemma lanes_are_conserved_witness :
  Z.of_nat (length (ring_contents (free_lanes (chn_at (w_ctx cancelled_world) 0))))
  + Z.of_nat (length (flight_ids (chn_at (w_ctx cancelled_world) 0)))
  = num_lanes (desc (w_ctx cancelled_world)).
Proof.
  apply (lanes_are_conserved true (disk files) small_desc
           [ev_send (request_for "f10"%string 0 0); ev_cancel first_handle;
            ev_dowork] cancelled_world).
  - unfold desc_in_range. simpl. lia.
  - vm_compute. reflexivity.
  - vm_compute. left.
Defined.

(** X24: on every state a run reaches, a call of [sfetch_send] that returns
    a handle other than 0 has taken one slot from the pool for an item in
    the ALLOCATED state that carries the request, has put the handle at the
    back of the sent queue of the request's channel, and has left the other
    queues and the other channels as they were; the handle is valid. *)
Theorem send_enqueues_request dbg io d es w r h ctx' :
  desc_in_range d ->
  boot dbg io d es = Ok w ->
  sfetch_send dbg (w_ctx w) r = Ok (h, ctx') ->
  h <> 0 ->
  sfetch_handle_valid dbg ctx' h = Ok true /\
  free_top (pool ctx') = free_top (pool (w_ctx w)) - 1 /\
  (exists it,
     _sfetch_pool_item_lookup dbg (pool ctx') h = Ok (Some it) /\
     state it = _SFETCH_STATE_ALLOCATED /\ channel it = q_channel r /\
     callback it = q_callback r /\
     buffer it = {| ptr := q_buffer_ptr r; size := q_buffer_size r |}) /\
  (exists c c',
     chn (w_ctx w) !! Z.to_nat (q_channel r) = Some c /\
     chn ctx' !! Z.to_nat (q_channel r) = Some c' /\
     ring_contents (user_sent c') = ring_contents (user_sent c) ++ [h] /\
     flight_ids c' = flight_ids c /\ free_lanes c' = free_lanes c) /\
  (forall j, j <> Z.to_nat (q_channel r) -> chn ctx' !! j = chn (w_ctx w) !! j).
Proof.
  intros Hd Hb Hs Hnz. apply boot_inv in Hb; [|exact Hd].
  pose proof (wi_engine _ Hb) as Hinv.
  destruct (send_cases _ _ _ _ _ Hinv Hs)
    as [(-> & _)|(_ & Hval & Hft & p1 & c & rb & Hal & Hc & Hw & Hn & Hcont & ->)];
    [congruence|].
  destruct (alloc_lookup dbg _ _ _ _ (ei_pool _ Hinv) Hal Hnz
              (validate_path _ _ _ Hval)) as (Hwf1 & Hft1 & it0 & Hlk).
  assert (Hlt : (Z.to_nat (q_channel r) < length (chn (w_ctx w)))%nat)
    by (eapply lookup_lt_Some; eauto).
  split_and!.
  - apply live_handle_valid; simpl; [apply Hinv | exact Hwf1 |].
    eapply lookup_live; eauto.
  - exact Hft1.
  - eexists. split; [exact Hlk|]. simpl. split_and!; reflexivity.
  - exists c, (set_user_sent c rb). simpl. split_and!; auto.
    now apply list_lookup_insert_eq.
  - intros j Hj. simpl. apply list_lookup_insert_ne. congruence.
Qed.

Lemma send_enqueues_request_witness :
  sfetch_handle_valid true sent_ctx first_handle = Ok true /\
  free_top (pool sent_ctx) = free_top (pool (w_ctx fresh_world)) - 1 /\
  (exists it,
     _sfetch_pool_item_lookup true (pool sent_ctx) first_handle = Ok (Some it) /\
     state it = _SFETCH_STATE_ALLOCATED /\
     channel it = q_channel (request_for "f10" 0 0) /\
     callback it = q_callback (request_for "f10" 0 0) /\
     buffer it = {| ptr := q_buffer_ptr (request_for "f10" 0 0);
                    size := q_buffer_size (request_for "f10" 0 0) |}) /\
  (exists c c',
     chn (w_ctx fresh_world) !! Z.to_nat (q_channel (request_for "f10" 0 0)) = Some c /\
     chn sent_ctx !! Z.to_nat (q_channel (request_for "f10" 0 0)) = Some c' /\
     ring_contents (user_sent c') = ring_contents (user_sent c) ++ [first_handle] /\
     flight_ids c' = flight_ids c /\ free_lanes c' = free_lanes c) /\
  (forall j, j <> Z.to_nat (q_channel (request_for "f10" 0 0)) ->
     chn sent_ctx !! j = chn (w_ctx fresh_world) !! j).
Proof.
  apply (send_enqueues_request true (disk files) small_desc [] fresh_world
           (request_for "f10" 0 0) first_handle sent_ctx).
  - unfold desc_in_range. simpl. lia.
  - vm_compute. reflexivity.
  - vm_compute. reflexivity.
  - discriminate.
Defined.

(** * Setting up *)

Lemma ring_init_ok dbg n :
  0 < n < 2 ^ 31 ->
  _sfetch_ring_init dbg n
  = Ok {| head := 0; tail := 0; num := n + 1;
          buf := replicate (Z.to_nat (n + 1)) 0 |}.
Proof.
  intros Hn. unfold _sfetch_ring_init.
  rewrite assert_bind_ok by (intros _; apply Z.ltb_lt; lia).
  rewrite (u32_small (n + 1)) by lia. reflexivity.
Qed.

Lemma init_lanes_ok dbg k : forall lane rb,
  ring_wf rb -> ring_cnt rb + Z.of_nat k <= num rb - 1 ->
  0 <= lane -> lane + Z.of_nat k < 2 ^ 32 ->
  exists rb',
    _sfetch_channel_init_lanes dbg k lane rb = Ok rb' /\
    ring_contents rb' = ring_contents rb ++ seqZ lane (Z.of_nat k).
Proof.
  induction k as [|k IH]; intros lane rb Hw Hr Hl Hb;
    cbn [_sfetch_channel_init_lanes].
  - exists rb. split; [reflexivity|]. simpl. now rewrite app_nil_r.
  - rewrite (ring_enqueue_ok dbg rb lane Hw) by lia. res_simpl.
    rewrite (u32_small (lane + 1)) by lia.
    destruct (IH (lane + 1) (ring_push rb lane)) as (rb' & Hrun & Hc).
    + now apply ring_push_wf.
    + rewrite ring_push_cnt by (auto; lia). simpl. lia.
    + lia.
    + lia.
    + exists rb'. split; [exact Hrun|].
      rewrite Hc, ring_push_contents by (auto; lia).
      rewrite <- app_assoc. f_equal.
      replace (Z.of_nat (S k)) with (Z.succ (Z.of_nat k)) by lia.
      rewrite (seqZ_cons lane) by lia. cbn [app]. f_equal. f_equal; lia.
Qed.

Lemma channel_init_ok dbg d :
  desc_ok d ->
  exists c,
    _sfetch_channel_init dbg (max_requests d) (num_lanes d) = Ok c /\
    ring_contents (free_lanes c) = seqZ 0 (num_lanes d) /\
    chn_ids c = [].
Proof.
  intros Hd. pose proof Hd as [Hr _ Hl].
  assert (Hrun : exists fl,
    _sfetch_channel_init_lanes dbg (Z.to_nat (num_lanes d)) 0
      {| head := 0; tail := 0; num := num_lanes d + 1;
         buf := replicate (Z.to_nat (num_lanes d + 1)) 0 |} = Ok fl /\
    ring_contents fl = seqZ 0 (num_lanes d)).
  { destruct (ring_init_inv dbg (num_lanes d) _ ltac:(lia)
                (ring_init_ok dbg (num_lanes d) ltac:(lia)))
      as (Hw & Hn & Hc & Hcont).
    destruct (init_lanes_ok dbg (Z.to_nat (num_lanes d)) 0 _ Hw) as (fl & Hfl & Hf).
    - rewrite Hc. simpl. lia.
    - lia.
    - lia.
    - exists fl. split; [exact Hfl|]. rewrite Hf, Hcont, Z2Nat.id by lia.
      reflexivity. }
  destruct Hrun as (fl & Hfl & Hcont).
  eexists. split.
  - unfold _sfetch_channel_init.
    rewrite assert_bind_ok by (intros _; apply Z.ltb_lt; lia).
    rewrite !ring_init_ok by lia. res_simpl. rewrite Hfl. res_simpl.
    reflexivity.
  - split; [exact Hcont | reflexivity].
Qed.

Lemma setup_channels_ok dbg d n :
  desc_ok d ->
  exists cs,
    sfetch_setup_channels dbg n (max_requests d) (num_lanes d) = Ok cs /\
    Forall (fun c => ring_contents (free_lanes c) = seqZ 0 (num_lanes d)
                     /\ chn_ids c = []) cs.
Proof.
  intros Hd. induction n as [|n (cs & Hrun & Hall)]; simpl.
  - exists []. split; [reflexivity | constructor].
  - destruct (channel_init_ok dbg d Hd) as (c & Hc & Hf & Hi).
    rewrite Hc. res_simpl. rewrite Hrun. res_simpl.
    exists (c :: cs). split; [reflexivity|]. constructor; auto.
Qed.

(** X25: [sfetch_setup] succeeds on every description whose numbers are in
    range; it replaces a zero [max_requests], [num_channels], [num_lanes] by
    128, 1, 1 and clamps [num_channels] to [SFETCH_MAX_CHANNELS], which is what
    [sfetch_desc] returns afterwards; the engine is valid, every slot of its
    pool is free, and each of its channels has all its lanes, numbered from
    0, free and no request in a queue. *)
Theorem setup_spec dbg d :
  desc_in_range d ->
  exists ctx,
    sfetch_setup dbg d = Ok ctx /\
    sfetch_valid ctx = true /\
    sfetch_desc dbg ctx = Ok (desc_with_defaults d) /\
    free_top (pool ctx) = max_requests (desc_with_defaults d) /\
    (forall h, ~ live (pool ctx) h) /\
    Z.of_nat (length (chn ctx)) = num_channels (desc_with_defaults d) /\
    Forall (fun c => ring_contents (free_lanes c)
                     = seqZ 0 (num_lanes (desc_with_defaults d))
                     /\ chn_ids c = []) (chn ctx).
Proof.
  intros Hd. pose proof Hd as (Hr & Hc & Hl).
  set (d' := desc_with_defaults d).
  assert (Hdesc : {| max_requests := _sfetch_def (max_requests d) 128;
                     num_channels :=
                       (if SFETCH_MAX_CHANNELS <? _sfetch_def (num_channels d) 1
                        then SFETCH_MAX_CHANNELS
                        else _sfetch_def (num_channels d) 1);
                     num_lanes := _sfetch_def (num_lanes d) 1 |} = d').
  { unfold d', desc_with_defaults, _sfetch_def, SFETCH_MAX_CHANNELS. f_equal.
    destruct (Z.eqb_spec (num_channels d) 0).
    - reflexivity.
    - clear. destruct (Z.ltb_spec 16 (num_channels d));
        [rewrite Z.min_l by lia | rewrite Z.min_r by lia]; reflexivity. }
  assert (Hok : desc_ok d').
  { unfold d', desc_with_defaults, SFETCH_MAX_CHANNELS. clear - Hr Hc Hl.
    constructor; cbn [max_requests num_channels num_lanes];
      unfold SFETCH_MAX_CHANNELS.
    - destruct (Z.eqb_spec (max_requests d) 0); lia.
    - destruct (Z.eqb_spec (num_channels d) 0); lia.
    - destruct (Z.eqb_spec (num_lanes d) 0); lia. }
  destruct (pool_init_ok dbg (max_requests d') (dk_requests _ Hok))
    as (fs & Hpool & _).
  destruct (setup_channels_ok dbg d' (Z.to_nat (num_channels d')) Hok)
    as (cs & Hcs & Hall).
  assert (Hrun : sfetch_setup dbg d
                 = Ok {| setup := true; valid := true; in_callback := false;
                         desc := d';
                         pool := {| p_size := max_requests d' + 1;
                                    free_top := max_requests d';
                                    items := replicate (Z.to_nat (max_requests d' + 1))
                                               _sfetch_item_zero;
                                    free_slots := fs;
                                    gen_ctrs := replicate
                                                  (Z.to_nat (max_requests d' + 1)) 0;
                                    p_valid := true |};
                         chn := cs |}).
  { unfold sfetch_setup. cbv zeta. rewrite Hdesc.
    change (_sfetch_def (max_requests d) 128) with (max_requests d').
    change (_sfetch_def (num_lanes d) 1) with (num_lanes d').
    replace (if SFETCH_MAX_CHANNELS <? _sfetch_def (num_channels d) 1
             then SFETCH_MAX_CHANNELS else _sfetch_def (num_channels d) 1)
      with (num_channels d') by (rewrite <- Hdesc; reflexivity).
    rewrite Hpool. res_simpl. rewrite Hcs. reflexivity. }
  eexists. split; [exact Hrun|].
  pose proof (setup_inv dbg d _ Hd Hrun) as Hinv.
  split_and!; try reflexivity.
  - unfold sfetch_desc. rewrite assert_bind_ok by reflexivity. reflexivity.
  - intros h. eapply setup_dead; eauto.
  - apply (ei_len _ Hinv).
  - exact Hall.
Qed.

Lemma setup_spec_witness :
  exists ctx,
    sfetch_setup true wide_desc = Ok ctx /\
    sfetch_valid ctx = true /\
    sfetch_desc true ctx = Ok (desc_with_defaults wide_desc) /\
    free_top (pool ctx) = max_requests (desc_with_defaults wide_desc) /\
    (forall h, ~ live (pool ctx) h) /\
    Z.of_nat (length (chn ctx)) = num_channels (desc_with_defaults wide_desc) /\
    Forall (fun c => ring_contents (free_lanes c)
                     = seqZ 0 (num_lanes (desc_with_defaults wide_desc))
                     /\ chn_ids c = []) (chn ctx).
Proof.
  apply (setup_spec true wide_desc). unfold desc_in_range. simpl. lia.
Defined.

(** * More on requests and responses *)

(** X26: a path of [SFETCH_MAX_PATH] characters or more is rejected by the
    validation of a debug build; a release build has no validation, accepts
    the request and stores the empty path in the item. *)
Theorem overlong_path_is_dropped_in_release ctx r s p :
  q_path r = Some s -> SFETCH_MAX_PATH <= strlen s ->
  pool_wf p -> 0 < free_top p ->
  _sfetch_validate_request true ctx r = false /\
  _sfetch_validate_request false ctx r = true /\
  exists id p' it,
    _sfetch_pool_item_alloc false p r = Ok (id, p') /\ id <> 0 /\
    _sfetch_pool_item_lookup false p' id = Ok (Some it) /\
    path it = EmptyString.
Proof.
  intros Hp Hlen Hwf Hft. split_and!.
  - unfold _sfetch_validate_request. destruct (_ <=? _); [reflexivity|].
    rewrite Hp. unfold SFETCH_MAX_PATH in *.
    destruct (Z.leb_spec (1024 - 1) (strlen s)); [reflexivity | lia].
  - reflexivity.
  - destruct (alloc_ok false p r Hwf Hft ltac:(discriminate))
      as (id & p' & Hal & Hnz & _).
    destruct (alloc_lookup false p r id p' Hwf Hal Hnz ltac:(discriminate))
      as (_ & _ & it0 & Hlk).
    exists id, p'. eexists. split_and!; eauto.
    simpl. rewrite Hp. unfold _sfetch_path_make.
    destruct (Z.ltb_spec (strlen s) SFETCH_MAX_PATH); [lia | reflexivity].
Qed.

Lemma overlong_path_witness :
  _sfetch_validate_request true fresh_ctx overlong_request = false /\
  _sfetch_validate_request false fresh_ctx overlong_request = true /\
  exists id p' it,
    _sfetch_pool_item_alloc false pool_of_three overlong_request = Ok (id, p') /\
    id <> 0 /\
    _sfetch_pool_item_lookup false p' id = Ok (Some it) /\
    path it = EmptyString.
Proof.
  apply (overlong_path_is_dropped_in_release fresh_ctx overlong_request
           (path_of_length 2000) pool_of_three).
  - reflexivity.
  - rewrite strlen_path_of_length. vm_compute. discriminate.
  - exact pool_of_three_wf.
  - reflexivity.
Defined.

(** X27: the items that the drain loop of [sfetch_dowork] accepts (its
    assertions exclude the states INITIAL, ALLOCATED, OPENED and FETCHED)
    give a response in which exactly one of opened, fetched, paused, failed
    is set. *)
Theorem drained_response_has_one_state_flag id it :
  state it <> _SFETCH_STATE_INITIAL -> state it <> _SFETCH_STATE_ALLOCATED ->
  state it <> _SFETCH_STATE_OPENED -> state it <> _SFETCH_STATE_FETCHED ->
  let r := _sfetch_channel_dowork_response id (_sfetch_channel_dowork_transfer it) in
  (Nat.b2n (r_opened r) + Nat.b2n (r_fetched r) + Nat.b2n (r_paused r)
   + Nat.b2n (r_failed r) = 1)%nat.
Proof.
  intros H1 H2 H3 H4.
  unfold _sfetch_channel_dowork_response, _sfetch_channel_dowork_transfer.
  destruct (t_failed (thread it)); [reflexivity|].
  cbn [state set_user user set_u_transfer u_content_offset].
  destruct (state it) eqn:Hs; try congruence; cbn [state set_user set_state];
    try reflexivity.
  - destruct (t_finished (thread it));
      cbn [u_content_offset set_u_finished set_u_transfer];
      destruct (0 <? t_content_offset (thread it)); reflexivity.
  - rewrite Hs. reflexivity.
  - rewrite Hs. reflexivity.
Qed.

Lemma drained_response_witness :
  let r := _sfetch_channel_dowork_response first_handle
             (_sfetch_channel_dowork_transfer (opening_item "f10" 0 0)) in
  (Nat.b2n (r_opened r) + Nat.b2n (r_fetched r) + Nat.b2n (r_paused r)
   + Nat.b2n (r_failed r) = 1)%nat.
Proof.
  apply (drained_response_has_one_state_flag first_handle (opening_item "f10" 0 0));
    discriminate.
Defined.

(** X28: a file that is not empty and fits the buffer that was bound with the
    request is fetched in one pass of the worker: from the OPENING state the
    handler opens the file, reads all its bytes at offset 0 and closes it,
    and the response has fetched and finished set, offset 0, and the fetched
    size equal to the content size. *)
Theorem whole_file_fetched_in_one_pass dbg io id it n :
  state it = _SFETCH_STATE_OPENING ->
  thread it = mk_thread 0 0 0 false false None ->
  (dbg = true -> path_first_char (path it) = true) ->
  ptr (buffer it) <> 0 ->
  io_open io (path it) = true ->
  io_size io (path it) = n ->
  0 < n < 2 ^ 64 -> n <= size (buffer it) ->
  io_read io (path it) 0 n = true ->
  exists th,
    _sfetch_request_handler_item dbg io it = Ok th /\
    th = mk_thread n n n false true None /\
    let r := _sfetch_channel_dowork_response id
               (_sfetch_channel_dowork_transfer (set_thread it th)) in
    r_fetched r = true /\ r_finished r = true /\
    r_content_size r = n /\ r_content_offset r = 0 /\ r_fetched_size r = n /\
    r_opened r = false /\ r_failed r = false /\ r_paused r = false.
Proof.
  intros Hs Hth Hp Hbuf Hopen Hsize Hn Hfit Hread.
  assert (Hrun : _sfetch_request_handler_item dbg io it
                 = Ok (mk_thread n n n false true None)).
  { unfold _sfetch_request_handler_item. rewrite Hs, Hth.
    rewrite assert_bind_ok by reflexivity.
    cbn [t_failed mk_thread].
    change (state_is _SFETCH_STATE_OPENING _SFETCH_STATE_OPENING) with true.
    cbn [mbind res_bind].
    unfold _sfetch_request_handler_opening.
    cbn [file_handle t_content_size t_content_offset t_fetched_size mk_thread
         t_failed t_finished].
    rewrite assert_bind_ok by reflexivity.
    rewrite assert_bind_ok by exact Hp.
    rewrite !assert_bind_ok by reflexivity.
    unfold _sfetch_file_open. rewrite Hopen.
    change (_sfetch_file_handle_valid (Some (path it))) with true.
    unfold _sfetch_file_size. cbn [deref mbind res_bind mret res_ret].
    rewrite Hsize, (u64_small n) by lia.
    apply Z.eqb_neq in Hbuf. rewrite Hbuf.
    cbn [negb mbind res_bind mret res_ret].
    change (state_is _SFETCH_STATE_FETCHING _SFETCH_STATE_FETCHING) with true.
    unfold _sfetch_request_handler_fetching.
    cbn [file_handle t_content_size t_content_offset t_fetched_size mk_thread
         t_failed t_finished].
    rewrite assert_bind_ok by reflexivity.
    rewrite assert_bind_ok by (intros _; apply Z.ltb_lt; lia).
    cbn [orb].
    destruct (Z.eqb_spec (size (buffer it)) 0) as [E|_]; [lia|].
    rewrite Z.sub_0_r, (u64_small n) by lia.
    destruct (Z.ltb_spec (size (buffer it)) n) as [?|_]; [lia|].
    unfold _sfetch_file_read. cbn [deref mbind res_bind mret res_ret].
    rewrite Hread. cbn [mbind res_bind t_failed mk_thread orb t_content_size
                        t_content_offset t_fetched_size t_finished file_handle].
    rewrite Z.add_0_l, (u64_small n) by lia. rewrite Hbuf.
    cbn [orb mbind res_bind mret res_ret t_failed mk_thread t_content_size
         t_content_offset t_fetched_size t_finished file_handle].
    rewrite Z.leb_refl. unfold _sfetch_file_close. reflexivity. }
  eexists. split; [exact Hrun|]. split; [reflexivity|].
  unfold _sfetch_channel_dowork_response, _sfetch_channel_dowork_transfer.
  cbn [thread set_thread t_failed mk_thread t_finished t_content_size
       t_content_offset t_fetched_size state set_user user set_u_finished
       set_u_transfer u_content_offset u_content_size u_fetched_size u_finished].
  rewrite Hs.
  destruct (Z.ltb_spec 0 n) as [_|?]; [|lia].
  cbn [r_fetched r_finished r_content_size r_content_offset r_fetched_size
       r_opened r_failed r_paused state set_state user u_finished
       u_content_size u_content_offset u_fetched_size].
  rewrite Z.sub_diag. split_and!; reflexivity.
Qed.

Lemma whole_file_fetched_witness :
  exists th,
    _sfetch_request_handler_item true (disk files) (opening_item "f4" 1000 16) = Ok th /\
    th = mk_thread 4 4 4 false true None /\
    let r := _sfetch_channel_dowork_response first_handle
               (_sfetch_channel_dowork_transfer
                  (set_thread (opening_item "f4" 1000 16) th)) in
    r_fetched r = true /\ r_finished r = true /\
    r_content_size r = 4 /\ r_content_offset r = 0 /\ r_fetched_size r = 4 /\
    r_opened r = false /\ r_failed r = false /\ r_paused r = false.
Proof.
  apply (whole_file_fetched_in_one_pass true (disk files) first_handle
           (opening_item "f4" 1000 16) 4); try reflexivity; try discriminate.
  lia.
Defined.

(** X29: on every state a run reaches, a turn of the worker of a channel
    with an empty inbox changes nothing; with ids in the inbox, a turn that
    completes (the request handler can stop on an assertion) has run the
    handler on the oldest id and put that id at the back of the outbox; the
    queues of the user side, the free lanes and the responses are not
    touched. *)
Theorem worker_takes_oldest_request dbg io d es w ci c :
  desc_in_range d ->
  boot dbg io d es = Ok w ->
  arr_get (chn (w_ctx w)) ci = Ok c ->
  stop_requested (chn_thread c) = false ->
  match ring_contents (thread_incoming c) with
  | [] => step dbg io w (ev_worker ci) = Ok w
  | x :: rest =>
      forall w', step dbg io w (ev_worker ci) = Ok w' ->
      exists ctx1 c',
        _sfetch_request_handler dbg io (w_ctx w) x = Ok ctx1 /\
        pool (w_ctx w') = pool ctx1 /\
        arr_get (chn (w_ctx w')) ci = Ok c' /\
        ring_contents (thread_incoming c') = rest /\
        ring_contents (thread_outgoing c') = ring_contents (thread_outgoing c) ++ [x] /\
        user_sent c' = user_sent c /\ user_incoming c' = user_incoming c /\
        user_outgoing c' = user_outgoing c /\ free_lanes c' = free_lanes c /\
        w_handles w' = w_handles w /\ w_responses w' = w_responses w
  end.
Proof.
  intros Hd Hb Hget Hstop. apply boot_inv in Hb; [|exact Hd].
  pose proof (wi_engine _ Hb) as Hinv.
  destruct (engine_inv_get _ _ _ Hinv Hget) as (Hc & Hcw & _).
  pose proof (cw_ti _ _ Hcw) as Hwti. pose proof (cw_to _ _ Hcw) as Hwto.
  pose proof (ring_cnt_length _ Hwti) as Hlen.
  pose proof (ring_empty_cnt _ Hwti) as Hemp.
  destruct (ring_contents (thread_incoming c)) as [|x rest] eqn:Hcont.
  - simpl in Hlen.
    cbn [step]. unfold _sfetch_channel_thread_step. rewrite Hget. res_simpl.
    rewrite Hstop, Hemp, bool_decide_eq_true_2 by lia.
    cbn [orb mbind res_bind mret res_ret]. now destruct w.
  - intros w' H. simpl in Hlen.
    cbn [step] in H. unfold _sfetch_channel_thread_step in H.
    rewrite Hget in H. res_simpl. cbn [mbind res_bind] in H.
    rewrite Hstop, Hemp, bool_decide_eq_false_2 in H by lia.
    cbn [orb] in H.
    apply bind_inv in H as (ctx' & H & Hw'). apply Ok_inj in Hw'. subst w'.
    apply bind_inv in H as ([y tin] & Hdq & H).
    apply assert_bind_inv in H as [_ H].
    apply bind_inv in H as (ctx1 & Hh & H).
    apply bind_inv in H as (u & _ & H).
    apply bind_inv in H as (tout & Henq & H).
    apply bind_inv in H as (cs & Hset & H).
    apply Ok_inj in H. subst ctx'.
    unfold _sfetch_thread_dequeue_incoming in Hdq.
    apply assert_bind_inv in Hdq as [_ Hdq]. rewrite Hstop in Hdq.
    cbn [negb] in Hdq.
    apply ring_dequeue_inv in Hdq as (Hw1 & Hn1 & Hc1 & Hk1); [|exact Hwti|lia].
    rewrite Hcont in Hc1. injection Hc1 as <- ->.
    pose proof (request_handler_kept _ _ _ _ _ (ei_pool _ Hinv) Hh)
      as (_ & Hchn & _).
    pose proof (cw_lanes _ _ Hcw) as Hlanes. unfold lanes_total in Hlanes.
    pose proof (ring_cnt_range _ (cw_ui _ _ Hcw)).
    pose proof (ring_cnt_range _ (cw_free _ _ Hcw)).
    pose proof (ring_cnt_range _ (cw_uo _ _ Hcw)).
    pose proof (ring_cnt_range _ Hwto).
    pose proof (cw_to_num _ _ Hcw).
    unfold _sfetch_thread_enqueue_outgoing in Henq.
    do 2 apply assert_bind_inv in Henq as [_ Henq].
    rewrite (ring_full_ok _ Hwto) in Henq. cbn [mbind res_bind] in Henq.
    rewrite bool_decide_eq_false_2 in Henq by lia. cbn [negb] in Henq.
    apply ring_enqueue_inv in Henq as (Hw2 & Hn2 & Hc2 & Hk2); [|exact Hwto|lia].
    apply arr_set_inv in Hset as [Hr ->].
    exists ctx1, (set_thread_queues c tin tout).
    cbn [w_ctx w_handles w_responses pool set_chn chn].
    split_and!; auto.
    apply arr_get_ok; [lia|]. apply list_lookup_insert_eq.
    rewrite Hchn. eapply lookup_lt_Some; eauto.
Qed.

Lemma worker_takes_oldest_witness :
  match ring_contents (thread_incoming (chn_at (w_ctx cancelled_world) 0)) with
  | [] => step true (disk files) cancelled_world (ev_worker 0) = Ok cancelled_world
  | x :: rest =>
      forall w', step true (disk files) cancelled_world (ev_worker 0) = Ok w' ->
      exists ctx1 c',
        _sfetch_request_handler true (disk files) (w_ctx cancelled_world) x = Ok ctx1 /\
        pool (w_ctx w') = pool ctx1 /\
        arr_get (chn (w_ctx w')) 0 = Ok c' /\
        ring_contents (thread_incoming c') = rest /\
        ring_contents (thread_outgoing c')
        = ring_contents (thread_outgoing (chn_at (w_ctx cancelled_world) 0)) ++ [x] /\
        user_sent c' = user_sent (chn_at (w_ctx cancelled_world) 0) /\
        user_incoming c' = user_incoming (chn_at (w_ctx cancelled_world) 0) /\
        user_outgoing c' = user_outgoing (chn_at (w_ctx cancelled_world) 0) /\
        free_lanes c' = free_lanes (chn_at (w_ctx cancelled_world) 0) /\
        w_handles w' = w_handles cancelled_world /\
        w_responses w' = w_responses cancelled_world
  end.
Proof.
  apply (worker_takes_oldest_request true (disk files) small_desc
           [ev_send (request_for "f10"%string 0 0); ev_cancel first_handle;
            ev_dowork] cancelled_world 0 (chn_at (w_ctx cancelled_world) 0)).
  - unfold desc_in_range. simpl. lia.
  - vm_compute. reflexivity.
  - vm_compute. reflexivity.
  - reflexivity.
Defined.

(** X30: when the callback has seen the finished flag in a response, the
    request is over: once the call of [sfetch_dowork] that delivered the
    response returns, the handle of the response is no longer valid. *)
Theorem finished_response_ends_request dbg io d es w sched ctx' l :
  desc_in_range d ->
  boot dbg io d es = Ok w ->
  sfetch_dowork_with dbg io sched (w_ctx w) = Ok (ctx', l) ->
  Forall (fun r => r_finished r = true ->
                   sfetch_handle_valid dbg ctx' (r_handle r) = Ok false) l.
Proof.
  intros Hd Hb Hrun. apply boot_inv in Hb; [|exact Hd].
  pose proof (wi_engine _ Hb) as Hinv.
  apply (dowork_with_inv dbg io (fun id => live (pool (w_ctx w)) id)) in Hrun
    as (Hinv' & Hdesc & _ & Hlive & Hdead); [|exact Hinv|auto].
  rewrite Forall_forall in Hlive, Hdead. apply Forall_forall. intros r Hr Hf.
  specialize (Hlive r Hr). specialize (Hdead r Hr Hf).
  pose proof (live_range _ _ (ei_pool _ Hinv) Hlive) as Hrange.
  assert (Hsz : p_size (pool ctx') = p_size (pool (w_ctx w))).
  { rewrite (ei_size _ Hinv'), (ei_size _ Hinv), Hdesc. reflexivity. }
  unfold sfetch_handle_valid.
  rewrite assert_bind_ok by (intros _; apply Hinv').
  destruct (r_handle r =? 0); [reflexivity|].
  rewrite (lookup_none dbg (pool ctx') (r_handle r)); [reflexivity| | |exact Hdead].
  - apply Hinv'.
  - right. rewrite Hsz. exact Hrange.
Qed.

Lemma finished_response_witness :
  Forall (fun r => r_finished r = true ->
                   sfetch_handle_valid true (fst last_dowork) (r_handle r) = Ok false)
    (snd last_dowork).
Proof.
  apply (finished_response_ends_request true (disk files) default_desc
           streaming_prefix before_last_response (fun _ _ => O)).
  - unfold desc_in_range. simpl. lia.
  - vm_compute. reflexivity.
  - vm_compute. reflexivity.
Defined.

(** * The states of the queued items *)

Lemma stable_state (Q : _sfetch_state_t -> Prop) : stable (fun it => Q (state it)).
Proof. repeat split; intros; assumption. Qed.

Lemma stable_lane (ln : Z) : stable (fun it => lane it = ln).
Proof. repeat split; intros; assumption. Qed.

Lemma item_is_lookup dbg p h Phi :
  pool_wf p -> live p h -> item_is p h Phi ->
  exists it, _sfetch_pool_item_lookup dbg p h = Ok (Some it) /\ Phi it.
Proof.
  intros Hwf Hl (it & Hs & HP).
  destruct (live_lookup dbg _ _ Hwf Hl) as (it0 & Hlk & Hs0).
  assert (it0 = it) by congruence. subst it0. eauto.
Qed.

Lemma lookup_item_is dbg p h it (Phi : _sfetch_item_t -> Prop) :
  _sfetch_pool_item_lookup dbg p h = Ok (Some it) -> Phi it -> item_is p h Phi.
Proof.
  intros Hlk HP. apply lookup_live_slot in Hlk as (Hs & _). exists it. auto.
Qed.

(** The calls that take a handle keep the stable properties of every item. *)
Lemma user_call_slot dbg Phi call ctx ctx' h :
  stable Phi -> pool_wf (pool ctx) -> live (pool ctx) h ->
  item_is (pool ctx) h Phi ->
  run_user_call dbg ctx call = Ok ctx' ->
  item_is (pool ctx') h Phi.
Proof.
  intros (Hb & Hu & _) Hwf Hl His H.
  destruct (item_is_lookup dbg _ _ _ Hwf Hl His) as (it & Hlk & HP).
  destruct (user_call_keeps dbg Phi ctx call ctx' h it
              ltac:(intros; apply Hb; assumption)
              ltac:(intros; apply Hu; assumption)
              ltac:(intros; apply Hu; assumption)
              ltac:(intros; apply Hu; assumption) Hlk HP H) as (it' & Hlk' & HP').
  eapply lookup_item_is; eauto.
Qed.

Lemma user_calls_slot dbg Phi calls ctx ctx' h :
  stable Phi -> pool_wf (pool ctx) -> live (pool ctx) h ->
  item_is (pool ctx) h Phi ->
  run_user_calls dbg ctx calls = Ok ctx' ->
  item_is (pool ctx') h Phi.
Proof.
  intros (Hb & Hu & _) Hwf Hl His H.
  destruct (item_is_lookup dbg _ _ _ Hwf Hl His) as (it & Hlk & HP).
  destruct (user_calls_keep dbg Phi h calls
              ltac:(intros; apply Hb; assumption)
              ltac:(intros; apply Hu; assumption)
              ltac:(intros; apply Hu; assumption)
              ltac:(intros; apply Hu; assumption) ctx it ctx' Hlk HP H)
    as (it' & Hlk' & HP').
  eapply lookup_item_is; eauto.
Qed.

(** The request handler writes the thread-side data of one item. *)
Lemma request_handler_slot dbg io Phi ctx id ctx' h :
  stable Phi -> pool_wf (pool ctx) -> live (pool ctx) h ->
  item_is (pool ctx) h Phi ->
  _sfetch_request_handler dbg io ctx id = Ok ctx' ->
  item_is (pool ctx') h Phi.
Proof.
  intros (_ & _ & Ht) Hwf Hl His H.
  destruct (item_is_lookup dbg _ _ _ Hwf Hl His) as (it & Hlk & HP).
  unfold _sfetch_request_handler in H.
  apply bind_inv in H as (oitem & Hl1 & H).
  destruct oitem as [item|].
  - apply bind_inv in H as (th & _ & H).
    apply bind_inv in H as (p1 & Hst & H).
    apply Ok_inj in H. subst ctx'. cbn [pool set_pool].
    destruct (decide (h = id)) as [->|Hne].
    + assert (item = it) by congruence. subst item.
      destruct (lookup_store dbg _ _ _ (set_thread it th) Hlk) as [Hst' Hlk'].
      { apply lookup_inv in Hlk. tauto. }
      rewrite Hst' in Hst. apply Ok_inj in Hst. subst p1.
      eapply lookup_item_is; [exact Hlk'|]. apply Ht, HP.
    + eapply lookup_item_is; [|exact HP].
      eapply lookup_store_other; [exact Hlk | exact Hl1 | congruence | exact Hst].
  - apply Ok_inj in H. subst ctx'. exact His.
Qed.

(** Writing the item of another id, and freeing its slot, leave a slot as it is. *)
Lemma store_item_is p x it h Phi :
  live p x -> live p h -> h <> x ->
  item_is p h Phi -> item_is (pool_store p x it) h Phi.
Proof.
  intros Hx Hh Hne (it0 & Hs & HP). exists it0. split; [|exact HP].
  rewrite store_slot_ne; [exact Hs | apply slot_index_range |].
  intros E. apply Hne. eapply live_index_inj; eauto.
Qed.

Lemma free_item_is p x h Phi :
  live p x -> live p h -> h <> x ->
  item_is p h Phi -> item_is (pool_after_free p x) h Phi.
Proof.
  intros Hx Hh Hne (it0 & Hs & HP). exists it0. split; [|exact HP].
  unfold slot in *. simpl. rewrite list_lookup_insert_ne; [exact Hs|].
  intros E. apply Hne. apply (live_index_inj p); auto.
  pose proof (slot_index_range h). pose proof (slot_index_range x). lia.
Qed.

(** After the transfer of the thread-side data an item that the drain loop
    accepts is in a state that the preparation loop accepts. *)
Lemma transfer_state_ok it :
  negb (state_is (state it) _SFETCH_STATE_INITIAL) = true ->
  negb (state_is (state it) _SFETCH_STATE_ALLOCATED) = true ->
  negb (state_is (state it) _SFETCH_STATE_OPENED) = true ->
  negb (state_is (state it) _SFETCH_STATE_FETCHED) = true ->
  incoming_state_ok (state (_sfetch_channel_dowork_transfer it)) = true.
Proof.
  destruct it as [h st ch ln cb bf [tcs tco tfs tf tfin fh] u pt].
  unfold _sfetch_channel_dowork_transfer.
  destruct tf, st; try discriminate; intros _ _ _ _; cbn; try reflexivity;
    destruct (0 <? _); reflexivity.
Qed.

(** The drain loop: what it leaves alone. The queues of the user side other
    than the outgoing queue are not read, an item that is not drained keeps
    its stable properties, and what comes back into the user-incoming queue
    was drained and is in a state the preparation loop accepts. *)
Lemma drain_states dbg d fuel : forall ctx c log ctx' c' log',
  chn_wf d c -> pool_wf (pool ctx) -> NoDup (chn_ids c) ->
  (forall id, id ∈ chn_ids c -> live (pool ctx) id) ->
  _sfetch_channel_dowork_drain dbg fuel ctx c log = Ok (ctx', c', log') ->
  user_sent c' = user_sent c /\ thread_incoming c' = thread_incoming c /\
  thread_outgoing c' = thread_outgoing c /\
  (forall Phi h, stable Phi -> live (pool ctx) h ->
     h ∉ ring_contents (user_outgoing c) ->
     item_is (pool ctx) h Phi -> item_is (pool ctx') h Phi) /\
  (forall id, id ∈ ring_contents (user_incoming c') ->
     id ∈ ring_contents (user_incoming c) \/
     (id ∈ ring_contents (user_outgoing c) /\
      (dbg = true ->
       item_is (pool ctx') id (fun it => incoming_state_ok (state it) = true)))).
Proof.
  induction fuel as [|fuel IH];
    intros ctx c log ctx' c' log' Hc Hp Hnd Hlive H;
    simpl in H; rewrite (ring_empty_cnt _ (cw_uo _ _ Hc)) in H;
    destruct (bool_decide (ring_cnt (user_outgoing c) = 0)) eqn:Hemp;
    cbn [negb] in H; try discriminate.
  1,2: apply Ok_inj in H; injection H as <- <- <-; split_and!; auto.
  apply bool_decide_eq_false in Hemp.
  apply bind_inv in H as ([x uo] & Hdq & H).
  apply assert_bind_inv in H as [_ H].
  apply bind_inv in H as (oitem & Hl & H).
  apply assert_bind_inv in H as [_ H].
  apply bind_inv in H as (item & Hd & H). apply deref_inv in Hd. subst oitem.
  apply assert_bind_inv in H as [Ha1 H].
  apply assert_bind_inv in H as [Ha2 H].
  apply assert_bind_inv in H as [Ha3 H].
  apply assert_bind_inv in H as [Ha4 H].
  apply bind_inv in H as (p1 & Hst & H).
  apply bind_inv in H as (ctx1 & Hcb & H).
  apply bind_inv in H as (item1 & Hget & H).
  assert (Hhx : handle (_sfetch_channel_dowork_transfer item) = x).
  { rewrite transfer_handle. apply lookup_inv in Hl. tauto. }
  assert (Hlx0 : live (pool ctx) x) by (eapply lookup_live; eauto).
  rewrite (store_ok dbg _ _ _ _ Hl Hhx) in Hst. apply Ok_inj in Hst. subst p1.
  set (p1 := pool_store (pool ctx) x (_sfetch_channel_dowork_transfer item)) in *.
  assert (Hk1 : pool_kept (pool ctx) p1).
  { eapply (store_kept dbg _ _ _ _ _ Hp Hl Hhx). apply (store_ok dbg _ _ _ _ Hl Hhx). }
  unfold invoke_callback in Hcb.
  apply bind_inv in Hcb as (cb & _ & Hcb).
  pose proof Hcb as Hcalls.
  apply run_user_calls_kept in Hcb as (Hk2 & Hchn & Hdesc & Hsetup & Hvalid & _);
    [|apply Hk1].
  cbn [pool set_pool] in Hk2.
  assert (Hk : pool_kept (pool ctx) (pool ctx1)) by (eapply pool_kept_trans; eauto).
  pose proof Hc as Hc0.
  destruct Hc as [cw_valid cw_thread cw_free cw_sent cw_ui cw_uo cw_ti cw_to
      cw_sent_num cw_free_num cw_ui_num cw_uo_num cw_ti_num cw_to_num cw_lanes].
  pose proof (ring_cnt_range _ cw_ti) as Hr1.
  pose proof (ring_cnt_range _ cw_ui) as Hr2.
  pose proof (ring_cnt_range _ cw_free) as Hr3.
  pose proof (ring_cnt_range _ cw_uo) as Hr4.
  pose proof (ring_cnt_range _ cw_to) as Hr5.
  unfold lanes_total in cw_lanes.
  apply ring_dequeue_inv in Hdq as (Hw1 & Hn1 & Hc1 & Hk1'); [|assumption|lia].
  assert (Hx : x ∈ chn_ids c).
  { unfold chn_ids, flight_ids. rewrite Hc1, !elem_of_app, elem_of_cons. tauto. }
  assert (Hxuo : x ∉ ring_contents uo).
  { revert Hnd. unfold chn_ids, flight_ids. rewrite Hc1, !app_assoc.
    intros Hnd. apply NoDup_app in Hnd as (_ & _ & Hnd).
    now apply NoDup_cons in Hnd as [Hnx _]. }
  (* one turn of the loop keeps the stable properties of the other items *)
  assert (Hturn : forall Phi h, stable Phi -> live (pool ctx) h -> h <> x ->
            item_is (pool ctx) h Phi -> item_is (pool ctx1) h Phi).
  { intros Phi h HPhi Hh Hne His.
    eapply (user_calls_slot dbg Phi _ (set_pool ctx p1)); [exact HPhi | | | | exact Hcalls].
    - apply Hk1.
    - apply Hk1, Hh.
    - apply store_item_is; auto. }
  (* the drained item after the callback *)
  assert (Hself : dbg = true ->
            item_is (pool ctx1) x (fun it => incoming_state_ok (state it) = true)).
  { intros Hdbg.
    eapply (user_calls_slot dbg _ _ (set_pool ctx p1));
      [apply (stable_state (fun s => incoming_state_ok s = true)) | | | | exact Hcalls].
    - apply Hk1.
    - apply Hk1, Hlx0.
    - exists (_sfetch_channel_dowork_transfer item). split.
      + apply store_slot_eq, Hlx0.
      + apply transfer_state_ok; auto. }
  destruct (u_finished (user item1)) eqn:Hfin.
  - apply bind_inv in H as (fl & Henq & H).
    apply bind_inv in H as (p2 & Hfree & H).
    simpl in Henq.
    apply ring_enqueue_inv in Henq as (Hw2 & Hn2 & Hc2 & Hk2'); [|assumption|lia].
    assert (Hlx : live (pool ctx1) x) by (apply Hk, Hlive, Hx).
    apply free_inv in Hfree as [-> Htop]; [|apply Hk|exact Hlx].
    assert (Hstep : chn_step d c (pool ctx)
                      (set_free_lanes (set_user_outgoing c uo) fl)
                      (pool_after_free (pool ctx1) x)).
    { constructor.
      - constructor; simpl; auto; try congruence.
        unfold lanes_total. simpl. lia.
      - apply free_wf; auto. apply Hk.
      - simpl. apply Hk.
      - unfold chn_ids, flight_ids. simpl. rewrite Hc1.
        repeat apply submseteq_skips_l. apply submseteq_cons, reflexivity.
      - intros id Hid. apply Hk. eapply free_live_sub; eauto.
      - intros id Hid Hin. apply free_live_keep; auto; [now apply Hk|].
        intros ->. specialize (Hin Hx).
        revert Hnd Hin. unfold chn_ids, flight_ids. simpl. rewrite Hc1.
        rewrite !app_assoc. intros Hnd Hin.
        apply NoDup_app in Hnd as (_ & Hdis & Hnd).
        apply NoDup_cons in Hnd as [Hnx _].
        apply elem_of_app in Hin as [Hin|Hin]; [|contradiction].
        apply (Hdis _ Hin). left. }
    apply IH in H as (Hs1 & Hs2 & Hs3 & Hframe & Hback).
    + cbn [user_sent thread_incoming thread_outgoing user_incoming user_outgoing
           set_free_lanes set_user_outgoing pool set_pool] in *.
      split_and!; auto.
      * intros Phi h HPhi Hh Hnot His.
        assert (Hne : h <> x) by (intros ->; apply Hnot; rewrite Hc1; left).
        apply Hframe; auto.
        -- apply free_live_keep; auto. apply Hk, Hh.
        -- intros Hin. apply Hnot. rewrite Hc1. now right.
        -- apply free_item_is; auto. apply Hk, Hh.
      * intros id Hid. destruct (Hback id Hid) as [?|[Hin ?]]; [auto|].
        right. split; [rewrite Hc1; now right | assumption].
    + apply Hstep.
    + apply Hstep.
    + eapply chn_step_NoDup; eauto.
    + eapply chn_step_live; eauto.
  - apply bind_inv in H as (ui & Henq & H).
    simpl in Henq.
    apply ring_enqueue_inv in Henq as (Hw2 & Hn2 & Hc2 & Hk2'); [|assumption|lia].
    assert (Hstep : chn_step d c (pool ctx)
                      (set_user_incoming (set_user_outgoing c uo) ui) (pool ctx1)).
    { apply chn_step_kept; [| exact Hk |].
      - constructor; simpl; auto; try congruence.
        unfold lanes_total. simpl. lia.
      - apply Permutation_submseteq. unfold chn_ids, flight_ids. simpl.
        rewrite Hc1, Hc2. solve_Permutation. }
    apply IH in H as (Hs1 & Hs2 & Hs3 & Hframe & Hback).
    + cbn [user_sent thread_incoming thread_outgoing user_incoming user_outgoing
           set_user_incoming set_user_outgoing pool set_pool] in *.
      split_and!; auto.
      * intros Phi h HPhi Hh Hnot His.
        assert (Hne : h <> x) by (intros ->; apply Hnot; rewrite Hc1; left).
        apply Hframe; auto.
        -- apply Hk, Hh.
        -- intros Hin. apply Hnot. rewrite Hc1. now right.
      * intros id Hid. destruct (Hback id Hid) as [Hin|[Hin Hok]].
        -- rewrite Hc2 in Hin. apply elem_of_app in Hin as [Hin|Hin]; [auto|].
           apply list_elem_of_singleton in Hin. subst id.
           right. split; [rewrite Hc1; left|].
           intros Hdbg. apply Hframe; auto.
           ++ apply (stable_state (fun s => incoming_state_ok s = true)).
           ++ apply Hk, Hlx0.
        -- right. split; [rewrite Hc1; now right | assumption].
    + apply Hstep.
    + apply Hstep.
    + eapply chn_step_NoDup; eauto.
    + eapply chn_step_live; eauto.
Qed.

(** ** Ids of different queues *)

Lemma concat_NoDup_index {A} (ls : list (list A)) i j l1 l2 x :
  NoDup (concat ls) -> ls !! i = Some l1 -> ls !! j = Some l2 ->
  x ∈ l1 -> x ∈ l2 -> i = j.
Proof.
  revert i j. induction ls as [|l ls IH]; intros i j Hnd Hi Hj H1 H2.
  - rewrite lookup_nil in Hi. discriminate.
  - simpl in Hnd. apply NoDup_app in Hnd as (_ & Hdis & Hnd).
    assert (Hin : forall k l', ls !! k = Some l' -> x ∈ l' -> x ∈ concat ls).
    { intros k l' Hk Hx. apply list_elem_of_In, in_concat. exists l'.
      split; apply list_elem_of_In; [eapply list_elem_of_lookup_2; eauto | exact Hx]. }
    destruct i as [|i], j as [|j]; simpl in Hi, Hj.
    + reflexivity.
    + injection Hi as ->. exfalso. apply (Hdis x H1). eapply Hin; eauto.
    + injection Hj as ->. exfalso. apply (Hdis x H2). eapply Hin; eauto.
    + f_equal. eapply IH; eauto.
Qed.

(** An id is in the queues of one channel only. *)
Lemma ids_one_channel ctx i j ci cj id :
  engine_inv ctx -> chn ctx !! i = Some ci -> chn ctx !! j = Some cj ->
  id ∈ chn_ids ci -> id ∈ chn_ids cj -> i = j.
Proof.
  intros Hinv Hi Hj H1 H2.
  eapply (concat_NoDup_index (chn_ids <$> chn ctx) i j);
    [apply (ei_nodup _ Hinv) | | | exact H1 | exact H2];
    rewrite list_lookup_fmap; [rewrite Hi | rewrite Hj]; reflexivity.
Qed.

Lemma ids_elem ctx i c id :
  chn ctx !! i = Some c -> id ∈ chn_ids c -> id ∈ all_ids ctx.
Proof.
  intros Hi Hid. unfold all_ids. apply list_elem_of_In, in_concat.
  exists (chn_ids c). split; apply list_elem_of_In; [|exact Hid].
  apply list_elem_of_fmap. exists c. split; [reflexivity|].
  eapply list_elem_of_lookup_2; eauto.
Qed.

Lemma sent_in_ids c id : id ∈ ring_contents (user_sent c) -> id ∈ chn_ids c.
Proof. unfold chn_ids. rewrite elem_of_app. auto. Qed.

Lemma incoming_in_ids c id : id ∈ ring_contents (user_incoming c) -> id ∈ chn_ids c.
Proof. unfold chn_ids, flight_ids. rewrite !elem_of_app. auto. Qed.

Lemma thread_incoming_in_ids c id :
  id ∈ ring_contents (thread_incoming c) -> id ∈ chn_ids c.
Proof. unfold chn_ids, flight_ids. rewrite !elem_of_app. auto. Qed.

Lemma thread_outgoing_in_ids c id :
  id ∈ ring_contents (thread_outgoing c) -> id ∈ chn_ids c.
Proof. unfold chn_ids, flight_ids. rewrite !elem_of_app. auto. Qed.

Lemma outgoing_in_ids c id : id ∈ ring_contents (user_outgoing c) -> id ∈ chn_ids c.
Proof. unfold chn_ids, flight_ids. rewrite !elem_of_app. auto. Qed.

(** Within one channel an id is in one queue only. *)
Lemma chn_ids_apart c id :
  NoDup (chn_ids c) ->
  (id ∈ ring_contents (user_sent c) -> id ∉ ring_contents (user_incoming c)) /\
  (((id ∈ ring_contents (user_sent c)) \/ (id ∈ ring_contents (user_incoming c))
    \/ (id ∈ ring_contents (thread_incoming c))) ->
   ((id ∉ ring_contents (thread_outgoing c)) /\
    (id ∉ ring_contents (user_outgoing c)))).
Proof.
  unfold chn_ids, flight_ids. intros Hnd.
  apply NoDup_app in Hnd as (_ & H1 & Hnd).
  apply NoDup_app in Hnd as (_ & H2 & Hnd).
  apply NoDup_app in Hnd as (_ & H3 & Hnd).
  split.
  - intros Hs Hi. apply (H1 _ Hs). rewrite !elem_of_app. auto.
  - intros [Hs|[Hi|Ht]]; split; intros Ho.
    + apply (H1 _ Hs). rewrite !elem_of_app. auto.
    + apply (H1 _ Hs). rewrite !elem_of_app. auto.
    + apply (H2 _ Hi). rewrite !elem_of_app. auto.
    + apply (H2 _ Hi). rewrite !elem_of_app. auto.
    + apply (H3 _ Ht). rewrite !elem_of_app. auto.
    + apply (H3 _ Ht). rewrite !elem_of_app. auto.
Qed.

(** ** The first half of a channel pass *)

(** On an engine that satisfies the invariants the first half of a pass does
    not fail, and this is what it does: the admission loop pairs the first
    [n] ids of the sent queue with the first [n] free lanes, the preparation
    loop applies [_sfetch_channel_dowork_prepare] to every item that is then
    in the user-incoming queue, and the hand-over moves all of them into the
    worker's inbox. *)
Lemma dowork_in_ok dbg ctx ci c :
  engine_inv ctx -> item_inv dbg ctx -> arr_get (chn ctx) ci = Ok c ->
  let n := Nat.min (ring_len (user_sent c)) (ring_len (free_lanes c)) in
  let admitted := take n (ring_contents (user_sent c)) in
  exists c1 p1 p2 c2,
    _sfetch_channel_dowork_admission dbg c (pool ctx) = Ok (c1, p1) /\
    ring_contents (user_sent c1) = drop n (ring_contents (user_sent c)) /\
    ring_contents (free_lanes c1) = drop n (ring_contents (free_lanes c)) /\
    ring_contents (user_incoming c1) = ring_contents (user_incoming c) ++ admitted /\
    (forall i id,
       admitted !! i = Some id ->
       exists ln it,
         ring_contents (free_lanes c) !! i = Some ln /\
         slot (pool ctx) (_sfetch_slot_index id) = Some it /\
         state it = _SFETCH_STATE_ALLOCATED /\
         slot p1 (_sfetch_slot_index id) = Some (set_lane it ln)) /\
    (forall s, 0 <= s ->
       (forall id, id ∈ admitted -> s <> _sfetch_slot_index id) ->
       slot p1 s = slot (pool ctx) s) /\
    _sfetch_channel_dowork_prepare_all dbg c1 p1 = Ok p2 /\
    (forall id, id ∈ ring_contents (user_incoming c) ++ admitted ->
       exists it, slot p1 (_sfetch_slot_index id) = Some it /\
                  slot p2 (_sfetch_slot_index id)
                  = Some (_sfetch_channel_dowork_prepare it)) /\
    (forall s, 0 <= s ->
       (forall id, id ∈ ring_contents (user_incoming c) ++ admitted ->
                   s <> _sfetch_slot_index id) ->
       slot p2 s = slot p1 s) /\
    _sfetch_channel_dowork_in dbg ctx ci
    = Ok (set_chn (set_pool ctx p2) (<[Z.to_nat ci := c2]> (chn ctx))) /\
    user_sent c2 = user_sent c1 /\ free_lanes c2 = free_lanes c1 /\
    user_outgoing c2 = user_outgoing c /\ thread_outgoing c2 = thread_outgoing c /\
    ring_contents (user_incoming c2) = [] /\
    ring_contents (thread_incoming c2)
    = ring_contents (thread_incoming c) ++ ring_contents (user_incoming c) ++ admitted.
Proof.
  intros Hinv Hitem Hget n admitted.
  destruct (engine_inv_get _ _ _ Hinv Hget) as (Hci & Hwf & Hnd & Hlive).
  pose proof (ei_pool _ Hinv) as Hwp.
  pose proof (cw_sent _ _ Hwf) as Hws. pose proof (cw_free _ _ Hwf) as Hwl.
  pose proof (cw_ui _ _ Hwf) as Hwi. pose proof (cw_ti _ _ Hwf) as Hwt.
  pose proof (cw_to _ _ Hwf) as Hwto. pose proof (cw_uo _ _ Hwf) as Hwuo.
  pose proof (ring_len_cnt _ Hws) as Hcs. pose proof (ring_len_cnt _ Hwl) as Hcl.
  pose proof (ring_cnt_range _ Hwi) as Hri. pose proof (ring_cnt_range _ Hwt) as Hrt.
  pose proof (ring_cnt_range _ Hwto) as Hrto. pose proof (ring_cnt_range _ Hwuo) as Hruo.
  pose proof (cw_lanes _ _ Hwf) as Hlanes. unfold lanes_total in Hlanes.
  pose proof (cw_ui_num _ _ Hwf) as Hnui.
  assert (Hsub : forall id, id ∈ admitted -> id ∈ ring_contents (user_sent c)).
  { intros id Hid. apply elem_of_take in Hid as (i & Hi & _).
    eapply list_elem_of_lookup_2; eauto. }
  assert (Hndc := Hnd). unfold chn_ids, flight_ids in Hndc.
  apply NoDup_app in Hndc as (Hnds & Hdis & Hndf).
  apply NoDup_app in Hndf as (Hndi & _ & _).
  destruct (admit_ok dbg n c (pool ctx)) as (c1 & p1 & Hrun & Hws1 & Hwl1 & Hwi1
      & Hwp1 & Hn1 & Hn2 & Hn3 & Hc1 & Hc2 & Hc3 & Ho1 & Ho2 & Ho3 & Ho4 & Ho5
      & Hlv & Hadm & Hoth); auto; try (subst n; lia).
  { intros id Hid. apply Hlive, sent_in_ids, Hsub, Hid. }
  { rewrite <- (take_drop n (ring_contents (user_sent c))) in Hnds.
    now apply NoDup_app in Hnds as (Hnds & _ & _). }
  fold admitted in Hc3, Hadm, Hoth.
  assert (Ha : _sfetch_channel_dowork_admission dbg c (pool ctx) = Ok (c1, p1)).
  { unfold _sfetch_channel_dowork_admission.
    rewrite !ring_count_ok by auto. res_simpl.
    replace (Z.to_nat _) with n; [exact Hrun|].
    subst n. destruct (Z.ltb_spec (ring_cnt (user_sent c)) (ring_cnt (free_lanes c)));
      unfold ring_len; lia. }
  destruct (admission_inv dbg _ _ _ _ _ Hwf Hwp Ha) as (Hwf1 & Hk1 & Hperm).
  assert (Hlen : length admitted = n).
  { subst admitted. rewrite length_take, ring_contents_length. subst n. lia. }
  (* the admitted items *)
  assert (Hadm' : forall i id, admitted !! i = Some id ->
            exists ln it,
              ring_contents (free_lanes c) !! i = Some ln /\
              slot (pool ctx) (_sfetch_slot_index id) = Some it /\
              state it = _SFETCH_STATE_ALLOCATED /\
              slot p1 (_sfetch_slot_index id) = Some (set_lane it ln)).
  { intros i id Hi.
    assert (Hlt : (i < ring_len (free_lanes c))%nat).
    { apply lookup_lt_Some in Hi. rewrite Hlen in Hi. subst n. lia. }
    destruct (Hadm i id _ Hi (ring_contents_lookup _ _ Hlt)) as (it & Hs & Hs').
    exists (ring_at (free_lanes c) i), it.
    split; [now apply ring_contents_lookup|]. split; [exact Hs|]. split; [|exact Hs'].
    destruct (ii_sent _ _ Hitem _ _ id Hci) as (it0 & Hs0 & Hst0).
    { apply Hsub. eapply list_elem_of_lookup_2; eauto. }
    congruence. }
  (* the queue that the preparation loop walks *)
  assert (Hnd1 : NoDup (ring_contents (user_incoming c1))).
  { assert (Hnd' : NoDup (chn_ids c1)) by (rewrite Hperm; exact Hnd).
    unfold chn_ids, flight_ids in Hnd'.
    apply NoDup_app in Hnd' as (_ & _ & Hnd').
    now apply NoDup_app in Hnd' as (Hnd' & _ & _). }
  assert (Hlive1 : forall id, id ∈ ring_contents (user_incoming c1) -> live p1 id).
  { intros id Hid. apply Hlv. rewrite Hc3 in Hid.
    apply elem_of_app in Hid as [Hid|Hid].
    - apply Hlive, incoming_in_ids, Hid.
    - apply Hlive, sent_in_ids, Hsub, Hid. }
  destruct (incoming_ok dbg c1 (ring_len (user_incoming c1)) O p1)
    as (p2 & Hrun2 & Hwp2 & Hlv2 & Hprep & Hoth2); auto.
  { intros Hdbg k id it _ Hk Hs.
    assert (Hid : id ∈ ring_contents (user_incoming c) ++ admitted).
    { rewrite <- Hc3. eapply list_elem_of_lookup_2; eauto. }
    apply elem_of_app in Hid as [Hid|Hid].
    - destruct (ii_incoming _ _ Hitem Hdbg _ _ id Hci Hid) as (it0 & Hs0 & Hok).
      rewrite Hoth in Hs.
      + congruence.
      + apply slot_index_range.
      + intros id' Hid' E.
        assert (id = id').
        { eapply live_index_inj; [| |exact E].
          - apply Hlive, incoming_in_ids, Hid.
          - apply Hlive, sent_in_ids, Hsub, Hid'. }
        subst id'. apply (proj1 (chn_ids_apart c id Hnd)); auto.
    - apply list_elem_of_lookup in Hid as [i Hi].
      destruct (Hadm' i id Hi) as (ln & it0 & _ & _ & Hst0 & Hs1).
      assert (it = set_lane it0 ln) by congruence. subst it.
      cbn [state set_lane]. rewrite Hst0. reflexivity. }
  assert (Hp : _sfetch_channel_dowork_prepare_all dbg c1 p1 = Ok p2).
  { unfold _sfetch_channel_dowork_prepare_all.
    rewrite ring_count_ok by auto. res_simpl.
    unfold ring_len in Hrun2. exact Hrun2. }
  (* the hand-over *)
  pose proof (cw_ti _ _ Hwf1) as Hwt1.
  pose proof (cw_lanes _ _ Hwf1) as Hlanes1. unfold lanes_total in Hlanes1.
  pose proof (cw_ti_num _ _ Hwf1) as Hnti1.
  pose proof (ring_cnt_range _ Hwi1) as Hri1.
  pose proof (ring_cnt_range _ Hwt1) as Hrt1.
  pose proof (ring_cnt_range _ (cw_to _ _ Hwf1)) as Hrto1.
  pose proof (ring_cnt_range _ (cw_uo _ _ Hwf1)) as Hruo1.
  pose proof (ring_cnt_range _ Hwl1) as Hrl1.
  pose proof (ring_len_cnt _ Hwi1) as Hci1.
  assert (Hmv : exists tin ui,
            _sfetch_thread_enqueue_incoming dbg (chn_thread c1) (thread_incoming c1)
              (user_incoming c1) = Ok (tin, ui) /\
            ring_contents tin = ring_contents (thread_incoming c1)
                                ++ ring_contents (user_incoming c1) /\
            ring_contents ui = []).
  { unfold _sfetch_thread_enqueue_incoming.
    rewrite assert_bind_ok by (intros _; apply (cw_thread _ _ Hwf1)).
    rewrite (ring_empty_cnt _ Hwi1).
    destruct (decide (ring_cnt (user_incoming c1) = 0)) as [E|E].
    - rewrite (bool_decide_eq_true_2 _ E). cbn [negb].
      exists (thread_incoming c1), (user_incoming c1).
      assert (El : ring_contents (user_incoming c1) = []).
      { apply length_zero_iff_nil. rewrite ring_contents_length. lia. }
      rewrite El, app_nil_r. auto.
    - rewrite (bool_decide_eq_false_2 _ E). cbn [negb].
      destruct (ring_move_ok dbg (Z.to_nat (num (user_incoming c1)))
                  (thread_incoming c1) (user_incoming c1) Hwt1 Hwi1)
        as (tin & ui & Hm & _ & _ & Hm1 & Hm2); [lia|].
      exists tin, ui. split; [exact Hm|]. cbv zeta in Hm1, Hm2.
      replace (Nat.min (ring_len (user_incoming c1))
                 (Z.to_nat (num (thread_incoming c1) - 1
                            - ring_cnt (thread_incoming c1))))
        with (length (ring_contents (user_incoming c1))) in Hm1, Hm2
        by (rewrite ring_contents_length; lia).
      rewrite firstn_all in Hm1. rewrite drop_all in Hm2. auto. }
  destruct Hmv as (tin & ui & Hmv & Htin & Hui).
  set (c2 := set_user_incoming (set_thread_queues c1 tin (thread_outgoing c1)) ui).
  exists c1, p1, p2, c2.
  split; [exact Ha|]. split; [exact Hc1|]. split; [exact Hc2|]. split; [exact Hc3|].
  split; [exact Hadm'|]. split; [exact Hoth|]. split; [exact Hp|].
  split.
  { intros id Hid. rewrite <- Hc3 in Hid.
    apply list_elem_of_lookup in Hid as [k Hk].
    assert (Hlt : (k < ring_len (user_incoming c1))%nat).
    { apply lookup_lt_Some in Hk. now rewrite ring_contents_length in Hk. }
    apply (Hprep k id); [lia | exact Hk]. }
  split.
  { intros s Hs Hne. apply Hoth2; [exact Hs|].
    intros k id _ Hk. apply Hne. rewrite <- Hc3.
    eapply list_elem_of_lookup_2; eauto. }
  split.
  { unfold _sfetch_channel_dowork_in. rewrite Hget. res_simpl.
    cbn [mbind res_bind]. rewrite Ha. cbn [mbind res_bind].
    rewrite Hp. cbn [mbind res_bind]. rewrite Hmv. cbn [mbind res_bind].
    apply arr_get_inv in Hget as [Hr _].
    rewrite arr_set_ok by exact Hr. reflexivity. }
  subst c2. cbn [user_sent free_lanes user_outgoing thread_outgoing user_incoming
                 thread_incoming set_user_incoming set_thread_queues].
  split; [reflexivity|]. split; [reflexivity|]. split; [exact Ho1|].
  split; [exact Ho3|]. split; [exact Hui|].
  rewrite Htin, Ho2, Hc3. reflexivity.
Qed.

(** ** The invariant of the items is kept *)

Lemma item_inv_in_callback dbg ctx b :
  item_inv dbg ctx -> item_inv dbg (set_in_callback ctx b).
Proof. intros [Hs Hi]. constructor; [exact Hs | exact Hi]. Qed.

(** The first half of a channel pass. *)
Lemma dowork_in_states dbg ctx ci ctx' :
  engine_inv ctx -> item_inv dbg ctx ->
  _sfetch_channel_dowork_in dbg ctx ci = Ok ctx' -> item_inv dbg ctx'.
Proof.
  intros Hinv Hitem H.
  assert (Hget : exists c, arr_get (chn ctx) ci = Ok c).
  { unfold _sfetch_channel_dowork_in in H.
    apply bind_inv in H as (c & Hget & _). eauto. }
  destruct Hget as [c Hget].
  destruct (engine_inv_get _ _ _ Hinv Hget) as (Hci & Hwf & Hnd & Hlive).
  destruct (dowork_in_ok dbg ctx ci c Hinv Hitem Hget)
    as (c1 & p1 & p2 & c2 & _ & Hc1 & _ & _ & _ & Hoth & _ & _ & Hoth2 & Hrun
        & Hs2 & _ & _ & _ & Hui & _).
  rewrite Hrun in H. apply Ok_inj in H. subst ctx'.
  set (n := Nat.min (ring_len (user_sent c)) (ring_len (free_lanes c))) in *.
  set (admitted := take n (ring_contents (user_sent c))) in *.
  assert (Hsub : forall id, id ∈ admitted -> id ∈ ring_contents (user_sent c)).
  { intros id Hid. apply elem_of_take in Hid as (i & Hi & _).
    eapply list_elem_of_lookup_2; eauto. }
  assert (Htouched : forall id, id ∈ ring_contents (user_incoming c) ++ admitted ->
            id ∈ chn_ids c).
  { intros id Hid. apply elem_of_app in Hid as [Hid|Hid].
    - now apply incoming_in_ids.
    - now apply sent_in_ids, Hsub. }
  (* an item that is neither admitted nor prepared is not written *)
  assert (Hkeep : forall id, live (pool ctx) id ->
            id ∉ ring_contents (user_incoming c) ++ admitted ->
            slot p2 (_sfetch_slot_index id) = slot (pool ctx) (_sfetch_slot_index id)).
  { intros id Hid Hnot.
    assert (Hne : forall id', id' ∈ ring_contents (user_incoming c) ++ admitted ->
              _sfetch_slot_index id <> _sfetch_slot_index id').
    { intros id' Hid' E. apply Hnot.
      assert (id = id'); [|congruence].
      eapply live_index_inj; [exact Hid | | exact E]. apply Hlive, Htouched, Hid'. }
    rewrite Hoth2; [|apply slot_index_range|exact Hne].
    apply Hoth; [apply slot_index_range|].
    intros id' Hid'. apply Hne. apply elem_of_app. now right. }
  assert (Hfar : forall i c' id, i <> Z.to_nat ci -> chn ctx !! i = Some c' ->
            id ∈ chn_ids c' ->
            id ∉ ring_contents (user_incoming c) ++ admitted).
  { intros i c' id Hi Hc' Hid Hin. apply Hi.
    eapply (ids_one_channel ctx i (Z.to_nat ci)); eauto. }
  constructor; cbn [chn pool set_chn set_pool].
  - intros i c' id Hi Hid.
    apply list_lookup_insert_Some in Hi as [(<- & <- & _)|(Hne & Hi)].
    + rewrite Hs2, Hc1 in Hid.
      assert (Hin : id ∈ ring_contents (user_sent c)).
      { apply list_elem_of_lookup in Hid as [k Hk]. rewrite lookup_drop in Hk.
        eapply list_elem_of_lookup_2; eauto. }
      destruct (ii_sent _ _ Hitem _ _ id Hci Hin) as (it & Hs & Hst).
      exists it. split; [|exact Hst]. rewrite <- Hs. apply Hkeep.
      * apply Hlive, sent_in_ids, Hin.
      * intros Hx. apply elem_of_app in Hx as [Hx|Hx].
        -- apply (proj1 (chn_ids_apart c id Hnd)); auto.
        -- assert (Hnds : NoDup (ring_contents (user_sent c))).
           { unfold chn_ids in Hnd. now apply NoDup_app in Hnd as (Hnd & _ & _). }
           rewrite <- (take_drop n (ring_contents (user_sent c))) in Hnds.
           apply NoDup_app in Hnds as (_ & Hdis & _). apply (Hdis id Hx Hid).
    + destruct (ii_sent _ _ Hitem _ _ id Hi Hid) as (it & Hs & Hst).
      exists it. split; [|exact Hst]. rewrite <- Hs. apply Hkeep.
      * apply (ei_live _ Hinv). eapply ids_elem; [exact Hi|]. now apply sent_in_ids.
      * eapply Hfar; eauto. now apply sent_in_ids.
  - intros Hdbg i c' id Hi Hid.
    apply list_lookup_insert_Some in Hi as [(<- & <- & _)|(Hne & Hi)].
    + rewrite Hui in Hid. now apply elem_of_nil in Hid.
    + destruct (ii_incoming _ _ Hitem Hdbg _ _ id Hi Hid) as (it & Hs & Hst).
      exists it. split; [|exact Hst]. rewrite <- Hs. apply Hkeep.
      * apply (ei_live _ Hinv). eapply ids_elem; [exact Hi|]. now apply incoming_in_ids.
      * eapply Hfar; eauto. now apply incoming_in_ids.
Qed.

(** A turn of the worker. *)
Lemma thread_step_states dbg io ctx ci ctx' :
  engine_inv ctx -> item_inv dbg ctx ->
  _sfetch_channel_thread_step dbg io ctx ci = Ok ctx' -> item_inv dbg ctx'.
Proof.
  intros Hinv Hitem H. unfold _sfetch_channel_thread_step in H.
  apply bind_inv in H as (c & Hget & H).
  destruct (engine_inv_get _ _ _ Hinv Hget) as (Hci & Hwf & Hnd & Hlive).
  destruct (stop_requested (chn_thread c) || _sfetch_ring_empty (thread_incoming c)).
  { apply Ok_inj in H. now subst ctx'. }
  apply bind_inv in H as ([x tin] & Hdq & H).
  apply assert_bind_inv in H as [_ H].
  apply bind_inv in H as (ctx1 & Hh & H).
  apply bind_inv in H as (u & _ & H).
  apply bind_inv in H as (tout & Henq & H).
  apply bind_inv in H as (cs & Hset & H).
  apply Ok_inj in H. subst ctx'.
  pose proof Hh as Hh'.
  apply request_handler_kept in Hh' as (Hk & Hchn & _); [|apply Hinv].
  apply arr_set_inv in Hset as [_ ->]. rewrite Hchn.
  assert (Hold : forall i c' id, chn ctx !! i = Some c' -> id ∈ chn_ids c' ->
            forall Phi, stable Phi -> item_is (pool ctx) id Phi ->
            item_is (pool ctx1) id Phi).
  { intros i c' id Hi Hid Phi HPhi His.
    eapply request_handler_slot; [exact HPhi | apply Hinv | | exact His | exact Hh].
    apply (ei_live _ Hinv). eapply ids_elem; eauto. }
  constructor; cbn [chn pool set_chn].
  - intros i c' id Hi Hid.
    apply list_lookup_insert_Some in Hi as [(<- & <- & _)|(Hne & Hi)].
    + cbn [user_sent set_thread_queues] in Hid.
      eapply (Hold _ c id Hci); [now apply sent_in_ids | |].
      * apply (stable_state (fun s => s = _SFETCH_STATE_ALLOCATED)).
      * eapply (ii_sent _ _ Hitem); eauto.
    + eapply (Hold _ c' id Hi); [now apply sent_in_ids | |].
      * apply (stable_state (fun s => s = _SFETCH_STATE_ALLOCATED)).
      * eapply (ii_sent _ _ Hitem); eauto.
  - intros Hdbg i c' id Hi Hid.
    apply list_lookup_insert_Some in Hi as [(<- & <- & _)|(Hne & Hi)].
    + cbn [user_incoming set_thread_queues] in Hid.
      eapply (Hold _ c id Hci); [now apply incoming_in_ids | |].
      * apply (stable_state (fun s => incoming_state_ok s = true)).
      * eapply (ii_incoming _ _ Hitem Hdbg); eauto.
    + eapply (Hold _ c' id Hi); [now apply incoming_in_ids | |].
      * apply (stable_state (fun s => incoming_state_ok s = true)).
      * eapply (ii_incoming _ _ Hitem Hdbg); eauto.
Qed.

Lemma worker_turns_states dbg io k : forall ctx ci ctx',
  engine_inv ctx -> item_inv dbg ctx ->
  worker_turns dbg io k ctx ci = Ok ctx' -> item_inv dbg ctx'.
Proof.
  induction k as [|k IH]; intros ctx ci ctx' Hinv Hitem H; simpl in H.
  - apply Ok_inj in H. now subst.
  - apply bind_inv in H as (ctx1 & H1 & H).
    eapply IH; [| |exact H].
    + eapply thread_step_engine; eauto.
    + eapply thread_step_states; eauto.
Qed.

(** The second half of a channel pass. *)
Lemma dowork_out_states dbg ctx ci ctx' log :
  engine_inv ctx -> item_inv dbg ctx ->
  _sfetch_channel_dowork_out dbg ctx ci = Ok (ctx', log) -> item_inv dbg ctx'.
Proof.
  intros Hinv Hitem H. unfold _sfetch_channel_dowork_out in H.
  apply bind_inv in H as (c & Hget & H).
  apply bind_inv in H as ([tout uo] & Hdq & H).
  apply bind_inv in H as ([[ctx1 c1] log1] & Hdr & H).
  apply bind_inv in H as (cs & Hset & H).
  apply Ok_inj in H. injection H as <- <-.
  destruct (engine_inv_get _ _ _ Hinv Hget) as (Hci & Hwf & Hnd & Hlive).
  unfold _sfetch_thread_dequeue_outgoing in Hdq.
  apply assert_bind_inv in Hdq as [_ Hdq].
  apply bind_inv in Hdq as ([uo' tout'] & Hmv & Hdq).
  apply Ok_inj in Hdq. injection Hdq as <- <-.
  apply ring_move_inv in Hmv
    as (Hw1 & Hw2 & Hn1 & Hn2 & k & Hu & Ht & Hcnt); [|apply Hwf..].
  set (c0 := set_user_outgoing (set_thread_queues c (thread_incoming c) tout') uo')
    in *.
  assert (Hstep0 : chn_step (desc ctx) c (pool ctx) c0 (pool ctx)).
  { apply chn_step_kept.
    - destruct Hwf. constructor; simpl; auto; try congruence.
      unfold lanes_total in *. simpl. lia.
    - apply pool_kept_refl, Hinv.
    - apply Permutation_submseteq. unfold chn_ids, flight_ids. simpl.
      rewrite Hu, Ht.
      rewrite <- (take_drop k (ring_contents (thread_outgoing c))) at 3.
      solve_Permutation. }
  assert (Hwf0 : chn_wf (desc ctx) c0) by apply Hstep0.
  assert (Hnd0 : NoDup (chn_ids c0)) by (eapply chn_step_NoDup; eauto).
  assert (Hlive0 : forall id, id ∈ chn_ids c0 -> live (pool ctx) id)
    by (eapply chn_step_live; eauto).
  pose proof Hdr as Hdr'.
  apply (drain_inv dbg (desc ctx) (fun _ => True)) in Hdr'
    as (_ & Hchn & _); auto; [|apply Hinv].
  apply (drain_states dbg (desc ctx)) in Hdr
    as (Hs1 & _ & _ & Hframe & Hback); auto; [|apply Hinv].
  apply arr_set_inv in Hset as [_ ->]. rewrite Hchn.
  cbn [user_sent user_incoming user_outgoing set_user_outgoing set_thread_queues c0]
    in Hs1, Hframe, Hback.
  assert (Hdrained : forall id, id ∈ ring_contents uo' ->
            (id ∈ ring_contents (user_outgoing c))
            \/ (id ∈ ring_contents (thread_outgoing c))).
  { intros id Hid. rewrite Hu in Hid. apply elem_of_app in Hid as [?|Hid]; [auto|].
    right. apply elem_of_take in Hid as (j & Hj & _).
    eapply list_elem_of_lookup_2; eauto. }
  assert (Hold : forall i c' id, chn ctx !! i = Some c' ->
            (id ∈ ring_contents (user_sent c')) \/ (id ∈ ring_contents (user_incoming c')) ->
            forall Phi, stable Phi -> item_is (pool ctx) id Phi ->
            item_is (pool ctx1) id Phi).
  { intros i c' id Hi Hid Phi HPhi His.
    assert (Hin : id ∈ chn_ids c').
    { destruct Hid; [now apply sent_in_ids | now apply incoming_in_ids]. }
    apply Hframe; auto.
    - apply (ei_live _ Hinv). eapply ids_elem; eauto.
    - intros Hx. apply Hdrained in Hx.
      destruct (decide (i = Z.to_nat ci)) as [->|Hne].
      + assert (c' = c) by congruence. subst c'.
        destruct (proj2 (chn_ids_apart c id Hnd)) as [Hn1' Hn2']; [tauto|].
        tauto.
      + apply Hne. eapply (ids_one_channel ctx i (Z.to_nat ci)); eauto.
        destruct Hx; [now apply outgoing_in_ids | now apply thread_outgoing_in_ids]. }
  constructor; cbn [chn pool set_chn].
  - intros i c' id Hi Hid.
    apply list_lookup_insert_Some in Hi as [(<- & <- & _)|(Hne & Hi)].
    + rewrite Hs1 in Hid.
      eapply (Hold _ c id Hci); [now left | |].
      * apply (stable_state (fun s => s = _SFETCH_STATE_ALLOCATED)).
      * eapply (ii_sent _ _ Hitem); eauto.
    + eapply (Hold _ c' id Hi); [now left | |].
      * apply (stable_state (fun s => s = _SFETCH_STATE_ALLOCATED)).
      * eapply (ii_sent _ _ Hitem); eauto.
  - intros Hdbg i c' id Hi Hid.
    apply list_lookup_insert_Some in Hi as [(<- & <- & _)|(Hne & Hi)].
    + destruct (Hback id Hid) as [Hin|[_ Hok]]; [|exact (Hok Hdbg)].
      eapply (Hold _ c id Hci); [now right | |].
      * apply (stable_state (fun s => incoming_state_ok s = true)).
      * eapply (ii_incoming _ _ Hitem Hdbg); eauto.
    + eapply (Hold _ c' id Hi); [now right | |].
      * apply (stable_state (fun s => incoming_state_ok s = true)).
      * eapply (ii_incoming _ _ Hitem Hdbg); eauto.
Qed.

Lemma channel_dowork_with_states dbg io k ctx ci ctx' log :
  engine_inv ctx -> item_inv dbg ctx ->
  _sfetch_channel_dowork_with dbg io k ctx ci = Ok (ctx', log) -> item_inv dbg ctx'.
Proof.
  intros Hinv Hitem H. unfold _sfetch_channel_dowork_with in H.
  apply bind_inv in H as (ctx1 & H1 & H).
  apply bind_inv in H as (ctx2 & H2 & H).
  pose proof (dowork_in_states _ _ _ _ Hinv Hitem H1) as Hitem1.
  apply dowork_in_inv in H1 as (Hinv1 & _); [|exact Hinv].
  pose proof (worker_turns_states _ _ _ _ _ _ Hinv1 Hitem1 H2) as Hitem2.
  apply worker_turns_inv in H2 as (Hinv2 & _); [|exact Hinv1].
  eapply dowork_out_states; eauto.
Qed.

Lemma dowork_channels_states dbg io sched n : forall ci ctx log ctx' log',
  engine_inv ctx -> item_inv dbg ctx ->
  sfetch_dowork_channels dbg io sched n ci ctx log = Ok (ctx', log') ->
  item_inv dbg ctx'.
Proof.
  induction n as [|n IH]; intros ci ctx log ctx' log' Hinv Hitem H; simpl in H.
  - apply Ok_inj in H. injection H as <- <-. exact Hitem.
  - apply bind_inv in H as ([ctx1 l] & H1 & H).
    pose proof (channel_dowork_with_states _ _ _ _ _ _ _ Hinv Hitem H1) as Hitem1.
    apply (channel_dowork_with_inv dbg io (fun _ => True)) in H1 as (Hinv1 & _);
      [|exact Hinv|auto].
    eapply IH; eauto.
Qed.

Lemma dowork_with_states dbg io sched ctx ctx' log :
  engine_inv ctx -> item_inv dbg ctx ->
  sfetch_dowork_with dbg io sched ctx = Ok (ctx', log) -> item_inv dbg ctx'.
Proof.
  intros Hinv Hitem H. unfold sfetch_dowork_with in H.
  apply assert_bind_inv in H as [_ H].
  rewrite (ei_valid _ Hinv) in H. cbn [negb] in H.
  apply bind_inv in H as ([ctx1 l0] & H1 & H).
  apply bind_inv in H as ([ctx2 l1] & H2 & H).
  apply Ok_inj in H. injection H as <- <-.
  apply item_inv_in_callback.
  pose proof (engine_inv_in_callback _ true Hinv) as Hinv0.
  pose proof (item_inv_in_callback _ _ true Hitem) as Hitem0.
  pose proof (dowork_channels_states _ _ _ _ _ _ _ _ _ Hinv0 Hitem0 H1) as Hitem1.
  apply (dowork_channels_inv dbg io (fun _ => True)) in H1 as (Hinv1 & _);
    [|exact Hinv0|auto|constructor|constructor].
  exact (dowork_channels_states _ _ _ _ _ _ _ _ _ Hinv1 Hitem1 H2).
Qed.

Lemma user_call_states dbg ctx call ctx' :
  engine_inv ctx -> item_inv dbg ctx ->
  run_user_call dbg ctx call = Ok ctx' -> item_inv dbg ctx'.
Proof.
  intros Hinv Hitem H. pose proof H as H'.
  apply run_user_call_kept in H' as (_ & Hchn & _); [|apply Hinv].
  assert (Hold : forall i c id, chn ctx !! i = Some c -> id ∈ chn_ids c ->
            forall Phi, stable Phi -> item_is (pool ctx) id Phi ->
            item_is (pool ctx') id Phi).
  { intros i c id Hi Hid Phi HPhi His.
    eapply user_call_slot; [exact HPhi | apply Hinv | | exact His | exact H].
    apply (ei_live _ Hinv). eapply ids_elem; eauto. }
  constructor; rewrite Hchn.
  - intros i c id Hi Hid.
    eapply (Hold _ c id Hi); [now apply sent_in_ids | |].
    + apply (stable_state (fun s => s = _SFETCH_STATE_ALLOCATED)).
    + eapply (ii_sent _ _ Hitem); eauto.
  - intros Hdbg i c id Hi Hid.
    eapply (Hold _ c id Hi); [now apply incoming_in_ids | |].
    + apply (stable_state (fun s => incoming_state_ok s = true)).
    + eapply (ii_incoming _ _ Hitem Hdbg); eauto.
Qed.

(** [sfetch_send] writes the slot it takes from the free stack, whose item
    is then ALLOCATED, and no other slot. *)
Lemma alloc_slots dbg p r id p' :
  pool_wf p -> _sfetch_pool_item_alloc dbg p r = Ok (id, p') -> id <> 0 ->
  item_is p' id (fun it => state it = _SFETCH_STATE_ALLOCATED) /\
  forall h, live p h -> slot p' (_sfetch_slot_index h) = slot p (_sfetch_slot_index h).
Proof.
  intros Hwf Hal Hnz. pose proof (pw_top p Hwf) as Htop.
  pose proof (pw_size p Hwf) as Hsz. pose proof (pw_items p Hwf) as Hit.
  apply alloc_inv in Hal
    as [(? & ? & _)|(Hft & s & g & it0 & Hfs & Hg & Hs0 & Hid & ->)];
    [congruence | | exact Hwf].
  assert (Hin : s ∈ free_stack p).
  { apply list_elem_of_lookup. exists (Z.to_nat (free_top p - 1)).
    apply free_stack_lookup. split; [exact Hfs | lia]. }
  destruct (pw_free p Hwf s Hin) as (Hsr & itz & Hsz0 & Hz).
  assert (Hidx : _sfetch_slot_index id = s).
  { rewrite Hid, slot_index_make_id.
    - apply Z.mod_small. lia.
    - unfold u32. apply Z.mod_pos_bound. lia. }
  split.
  - exists (item_of_request it0 id r). split; [|reflexivity].
    rewrite Hidx. unfold slot, pool_after_alloc. cbn [items].
    apply list_lookup_insert_eq. lia.
  - intros h (Hne & ith & Hsh & Hh).
    unfold slot, pool_after_alloc. cbn [items].
    apply list_lookup_insert_ne. intros E.
    assert (Es : _sfetch_slot_index h = s).
    { pose proof (slot_index_range h). lia. }
    rewrite Es in Hsh. congruence.
Qed.

Lemma send_states dbg ctx r h ctx' :
  engine_inv ctx -> item_inv dbg ctx ->
  sfetch_send dbg ctx r = Ok (h, ctx') -> item_inv dbg ctx'.
Proof.
  intros Hinv Hitem H.
  apply send_cases in H
    as [(_ & -> & _)|(Hnz & _ & _ & p1 & c & rb & Hal & Hc & _ & _ & Hcont & ->)];
    [exact Hitem | | exact Hinv].
  destruct (alloc_slots dbg _ _ _ _ (ei_pool _ Hinv) Hal Hnz) as (Hnew & Hsame).
  assert (Hold : forall i c' id, chn ctx !! i = Some c' -> id ∈ chn_ids c' ->
            forall Phi, item_is (pool ctx) id Phi -> item_is p1 id Phi).
  { intros i c' id Hi Hid Phi (it & Hs & HP). exists it. split; [|exact HP].
    rewrite Hsame; [exact Hs|].
    apply (ei_live _ Hinv). eapply ids_elem; eauto. }
  constructor; cbn [chn pool set_chn set_pool].
  - intros i c' id Hi Hid.
    apply list_lookup_insert_Some in Hi as [(<- & <- & _)|(Hne & Hi)].
    + cbn [user_sent set_user_sent] in Hid. rewrite Hcont in Hid.
      apply elem_of_app in Hid as [Hid|Hid].
      * eapply (Hold _ c id Hc); [now apply sent_in_ids|].
        eapply (ii_sent _ _ Hitem); eauto.
      * apply list_elem_of_singleton in Hid. subst id. exact Hnew.
    + eapply (Hold _ c' id Hi); [now apply sent_in_ids|].
      eapply (ii_sent _ _ Hitem); eauto.
  - intros Hdbg i c' id Hi Hid.
    apply list_lookup_insert_Some in Hi as [(<- & <- & _)|(Hne & Hi)].
    + cbn [user_incoming set_user_sent] in Hid.
      eapply (Hold _ c id Hc); [now apply incoming_in_ids|].
      eapply (ii_incoming _ _ Hitem Hdbg); eauto.
    + eapply (Hold _ c' id Hi); [now apply incoming_in_ids|].
      eapply (ii_incoming _ _ Hitem Hdbg); eauto.
Qed.

(** A fresh engine has no request in a queue. *)
Lemma setup_states dbg d ctx :
  desc_in_range d -> sfetch_setup dbg d = Ok ctx -> item_inv dbg ctx.
Proof.
  intros Hd H.
  assert (Hnone : all_ids ctx = []).
  { destruct Hd as (Hr & Hc & Hl). unfold sfetch_setup in H.
    apply bind_inv in H as (p & Hp & H).
    apply bind_inv in H as (cs & Hcs & H).
    apply Ok_inj in H. subst ctx. unfold all_ids. cbn [chn].
    eapply (setup_channels_inv dbg
              {| max_requests := _sfetch_def (max_requests d) 128;
                 num_channels := 1;
                 num_lanes := _sfetch_def (num_lanes d) 1 |}); [|exact Hcs].
    unfold _sfetch_def.
    destruct (Z.eqb_spec (max_requests d) 0), (Z.eqb_spec (num_lanes d) 0);
      constructor; cbn [max_requests num_channels num_lanes];
      unfold SFETCH_MAX_CHANNELS; lia. }
  assert (Hno : forall i c id, chn ctx !! i = Some c -> id ∈ chn_ids c -> False).
  { intros i c id Hi Hid. pose proof (ids_elem _ _ _ _ Hi Hid) as Hin.
    rewrite Hnone in Hin. now apply elem_of_nil in Hin. }
  constructor.
  - intros i c id Hi Hid. exfalso. apply (Hno i c id Hi). now apply sent_in_ids.
  - intros _ i c id Hi Hid. exfalso. apply (Hno i c id Hi).
    now apply incoming_in_ids.
Qed.

Lemma step_states dbg io w e w' :
  world_inv w -> item_inv dbg (w_ctx w) -> step dbg io w e = Ok w' ->
  item_inv dbg (w_ctx w').
Proof.
  intros Hw Hitem H. pose proof (wi_engine _ Hw) as Hinv.
  destruct e; simpl in H.
  - apply bind_inv in H as ([h ctx] & Hs & H). apply Ok_inj in H. subst w'.
    eapply send_states; eauto.
  - apply bind_inv in H as ([ctx l] & Hs & H). apply Ok_inj in H. subst w'.
    eapply dowork_with_states; eauto.
  - apply bind_inv in H as ([ctx l] & Hs & H). apply Ok_inj in H. subst w'.
    eapply dowork_with_states; eauto.
  - apply bind_inv in H as (ctx & Hs & H). apply Ok_inj in H. subst w'.
    eapply thread_step_states; eauto.
  - apply bind_inv in H as (ctx & Hs & H). apply Ok_inj in H. subst w'.
    eapply (user_call_states dbg _ (call_cancel h)); eauto.
  - apply bind_inv in H as (ctx & Hs & H). apply Ok_inj in H. subst w'.
    eapply (user_call_states dbg _ (call_pause h)); eauto.
  - apply bind_inv in H as (ctx & Hs & H). apply Ok_inj in H. subst w'.
    eapply (user_call_states dbg _ (call_continue h)); eauto.
Qed.

Lemma run_states dbg io es : forall w w',
  world_inv w -> item_inv dbg (w_ctx w) -> run dbg io w es = Ok w' ->
  item_inv dbg (w_ctx w').
Proof.
  induction es as [|e es IH]; intros w w' Hw Hitem H; simpl in H.
  - apply Ok_inj in H. now subst.
  - apply bind_inv in H as (w1 & H1 & H).
    eapply IH; [| |exact H].
    + eapply step_inv; eauto.
    + eapply step_states; eauto.
Qed.

(** In every state a run reaches the requests in the sent queues are
    ALLOCATED and those in the user-incoming queues are ready for the
    preparation loop. *)
Lemma boot_states dbg io d es w :
  desc_in_range d -> boot dbg io d es = Ok w -> item_inv dbg (w_ctx w).
Proof.
  intros Hd H. unfold boot in H.
  apply bind_inv in H as (ctx & Hs & H).
  eapply run_states; [| |exact H].
  - constructor; simpl; [eapply setup_inv; eauto | | constructor].
    intros id Hid. exfalso. eapply setup_dead; eauto.
  - cbn [w_ctx]. eapply setup_states; eauto.
Qed.

(** ** The whole pass *)

(** The second half of a pass leaves the sent queue and the worker's inbox
    as they are, and the items in them, and those in the user-incoming
    queue, keep their stable properties. *)
Lemma dowork_out_frame dbg ctx ci c ctx' log :
  engine_inv ctx -> arr_get (chn ctx) ci = Ok c ->
  _sfetch_channel_dowork_out dbg ctx ci = Ok (ctx', log) ->
  exists c',
    arr_get (chn ctx') ci = Ok c' /\
    user_sent c' = user_sent c /\ thread_incoming c' = thread_incoming c /\
    forall Phi h, stable Phi ->
      ((h ∈ ring_contents (user_sent c)) \/ (h ∈ ring_contents (user_incoming c))
       \/ (h ∈ ring_contents (thread_incoming c))) ->
      item_is (pool ctx) h Phi -> item_is (pool ctx') h Phi.
Proof.
  intros Hinv Hget0 H. unfold _sfetch_channel_dowork_out in H.
  apply bind_inv in H as (c0' & Hget & H).
  assert (c0' = c) by congruence. subst c0'.
  apply bind_inv in H as ([tout uo] & Hdq & H).
  apply bind_inv in H as ([[ctx1 c1] log1] & Hdr & H).
  apply bind_inv in H as (cs & Hset & H).
  apply Ok_inj in H. injection H as <- <-.
  destruct (engine_inv_get _ _ _ Hinv Hget) as (Hci & Hwf & Hnd & Hlive).
  unfold _sfetch_thread_dequeue_outgoing in Hdq.
  apply assert_bind_inv in Hdq as [_ Hdq].
  apply bind_inv in Hdq as ([uo' tout'] & Hmv & Hdq).
  apply Ok_inj in Hdq. injection Hdq as <- <-.
  apply ring_move_inv in Hmv
    as (Hw1 & Hw2 & Hn1 & Hn2 & k & Hu & Ht & Hcnt); [|apply Hwf..].
  set (c0 := set_user_outgoing (set_thread_queues c (thread_incoming c) tout') uo')
    in *.
  assert (Hstep0 : chn_step (desc ctx) c (pool ctx) c0 (pool ctx)).
  { apply chn_step_kept.
    - destruct Hwf. constructor; simpl; auto; try congruence.
      unfold lanes_total in *. simpl. lia.
    - apply pool_kept_refl, Hinv.
    - apply Permutation_submseteq. unfold chn_ids, flight_ids. simpl.
      rewrite Hu, Ht.
      rewrite <- (take_drop k (ring_contents (thread_outgoing c))) at 3.
      solve_Permutation. }
  assert (Hwf0 : chn_wf (desc ctx) c0) by apply Hstep0.
  assert (Hnd0 : NoDup (chn_ids c0)) by (eapply chn_step_NoDup; eauto).
  assert (Hlive0 : forall id, id ∈ chn_ids c0 -> live (pool ctx) id)
    by (eapply chn_step_live; eauto).
  pose proof Hdr as Hdr'.
  apply (drain_inv dbg (desc ctx) (fun _ => True)) in Hdr'
    as (_ & Hchn & _); auto; [|apply Hinv].
  apply (drain_states dbg (desc ctx)) in Hdr
    as (Hs1 & Hs2 & _ & Hframe & _); auto; [|apply Hinv].
  pose proof Hset as Hset'.
  apply arr_set_inv in Hset' as [Hr ->].
  cbn [user_sent user_incoming user_outgoing thread_incoming set_user_outgoing
       set_thread_queues c0] in Hs1, Hs2, Hframe.
  exists c1. cbn [chn pool set_chn].
  split; [|split; [exact Hs1|split; [exact Hs2|]]].
  - apply arr_get_ok; [lia|]. apply list_lookup_insert_eq. lia.
  - intros Phi h HPhi Hh His.
    assert (Hin : h ∈ chn_ids c).
    { destruct Hh as [?|[?|?]];
        [now apply sent_in_ids | now apply incoming_in_ids
         | now apply thread_incoming_in_ids]. }
    apply Hframe; auto.
    intros Hx. rewrite Hu in Hx.
    destruct (proj2 (chn_ids_apart c h Hnd) Hh) as [Hn1' Hn2'].
    apply elem_of_app in Hx as [Hx|Hx]; [contradiction|].
    apply Hn1'. apply elem_of_take in Hx as (j & Hj & _).
    eapply list_elem_of_lookup_2; eauto.
Qed.

Lemma prepare_lane it : lane (_sfetch_channel_dowork_prepare it) = lane it.
Proof. apply (prepare_item_spec it). Qed.

(** C7: on every state that a run reaches, a channel pass admits exactly
    [n = min (sent.count, free_lanes.count)] requests. Its admission loop
    does not fail: it takes the first [n] ids from the sent queue and the
    first [n] lanes from the free-lanes queue, appends the ids to the
    user-incoming queue in their order, writes the [i]-th lane into the
    [i]-th admitted item, which is ALLOCATED before and after, and writes no
    other slot. The first half of the pass ends with the sent queue and the
    free-lanes queue shortened by [n] and with the admitted ids, behind the
    other incoming ones, in the worker's inbox; the result of the pass is
    that of its second half on this state, and when the pass returns the
    admitted requests are still in the inbox with their lanes. *)
Theorem pass_admits_min_of_sent_and_lanes dbg io d es w ci c :
  desc_in_range d -> boot dbg io d es = Ok w ->
  arr_get (chn (w_ctx w)) ci = Ok c ->
  let n := Nat.min (ring_len (user_sent c)) (ring_len (free_lanes c)) in
  let admitted := take n (ring_contents (user_sent c)) in
  exists c1 p1 ctx1 c2,
    _sfetch_channel_dowork_admission dbg c (pool (w_ctx w)) = Ok (c1, p1) /\
    length admitted = n /\
    ring_contents (user_sent c1) = drop n (ring_contents (user_sent c)) /\
    ring_contents (free_lanes c1) = drop n (ring_contents (free_lanes c)) /\
    ring_contents (user_incoming c1) = ring_contents (user_incoming c) ++ admitted /\
    (forall i id,
       admitted !! i = Some id ->
       exists ln it it',
         ring_contents (free_lanes c) !! i = Some ln /\
         slot (pool (w_ctx w)) (_sfetch_slot_index id) = Some it /\
         state it = _SFETCH_STATE_ALLOCATED /\
         slot p1 (_sfetch_slot_index id) = Some it' /\
         it' = set_lane it ln /\ lane it' = ln /\
         state it' = _SFETCH_STATE_ALLOCATED) /\
    (forall s, 0 <= s ->
       (forall id, id ∈ admitted -> s <> _sfetch_slot_index id) ->
       slot p1 s = slot (pool (w_ctx w)) s) /\
    _sfetch_channel_dowork_in dbg (w_ctx w) ci = Ok ctx1 /\
    arr_get (chn ctx1) ci = Ok c2 /\
    ring_contents (user_sent c2) = drop n (ring_contents (user_sent c)) /\
    ring_contents (free_lanes c2) = drop n (ring_contents (free_lanes c)) /\
    ring_contents (user_incoming c2) = [] /\
    ring_contents (thread_incoming c2)
    = ring_contents (thread_incoming c) ++ ring_contents (user_incoming c)
      ++ admitted /\
    _sfetch_channel_dowork dbg io (w_ctx w) ci
    = _sfetch_channel_dowork_out dbg ctx1 ci /\
    (forall ctx' log,
       _sfetch_channel_dowork dbg io (w_ctx w) ci = Ok (ctx', log) ->
       exists c',
         arr_get (chn ctx') ci = Ok c' /\
         ring_contents (user_sent c') = drop n (ring_contents (user_sent c)) /\
         ring_contents (thread_incoming c')
         = ring_contents (thread_incoming c) ++ ring_contents (user_incoming c)
           ++ admitted /\
         forall i id,
           admitted !! i = Some id ->
           exists ln it',
             ring_contents (free_lanes c) !! i = Some ln /\
             slot (pool ctx') (_sfetch_slot_index id) = Some it' /\
             lane it' = ln).
Proof.
  intros Hd Hb Hget n admitted.
  pose proof (boot_states _ _ _ _ _ Hd Hb) as Hitem.
  apply boot_inv in Hb; [|exact Hd]. pose proof (wi_engine _ Hb) as Hinv.
  destruct (dowork_in_ok dbg _ ci c Hinv Hitem Hget)
    as (c1 & p1 & p2 & c2 & Ha & Hc1 & Hc2 & Hc3 & Hadm & Hoth & _ & Hprep & _
        & Hin & Hs2 & Hf2 & _ & _ & Hui & Hti).
  fold n in Hc1, Hc2, Hc3, Hadm, Hoth, Hprep, Hti.
  fold admitted in Hc3, Hadm, Hoth, Hprep, Hti.
  set (ctx1 := set_chn (set_pool (w_ctx w) p2) (<[Z.to_nat ci := c2]> (chn (w_ctx w))))
    in *.
  assert (Hget1 : arr_get (chn ctx1) ci = Ok c2).
  { apply arr_get_inv in Hget as [Hr _]. subst ctx1. cbn [chn set_chn].
    apply arr_get_ok; [lia|]. apply list_lookup_insert_eq. lia. }
  assert (Heq : _sfetch_channel_dowork dbg io (w_ctx w) ci
                = _sfetch_channel_dowork_out dbg ctx1 ci).
  { unfold _sfetch_channel_dowork, _sfetch_channel_dowork_with.
    rewrite Hin. reflexivity. }
  assert (Hlane : forall i id, admitted !! i = Some id ->
            exists ln, ring_contents (free_lanes c) !! i = Some ln /\
                       item_is (pool ctx1) id (fun it => lane it = ln)).
  { intros i id Hi. destruct (Hadm i id Hi) as (ln & it & Hl & _ & _ & Hs1).
    exists ln. split; [exact Hl|].
    destruct (Hprep id) as (it1 & Hs1' & Hs2').
    { apply elem_of_app. right. eapply list_elem_of_lookup_2; eauto. }
    exists (_sfetch_channel_dowork_prepare it1). split; [exact Hs2'|].
    rewrite prepare_lane. assert (it1 = set_lane it ln) by congruence.
    subst it1. reflexivity. }
  exists c1, p1, ctx1, c2.
  split; [exact Ha|].
  split; [subst admitted; rewrite length_take, ring_contents_length; subst n; lia|].
  split; [exact Hc1|]. split; [exact Hc2|]. split; [exact Hc3|].
  split.
  { intros i id Hi. destruct (Hadm i id Hi) as (ln & it & Hl & Hs & Hst & Hs1).
    exists ln, it, (set_lane it ln). split_and!; auto. }
  split; [exact Hoth|]. split; [exact Hin|]. split; [exact Hget1|].
  split; [rewrite Hs2; exact Hc1|]. split; [rewrite Hf2; exact Hc2|].
  split; [exact Hui|]. split; [exact Hti|]. split; [exact Heq|].
  intros ctx' log Hrun. rewrite Heq in Hrun.
  assert (Hinv1 : engine_inv ctx1) by (eapply dowork_in_inv; eauto).
  destruct (dowork_out_frame dbg ctx1 ci c2 ctx' log Hinv1 Hget1 Hrun)
    as (c' & Hget' & Hs' & Ht' & Hframe).
  exists c'. split; [exact Hget'|].
  split; [rewrite Hs', Hs2; exact Hc1|]. split; [rewrite Ht'; exact Hti|].
  intros i id Hi. destruct (Hlane i id Hi) as (ln & Hl & His).
  apply (Hframe _ id (stable_lane ln)) in His.
  - destruct His as (it' & Hs'' & Hln). exists ln, it'. auto.
  - right. right. rewrite Hti, !elem_of_app. right. right.
    eapply list_elem_of_lookup_2; eauto.
Qed.

(** C6: on every state that a run reaches, the first half of a channel pass
    does not fail, and for every id that is in the user-incoming queue when
    its preparation loop runs (the ids that were there, then the admitted
    ones) it applies the flags in the order pause, continue, cancel and then
    dispatches on the state: the new state of the item is
    [spec_prepared_state] of its flags and its old state, the pause and the
    continue flag are cleared, the cancel flag stays, and a set cancel flag
    sets the user-side finished flag. No slot of another id is written. The
    result of the pass is that of its second half on this state, and when
    the pass returns the prepared items are in the state the preparation
    gave them. *)
Theorem pass_applies_incoming_flags dbg io d es w ci c :
  desc_in_range d -> boot dbg io d es = Ok w ->
  arr_get (chn (w_ctx w)) ci = Ok c ->
  let n := Nat.min (ring_len (user_sent c)) (ring_len (free_lanes c)) in
  let incoming :=
    ring_contents (user_incoming c) ++ take n (ring_contents (user_sent c)) in
  exists ctx1,
    _sfetch_channel_dowork_in dbg (w_ctx w) ci = Ok ctx1 /\
    (forall id, id ∈ incoming ->
       exists it it',
         slot (pool (w_ctx w)) (_sfetch_slot_index id) = Some it /\
         slot (pool ctx1) (_sfetch_slot_index id) = Some it' /\
         state it' = spec_prepared_state (pause (user it)) (cont (user it))
                       (cancel (user it)) (state it) /\
         pause (user it') = false /\
         cont (user it') = false /\
         cancel (user it') = cancel (user it) /\
         u_finished (user it') = u_finished (user it) || cancel (user it)) /\
    (forall s, 0 <= s ->
       (forall id, id ∈ incoming -> s <> _sfetch_slot_index id) ->
       slot (pool ctx1) s = slot (pool (w_ctx w)) s) /\
    _sfetch_channel_dowork dbg io (w_ctx w) ci
    = _sfetch_channel_dowork_out dbg ctx1 ci /\
    (forall ctx' log,
       _sfetch_channel_dowork dbg io (w_ctx w) ci = Ok (ctx', log) ->
       forall id, id ∈ incoming ->
       exists it it',
         slot (pool (w_ctx w)) (_sfetch_slot_index id) = Some it /\
         slot (pool ctx') (_sfetch_slot_index id) = Some it' /\
         state it' = spec_prepared_state (pause (user it)) (cont (user it))
                       (cancel (user it)) (state it)).
Proof.
  intros Hd Hb Hget n incoming.
  pose proof (boot_states _ _ _ _ _ Hd Hb) as Hitem.
  apply boot_inv in Hb; [|exact Hd]. pose proof (wi_engine _ Hb) as Hinv.
  destruct (engine_inv_get _ _ _ Hinv Hget) as (Hci & Hwf & Hnd & Hlive).
  destruct (dowork_in_ok dbg _ ci c Hinv Hitem Hget)
    as (c1 & p1 & p2 & c2 & Ha & Hc1 & Hc2 & Hc3 & Hadm & Hoth & _ & Hprep & Hoth2
        & Hin & Hs2 & Hf2 & _ & _ & Hui & Hti).
  fold n in Hc1, Hc2, Hc3, Hadm, Hoth, Hprep, Hoth2, Hti.
  fold incoming in Hprep, Hoth2.
  set (ctx1 := set_chn (set_pool (w_ctx w) p2) (<[Z.to_nat ci := c2]> (chn (w_ctx w))))
    in *.
  assert (Hget1 : arr_get (chn ctx1) ci = Ok c2).
  { apply arr_get_inv in Hget as [Hr _]. subst ctx1. cbn [chn set_chn].
    apply arr_get_ok; [lia|]. apply list_lookup_insert_eq. lia. }
  assert (Heq : _sfetch_channel_dowork dbg io (w_ctx w) ci
                = _sfetch_channel_dowork_out dbg ctx1 ci).
  { unfold _sfetch_channel_dowork, _sfetch_channel_dowork_with.
    rewrite Hin. reflexivity. }
  assert (Hsub : forall id, id ∈ take n (ring_contents (user_sent c)) ->
            id ∈ ring_contents (user_sent c)).
  { intros id Hid. apply elem_of_take in Hid as (i & Hi & _).
    eapply list_elem_of_lookup_2; eauto. }
  (* the item the preparation loop finds, seen from the start of the pass *)
  assert (Hitems : forall id, id ∈ incoming ->
            exists it it1,
              slot (pool (w_ctx w)) (_sfetch_slot_index id) = Some it /\
              slot p1 (_sfetch_slot_index id) = Some it1 /\
              slot p2 (_sfetch_slot_index id)
              = Some (_sfetch_channel_dowork_prepare it1) /\
              state it1 = state it /\ user it1 = user it).
  { intros id Hid. destruct (Hprep id Hid) as (it1 & Hs1 & Hs2').
    apply elem_of_app in Hid as [Hid|Hid].
    - exists it1, it1. split_and!; auto.
      rewrite <- Hs1. symmetry. apply Hoth; [apply slot_index_range|].
      intros id' Hid' E.
      assert (id = id').
      { eapply live_index_inj; [| |exact E].
        - apply Hlive, incoming_in_ids, Hid.
        - apply Hlive, sent_in_ids, Hsub, Hid'. }
      subst id'. apply (proj1 (chn_ids_apart c id Hnd)); auto.
    - apply list_elem_of_lookup in Hid as [i Hi].
      destruct (Hadm i id Hi) as (ln & it & _ & Hs & _ & Hs1').
      exists it, it1. assert (it1 = set_lane it ln) by congruence. subst it1.
      split_and!; auto. }
  exists ctx1. split; [exact Hin|].
  split.
  { intros id Hid. destruct (Hitems id Hid) as (it & it1 & Hs & _ & Hs2' & Est & Eu).
    exists it, (_sfetch_channel_dowork_prepare it1).
    pose proof (prepare_item_spec it1) as Hspec. cbv zeta in Hspec.
    rewrite Est, Eu in Hspec.
    split; [exact Hs|]. split; [exact Hs2'|]. split_and!; apply Hspec. }
  split.
  { intros s Hs Hne. subst ctx1. cbn [pool set_chn set_pool].
    rewrite Hoth2; [|exact Hs|exact Hne].
    apply Hoth; [exact Hs|]. intros id Hid. apply Hne.
    apply elem_of_app. now right. }
  split; [exact Heq|].
  intros ctx' log Hrun id Hid. rewrite Heq in Hrun.
  assert (Hinv1 : engine_inv ctx1) by (eapply dowork_in_inv; eauto).
  destruct (dowork_out_frame dbg ctx1 ci c2 ctx' log Hinv1 Hget1 Hrun)
    as (c' & _ & _ & _ & Hframe).
  destruct (Hitems id Hid) as (it & it1 & Hs & _ & Hs2' & Est & Eu).
  pose proof (prepare_item_spec it1) as Hspec. cbv zeta in Hspec.
  destruct Hspec as (Hst & _). rewrite Est, Eu in Hst.
  destruct (Hframe (fun x => state x = state (_sfetch_channel_dowork_prepare it1)) id)
    as (it' & Hs' & Hst').
  - apply (stable_state (fun s => s = state (_sfetch_channel_dowork_prepare it1))).
  - right. right. rewrite Hti. fold incoming. rewrite elem_of_app. now right.
  - exists (_sfetch_channel_dowork_prepare it1). split; [exact Hs2'|reflexivity].
  - exists it, it'. split; [exact Hs|]. split; [exact Hs'|]. congruence.
Qed.

(** C7 on the engine with three requests in the sent queue and two free
    lanes: the first two requests are admitted, on the lanes 0 and 1. *)
Lemma pass_admits_witness :
  exists c1 p1 ctx1,
    _sfetch_channel_dowork_admission true (chn_at (w_ctx queued_world) 0)
      (pool (w_ctx queued_world)) = Ok (c1, p1) /\
    ring_contents (user_sent c1) = [65539] /\
    ring_contents (free_lanes c1) = [] /\
    ring_contents (user_incoming c1) = [65537; 65538] /\
    (exists it', slot p1 (_sfetch_slot_index 65537) = Some it' /\
                 lane it' = 0 /\ state it' = _SFETCH_STATE_ALLOCATED) /\
    (exists it', slot p1 (_sfetch_slot_index 65538) = Some it' /\
                 lane it' = 1 /\ state it' = _SFETCH_STATE_ALLOCATED) /\
    _sfetch_channel_dowork_in true (w_ctx queued_world) 0 = Ok ctx1 /\
    _sfetch_channel_dowork true (disk files) (w_ctx queued_world) 0
    = _sfetch_channel_dowork_out true ctx1 0.
Proof.
  pose proof (pass_admits_min_of_sent_and_lanes true (disk files) busy_desc
                three_sends queued_world 0 (chn_at (w_ctx queued_world) 0)) as H.
  cbv zeta in H.
  destruct H as (c1 & p1 & ctx1 & c2 & Ha & _ & Hs & Hf & Hu & Hadm & _ & Hin & _
                 & _ & _ & _ & _ & Heq & _).
  - unfold desc_in_range. simpl. lia.
  - vm_compute. reflexivity.
  - vm_compute. reflexivity.
  - exists c1, p1, ctx1.
    split; [exact Ha|].
    split; [rewrite Hs; vm_compute; reflexivity|].
    split; [rewrite Hf; vm_compute; reflexivity|].
    split; [rewrite Hu; vm_compute; reflexivity|].
    split.
    { destruct (Hadm O 65537) as (ln & it & it' & Hl & _ & _ & Hs1 & _ & Hln & Hst);
        [vm_compute; reflexivity|].
      vm_compute in Hl. injection Hl as <-. exists it'. auto. }
    split.
    { destruct (Hadm 1%nat 65538) as (ln & it & it' & Hl & _ & _ & Hs1 & _ & Hln & Hst);
        [vm_compute; reflexivity|].
      vm_compute in Hl. injection Hl as <-. exists it'. auto. }
    split; [exact Hin | exact Heq].
Defined.

(** C6 on the engine with a paused request that was told to continue in the
    user-incoming queue and, in the sent queue, a cancelled request and a
    request that was told to pause: the first goes on to FETCHING, the
    second is FAILED and finished, the third is PAUSED. *)
Lemma pass_applies_flags_witness :
  exists ctx1,
    _sfetch_channel_dowork_in true (w_ctx flagged_world) 0 = Ok ctx1 /\
    (exists it', slot (pool ctx1) (_sfetch_slot_index 65537) = Some it' /\
                 state it' = _SFETCH_STATE_FETCHING /\ cont (user it') = false) /\
    (exists it', slot (pool ctx1) (_sfetch_slot_index 65538) = Some it' /\
                 state it' = _SFETCH_STATE_FAILED /\
                 cancel (user it') = true /\ u_finished (user it') = true) /\
    (exists it', slot (pool ctx1) (_sfetch_slot_index 65539) = Some it' /\
                 state it' = _SFETCH_STATE_PAUSED /\ pause (user it') = false).
Proof.
  pose proof (pass_applies_incoming_flags true (disk files) flag_desc flagged_run
                flagged_world 0 (chn_at (w_ctx flagged_world) 0)) as H.
  cbv zeta in H.
  destruct H as (ctx1 & Hin & Hprep & _).
  - unfold desc_in_range. simpl. lia.
  - vm_compute. reflexivity.
  - vm_compute. reflexivity.
  - exists ctx1. split; [exact Hin|].
    split.
    { destruct (Hprep 65537) as (it & it' & Hs & Hs' & Hst & _ & Hc & _);
        [apply (list_elem_of_lookup_2 _ 0%nat); vm_compute; reflexivity|].
      vm_compute in Hs. injection Hs as <-. vm_compute in Hst.
      exists it'. auto. }
    split.
    { destruct (Hprep 65538) as (it & it' & Hs & Hs' & Hst & _ & _ & Hca & Hf);
        [apply (list_elem_of_lookup_2 _ 1%nat); vm_compute; reflexivity|].
      vm_compute in Hs. injection Hs as <-. vm_compute in Hst, Hca, Hf.
      exists it'. auto. }
    { destruct (Hprep 65539) as (it & it' & Hs & Hs' & Hst & Hp & _);
        [apply (list_elem_of_lookup_2 _ 2%nat); vm_compute; reflexivity|].
      vm_compute in Hs. injection Hs as <-. vm_compute in Hst.
      exists it'. auto. }
Defined.

(** * A failed [sfetch_send] *)

Lemma validate_channel dbg ctx r :
  _sfetch_validate_request dbg ctx r = true -> dbg = true ->
  q_channel r < num_channels (desc ctx).
Proof.
  intros H ->. unfold _sfetch_validate_request in H. cbv beta iota in H.
  destruct (Z.leb_spec (num_channels (desc ctx)) (q_channel r)); [discriminate|lia].
Qed.

(** The branch of [sfetch_send] for a full sent queue: the slot that was
    allocated is freed again. *)
Lemma send_on_full_queue dbg ctx c r :
  setup ctx = true -> valid ctx = true ->
  pool_wf (pool ctx) -> 0 < free_top (pool ctx) ->
  _sfetch_validate_request dbg ctx r = true ->
  arr_get (chn ctx) (q_channel r) = Ok c ->
  c_valid c = true -> ring_wf (user_sent c) ->
  _sfetch_ring_full (user_sent c) = Ok true ->
  exists p',
    sfetch_send dbg ctx r = Ok (0, set_pool ctx p') /\
    pool_wf p' /\ free_top p' = free_top (pool ctx) /\
    (forall id, live p' id <-> live (pool ctx) id).
Proof.
  intros Hsetup Hvalid Hwf Ht Hval Hget Hcv Hws Hfull.
  destruct (alloc_ok dbg (pool ctx) r Hwf Ht (validate_path _ _ _ Hval))
    as (id & p1 & Hal & Hnz & Hwf1 & Hlive & Hft & Hmono & Hnew & Hfresh).
  destruct (free_ok dbg p1 id Hwf1 Hlive) as (Hfree & Htop).
  pose proof (pw_top _ Hwf) as Hr. pose proof (pw_size _ Hwf) as Hsz.
  exists (pool_after_free p1 id). split; [|split; [|split]].
  - unfold sfetch_send.
    rewrite assert_bind_ok by auto. rewrite Hvalid, Hval. cbn [negb].
    rewrite assert_bind_ok
      by (intros Hd; apply Z.ltb_lt; eapply validate_channel; eauto).
    rewrite Hal. res_simpl. cbn [mbind res_bind].
    apply Z.eqb_neq in Hnz. rewrite Hnz.
    rewrite Hget. cbn [mbind res_bind].
    unfold _sfetch_channel_send.
    rewrite assert_bind_ok by auto.
    rewrite Hfull. cbn [mbind res_bind negb mret res_ret].
    rewrite Hfree. reflexivity.
  - apply free_wf; auto.
  - cbn [free_top pool_after_free]. rewrite Hft, u32_small by lia. lia.
  - intros x. split.
    + intros Hx. destruct (Hnew x (free_live_sub _ _ _ Hx)) as [->|Hold]; [|exact Hold].
      exfalso. revert Hx. apply stale_not_live, stale_after_free; auto.
    + intros Hx. apply free_live_keep; auto.
      intros ->. contradiction.
Qed.

(** C8: on every state that a run reaches, [sfetch_send] fails, that is
    returns the invalid handle 0, exactly when the validation of the request
    fails or the pool has no free slot: the sent queue of the target channel
    has room whenever the pool has a free slot, so that it is never the
    cause. A call that fails leaves the engine as it was (no slot is taken),
    and no response that a callback sees afterwards carries the handle of
    the failed call. In a state that no run reaches, where the sent queue is
    full although the pool has a free slot, [sfetch_send] returns the invalid
    handle as well and frees the slot it has allocated: the free slots are as
    many as before, the live ids are the same, the channels are untouched. *)
Theorem send_failure_leaves_no_request dbg io d es w r h ctx' :
  desc_in_range d -> boot dbg io d es = Ok w ->
  sfetch_send dbg (w_ctx w) r = Ok (h, ctx') ->
  (h = 0 <-> _sfetch_validate_request dbg (w_ctx w) r = false
             \/ free_top (pool (w_ctx w)) = 0) /\
  (forall c, chn (w_ctx w) !! Z.to_nat (q_channel r) = Some c ->
     0 < free_top (pool (w_ctx w)) ->
     _sfetch_ring_full (user_sent c) = Ok false) /\
  (h = 0 ->
   ctx' = w_ctx w /\
   forall es' w',
     run dbg io {| w_ctx := ctx'; w_handles := w_handles w ++ [h];
                   w_responses := w_responses w |} es' = Ok w' ->
     Forall (fun a => r_handle a <> 0) (w_responses w')) /\
  (forall ctx0 c0,
     setup ctx0 = true -> valid ctx0 = true ->
     pool_wf (pool ctx0) -> 0 < free_top (pool ctx0) ->
     _sfetch_validate_request dbg ctx0 r = true ->
     arr_get (chn ctx0) (q_channel r) = Ok c0 ->
     c_valid c0 = true -> ring_wf (user_sent c0) ->
     _sfetch_ring_full (user_sent c0) = Ok true ->
     exists p',
       sfetch_send dbg ctx0 r = Ok (0, set_pool ctx0 p') /\
       pool_wf p' /\ free_top p' = free_top (pool ctx0) /\
       (forall id, live p' id <-> live (pool ctx0) id)).
Proof.
  intros Hd Hb Hs.
  apply boot_inv in Hb; [|exact Hd]. pose proof (wi_engine _ Hb) as Hinv.
  assert (Hstep : step dbg io w (ev_send r)
                  = Ok {| w_ctx := ctx'; w_handles := w_handles w ++ [h];
                          w_responses := w_responses w |}).
  { simpl. rewrite Hs. reflexivity. }
  pose proof (step_inv _ _ _ _ _ Hb Hstep) as Hb'.
  destruct (send_inv _ _ _ _ _ Hinv Hs) as (_ & Hiff & Hsame & _).
  split; [symmetry; exact Hiff|]. split; [|split].
  - intros c Hc Ht.
    pose proof (sent_queue_has_room _ _ _ Hinv Hc Ht) as Hroom.
    destruct (engine_inv_chn _ _ _ Hinv Hc) as (Hcw & _).
    rewrite (ring_full_ok _ (cw_sent _ _ Hcw)). f_equal.
    apply bool_decide_eq_false_2. lia.
  - intros ->. split; [auto|].
    intros es' w' Hrun. eapply run_inv in Hrun; [|exact Hb'].
    eapply Forall_impl; [apply (wi_responses _ Hrun)|]. intros a [? _]. assumption.
  - intros ctx0 c0. apply send_on_full_queue.
Qed.

(** C8 on the engine whose four slots are taken: the next request is
    refused and nothing changes; and on the state with the clogged sent
    queue, where the slot is allocated and freed again. *)
Lemma send_failure_witness :
  (sfetch_send true (w_ctx full_world) missing = Ok (0, w_ctx full_world) /\
   free_top (pool (w_ctx full_world)) = 0) /\
  exists p',
    sfetch_send true clogged_ctx missing = Ok (0, set_pool clogged_ctx p') /\
    free_top p' = free_top (pool clogged_ctx) /\
    (forall id, live p' id <-> live (pool clogged_ctx) id).
Proof.
  assert (Hs : sfetch_send true (w_ctx full_world) missing = Ok (0, w_ctx full_world))
    by (vm_compute; reflexivity).
  destruct (send_failure_leaves_no_request true (disk files) busy_desc four_sends
              full_world missing 0 (w_ctx full_world)) as (Hiff & _ & _ & Hfull).
  - unfold desc_in_range. simpl. lia.
  - vm_compute. reflexivity.
  - exact Hs.
  - split.
    + split; [exact Hs|].
      destruct (proj1 Hiff eq_refl) as [Hv|Ht]; [|exact Ht].
      vm_compute in Hv. discriminate.
    + destruct (Hfull clogged_ctx (set_user_sent (chn_at fresh_ctx 0) clogged_ring))
        as (p' & Hsend & _ & Ht & Hl).
      * reflexivity.
      * reflexivity.
      * pool_wf_eval.
      * vm_compute. reflexivity.
      * vm_compute. reflexivity.
      * vm_compute. reflexivity.
      * reflexivity.
      * ring_wf_eval.
      * vm_compute. reflexivity.
      * exists p'. auto.
Defined.
